(* ===== verification/_CoqProject ===== *)
-Q . S2P
Prelude.v
Lts.v
Frame.v
Codec.v
Runtime.v
Registry.v
Broker.v
Session.v
System.v
Invariant.v
Steps.v
History.v
Safety.v
Calls.v
Serving.v
Guarantees.v
Events.v
Dropped.v
Router.v
Hosting.v
Origins.v
Capabilities.v
Transport.v
ClientConfig.v
Client.v
Streams.v
ClientSafety.v
ClientOrigins.v
ClientGuarantees.v
Liveness.v
Muted.v
Sdk.v
Net.v
Returns.v
Joins.v
Exchange.v
Wire.v
Supervisor.v
SupervisorSafety.v
SupervisorGuarantees.v
Fleet.v
Restarts.v
Launch.v
LaunchGuarantees.v
Auth.v
Cli.v
