(* ===== verification/Prelude.v ===== *)
(** * A model of tokimo-bus

    tokimo-bus connects the processes of a host: apps open a socket to the
    broker, register a service with its methods, call each other through the
    broker, publish and subscribe to events; a supervisor starts the apps. This
    development models the Rust sources under src/crates and proves what the
    parts promise. The file that is listed first, this one, also holds what the
    others share: the [result] type with its monad, machine-width arithmetic,
    the string functions of the standard library, numbers in decimal and
    hexadecimal, generic lemmas, hints ([bus]) and tactics.

    ** Files and sources

    - Lts.v: infinite runs of a step function, weak fairness, and the rules by
      which a measure or a counter reaches its goal.
    - Frame.v: protocol/src/frame.rs, the types on the wire, [BusError] and the
      millisecond form of durations.
    - Codec.v: protocol/src/codec.rs, [write_frame] and [read_frame_opt] over
      abstract byte streams and an abstract serializer (rmp_serde), whose
      documented behaviour is stated in type classes.
    - Runtime.v: the interfaces of tokio the other files rely on, the unbounded
      mpsc channel and [Notify], as classes with laws and instances.
    - Registry.v: broker/src/registry.rs.
    - Broker.v: broker/src/broker.rs, the shared state ([Broker], and [Heap] for
      what sessions share by [Arc]), tokens, local services, the capability
      cache, events, and [call_with_timeout] cut at its accesses to shared state
      ([CallPc], [call_step], [call_begin]).
    - Session.v: broker/src/session.rs, [serve] cut at its awaits ([SessionPc]).
    - System.v: a broker process as a labelled transition system: [World] holds
      the broker, the connections and the tasks, [exec] takes one step, and
      [reachable] counts them.
    - Invariant.v, Steps.v, History.v, Safety.v, Calls.v, Serving.v: its
      invariants, by induction on the steps, and what a step adds to the
      histories. Guarantees.v: what follows for users. Events.v: the order of
      events. Dropped.v: calls the host gives up. Router.v: an abstract machine
      of calls and the proof that the process refines it. Origins.v: where the
      answers of the broker come from. Capabilities.v: where the cached
      capabilities come from. Liveness.v: what happens on every fair run of the
      broker, and of a client.
    - Transport.v: protocol/src/transport.rs, protocol/src/axum_listener.rs and
      the listening half of broker.rs, over the class [Os], for Unix and Windows.
    - ClientConfig.v: client/src/config.rs and client/src/transport.rs.
    - Client.v: client/src/builder.rs and client/src/client.rs; [Proc] is a
      connected client with its tasks, [pexec] one step of it. ClientSafety.v,
      ClientOrigins.v, ClientGuarantees.v: invariants and theorems. Sdk.v: an
      abstract machine of jobs and the proof that the process refines it.
      Streams.v: what one step does to a queue and its wire while both ends read.
    - Net.v: a broker process and its clients, joined by their streams ([Net],
      [nexec]); the end-to-end theorems. Returns.v, Joins.v: its fair runs, on
      which an app that connects comes up and every [invoke] returns. Exchange.v:
      an app connects and answers a call, as a run of the whole.
    - Wire.v: the writer tasks of broker/src/session.rs and client/src/client.rs
      on a stream that may fail at any byte, and the read loop at its other end.
      Muted.v: what is left of a connection whose writer task has ended.
    - Supervisor.v: supervisor/src/lib.rs; [Sup] is the supervisor with its app
      states, tasks and child processes, [sexec] one step. SupervisorSafety.v,
      SupervisorGuarantees.v: invariants and theorems. Fleet.v: an abstract
      machine of apps and processes and the proof that the supervisor refines
      it. Restarts.v: residents on fair runs. Launch.v,
      LaunchGuarantees.v: the supervisor and the net of Net.v on one shared
      [Broker] ([Deployment], [dexec]), and who every token was made for.
    - Auth.v: protocol/src/task_local.rs and auth/src, the identity of requests,
      API tokens and the search for the database URL.
    - Cli.v: cli/src, the help page, credentials and the manifest.

    ** How the parts meet

    A supervisor hands a child an endpoint and a token in its environment
    ([Supervisor.spawn_once]); the child reads them ([ClientConfig.from_env]),
    connects ([Client.establish_connect] over [Transport.connect]) and sends the
    [Hello] its builder makes ([Client.hello_of]); the broker answers it
    ([Session.serve_hello]) and the client interprets the answer
    ([Client.handshake_reply]). [SupervisorGuarantees.spawned_app_admitted] and
    [ClientGuarantees.handshake_agreement] cross these borders, and
    [LaunchGuarantees.ensured_app_serves] runs the whole way, from [ensure_up] to
    the answer of a call.

    Net.v puts the processes together: a state is a broker and the apps that
    connected to it, an end of a stream reads what the other end has written, in
    order, and a peer that does not use the client may write anything.
    [reachable_net] projects its states to reachable states of the parts, whose
    invariants then compose: the provenance of the broker's responses
    (Origins.v) and of a client's (ClientOrigins.v) give [invoke_end_to_end].
    That the streams carry frames rather than bytes is Wire.v's
    [stream_carries_frames]. Launch.v adds the supervisor, which calls
    [issue_token] on the broker the net serves with: a step of either is seen by
    the other, and [dreachable_ok] projects every state to reachable states of
    the net and of the supervisor.

    ** Conventions

    - Concurrent code is a transition system whose steps are the accesses to
      shared state between two awaits. A DashMap or HashMap is a [gmap], each
      access of it is atomic, and iteration sees one state of the map. One frame
      handled by [serve], fan-out included, is one step.
    - Objects shared by [Arc] are identities in a store (the [Heap] of the
      broker, [s_states] of the supervisor), so that aliasing is visible: a
      superseded connection still owns its own tables. Dropping is explicit:
      [tables_alive] and [sender_dropped] say when a oneshot sender is gone,
      [collect] drops the app states nobody refers to and kills their children.
    - A oneshot channel is the cell its waiter reads. A timer may fire at any
      step, also when the reply is already there.
    - Integers: request ids, client ids, generations and the token counter wrap
      at 64 bits ([as_u64], [fetch_add1]). Theorems about ids hold for fewer than
      2^64 steps of the process, their only bound.
    - Strings are sequences of UTF-8 bytes. Durations are nanoseconds.
    - Third-party code is a class or an argument: the serializer, the operating
      system, HTTP headers, the database, dotenv, clap, TOML. Handlers of apps
      and local services are identities; what they return is a label.

    ** Theorems

    - The whole system: an [invoke] of an app returns what the handler of the
      called app may return for this method, payload and caller, or an error of
      the broker for this call ([invoke_end_to_end]), and so does a call of the
      host ([host_call_end_to_end]); which frames either end can
      meet ([links_typed]). On every fair run an app with a pending token comes
      up ([connecting_comes_up]), and while its connection stays up every
      [invoke] it makes returns ([invoke_returns]), whatever the called app does.
    - Broker, specification: [broker_refines_router], every step of the process
      is a step of a table of calls that knows nothing of pending tables,
      counters, oneshot cells, queues or generations.
    - Broker, safety: methods that require a user are only invoked for one
      ([auth_gate]); app calls carry the caller's service and events their
      publisher's; events arrive once and in order ([events_in_order]); replies
      reach the call they answer ([reply_correlation]), and every response sent
      has its cause ([response_provenance]); registry and sessions name live connections
      ([registry_follows_connections]); tokens bound registrations
      ([tokens_bound_registrations]); the order of frames ([wire_order]); cached
      capabilities are the service's own words ([capabilities_from_probe]), but
      may be stored after it has gone ([stale_probe_stores]).
    - Broker, function: every outcome of routing a call ([call_begin_branches],
      [call_reaches_service]), of a handshake ([handshake_outcomes]), of an event
      ([fanout_exactly_once]); tokens are single use and distinct.
    - Broker, progress: on every fair run a call with a timeout returns
      ([calls_return], from the bound [call_terminates] on its steps); an answer
      completes the call it answers ([answer_reaches_caller]); a call
      without a timeout hangs when its connection has ended
      ([abandoned_call_hangs], [connection_closed_unreachable]); one that is
      dropped leaks its entry ([dropped_call_leaks]); a connection whose writer
      task has ended stays registered and unreachable ([muted_connection]).
    - Codec: round trip, the size limit on both sides, and the read loop against
      a reference decoder of byte strings ([read_loop_decodes]); with a stream
      that fails anywhere, the reader sees a prefix of the frames written
      ([stream_carries_frames]).
    - Transport: both connect loops end within 101 attempts, since 100 delays of
      50 ms fill the window of 5 s ([connect_bounded]); the loop of [establish]
      with a window of [w] ms ends within [w / 50 + 2] attempts, its delays being
      at least 50 ms ([establish_connect_bounded]); listening spares live sockets.
    - Client, specification: [client_refines_sdk], every step of the process is a
      step of a table of jobs that knows nothing of counters, pending tables,
      oneshot cells, queues or [Notify].
    - Client: correlation, one answer per invocation, and an answer for each on
      every fair run ([requests_answered]), what building refuses; a
      call in flight is lost with the connection ([stranded_invoke_hangs]) and so
      is a shutdown before the wait ([late_waiter_hangs]); an app whose writer
      task has ended is mute ([muted_client]).
    - Deployment: a token admits one connection, of its own service, and every
      child has a token of its own ([instances_admitted_once]); a spent token
      stays spent ([spent_token_refused]); an app that is down can be started and
      serve a call within 32 steps ([ensured_app_serves]).
    - Supervisor, specification: [supervisor_refines_fleet], every step is an
      operation on a table of apps and their processes, by a task entitled to it.
    - Supervisor: children have one owner, residents are started again after each
      exit ([resident_restarts]), the schedule of restarts, admission of spawned
      apps; a resident cannot be stopped ([resident_blocks_stop]) and a
      restart kills what [ensure_up] started ([restart_kills_instance]).
    - Identity and command line: calls carry their user, scopes are isolated,
      the source of the database URL, the columns of the help page.

    ** Not modelled

    The derived serializers and Display strings; logging; clap's derive for the
    token argument; Unicode case mapping (an argument of Cli.v). The output of a
    child and its pre_exec hook are functions of what they observe, outside the
    transition system of the supervisor. Time is a number in labels and in [Os];
    no theorem speaks of the duration of a step. What else the definitions leave
    out of the sources is imports, re-exports, attributes, comments, tests and
    accessors of one line.

    Fairness is a hypothesis about the runtime and the operating system, of each
    theorem that needs it. No theorem joins the progress of the supervisor to
    that of the net: whether a program that was started connects at all is up to
    the program, which is not in this repository; [ensured_app_serves] says that
    it can. *)

From stdpp Require Import prelude gmap strings pretty list_numbers.
From Stdlib Require Import Ascii Strings.Byte.

#[global] Arguments String.append : simpl nomatch.

(** * Fallible computations *)

(** [Result<A, E>]. *)
Inductive result (A E : Type) : Type :=
| Ok (a : A)
| Err (e : E).
Arguments Ok {A E} a.
Arguments Err {A E} e.

Definition res_bind {A B E} (r : result A E) (k : A -> result B E) : result B E :=
  match r with Ok a => k a | Err e => Err e end.

Definition map_err {A E F} (f : E -> F) (r : result A E) : result A F :=
  match r with Ok a => Ok a | Err e => Err (f e) end.

Definition is_ok {A E} (r : result A E) : bool :=
  match r with Ok _ => true | Err _ => false end.

(** [Option::ok_or_else]. *)
Definition ok_or {A E} (o : option A) (e : E) : result A E :=
  match o with Some a => Ok a | None => Err e end.

Declare Scope res_scope.
Delimit Scope res_scope with res.
(** [let x = r?; k] *)
Notation "'let?' x ':=' r 'in' k" := (res_bind r (fun x => k))
  (at level 10, x binder, r at level 100, k at level 200) : res_scope.

#[export] Instance result_eq_dec {A E} `{EqDecision A, EqDecision E} :
  EqDecision (result A E).
Proof. solve_decision. Defined.

#[export] Instance byte_eq_dec : EqDecision Byte.byte := Byte.byte_eq_dec.

(** * Machine integers *)

Definition U16_SIZE : N := 65536.
Definition U32_SIZE : N := 4294967296.
Definition U64_SIZE : N := 18446744073709551616.

(** [x as u64] of a wider unsigned integer, and wrapping arithmetic. *)
Definition as_u64 (n : N) : N := (n mod U64_SIZE)%N.
Definition as_u32 (n : N) : N := (n mod U32_SIZE)%N.

(** [AtomicU64::fetch_add(1)]: the old value is returned, the cell wraps. *)
Definition fetch_add1 (n : N) : N * N := (n, as_u64 (n + 1)).

(** * Bytes and strings *)

(** A Rust [String] is its sequence of UTF-8 bytes. *)
Abbreviation bytes := (list Byte.byte).

(** A byte string literal [b"..."]. *)
Definition bytes_lit (s : string) : bytes := String.list_byte_of_string s.

Definition byte_len (l : bytes) : N := N.of_nat (length l).

(** [str::starts_with(&str)]. *)
Fixpoint starts_with (s p : string) {struct p} : bool :=
  match p, s with
  | EmptyString, _ => true
  | String c p', String d s' => if ascii_dec c d then starts_with s' p' else false
  | _, EmptyString => false
  end.

(** [str::contains(&str)]. *)
Fixpoint contains (s p : string) : bool :=
  starts_with s p ||
  match s with
  | EmptyString => false
  | String _ s' => contains s' p
  end.

(** [str::strip_prefix(&str)]. *)
Fixpoint strip_prefix (s p : string) {struct p} : option string :=
  match p, s with
  | EmptyString, _ => Some s
  | String c p', String d s' => if ascii_dec c d then strip_prefix s' p' else None
  | _, EmptyString => None
  end.

(** [str::split_once(char)]: split at the first occurrence. *)
Fixpoint split_once (s : string) (c : ascii) : option (string * string) :=
  match s with
  | EmptyString => None
  | String d s' =>
      if ascii_dec c d then Some (EmptyString, s')
      else '(l, r) ← split_once s' c; Some (String d l, r)
  end.

Fixpoint string_mem (c : ascii) (s : string) : bool :=
  match s with
  | EmptyString => false
  | String d s' => if ascii_dec c d then true else string_mem c s'
  end.

(** * Hexadecimal formatting *)

Definition hex_digit (n : N) : ascii :=
  match n with
  | 0 => "0" | 1 => "1" | 2 => "2" | 3 => "3" | 4 => "4" | 5 => "5"
  | 6 => "6" | 7 => "7" | 8 => "8" | 9 => "9" | 10 => "a" | 11 => "b"
  | 12 => "c" | 13 => "d" | 14 => "e" | _ => "f"
  end%N%char.

Definition hex_value (c : ascii) : N :=
  match c with
  | "0" => 0 | "1" => 1 | "2" => 2 | "3" => 3 | "4" => 4 | "5" => 5
  | "6" => 6 | "7" => 7 | "8" => 8 | "9" => 9 | "a" => 10 | "b" => 11
  | "c" => 12 | "d" => 13 | "e" => 14 | _ => 15
  end%char%N.

(** [{n:0wx}] for a number of at most [w] hexadecimal digits. *)
Fixpoint fmt_hex (w : nat) (n : N) : string :=
  match w with
  | O => EmptyString
  | S w' => String (hex_digit ((n / 16 ^ N.of_nat w') mod 16)) (fmt_hex w' n)
  end.

(** The number a digit string denotes, most significant digit first. *)
Fixpoint hex_parse (acc : N) (s : string) : N :=
  match s with
  | EmptyString => acc
  | String c s' => hex_parse (acc * 16 + hex_value c)%N s'
  end.

(** * Decimal numbers *)

(** [u64::to_string]. *)
Definition show_N (n : N) : string := pretty n.

(** [char::to_digit], in base ten. *)
Definition digit_value (c : ascii) : option N :=
  let code := Ascii.N_of_ascii c in
  if decide (48 <= code < 58)%N then Some (code - 48)%N else None.

(** Digits, most significant first; [None] on another character and on
    overflow. *)
Fixpoint parse_digits (acc : N) (s : string) : option N :=
  match s with
  | EmptyString => Some acc
  | String c s' =>
      match digit_value c with
      | None => None
      | Some d =>
          let acc := (acc * 10 + d)%N in
          if decide (acc < U64_SIZE)%N then parse_digits acc s' else None
      end
  end.

(** [str::parse::<u64>]: an optional plus sign and at least one digit. *)
Definition parse_u64 (s : string) : option N :=
  match s with
  | EmptyString => None
  | String "+"%char EmptyString => None
  | String "+"%char s' => parse_digits 0 s'
  | _ => parse_digits 0 s
  end.

(** * Tactics *)

(** Case analysis on the scrutinee of every [match] in the goal. *)
Ltac break_match :=
  match goal with
  | |- context [match ?x with _ => _ end] => destruct x eqn:?
  end.
Ltac break_match_in H :=
  match type of H with
  | context [match ?x with _ => _ end] => destruct x eqn:?
  end.
(** Evaluate an operation's result, one branch per subgoal. *)
Ltac step_cases H :=
  repeat (break_match_in H; simplify_eq/=); simplify_eq/=.

(** * Lemmas *)

Create HintDb bus.
Create Rewrite HintDb bus.

Lemma res_bind_ok {A B E} (r : result A E) (k : A -> result B E) v :
  res_bind r k = Ok v <-> exists a, r = Ok a /\ k a = Ok v.
Proof. destruct r; simpl; split; [eauto | by intros (? & [= <-] & ?) | done | by intros (? & ? & ?)]. Qed.

Lemma ok_or_ok {A E} (o : option A) (e : E) a : ok_or o e = Ok a <-> o = Some a.
Proof. destruct o; simpl; naive_solver. Qed.

Lemma as_u64_small n : (n < U64_SIZE)%N -> as_u64 n = n.
Proof. apply N.mod_small. Qed.

Lemma as_u64_lt n : (as_u64 n < U64_SIZE)%N.
Proof. apply N.mod_lt. done. Qed.

Lemma as_u32_small n : (n < U32_SIZE)%N -> as_u32 n = n.
Proof. apply N.mod_small. Qed.

Lemma starts_with_spec s p : starts_with s p = true <-> exists r, s = p +:+ r.
Proof.
  revert s; induction p as [|c p IH]; intros s; simpl.
  - split; [by exists s | done].
  - destruct s as [|d s]; simpl; [split; [done | by intros [r Hr]; simplify_eq/=]|].
    destruct (ascii_dec c d) as [->|Hne].
    + rewrite IH. split; intros [r Hr]; exists r; by simplify_eq/=.
    + split; [done | intros [r Hr]; by simplify_eq/=].
Qed.

Lemma starts_with_refl s : starts_with s s = true.
Proof. induction s; simpl; [done|]. by destruct (ascii_dec _ _). Qed.

Lemma contains_spec s p :
  contains s p = true <-> exists l r, s = l +:+ p +:+ r.
Proof.
  induction s as [|d s IH]; simpl; rewrite orb_true_iff, starts_with_spec.
  - split; [intros [[r ->]|?]; [by exists EmptyString, r | done]|].
    intros ([|??] & r & Hr); [left; by exists r | done].
  - rewrite IH. split.
    + intros [[r Hr]|(l & r & ->)]; [by exists EmptyString, r | by exists (String d l), r].
    + intros ([|d' l] & r & Hr); simplify_eq/=; [left; by exists r | right; by exists l, r].
Qed.

Lemma strip_prefix_spec s p r : strip_prefix s p = Some r <-> s = p +:+ r.
Proof.
  revert s; induction p as [|c p IH]; intros s; simpl; [naive_solver|].
  destruct s as [|d s]; simpl; [done|].
  destruct (ascii_dec c d) as [->|Hne]; [rewrite IH; naive_solver | naive_solver].
Qed.

Lemma string_mem_app c s1 s2 :
  string_mem c (s1 +:+ s2) = string_mem c s1 || string_mem c s2.
Proof. induction s1; simpl; [done|]. by destruct (ascii_dec _ _). Qed.

(** The left part has no separator: the split is at the first one. *)
Lemma split_once_spec s c l r :
  split_once s c = Some (l, r) <-> s = l +:+ String c r /\ string_mem c l = false.
Proof.
  revert l r; induction s as [|d s IH]; intros l r; simpl.
  - split; [done | by intros [? _]; destruct l].
  - destruct (ascii_dec c d) as [->|Hne].
    + split; [by intros [= <- <-]|].
      intros [Heq Hl]. destruct l as [|e l]; simplify_eq/=; [done|].
      by destruct (ascii_dec _ _).
    + split.
      * intros ([l' r'] & [-> Hl]%IH & [= <- <-])%bind_Some. simpl.
        by destruct (ascii_dec _ _).
      * intros [Heq Hl]. destruct l as [|e l]; simplify_eq/=.
        destruct (ascii_dec _ _) as [|]; [done|].
        rewrite (proj2 (IH l r)); done.
Qed.

Lemma split_once_app l r c :
  string_mem c l = false -> split_once (l +:+ String c r) c = Some (l, r).
Proof. intros Hl. by apply split_once_spec. Qed.

Lemma split_once_None s c : split_once s c = None <-> string_mem c s = false.
Proof.
  induction s as [|d s IH]; simpl; [done|].
  destruct (ascii_dec c d); [done|]. rewrite <-IH.
  destruct (split_once s c) as [[]|]; naive_solver.
Qed.

Lemma split_once_sep l r c : exists l' r', split_once (l +:+ String c r) c = Some (l', r').
Proof.
  destruct (split_once _ c) as [[l' r']|] eqn:Hs; [eauto|].
  apply split_once_None in Hs. rewrite string_mem_app in Hs. simpl in Hs. destruct (ascii_dec c c); [|done].
  by rewrite orb_true_r in Hs.
Qed.

Lemma hex_value_digit n : (n < 16)%N -> hex_value (hex_digit n) = n.
Proof.
  intros Hn. destruct n as [|p]; [done|].
  do 4 (destruct p as [p|p|]; try done); lia.
Qed.

Lemma fmt_hex_length w n : String.length (fmt_hex w n) = w.
Proof. induction w; simpl; auto. Qed.

Lemma hex_parse_fmt w : forall acc n s,
  hex_parse acc (fmt_hex w n +:+ s)
  = hex_parse (acc * 16 ^ N.of_nat w + n mod 16 ^ N.of_nat w)%N s.
Proof.
  induction w as [|w IH]; intros acc n s.
  - simpl. rewrite N.mod_1_r. f_equal. lia.
  - cbn [fmt_hex]. rewrite Nat2N.inj_succ, N.pow_succ_r'.
    change (String ?c ?x +:+ s) with (String c (x +:+ s)). cbn [hex_parse].
    rewrite IH, hex_value_digit by (apply N.mod_lt; done).
    f_equal. set (p := (16 ^ N.of_nat w)%N).
    assert (p <> 0)%N by (apply N.pow_nonzero; done).
    rewrite (N.mul_comm 16 p), N.Div0.mod_mul_r. lia.
Qed.

Lemma fmt_hex_parse w n : (n < 16 ^ N.of_nat w)%N -> hex_parse 0 (fmt_hex w n) = n.
Proof.
  intros Hn. pose proof (hex_parse_fmt w 0 n EmptyString) as H.
  assert (Happ : forall s, s +:+ EmptyString = s) by (induction s; simpl; congruence).
  rewrite Happ in H. rewrite H. simpl. by rewrite N.mod_small.
Qed.

Lemma string_length_app s t : String.length (s +:+ t) = String.length s + String.length t.
Proof. induction s; simpl; congruence. Qed.

Lemma string_app_inj_l (s1 s2 t1 t2 : string) :
  String.length s1 = String.length s2 -> s1 +:+ t1 = s2 +:+ t2 -> s1 = s2 /\ t1 = t2.
Proof.
  revert s2; induction s1 as [|c s1 IH]; intros [|d s2]; simpl; try done.
  intros [= Hl] [= -> Heq]. by destruct (IH s2 Hl Heq) as [-> ->].
Qed.

Lemma digit_value_pretty d : (d < 10)%N -> digit_value (pretty_N_char d) = Some d.
Proof.
  intros Hd. destruct d as [|p]; [done|].
  do 4 (destruct p as [p|p|]; try done); lia.
Qed.

Lemma parse_digits_go x : forall s,
  (x < U64_SIZE)%N -> parse_digits 0 (pretty_N_go x s) = parse_digits x s.
Proof.
  induction (N.lt_wf_0 x) as [x _ IH]. intros s Hx. destruct (decide (x = 0)%N) as [->|Hne].
  - by rewrite pretty_N_go_0.
  - pose proof (N.div_mod x 10 ltac:(done)). pose proof (N.mod_lt x 10 ltac:(done)).
    rewrite pretty_N_go_step by lia. revert H H0. generalize (x `mod` 10)%N, (x `div` 10)%N.
    intros r q -> Hr. rewrite IH by lia. simpl. rewrite digit_value_pretty by done.
    rewrite decide_True by lia. f_equal. lia.
Qed.

(** Numbers that fit are read back. *)
Lemma parse_show n : (n < U64_SIZE)%N -> parse_u64 (show_N n) = Some n.
Proof.
  intros Hn. assert (Hd : parse_digits 0 (show_N n) = Some n).
  { unfold show_N, pretty, pretty_N. case_decide as Hz; [by subst|]. by rewrite parse_digits_go. }
  destruct (show_N n) as [|c s] eqn:Hs.
  - simpl in Hd. injection Hd as <-. discriminate Hs.
  - unfold parse_u64. destruct c as [[] [] [] [] [] [] [] []]; try exact Hd. discriminate Hd.
Qed.

Lemma parse_digits_lt s : forall acc n,
  (acc < U64_SIZE)%N -> parse_digits acc s = Some n -> (n < U64_SIZE)%N.
Proof.
  induction s as [|c s IH]; intros acc n Ha; simpl; [by intros [= <-]|].
  destruct (digit_value c); [|done]. case_decide; [by apply IH | done].
Qed.

Lemma parse_u64_lt s n : parse_u64 s = Some n -> (n < U64_SIZE)%N.
Proof.
  assert (Hp : forall s, parse_digits 0 s = Some n -> (n < U64_SIZE)%N)
    by (intros s'; by apply parse_digits_lt).
  intros Hs. destruct s as [|c s]; [done|].
  destruct (decide (c = "+"%char)) as [->|Hc].
  - destruct s; [done|]. by eapply Hp.
  - apply (Hp (String c s)). by destruct c as [[] [] [] [] [] [] [] []].
Qed.

#[export] Hint Rewrite @res_bind_ok @ok_or_ok : bus.
#[export] Hint Resolve as_u64_lt starts_with_refl : bus.
