(* ===== verification/Lts.v ===== *)
(** Infinite runs of a labelled transition system whose step is a function, weak
    fairness, and the rule by which a measure that the fair steps lower reaches
    its goal.  The broker process and the client process are instances. *)

From stdpp Require Import prelude.
From S2P Require Import Prelude.

Class Lts (S L : Type) : Type := step : S -> L -> option S.

Section lts.
Context {S L : Type} `{Lts S L}.

(** An infinite run: at every instant a step is taken, or nothing happens. *)
Record execution := mkExecution {
  at_ : nat -> S;
  taken : nat -> option L;
  moves_on n : match taken n with
               | Some l => step (at_ n) l = Some (at_ (1 + n))
               | None => at_ (1 + n) = at_ n
               end
}.

Definition enabled (P : L -> Prop) (s : S) : Prop := exists l, P l /\ is_Some (step s l).

(** Weak fairness towards the steps of [P]: again and again one of them is
    taken, or none is possible. *)
Definition fair (e : execution) (P : L -> Prop) : Prop :=
  forall n, exists m, n <= m
    /\ ((exists l, taken e m = Some l /\ P l) \/ ~ enabled P (at_ e m)).

(** The states along a finite run, and the run that does nothing afterwards. *)
Fixpoint after (s : S) (ls : list L) : option S :=
  match ls with
  | [] => Some s
  | l :: ls => s' ← step s l; after s' ls
  end.

Lemma after_snoc s ls l : after s (ls ++ [l]) = (s' ← after s ls; step s' l).
Proof.
  revert s. induction ls as [|l' ls IH]; intros s; simpl; [by destruct (step s l)|].
  destruct (step s l') as [s1|]; [apply IH|done].
Qed.

Lemma after_take s ls s' : after s ls = Some s' -> forall n, is_Some (after s (take n ls)).
Proof.
  revert s. induction ls as [|l ls IH]; intros s Hs n; [rewrite take_nil; eauto|].
  destruct n as [|n]; [eauto|]. simpl in *. apply bind_Some in Hs as (s1 & -> & Hs). by eapply IH.
Qed.

Definition trail (s : S) (ls : list L) (n : nat) : S := default s (after s (take n ls)).

Lemma trail_moves s ls s' : after s ls = Some s' -> forall n,
  match ls !! n with
  | Some l => step (trail s ls n) l = Some (trail s ls (1 + n))
  | None => trail s ls (1 + n) = trail s ls n
  end.
Proof.
  intros Hs n. unfold trail. destruct (ls !! n) as [l|] eqn:Hl.
  - change (1 + n) with (Datatypes.S n). rewrite (take_S_r _ _ _ Hl), after_snoc.
    destruct (after_take s ls s' Hs n) as [s1 Hs1]. rewrite Hs1. simpl.
    destruct (after_take s ls s' Hs (Datatypes.S n)) as [s2 Hs2].
    rewrite (take_S_r _ _ _ Hl), after_snoc, Hs1 in Hs2. simpl in Hs2. by rewrite Hs2.
  - apply lookup_ge_None in Hl. by rewrite !take_ge by lia.
Qed.

Definition execution_of (s : S) (ls : list L) (s' : S) (Hs : after s ls = Some s') : execution :=
  mkExecution (trail s ls) (fun n => ls !! n) (trail_moves s ls s' Hs).

Lemma execution_of_at s ls s' Hs n : length ls <= n -> at_ (execution_of s ls s' Hs) n = s'.
Proof. intros Hn. simpl. unfold trail. rewrite take_ge by done. by rewrite Hs. Qed.

Lemma execution_of_start s ls s' Hs : at_ (execution_of s ls s' Hs) 0 = s.
Proof. reflexivity. Qed.

(** At its end nothing of [P] may be possible. *)
Lemma execution_of_fair s ls s' Hs P : ~ enabled P s' -> fair (execution_of s ls s' Hs) P.
Proof.
  intros Hd n. exists (n + length ls). split; [lia|]. right. by rewrite execution_of_at by lia.
Qed.

(** What holds at an instant and is preserved by the steps taken after it. *)
Lemma execution_invariant (e : execution) (I : S -> Prop) n :
  (forall k l, n <= k -> I (at_ e k) -> taken e k = Some l -> step (at_ e k) l = Some (at_ e (1 + k)) ->
     I (at_ e (1 + k))) ->
  I (at_ e n) -> forall m, n <= m -> I (at_ e m).
Proof.
  intros Hstep Hn m Hle. induction Hle as [|m Hle IH]; [done|].
  pose proof (moves_on e m) as Hm. destruct (taken e m) as [l|] eqn:Hl; simpl in Hm.
  - by apply (Hstep m l Hle IH Hl).
  - by rewrite Hm.
Qed.

(** Where a phase is left, a step is taken that leaves it. *)
Lemma execution_leaves (e : execution) (J : S -> Prop) `{!forall s, Decision (J s)} n m :
  n <= m -> J (at_ e n) -> ~ J (at_ e m) ->
  exists k l, n <= k < m /\ J (at_ e k) /\ ~ J (at_ e (1 + k)) /\ taken e k = Some l
    /\ step (at_ e k) l = Some (at_ e (1 + k)).
Proof.
  intros Hle Hn Hm. induction Hle as [|m Hle IH]; [done|].
  destruct (decide (J (at_ e m))) as [Hj|Hj].
  - pose proof (moves_on e m) as Hs. destruct (taken e m) as [l|] eqn:Hl; simpl in Hs.
    + exists m, l. split_and!; [lia|lia|done..].
    + rewrite Hs in Hm. done.
  - destruct (IH Hj) as (k & l & Hk & ?). exists k, l. split; [lia|done].
Qed.

(** A phase [J] with a measure: every step keeps the phase without raising the
    measure, or lowers it, or reaches the goal; the steps of [P] are possible
    throughout and do not just keep it. *)
Record progress (J G : S -> Prop) (rank : S -> nat) (P : L -> Prop) : Prop := {
  pg_enabled s : J s -> enabled P s;
  pg_step s l s' : J s -> step s l = Some s' -> G s' \/ (J s' /\ rank s' <= rank s);
  pg_lower s l s' : J s -> P l -> step s l = Some s' -> G s' \/ (J s' /\ rank s' < rank s)
}.

Lemma fair_reaches (e : execution) (J G : S -> Prop) rank P :
  progress J G rank P -> fair e P -> forall n, J (at_ e n) -> exists m, n <= m /\ G (at_ e m).
Proof.
  intros Hp Hf.
  assert (Hwait : forall k n, J (at_ e n) -> (exists m, n <= m <= n + k /\ G (at_ e m))
    \/ (J (at_ e (n + k)) /\ rank (at_ e (n + k)) <= rank (at_ e n))).
  { induction k as [|k IH]; intros n Hn; [right; by rewrite Nat.add_0_r|].
    destruct (IH n Hn) as [(m & Hm & Hg)|[Hk Hr]]; [left; exists m; split; [lia|done]|].
    replace (n + Datatypes.S k) with (1 + (n + k)) by lia. pose proof (moves_on e (n + k)) as Hm.
    destruct (taken e (n + k)) as [l|]; simpl in Hm |- *.
    - destruct (pg_step _ _ _ _ Hp _ _ _ Hk Hm) as [Hg|[Hj Hr']].
      + left. exists (1 + (n + k)). split; [lia|done].
      + right. split; [done|]. lia.
    - right. rewrite Hm. done. }
  assert (Hmain : forall r n, rank (at_ e n) <= r -> J (at_ e n) -> exists m, n <= m /\ G (at_ e m)).
  { induction r as [|r IH]; intros n Hr Hn; destruct (Hf n) as (m & Hle & Hm);
      (destruct (Hwait (m - n) n Hn) as [(k & Hk & Hg)|[Hj Hrk]]; [exists k; split; [lia|done]|]);
      replace (n + (m - n)) with m in Hj, Hrk by lia;
      (destruct Hm as [(l & Hl & HPl)|Hdis]; [|by destruct Hdis; apply (pg_enabled _ _ _ _ Hp)]);
      pose proof (moves_on e m) as Hs; rewrite Hl in Hs;
      destruct (pg_lower _ _ _ _ Hp _ _ _ Hj HPl Hs) as [Hg|[Hj' Hlt]].
    - exists (1 + m). split; [lia|done].
    - lia.
    - exists (1 + m). split; [lia|done].
    - destruct (IH (1 + m) ltac:(lia) Hj') as (k & Hk & Hg). exists k. split; [lia|done]. }
  intros n. by apply (Hmain (rank (at_ e n))).
Qed.

(** A counter that no step of a phase lowers, and every step of [P] raises
    until it has reached its target. *)
Record counts (J : S -> Prop) (count : S -> nat) (target : nat) (P : L -> Prop) : Prop := {
  ct_enabled s : J s -> count s < target -> enabled P s;
  ct_step s l s' : J s -> step s l = Some s' -> J s' /\ count s <= count s';
  ct_raise s l s' : J s -> count s < target -> P l -> step s l = Some s' -> count s < count s'
}.

Lemma fair_counts (e : execution) J count target P :
  counts J count target P -> fair e P -> forall n, J (at_ e n) ->
  exists m, n <= m /\ J (at_ e m) /\ target <= count (at_ e m).
Proof.
  intros Hc Hf n Hn. destruct (decide (count (at_ e n) < target)) as [Hlt|]; [|exists n; split_and!; [done|done|lia]].
  apply (fair_reaches e (fun s => J s /\ count s < target) (fun s => J s /\ target <= count s)
    (fun s => target - count s) P); [|done|done]. split.
  - intros s [Hj Hs]. by apply (ct_enabled _ _ _ _ Hc).
  - intros s l s' [Hj Hs] Hx. destruct (ct_step _ _ _ _ Hc _ _ _ Hj Hx) as [Hj' Hle].
    destruct (decide (count s' < target)); [right; split; [done|lia]|left; split; [done|lia]].
  - intros s l s' [Hj Hs] Hp Hx. destruct (ct_step _ _ _ _ Hc _ _ _ Hj Hx) as [Hj' Hle].
    pose proof (ct_raise _ _ _ _ Hc _ _ _ Hj Hs Hp Hx).
    destruct (decide (count s' < target)); [right; split; [done|lia]|left; split; [done|lia]].
Qed.

(** The step by which a counter reaches its target. *)
Lemma counter_crosses (e : execution) (J : S -> Prop) (count : S -> nat) target n m :
  (forall s l s', J s -> step s l = Some s' -> J s') -> J (at_ e n) -> n <= m ->
  count (at_ e n) < target -> target <= count (at_ e m) ->
  exists k l, n <= k < m /\ J (at_ e k) /\ taken e k = Some l /\ step (at_ e k) l = Some (at_ e (1 + k))
    /\ count (at_ e k) < target <= count (at_ e (1 + k)).
Proof.
  intros Hc Hn Hle Hlt Hge.
  destruct (execution_leaves e (fun s => count s < target) n m) as (k & l & Hk & Hlk & Hnk & Hl & Hx); [done|done|lia|].
  exists k, l. split; [done|]. split; [|split; [done|split; [done|lia]]].
  apply (execution_invariant e J n); [|done|lia]. intros i l' _ Hi _ Hx'. by eapply Hc.
Qed.

(** The runs that only take steps of [R] are the runs of a smaller system. *)
Definition confined (R : L -> bool) : Lts S L := fun s l => if R l then step s l else None.

Lemma confined_moves (e : execution) R :
  (forall n l, taken e n = Some l -> R l = true) -> forall n,
  match taken e n with
  | Some l => confined R (at_ e n) l = Some (at_ e (1 + n))
  | None => at_ e (1 + n) = at_ e n
  end.
Proof.
  intros HR n. pose proof (moves_on e n) as Hm. destruct (taken e n) as [l|] eqn:Hl; [|done].
  unfold confined. by rewrite (HR n l Hl).
Qed.
End lts.
Arguments execution S L {_}.

Definition confine {S L} `{H : Lts S L} (e : execution S L) (R : L -> bool)
    (HR : forall n l, taken e n = Some l -> R l = true) : @execution S L (confined R) :=
  @mkExecution S L (confined R) (at_ e) (taken e) (confined_moves e R HR).

Lemma confine_fair {S L} `{H : Lts S L} (e : execution S L) (R : L -> bool) HR (P : L -> Prop) :
  (forall l, P l -> R l = true) -> fair e P -> fair (H := confined R) (confine e R HR) P.
Proof.
  intros HP Hf n. destruct (Hf n) as (m & Hle & Hm). exists m. split; [done|].
  destruct Hm as [Ht|Hd]; [by left|right]. intros (l & Hl & Hs). apply Hd. exists l. split; [done|].
  revert Hs. unfold step at 1, confined. by rewrite (HP l Hl).
Qed.
