(* ===== verification/Frame.v ===== *)
(** Wire types (crates/protocol/src/frame.rs): the frames of the bus and the
    structured error.  Strings are UTF-8 byte strings, [Vec<u8>] is [bytes],
    [u16]/[u32]/[u64] fields are [N] (their bounds are stated where a theorem
    needs them), [Duration] is its number of nanoseconds. *)

From stdpp Require Import prelude strings pretty.
From S2P Require Import Prelude.

(** * std::time::Duration *)

Abbreviation Duration := N.
Definition duration_from_secs (s : N) : Duration := (s * 1000000000)%N.
Definition duration_from_millis (ms : N) : Duration := (ms * 1000000)%N.
Definition as_millis (d : Duration) : N := (d / 1000000)%N.
(** The greatest [Duration]: [u64::MAX] seconds and 999999999 ns. *)
Definition DURATION_SIZE : N := (U64_SIZE * 1000000000)%N.

(** * Protocol version *)

Module ProtocolVersion.
Record ProtocolVersion := mk { major : N; minor : N }.
Definition CURRENT : ProtocolVersion := {| major := 1; minor := 0 |}.
End ProtocolVersion.
Abbreviation ProtocolVersion := ProtocolVersion.ProtocolVersion.

Module HttpMethod.
Inductive HttpMethod := Get | Post | Put | Patch | Delete.
Definition default : HttpMethod := Post.
End HttpMethod.
Abbreviation HttpMethod := HttpMethod.HttpMethod.

(** * Declarations *)

Module MethodDecl.
Record MethodDecl := mk {
  name : string;
  requires_auth : bool;
  streaming : bool;
  http_method : HttpMethod;
  path : option string;
  description : option string
}.
End MethodDecl.
Abbreviation MethodDecl := MethodDecl.MethodDecl.

Module DataPlaneSocket.
Inductive DataPlaneSocket :=
| Unix (path : string)
| NamedPipe (name : string).
Definition display_name (s : DataPlaneSocket) : string :=
  match s with
  | Unix path => path
  | NamedPipe name => "pipe://" +:+ name
  end.
End DataPlaneSocket.
Abbreviation DataPlaneSocket := DataPlaneSocket.DataPlaneSocket.

(** * Errors *)

Module BusError.
Inductive BusError :=
| Io (msg : string)
| Codec (msg : string)
| FrameTooLarge (size : N) (max : N)
| ConnectionClosed
| ProtocolMismatch (broker client : ProtocolVersion)
| InvalidAuthToken
| ServiceNotFound (service : string)
| MethodNotFound (service method : string)
| Unauthorized (service method : string)
| Timeout (ms : N)
| BadRequest (msg : string)
| Internal (msg : string)
| App (msg : string).
End BusError.
Abbreviation BusError := BusError.BusError.

(** std::io::Error: the kinds the sources distinguish, and the message its
    [Display] prints. *)
Module IoError.
Inductive ErrorKind :=
| UnexpectedEof | ConnectionRefused | NotFound | Unsupported | InvalidInput
| Other.
Record IoError := mk { kind : ErrorKind; msg : string }.
End IoError.
Abbreviation IoError := IoError.IoError.

(** [impl From<std::io::Error> for BusError]. *)
Definition from_io_error (e : IoError) : BusError := BusError.Io e.(IoError.msg).

(** * Control plane *)

Module HelloRequest.
Record HelloRequest := mk {
  protocol : ProtocolVersion;
  service : string;
  version : string;
  pid : N;
  auth_token : string;
  methods : list MethodDecl;
  events : list string;
  data_plane : option DataPlaneSocket
}.
End HelloRequest.
Abbreviation HelloRequest := HelloRequest.HelloRequest.

Module HelloAck.
Record HelloAck := mk { client_id : N; heartbeat_interval : Duration }.
End HelloAck.
Abbreviation HelloAck := HelloAck.HelloAck.

(** * RPC, streams and events *)

Module CallerCtx.
Record CallerCtx := mk {
  user_id : option string;
  request_id : string;
  workspace : option string;
  caller_app_id : option string
}.
Definition default : CallerCtx :=
  {| user_id := None; request_id := EmptyString; workspace := None;
     caller_app_id := None |}.
(** [caller.caller_app_id = v]. *)
Definition set_caller_app_id (v : option string) (c : CallerCtx) : CallerCtx :=
  {| user_id := c.(user_id); request_id := c.(request_id);
     workspace := c.(workspace); caller_app_id := v |}.
End CallerCtx.
Abbreviation CallerCtx := CallerCtx.CallerCtx.

Module Invoke.
Record Invoke := mk {
  req_id : N;
  method : string;
  payload : bytes;
  caller : CallerCtx
}.
End Invoke.
Abbreviation Invoke := Invoke.Invoke.

Module Response.
Record Response := mk { req_id : N; result : result bytes BusError }.
End Response.
Abbreviation Response := Response.Response.

Module StreamOpen.
Record StreamOpen := mk {
  req_id : N;
  method : string;
  caller : CallerCtx;
  initial : bytes
}.
End StreamOpen.
Abbreviation StreamOpen := StreamOpen.StreamOpen.

Module StreamChunk.
Record StreamChunk := mk { req_id : N; data : bytes }.
End StreamChunk.
Abbreviation StreamChunk := StreamChunk.StreamChunk.

Module StreamClose.
Record StreamClose := mk { req_id : N; error : option BusError }.
End StreamClose.
Abbreviation StreamClose := StreamClose.StreamClose.

Module Event.
Record Event := mk { topic : string; payload : bytes; from : option string }.
(** [event.from = v]. *)
Definition set_from (v : option string) (e : Event) : Event :=
  {| topic := e.(topic); payload := e.(payload); from := v |}.
End Event.
Abbreviation Event := Event.Event.

(** * The multiplexed frame *)

Module BusFrame.
Inductive BusFrame :=
| Hello (h : HelloRequest)
| HelloAck (a : HelloAck)
| Ping
| Pong
| Shutdown
| Invoke (inv : Invoke)
| Response (r : Response)
| StreamOpen (s : StreamOpen)
| StreamChunk (s : StreamChunk)
| StreamClose (s : StreamClose)
| Publish (e : Event)
| Subscribe (topic_prefix : string)
| Unsubscribe (topic_prefix : string)
| Event (e : Event).
End BusFrame.
Abbreviation BusFrame := BusFrame.BusFrame.

(** * serde_duration_millis *)

Module serde_duration_millis.
(** The value handed to [serialize_u64]. *)
Definition serialize (d : Duration) : N := as_u64 (as_millis d).
(** The [Duration] built from the [u64] read. *)
Definition deserialize (ms : N) : Duration := duration_from_millis ms.
End serde_duration_millis.

(** * Decidable equality *)

#[export] Instance ProtocolVersion_eq_dec : EqDecision ProtocolVersion.
Proof. solve_decision. Defined.
#[export] Instance HttpMethod_eq_dec : EqDecision HttpMethod.
Proof. solve_decision. Defined.
#[export] Instance MethodDecl_eq_dec : EqDecision MethodDecl.
Proof. solve_decision. Defined.
#[export] Instance DataPlaneSocket_eq_dec : EqDecision DataPlaneSocket.
Proof. solve_decision. Defined.
#[export] Instance BusError_eq_dec : EqDecision BusError.
Proof. solve_decision. Defined.
#[export] Instance ErrorKind_eq_dec : EqDecision IoError.ErrorKind.
Proof. solve_decision. Defined.
#[export] Instance IoError_eq_dec : EqDecision IoError.
Proof. solve_decision. Defined.
#[export] Instance HelloRequest_eq_dec : EqDecision HelloRequest.
Proof. solve_decision. Defined.
#[export] Instance HelloAck_eq_dec : EqDecision HelloAck.
Proof. solve_decision. Defined.
#[export] Instance CallerCtx_eq_dec : EqDecision CallerCtx.
Proof. solve_decision. Defined.
#[export] Instance Invoke_eq_dec : EqDecision Invoke.
Proof. solve_decision. Defined.
#[export] Instance Response_eq_dec : EqDecision Response.
Proof. solve_decision. Defined.
#[export] Instance StreamOpen_eq_dec : EqDecision StreamOpen.
Proof. solve_decision. Defined.
#[export] Instance StreamChunk_eq_dec : EqDecision StreamChunk.
Proof. solve_decision. Defined.
#[export] Instance StreamClose_eq_dec : EqDecision StreamClose.
Proof. solve_decision. Defined.
#[export] Instance Event_eq_dec : EqDecision Event.
Proof. solve_decision. Defined.
#[export] Instance BusFrame_eq_dec : EqDecision BusFrame.
Proof. solve_decision. Defined.

(** * Lemmas *)

Lemma as_millis_from_millis ms : as_millis (duration_from_millis ms) = ms.
Proof. apply N.div_mul. done. Qed.

Lemma as_millis_bound d : (d < DURATION_SIZE)%N -> (as_millis d < 1000 * U64_SIZE)%N.
Proof. intros Hd. apply N.Div0.div_lt_upper_bound. unfold DURATION_SIZE in Hd. lia. Qed.
