(* ===== verification/Codec.v ===== *)
(** The length-prefixed frame codec (crates/protocol/src/codec.rs).

    The reader and the writer are tokio's [AsyncRead]/[AsyncWrite] extension
    methods and the payload encoding is rmp-serde's: the operations are class
    fields, their documented behaviour is the laws of [LawfulRead],
    [LawfulWrite] and [Roundtrip].  [ByteStream] and [ByteSink] are in-memory
    instances on which the codec runs. *)

From stdpp Require Import prelude strings.
From Stdlib Require Import Strings.Byte.
From S2P Require Import Prelude Frame.

Local Open Scope N_scope.

(** Maximum single-frame payload (32 MiB). *)
Definition MAX_FRAME_BYTES : N := 32 * 1024 * 1024.

(** * Big-endian [u32] *)

(** [u32::to_be_bytes]. *)
Definition byte_of (n : N) : Byte.byte := default Byte.x00 (Byte.of_N (n mod 256)).
Definition to_be_bytes (n : N) : bytes :=
  [byte_of (n / 16777216); byte_of (n / 65536); byte_of (n / 256); byte_of n].

(** [u32::from_be_bytes]. *)
Definition from_be_bytes (l : bytes) : N :=
  foldl (fun acc c => acc * 256 + Byte.to_N c) 0 l.

(** * Interfaces *)

(** [AsyncReadExt::read_exact] into a buffer of [n] bytes. *)
Class AsyncRead (R : Type) : Type :=
  read_exact : R -> N -> result bytes IoError * R.

(** [AsyncWriteExt::write_all] and [flush]. *)
Class AsyncWrite (W : Type) : Type := {
  write_all : W -> bytes -> result unit IoError * W;
  flush : W -> result unit IoError * W
}.

(** rmp-serde for one type: [to_vec_named] and [from_slice]; the error is its
    printed message. *)
Class Rmp (T : Type) : Type := {
  to_vec_named : T -> result bytes string;
  from_slice : bytes -> result T string
}.

(** What [read_exact] does, by the bytes the peer has left to read and the
    way the stream ends ([None]: end of file). *)
Class LawfulRead (R : Type) `{AsyncRead R} : Type := {
  unread : R -> bytes;
  ending : R -> option IoError;
  read_exact_enough r n : n <= byte_len (unread r) ->
    exists r', read_exact r n = (Ok (take (N.to_nat n) (unread r)), r')
      /\ unread r' = drop (N.to_nat n) (unread r) /\ ending r' = ending r;
  read_exact_eof r n : byte_len (unread r) < n -> ending r = None ->
    exists msg r', read_exact r n
      = (Err {| IoError.kind := IoError.UnexpectedEof; IoError.msg := msg |}, r');
  read_exact_fail r n e : byte_len (unread r) < n -> ending r = Some e ->
    exists r', read_exact r n = (Err e, r')
}.

(** A writer that accepts everything: what was written is appended. *)
Class LawfulWrite (W : Type) `{AsyncWrite W} : Type := {
  written : W -> bytes;
  write_all_ok w l : exists w', write_all w l = (Ok tt, w') /\ written w' = written w ++ l;
  flush_ok w : exists w', flush w = (Ok tt, w') /\ written w' = written w
}.

(** Decoding inverts encoding. *)
Class Roundtrip (T : Type) `{Rmp T} : Prop :=
  from_slice_to_vec v l : to_vec_named v = Ok l -> from_slice l = Ok v.

(** * The codec *)

Section codec.
Context {T : Type} `{Rmp T}.

(** codec.rs, [write_frame]. *)
Definition write_frame {W} `{AsyncWrite W} (w : W) (value : T) : result unit BusError * W :=
  match map_err (fun e => BusError.Codec ("encode: " +:+ e)) (to_vec_named value) with
  | Err e => (Err e, w)
  | Ok l =>
      if MAX_FRAME_BYTES <? byte_len l
      then (Err (BusError.FrameTooLarge (byte_len l) MAX_FRAME_BYTES), w)
      else
        let len := as_u32 (byte_len l) in
        match write_all w (to_be_bytes len) with
        | (Err e, w) => (Err (from_io_error e), w)
        | (Ok _, w) =>
            match write_all w l with
            | (Err e, w) => (Err (from_io_error e), w)
            | (Ok _, w) =>
                match flush w with
                | (Err e, w) => (Err (from_io_error e), w)
                | (Ok _, w) => (Ok tt, w)
                end
            end
        end
  end.

(** codec.rs, [read_frame_opt]. *)
Definition read_frame_opt {R} `{AsyncRead R} (r : R) : result (option T) BusError * R :=
  match read_exact r 4 with
  | (Err e, r) =>
      if decide (e.(IoError.kind) = IoError.UnexpectedEof)
      then (Ok None, r) else (Err (from_io_error e), r)
  | (Ok len_buf, r) =>
      let len := from_be_bytes len_buf in
      if MAX_FRAME_BYTES <? len
      then (Err (BusError.FrameTooLarge len MAX_FRAME_BYTES), r)
      else
        match read_exact r len with
        | (Err e, r) => (Err (from_io_error e), r)
        | (Ok buf, r) =>
            match map_err (fun e => BusError.Codec ("decode: " +:+ e)) (from_slice buf) with
            | Err e => (Err e, r)
            | Ok value => (Ok (Some value), r)
            end
        end
  end.

(** codec.rs, [read_frame]. *)
Definition read_frame {R} `{AsyncRead R} (r : R) : result T BusError * R :=
  match read_frame_opt r with
  | (Err e, r) => (Err e, r)
  | (Ok (Some v), r) => (Ok v, r)
  | (Ok None, r) => (Err BusError.ConnectionClosed, r)
  end.

(** Writing frames one after the other, as the writer tasks do. *)
Fixpoint write_frames {W} `{AsyncWrite W} (w : W) (vs : list T) : result unit BusError * W :=
  match vs with
  | [] => (Ok tt, w)
  | v :: vs =>
      match write_frame w v with
      | (Err e, w) => (Err e, w)
      | (Ok _, w) => write_frames w vs
      end
  end.

(** The frames a read loop sees until end of file or an error; at most
    [fuel] frames. *)
Fixpoint read_frames {R} `{AsyncRead R} (fuel : nat) (r : R) : list T * option BusError :=
  match fuel with
  | O => ([], None)
  | S fuel =>
      match read_frame_opt r with
      | (Err e, _) => ([], Some e)
      | (Ok None, _) => ([], None)
      | (Ok (Some v), r) => let '(vs, e) := read_frames fuel r in (v :: vs, e)
      end
  end.

(** The bytes of one frame on the wire. *)
Definition frame_bytes (l : bytes) : bytes := to_be_bytes (byte_len l) ++ l.

(** A reference decoder of a whole byte string: how it ends, and the frames
    before that. *)
Inductive Outcome :=
| OClosed
| OStopped (e : BusError)
| OCut.
Definition ends_with (end_ : option IoError) (o : Outcome) : Outcome :=
  match end_ with Some e => OStopped (from_io_error e) | None => o end.
Fixpoint decode (fuel : nat) (l : bytes) (end_ : option IoError) : list T * Outcome :=
  match fuel with
  | O => ([], OClosed)
  | S fuel =>
      let len := from_be_bytes (take 4 l) in
      let rest := drop 4 l in
      if byte_len l <? 4 then ([], match end_ with
        | Some e => if decide (e.(IoError.kind) = IoError.UnexpectedEof) then OClosed
                    else OStopped (from_io_error e)
        | None => OClosed end)
      else if MAX_FRAME_BYTES <? len then ([], OStopped (BusError.FrameTooLarge len MAX_FRAME_BYTES))
      else if byte_len rest <? len then ([], ends_with end_ OCut)
      else
        match from_slice (take (N.to_nat len) rest) with
        | Err e => ([], OStopped (BusError.Codec ("decode: " +:+ e)))
        | Ok v => let '(vs, o) := decode fuel (drop (N.to_nat len) rest) end_ in (v :: vs, o)
        end
  end.
Definition decode_all (l : bytes) (end_ : option IoError) : list T * Outcome :=
  decode (S (length l)) l end_.

(** The error the read loop stops with. *)
Definition stops (o : Outcome) (e : option BusError) : Prop :=
  match o with
  | OClosed => e = None
  | OStopped b => e = Some b
  | OCut => exists msg, e = Some (BusError.Io msg)
  end.

End codec.

(** * In-memory instances *)

Record ByteStream := mkStream { stream_bytes : bytes; stream_end : option IoError }.

#[export] Instance ByteStream_read : AsyncRead ByteStream := fun r n =>
  if decide (n <= byte_len (stream_bytes r)) then
    (Ok (take (N.to_nat n) (stream_bytes r)),
     mkStream (drop (N.to_nat n) (stream_bytes r)) (stream_end r))
  else
    (Err (default {| IoError.kind := IoError.UnexpectedEof; IoError.msg := "early eof" |}
            (stream_end r)),
     mkStream [] (stream_end r)).

Record ByteSink := mkSink { sink_bytes : bytes }.

#[export] Instance ByteSink_write : AsyncWrite ByteSink := {|
  write_all w l := (Ok tt, mkSink (sink_bytes w ++ l));
  flush w := (Ok tt, w)
|}.

(** A byte-string payload encoded as itself. *)
Definition raw_rmp : Rmp bytes := {| to_vec_named l := Ok l; from_slice l := Ok l |}.

(** * Lemmas *)

#[export] Instance ByteStream_lawful : LawfulRead ByteStream.
Proof.
  refine {| unread := stream_bytes; ending := stream_end |}; unfold read_exact, ByteStream_read.
  - intros r n Hn. rewrite decide_True by done. eauto.
  - intros r n Hn He. rewrite decide_False, He by lia. simpl. eauto.
  - intros r n e Hn He. rewrite decide_False, He by lia. simpl. eauto.
Defined.

#[export] Instance ByteSink_lawful : LawfulWrite ByteSink.
Proof.
  refine {| written := sink_bytes |}; simpl; eauto.
Defined.

Lemma raw_roundtrip : @Roundtrip bytes raw_rmp.
Proof. intros v l [= ->]. done. Qed.

Lemma byte_of_to_N n : Byte.to_N (byte_of n) = n mod 256.
Proof.
  unfold byte_of. destruct (Byte.of_N (n mod 256)) as [c|] eqn:Hc; simpl.
  - by apply Byte.to_of_N.
  - apply Byte.of_N_None_iff in Hc.
    pose proof (N.mod_lt n 256). lia.
Qed.

Lemma length_to_be_bytes n : length (to_be_bytes n) = 4%nat.
Proof. done. Qed.

Lemma from_to_be_bytes n : n < U32_SIZE -> from_be_bytes (to_be_bytes n) = n.
Proof.
  intros Hn. unfold from_be_bytes, to_be_bytes. cbn [foldl].
  rewrite !byte_of_to_N. unfold U32_SIZE in Hn.
  pose proof (N.Div0.div_mod n 256). pose proof (N.Div0.div_mod (n / 256) 256).
  pose proof (N.Div0.div_mod (n / 65536) 256).
  rewrite N.Div0.div_div in *. change (256 * 256) with 65536 in *.
  change (65536 * 256) with 16777216 in *.
  rewrite (N.mod_small (n / 16777216)) by (apply N.Div0.div_lt_upper_bound; lia).
  lia.
Qed.

Lemma byte_len_app l1 l2 : byte_len (l1 ++ l2) = byte_len l1 + byte_len l2.
Proof. unfold byte_len. rewrite length_app. lia. Qed.

Lemma max_frame_u32 n : n <= MAX_FRAME_BYTES -> n < U32_SIZE.
Proof. unfold MAX_FRAME_BYTES, U32_SIZE. lia. Qed.

Section codec_lemmas.
Context {T : Type} `{Rmp T}.

(** The successful path of [write_frame] appends exactly one frame. *)
Lemma write_frame_ok {W} `{LawfulWrite W} (w : W) v l :
  to_vec_named v = Ok l -> byte_len l <= MAX_FRAME_BYTES ->
  exists w', write_frame w v = (Ok tt, w') /\ written w' = written w ++ frame_bytes l.
Proof.
  intros Hv Hl. unfold write_frame. rewrite Hv. simpl.
  rewrite (proj2 (N.ltb_ge _ _)) by done.
  rewrite as_u32_small by by apply max_frame_u32.
  destruct (write_all_ok w (to_be_bytes (byte_len l))) as (w1 & -> & E1).
  destruct (write_all_ok w1 l) as (w2 & -> & E2).
  destruct (flush_ok w2) as (w3 & -> & E3).
  exists w3. split; [done|]. by rewrite E3, E2, E1, <-app_assoc.
Qed.

Lemma write_frame_inv {W} `{LawfulWrite W} (w w' : W) v :
  write_frame w v = (Ok tt, w') ->
  exists l, to_vec_named v = Ok l /\ byte_len l <= MAX_FRAME_BYTES
    /\ written w' = written w ++ frame_bytes l.
Proof.
  intros Hw. destruct (to_vec_named v) as [l|e] eqn:Hv.
  - destruct (N.ltb_spec MAX_FRAME_BYTES (byte_len l)) as [Hlt|Hle].
    + unfold write_frame in Hw. rewrite Hv in Hw. simpl in Hw.
      by rewrite (proj2 (N.ltb_lt _ _) Hlt) in Hw.
    + destruct (write_frame_ok w v l Hv Hle) as (w1 & Heq & Hw1).
      exists l. rewrite Heq in Hw. by simplify_eq.
  - unfold write_frame in Hw. by rewrite Hv in Hw.
Qed.

(** Reading when the header and the whole payload are there. *)
Lemma read_frame_opt_header {R} `{LawfulRead R} (r : R) hd tl :
  unread r = hd ++ tl -> length hd = 4%nat ->
  exists r', read_exact r 4 = (Ok hd, r') /\ unread r' = tl /\ ending r' = ending r.
Proof.
  intros Hr Hlen. destruct (read_exact_enough r 4) as (r' & Hx & Hu & He).
  { rewrite Hr, byte_len_app. unfold byte_len. lia. }
  exists r'. rewrite Hx, Hu, Hr, take_app_length', drop_app_length' by done. done.
Qed.

Lemma read_frame_opt_frame {R} `{LawfulRead R} (r : R) l tl v :
  unread r = frame_bytes l ++ tl -> byte_len l <= MAX_FRAME_BYTES ->
  from_slice l = Ok v ->
  exists r', read_frame_opt r = (Ok (Some v), r') /\ unread r' = tl /\ ending r' = ending r.
Proof.
  intros Hr Hl Hv. unfold frame_bytes in Hr. rewrite <-app_assoc in Hr.
  destruct (read_frame_opt_header r _ _ Hr (length_to_be_bytes _)) as (r1 & E1 & Hu1 & He1).
  unfold read_frame_opt. rewrite E1, from_to_be_bytes by by apply max_frame_u32.
  rewrite (proj2 (N.ltb_ge _ _)) by done.
  destruct (read_exact_enough r1 (byte_len l)) as (r2 & E2 & Hu2 & He2).
  { rewrite Hu1, byte_len_app. lia. }
  rewrite E2, Hu1, take_app_length' by (unfold byte_len; lia).
  rewrite Hv. simpl. exists r2. split; [done|]. split; [|congruence].
  rewrite Hu2, Hu1, drop_app_length' by (unfold byte_len; lia). done.
Qed.

Lemma read_frame_opt_clean_eof {R} `{LawfulRead R} (r : R) :
  byte_len (unread r) < 4 -> ending r = None ->
  exists r', read_frame_opt r = (Ok None, r').
Proof.
  intros Hl He. destruct (read_exact_eof r 4 Hl He) as (msg & r' & Hx).
  exists r'. unfold read_frame_opt. by rewrite Hx.
Qed.

Lemma write_frames_inv {W} `{LawfulWrite W} (vs : list T) : forall w w' : W,
  write_frames w vs = (Ok tt, w') ->
  exists ls, Forall2 (fun v l => to_vec_named v = Ok l /\ byte_len l <= MAX_FRAME_BYTES) vs ls
    /\ written w' = written w ++ concat (frame_bytes <$> ls).
Proof.
  induction vs as [|v vs IH]; intros w w' Hw; simpl in Hw.
  - simplify_eq. exists []. split; [constructor|]. by rewrite app_nil_r.
  - destruct (write_frame w v) as [[[]|e] w1] eqn:Hv; [|done].
    destruct (write_frame_inv w w1 v Hv) as (l & Hl & Hmax & Hw1).
    destruct (IH w1 w' Hw) as (ls & Hls & Hw2).
    exists (l :: ls). split; [by constructor|]. rewrite Hw2, Hw1. simpl.
    by rewrite <-app_assoc.
Qed.

Lemma read_frames_concat {R} `{LawfulRead R} `{!Roundtrip T} (vs : list T) : forall ls (r : R),
  Forall2 (fun v l => to_vec_named v = Ok l /\ byte_len l <= MAX_FRAME_BYTES) vs ls ->
  unread r = concat (frame_bytes <$> ls) -> ending r = None ->
  read_frames (S (length vs)) r = (vs, None).
Proof.
  induction vs as [|v vs IH]; intros ls r Hls Hr He; inversion Hls as [|? l ? ls' [Hv Hl] Hls']; subst.
  - destruct (read_frame_opt_clean_eof r) as (r' & Hx); [by rewrite Hr | done |].
    simpl. by rewrite Hx.
  - destruct (read_frame_opt_frame r l (concat (frame_bytes <$> ls')) v) as (r' & Hx & Hu & He');
      [done | done | by apply from_slice_to_vec |].
    change (read_frames (S (length (v :: vs))) r) with
      (match read_frame_opt r with
       | (Err e, _) => ([], Some e)
       | (Ok None, _) => ([], None)
       | (Ok (Some v), r) => let '(vs0, e) := read_frames (S (length vs)) r in (v :: vs0, e)
       end).
    rewrite Hx, (IH ls' r'); [done | done | done | congruence].
Qed.

(** Enough fuel is enough: every frame takes at least four bytes. *)
Lemma decode_enough : forall fuel l e, (length l < fuel)%nat -> decode (T := T) fuel l e = decode_all l e.
Proof.
  assert (Hgen : forall f1 f2 l e, (length l < f1)%nat -> (length l < f2)%nat ->
    decode (T := T) f1 l e = decode f2 l e).
  { induction f1 as [|f1 IH]; intros f2 l e H1 H2; [lia|]. destruct f2 as [|f2]; [lia|]. simpl.
    destruct (N.ltb_spec (byte_len l) 4) as [|Hl]; [done|].
    destruct (_ <? _); [done|]. destruct (_ <? _); [done|]. destruct (from_slice _) as [v|]; [|done].
    rewrite (IH f2); [done|..]; rewrite !length_drop; unfold byte_len in Hl; lia. }
  intros fuel l e Hf. apply Hgen; lia.
Qed.

(** One frame of the loop against the reference. *)
Lemma read_frames_decode {R} `{LawfulRead R} : forall fuel (r : R),
  (read_frames fuel r).1 = (decode fuel (unread r) (ending r)).1
  /\ stops (decode (T := T) fuel (unread r) (ending r)).2 (read_frames (T := T) fuel r).2.
Proof.
  induction fuel as [|fuel IH]; intros r; [done|]. cbn [read_frames decode]. unfold read_frame_opt.
  destruct (N.ltb_spec (byte_len (unread r)) 4) as [Hs|Hs].
  { destruct (ending r) as [e|] eqn:He.
    - destruct (read_exact_fail r 4 e Hs He) as (r' & ->). by case_decide.
    - destruct (read_exact_eof r 4 Hs He) as (msg & r' & ->). done. }
  destruct (read_exact_enough r 4 Hs) as (r1 & -> & Hu & He).
  change (N.to_nat 4) with 4%nat in *. destruct (_ <? _); [done|].
  rewrite <-Hu, <-He. set (len := from_be_bytes _).
  destruct (N.ltb_spec (byte_len (unread r1)) len) as [Hc|Hc].
  { destruct (ending r1) as [e|] eqn:He1.
    - by destruct (read_exact_fail r1 len e Hc He1) as (r' & ->).
    - destruct (read_exact_eof r1 len Hc He1) as (msg & r' & ->). simpl. eauto. }
  destruct (read_exact_enough r1 len Hc) as (r2 & -> & Hu2 & He2).
  destruct (from_slice _) as [v|e]; simpl; [|done].
  rewrite <-Hu2, <-He2. destruct (IH r2) as [IH1 IH2].
  destruct (read_frames fuel r2) as [vs eo], (decode fuel _ _) as [vs' o]. simpl in *. by subst.
Qed.

End codec_lemmas.

(** * Properties *)

(** A sequence of frames written by [write_frame] is read back by the
    [read_frame_opt] loop as the same frames in the same order, after which
    the reader sees the clean end of the stream: framing neither loses,
    merges nor reorders frames, whatever the payload codec and transport. *)
Lemma write_read_frames {T} `{Roundtrip T} {W} `{LawfulWrite W} {R} `{LawfulRead R}
    (vs : list T) (w w' : W) (r : R) :
  written w = [] ->
  write_frames w vs = (Ok tt, w') ->
  unread r = written w' ->
  ending r = None ->
  read_frames (S (length vs)) r = (vs, None).
Proof.
  intros Hw Hws Hr He. destruct (write_frames_inv vs w w' Hws) as (ls & Hls & Hw').
  apply (read_frames_concat vs ls); [done| |done]. by rewrite Hr, Hw', Hw.
Qed.

Lemma write_read_frames_witness :
  read_frames (T := bytes) (H := raw_rmp) 3
    (mkStream (sink_bytes (write_frames (H := raw_rmp) (mkSink [])
        [bytes_lit "hello"; bytes_lit "bus"]).2) None)
  = ([bytes_lit "hello"; bytes_lit "bus"], None).
Proof.
  apply (@write_read_frames bytes raw_rmp raw_roundtrip ByteSink _ _ ByteStream _ _
    [bytes_lit "hello"; bytes_lit "bus"] (mkSink [])
    (write_frames (H := raw_rmp) (mkSink []) [bytes_lit "hello"; bytes_lit "bus"]).2);
    reflexivity.
Defined.

(** The size limit is enforced on both sides with nothing done past it.
    An encoding longer than [MAX_FRAME_BYTES] is refused by [write_frame]
    with [FrameTooLarge] and not one byte reaches the writer; a header that
    announces more is refused by [read_frame_opt] after the four header
    bytes, the payload being left unread. *)
Lemma frame_size_limit {T} `{Rmp T} {W} `{LawfulWrite W} {R} `{LawfulRead R}
    (w : W) (v : T) (l : bytes) (r : R) (n : N) (tl : bytes) :
  to_vec_named v = Ok l ->
  MAX_FRAME_BYTES < byte_len l ->
  MAX_FRAME_BYTES < n -> n < U32_SIZE ->
  unread r = to_be_bytes n ++ tl ->
  write_frame w v = (Err (BusError.FrameTooLarge (byte_len l) MAX_FRAME_BYTES), w)
  /\ exists r', read_frame_opt (T := T) r
      = (Err (BusError.FrameTooLarge n MAX_FRAME_BYTES), r') /\ unread r' = tl.
Proof.
  intros Hv Hl Hn Hn32 Hr. split.
  - unfold write_frame. rewrite Hv. simpl. by rewrite (proj2 (N.ltb_lt _ _) Hl).
  - destruct (read_frame_opt_header r _ _ Hr (length_to_be_bytes _)) as (r' & E1 & Hu & _).
    exists r'. unfold read_frame_opt. rewrite E1, from_to_be_bytes by done.
    by rewrite (proj2 (N.ltb_lt _ _) Hn).
Qed.

Lemma frame_size_limit_witness :
  exists r', read_frame_opt (T := bytes) (H := raw_rmp)
      (mkStream (to_be_bytes 33554433 ++ bytes_lit "tail") None)
    = (Err (BusError.FrameTooLarge 33554433 MAX_FRAME_BYTES), r')
    /\ unread r' = bytes_lit "tail".
Proof.
  pose (big := replicate (N.to_nat 33554433) Byte.x00).
  assert (Hlen : byte_len big = 33554433).
  { unfold byte_len, big. rewrite length_replicate. apply N2Nat.id. }
  apply (@frame_size_limit bytes raw_rmp ByteSink _ _ ByteStream _ _
    (mkSink []) big big
    (mkStream (to_be_bytes 33554433 ++ bytes_lit "tail") None) 33554433 (bytes_lit "tail")).
  - reflexivity.
  - rewrite Hlen. reflexivity.
  - reflexivity.
  - reflexivity.
  - reflexivity.
Defined.

(** A stream that ends inside a frame. End of file within the payload is
    an I/O error; end of file within the four header bytes, also after one to
    three of them have been received, is reported as the clean close
    [Ok None], and [read_frame] turns it into [ConnectionClosed]. *)
Lemma truncated_frame {T} `{Rmp T} {R} `{LawfulRead R} (r : R) :
  ending r = None ->
  (byte_len (unread r) < 4 ->
     exists r', read_frame_opt (T := T) r = (Ok None, r')
       /\ read_frame (T := T) r = (Err BusError.ConnectionClosed, r'))
  /\ (forall n tl, unread r = to_be_bytes n ++ tl ->
        n <= MAX_FRAME_BYTES -> byte_len tl < n ->
        exists msg r', read_frame_opt (T := T) r = (Err (BusError.Io msg), r')).
Proof.
  intros He. split.
  - intros Hl. destruct (read_frame_opt_clean_eof (T := T) r Hl He) as (r' & Hx).
    exists r'. split; [done|]. unfold read_frame. by rewrite Hx.
  - intros n tl Hr Hn Htl.
    destruct (read_frame_opt_header r _ _ Hr (length_to_be_bytes _)) as (r1 & E1 & Hu & He1).
    destruct (read_exact_eof r1 n) as (msg & r' & E2); [by rewrite Hu | by rewrite He1 |].
    exists msg, r'. unfold read_frame_opt.
    rewrite E1, from_to_be_bytes by by apply max_frame_u32.
    by rewrite (proj2 (N.ltb_ge _ _)), E2 by done.
Qed.

Lemma truncated_frame_witness :
  exists r', read_frame_opt (T := bytes) (H := raw_rmp) (mkStream [Byte.x00; Byte.x00] None)
      = (Ok None, r')
    /\ read_frame (T := bytes) (H := raw_rmp) (mkStream [Byte.x00; Byte.x00] None)
      = (Err BusError.ConnectionClosed, r').
Proof.
  assert (He : ending (mkStream [Byte.x00; Byte.x00] None) = None) by reflexivity.
  apply (proj1 (@truncated_frame bytes raw_rmp ByteStream _ _ _ He)).
  reflexivity.
Defined.

(** C33: the read loop decodes the byte stream. For every reader, however it
    delivers its bytes, and with fuel for every byte, the loop of
    [read_frame_opt] yields exactly the frames of the reference decoder on
    the bytes the peer wrote, and stops the way the decoder says: a clean
    close, the same error, or an I/O error for a stream cut inside a payload.
    In particular two readers with the same bytes and the same end are
    indistinguishable, whatever their buffering. *)
Theorem read_loop_decodes {T} `{Rmp T} {R} `{LawfulRead R} (r : R) (fuel : nat) :
  (length (unread r) < fuel)%nat ->
  (read_frames (T := T) fuel r).1 = (decode_all (unread r) (ending r)).1
  /\ stops (decode_all (T := T) (unread r) (ending r)).2 (read_frames (T := T) fuel r).2.
Proof. intros Hf. rewrite <-(decode_enough fuel) by done. apply read_frames_decode. Qed.

Lemma read_loop_decodes_witness :
  let r := mkStream (frame_bytes (bytes_lit "hi") ++ to_be_bytes 9 ++ bytes_lit "cut") None in
  (read_frames (T := bytes) (H := raw_rmp) 20 r).1 = [bytes_lit "hi"]
  /\ exists msg, (read_frames (T := bytes) (H := raw_rmp) 20 r).2 = Some (BusError.Io msg).
Proof.
  intros r. destruct (@read_loop_decodes bytes raw_rmp ByteStream _ _ r 20) as [Hf Hs].
  - vm_compute. lia.
  - split; [rewrite Hf; vm_compute; reflexivity|]. vm_compute in Hs. exact Hs.
Defined.
