(* ===== verification/Runtime.v ===== *)
(** The concurrency primitives the sources take from tokio, as an interface.

    [Mpsc] is [tokio::sync::mpsc::unbounded_channel]: the channel object that
    the cloned senders and the receiver share.  [LawfulMpsc] states its
    documented behaviour through two observations, the messages accepted and
    not yet received, and whether the receiver still exists.  The components
    are proved against these laws; [Fifo] is an instance they run on. *)

From stdpp Require Import prelude.
From S2P Require Import Prelude.

Class Mpsc (Q M : Type) : Type := {
  mpsc_new : Q;
  (** [UnboundedSender::send]; [None] is [Err(SendError)]. *)
  mpsc_send : Q -> M -> option Q;
  (** The message [UnboundedReceiver::recv] returns without waiting. *)
  mpsc_recv : Q -> option (M * Q);
  (** The receiver is dropped. *)
  mpsc_drop_rx : Q -> Q
}.

Class LawfulMpsc (Q M : Type) `{Mpsc Q M} : Type := {
  queued : Q -> list M;
  rx_alive : Q -> bool;
  new_queued : queued mpsc_new = [];
  new_alive : rx_alive mpsc_new = true;
  send_alive q m : rx_alive q = true ->
    exists q', mpsc_send q m = Some q' /\ queued q' = queued q ++ [m] /\ rx_alive q' = true;
  send_dead q m : rx_alive q = false -> mpsc_send q m = None;
  recv_cons q m l : rx_alive q = true -> queued q = m :: l ->
    exists q', mpsc_recv q = Some (m, q') /\ queued q' = l /\ rx_alive q' = true;
  recv_nil q : queued q = [] -> mpsc_recv q = None;
  recv_dead q : rx_alive q = false -> mpsc_recv q = None;
  drop_alive q : rx_alive (mpsc_drop_rx q) = false;
  drop_queued q : queued (mpsc_drop_rx q) = []
}.

(** [tokio::sync::Notify], of which the sources use [notified] and
    [notify_waiters]: a [Notified] future is identified by a number. *)
Class Notify (N_ : Type) : Type := {
  notify_new : N_;
  notified : N_ -> N_ * N;
  notify_waiters : N_ -> N_;
  (** The future is ready. *)
  woken : N_ -> N -> bool
}.

(** A future is woken by the first [notify_waiters] after its creation. *)
Class LawfulNotify (N_ : Type) `{Notify N_} : Type := {
  created : N_ -> N -> bool;
  notified_spec n n' i : notified n = (n', i) ->
    created n' i = true /\ woken n' i = false
    /\ forall j, created n j = true -> j <> i /\ created n' j = true /\ woken n' j = woken n j;
  notify_created n i : created (notify_waiters n) i = created n i;
  notify_woken n i : created n i = true -> woken (notify_waiters n) i = true
}.

(** * Instances *)

(** Futures are numbered in order; the first [notify_upto] are woken. *)
Record Tickets := mkTickets { notify_next : N; notify_upto : N }.
#[export] Instance Tickets_notify : Notify Tickets := {|
  notify_new := mkTickets 0 0;
  notified n := (mkTickets (notify_next n + 1) (notify_upto n `min` notify_next n), notify_next n);
  notify_waiters n := mkTickets (notify_next n) (notify_next n);
  woken n i := bool_decide (i < notify_upto n `min` notify_next n)%N
|}.
#[export] Instance Tickets_lawful : LawfulNotify Tickets.
Proof.
  refine {| created n i := bool_decide (i < notify_next n)%N |}; simpl.
  - intros [nx up] n' i [= <- <-]. simpl. split_and!.
    + apply bool_decide_eq_true. lia.
    + apply bool_decide_eq_false. lia.
    + intros j Hj%bool_decide_eq_true. split_and!; [lia | apply bool_decide_eq_true; lia |].
      apply bool_decide_ext. lia.
  - done.
  - intros n i Hi%bool_decide_eq_true. apply bool_decide_eq_true. lia.
Defined.

Record Fifo (M : Type) := mkFifo { fifo : list M; fifo_open : bool }.
Arguments mkFifo {M} _ _.
Arguments fifo {M} _.
Arguments fifo_open {M} _.

#[export] Instance Fifo_mpsc {M} : Mpsc (Fifo M) M := {|
  mpsc_new := mkFifo [] true;
  mpsc_send q m := if fifo_open q then Some (mkFifo (fifo q ++ [m]) true) else None;
  mpsc_recv q :=
    match fifo_open q, fifo q with
    | true, m :: l => Some (m, mkFifo l true)
    | _, _ => None
    end;
  mpsc_drop_rx q := mkFifo [] false
|}.

#[export] Instance Fifo_lawful {M} : LawfulMpsc (Fifo M) M.
Proof.
  refine {| queued := fifo; rx_alive := fifo_open |};
    try (intros [[|m' l] [|]]; intros; simplify_eq/=; eauto; fail); done.
Defined.

(** * Consequences *)

Section mpsc.
Context {Q M : Type} `{LawfulMpsc Q M}.

Lemma send_Some q m q' :
  mpsc_send q m = Some q' ->
  rx_alive q = true /\ queued q' = queued q ++ [m] /\ rx_alive q' = true.
Proof.
  intros Hs. destruct (rx_alive q) eqn:Ha.
  - destruct (send_alive q m Ha) as (q1 & Hs' & ? & ?). by simplify_eq.
  - by rewrite send_dead in Hs.
Qed.

Lemma send_None q m : mpsc_send q m = None <-> rx_alive q = false.
Proof.
  split; [|by apply send_dead]. intros Hs. destruct (rx_alive q) eqn:Ha; [|done].
  destruct (send_alive q m Ha) as (q1 & Hs' & _). congruence.
Qed.

Lemma recv_Some q m q' :
  mpsc_recv q = Some (m, q') -> queued q = m :: queued q' /\ rx_alive q' = true.
Proof.
  intros Hr. destruct (rx_alive q) eqn:Ha; [|by rewrite recv_dead in Hr].
  destruct (queued q) as [|m' l] eqn:Hq; [by rewrite recv_nil in Hr|].
  destruct (recv_cons q m' l Ha Hq) as (q1 & Hr' & Hl & ?).
  rewrite Hr' in Hr. by simplify_eq.
Qed.
End mpsc.
