(* ===== verification/Registry.v ===== *)
(** The service registry (crates/broker/src/registry.rs).

    The [DashMap] of entries is a finite map whose operations are atomic;
    [insert] is two accesses of shared state, [draw] and [put]; [tx] is the
    shared channel object of a connection, named by the connection's number
    (see Broker.v). *)

From stdpp Require Import prelude gmap strings.
From S2P Require Import Prelude Frame.

(** The number of an accepted connection. *)
Abbreviation conn_id := N.

Module ServiceEntry.
Record ServiceEntry := mk {
  service : string;
  generation : N;
  tx : conn_id;
  methods : list MethodDecl;
  pid : N;
  data_plane : option DataPlaneSocket
}.
(** [entry.generation = g]. *)
Definition set_generation (g : N) (e : ServiceEntry) : ServiceEntry :=
  {| service := e.(service); generation := g; tx := e.(tx); methods := e.(methods);
     pid := e.(pid); data_plane := e.(data_plane) |}.
End ServiceEntry.
Abbreviation ServiceEntry := ServiceEntry.ServiceEntry.

Module Registry.
Record Registry := mk { entries : gmap string ServiceEntry; next_gen : N }.

Definition default : Registry := {| entries := ∅; next_gen := 0 |}.

(** [insert] locks the counter, releases it, and only then stores the entry:
    other connections may do either in between.  [*g += 1] wraps. *)
Definition draw (r : Registry) : Registry * N :=
  let generation := as_u64 (r.(next_gen) + 1) in
  ({| entries := r.(entries); next_gen := generation |}, generation).
Definition put (r : Registry) (entry : ServiceEntry) (generation : N) : Registry :=
  let entry := ServiceEntry.set_generation generation entry in
  {| entries := <[entry.(ServiceEntry.service) := entry]> r.(entries); next_gen := r.(next_gen) |}.

(** [insert] without interruption: the new generation is returned. *)
Definition insert (r : Registry) (entry : ServiceEntry) : Registry * N :=
  let '(r, generation) := draw r in (put r entry generation, generation).

Definition get (r : Registry) (service : string) : option ServiceEntry :=
  r.(entries) !! service.

(** [remove_if]: whether an entry was removed. *)
Definition remove_if (r : Registry) (service : string) (generation : N) : Registry * bool :=
  match r.(entries) !! service with
  | Some v =>
      if decide (v.(ServiceEntry.generation) = generation)
      then ({| entries := delete service r.(entries); next_gen := r.(next_gen) |}, true)
      else (r, false)
  | None => (r, false)
  end.

(** [list]: the entries, in the map's order. *)
Definition list (r : Registry) : list ServiceEntry := (map_to_list r.(entries)).*2.

(** Entries are stored under their own name, with a generation that was
    handed out, and no two entries share one. *)
Record wf (r : Registry) : Prop := {
  wf_key s e : r.(entries) !! s = Some e -> e.(ServiceEntry.service) = s;
  wf_gen s e : r.(entries) !! s = Some e ->
    (0 < e.(ServiceEntry.generation) <= r.(next_gen))%N;
  wf_inj s1 s2 e1 e2 : r.(entries) !! s1 = Some e1 -> r.(entries) !! s2 = Some e2 ->
    e1.(ServiceEntry.generation) = e2.(ServiceEntry.generation) -> s1 = s2
}.
End Registry.
Abbreviation Registry := Registry.Registry.

(** An entry as [serve] builds it, for the examples. *)
Definition example_entry (svc : string) (conn : conn_id) : ServiceEntry :=
  {| ServiceEntry.service := svc; ServiceEntry.generation := 0; ServiceEntry.tx := conn;
     ServiceEntry.methods := []; ServiceEntry.pid := 7; ServiceEntry.data_plane := None |}.

#[export] Instance ServiceEntry_eq_dec : EqDecision ServiceEntry.
Proof. solve_decision. Defined.

(** * Lemmas *)

Section registry.
Implicit Types r : Registry.

Lemma next_gen_small r : (r.(Registry.next_gen) + 1 < U64_SIZE)%N ->
  as_u64 (r.(Registry.next_gen) + 1) = (r.(Registry.next_gen) + 1)%N.
Proof. apply as_u64_small. Qed.

Lemma registry_wf_default : Registry.wf Registry.default.
Proof.
  split; intros *; unfold Registry.default; simpl; rewrite ?lookup_empty; done.
Qed.

Lemma registry_put_get r e g s :
  Registry.get (Registry.put r e g) s =
    if decide (s = e.(ServiceEntry.service)) then Some (ServiceEntry.set_generation g e)
    else Registry.get r s.
Proof.
  unfold Registry.get. simpl. case_decide as Hs.
  - subst s. apply lookup_insert_eq.
  - by apply lookup_insert_ne.
Qed.

Lemma registry_insert_get r e r' g s :
  Registry.insert r e = (r', g) ->
  Registry.get r' s =
    if decide (s = e.(ServiceEntry.service)) then Some (ServiceEntry.set_generation g e)
    else Registry.get r s.
Proof.
  intros [= <- <-]. by rewrite registry_put_get.
Qed.

Lemma registry_insert_wf r e r' g :
  Registry.wf r -> (r.(Registry.next_gen) + 1 < U64_SIZE)%N ->
  Registry.insert r e = (r', g) ->
  Registry.wf r' /\ g = (r.(Registry.next_gen) + 1)%N /\ r'.(Registry.next_gen) = g.
Proof.
  intros [Hk Hg Hi] Hb Hins.
  assert (Hget : forall s e', r'.(Registry.entries) !! s = Some e' ->
    e' = ServiceEntry.set_generation g e /\ s = e.(ServiceEntry.service)
    \/ r.(Registry.entries) !! s = Some e').
  { intros s e' He'. pose proof (registry_insert_get r e r' g s Hins) as Hgs.
    unfold Registry.get in Hgs. rewrite Hgs in He'. case_decide; naive_solver. }
  injection Hins as Hr' Hgen. rewrite next_gen_small in Hgen by done.
  assert (Hng : r'.(Registry.next_gen) = g).
  { by rewrite <-Hr', <-Hgen; simpl; rewrite next_gen_small. }
  split; [|done]. split.
  - intros s e' [[-> ->]|He']%Hget; [done | by apply Hk].
  - intros s e' [[-> ->]|He']%Hget; simpl; [lia|]. apply Hg in He'. lia.
  - intros s1 s2 e1 e2 [[-> ->]|H1]%Hget [[-> ->]|H2]%Hget Heq; simpl in *.
    + done.
    + apply Hg in H2. lia.
    + apply Hg in H1. lia.
    + by eapply Hi.
Qed.

Lemma registry_remove_if_get r s g r' removed s' :
  Registry.remove_if r s g = (r', removed) ->
  Registry.get r' s' =
    if decide (removed = true /\ s' = s) then None else Registry.get r s'.
Proof.
  unfold Registry.remove_if, Registry.get. intros Hr.
  destruct (Registry.entries r !! s) as [v|] eqn:Hs.
  - destruct (decide (ServiceEntry.generation v = g)); injection Hr as <- <-.
    + destruct (decide (s' = s)) as [->|Hne].
      * rewrite decide_True by done. apply lookup_delete_eq.
      * rewrite decide_False by naive_solver. by apply lookup_delete_ne.
    + by rewrite decide_False by naive_solver.
  - injection Hr as <- <-. by rewrite decide_False by naive_solver.
Qed.

Lemma registry_remove_if_wf r s g r' removed :
  Registry.wf r -> Registry.remove_if r s g = (r', removed) ->
  Registry.wf r' /\ r'.(Registry.next_gen) = r.(Registry.next_gen).
Proof.
  intros [Hk Hg Hi]. unfold Registry.remove_if. intros Hr.
  step_cases Hr; (split; [|done]); try by split.
  split; simpl.
  - intros s' e [_ He]%lookup_delete_Some. by apply Hk.
  - intros s' e [_ He]%lookup_delete_Some. by eapply Hg.
  - intros s1 s2 e1 e2 [_ H1]%lookup_delete_Some [_ H2]%lookup_delete_Some. by eapply Hi.
Qed.
End registry.

#[export] Hint Resolve registry_wf_default : bus.

(** * Properties *)

(** The registry invariant. Entries live under their own service name,
    with generations that were handed out and are pairwise distinct; it holds
    of the empty registry and is preserved by [insert] (as long as fewer than
    2^64 registrations were made) and by [remove_if]; [insert] returns a
    generation above every one handed out before, so a reconnect always gets
    a fresh, larger generation. *)
Lemma registry_invariant (r : Registry) (e : ServiceEntry) (s : string) (g : N) :
  Registry.wf r ->
  (r.(Registry.next_gen) + 1 < U64_SIZE)%N ->
  Registry.wf Registry.default
  /\ Registry.wf (Registry.insert r e).1
  /\ (r.(Registry.next_gen) < (Registry.insert r e).2)%N
  /\ (forall s' e', Registry.get r s' = Some e' ->
        e'.(ServiceEntry.generation) < (Registry.insert r e).2)%N
  /\ Registry.get (Registry.insert r e).1 e.(ServiceEntry.service)
      = Some (ServiceEntry.set_generation (Registry.insert r e).2 e)
  /\ Registry.wf (Registry.remove_if r s g).1.
Proof.
  intros Hwf Hb. destruct (Registry.insert r e) as [r' g'] eqn:Hins.
  destruct (registry_insert_wf r e r' g' Hwf Hb Hins) as (Hwf' & Hg' & _).
  destruct (Registry.remove_if r s g) as [r'' rm] eqn:Hrm.
  destruct (registry_remove_if_wf r s g r'' rm Hwf Hrm) as (Hwf'' & _).
  split_and!; auto with bus; simpl.
  - lia.
  - intros s' e' He'. apply (Registry.wf_gen r Hwf) in He'. lia.
  - rewrite (registry_insert_get r e r' g' _ Hins). by rewrite decide_True.
Qed.

Lemma registry_invariant_witness :
  Registry.wf (Registry.insert Registry.default (example_entry "echo" 0)).1.
Proof.
  apply (registry_invariant Registry.default (example_entry "echo" 0) "echo" 1).
  - apply registry_wf_default.
  - reflexivity.
Defined.

(** A stale reader task cannot evict its successor. When a service
    registers twice, the clean-up [remove_if] of the first connection, which
    knows the first generation, removes nothing and leaves the second entry
    in place, whatever other services registered in between; [remove_if] with
    the current generation removes exactly that entry. *)
Lemma stale_remove_keeps_successor (r0 r1 r2 : Registry) (e1 e2 : ServiceEntry) (g1 g2 : N) :
  Registry.wf r0 ->
  (r0.(Registry.next_gen) + 2 < U64_SIZE)%N ->
  e1.(ServiceEntry.service) = e2.(ServiceEntry.service) ->
  Registry.insert r0 e1 = (r1, g1) ->
  Registry.insert r1 e2 = (r2, g2) ->
  Registry.remove_if r2 e1.(ServiceEntry.service) g1 = (r2, false)
  /\ (forall s, Registry.get (Registry.remove_if r2 e1.(ServiceEntry.service) g2).1 s
        = if decide (s = e1.(ServiceEntry.service)) then None else Registry.get r0 s).
Proof.
  intros Hwf Hb Hs H1 H2.
  destruct (registry_insert_wf r0 e1 r1 g1 Hwf ltac:(lia) H1) as (Hwf1 & Hg1 & Hn1).
  destruct (registry_insert_wf r1 e2 r2 g2 Hwf1 ltac:(lia) H2) as (Hwf2 & Hg2 & Hn2).
  assert (Hget : Registry.get r2 e1.(ServiceEntry.service)
      = Some (ServiceEntry.set_generation g2 e2)).
  { rewrite (registry_insert_get _ _ _ _ _ H2). by rewrite decide_True. }
  unfold Registry.get in Hget. split.
  - unfold Registry.remove_if. rewrite Hget. simpl. rewrite decide_False by lia. done.
  - intros s. destruct (Registry.remove_if r2 _ g2) as [r3 rm] eqn:Hrm. simpl.
    rewrite (registry_remove_if_get _ _ _ _ _ s Hrm).
    unfold Registry.remove_if in Hrm. rewrite Hget in Hrm. simpl in Hrm.
    rewrite decide_True in Hrm by done. simplify_eq.
    rewrite (registry_insert_get _ _ _ _ s H2), (registry_insert_get _ _ _ _ s H1).
    rewrite Hs. repeat case_decide; naive_solver.
Qed.

Lemma stale_remove_keeps_successor_witness :
  let r1 := Registry.insert Registry.default (example_entry "echo" 0) in
  let r2 := Registry.insert r1.1 (example_entry "echo" 1) in
  Registry.remove_if r2.1 "echo" r1.2 = (r2.1, false).
Proof.
  intros r1 r2.
  apply (stale_remove_keeps_successor Registry.default r1.1 r2.1
    (example_entry "echo" 0) (example_entry "echo" 1) r1.2 r2.2).
  - apply registry_wf_default.
  - reflexivity.
  - reflexivity.
  - reflexivity.
  - reflexivity.
Defined.
