(* ===== verification/Broker.v ===== *)
(** The broker facade (crates/broker/src/broker.rs): its shared state, and
    one definition per operation.

    [DashMap]s and the [Mutex<HashMap>] are finite maps updated atomically.
    The objects a connection's task allocates and shares through [Arc]s (its
    outbound channel, its table of pending calls, its request counter) live in
    [Heap], under the number of the connection; handles hold that number, so
    a clone of a handle aliases the same object.  The oneshot channel of a
    call is a cell of [replies] under the number of the call.

    [call_with_timeout] is cut at every access to shared state: [CallPc] is
    its program counter and [call_step] the next access.  So are [fanout]
    ([FanPc], [fan_step]), [register_local_service] and [detach_session] (one
    definition per access).  System.v interleaves these steps with the
    sessions; [call_begin] runs those of a call uninterrupted. *)

From stdpp Require Import prelude gmap strings.
From S2P Require Import Prelude Frame Runtime Registry.

(** The number of a call of [call_with_timeout]. *)
Abbreviation call_id := N.

Module BrokerConfig.
Record BrokerConfig := mk {
  heartbeat_interval : Duration;
  default_call_timeout : Duration
}.
Definition default : BrokerConfig :=
  {| heartbeat_interval := duration_from_secs 15;
     default_call_timeout := duration_from_secs 30 |}.
End BrokerConfig.
Abbreviation BrokerConfig := BrokerConfig.BrokerConfig.

Module ServiceCapabilities.
Record ServiceCapabilities := mk { version : string; methods : gset string }.
End ServiceCapabilities.
Abbreviation ServiceCapabilities := ServiceCapabilities.ServiceCapabilities.

Module CapabilityResponse.
Record CapabilityResponse := mk { version : string; methods : list string }.
End CapabilityResponse.
Abbreviation CapabilityResponse := CapabilityResponse.CapabilityResponse.

(** The host's [Arc<dyn Fn(..)>], by identity: its code is not in src/. *)
Abbreviation LocalServiceHandler := N.

(** The arguments of a [call_with_timeout]. *)
Module CallArgs.
Record CallArgs := mk {
  service : string;
  method : string;
  payload : bytes;
  caller : CallerCtx;
  timeout : Duration
}.
End CallArgs.
Abbreviation CallArgs := CallArgs.CallArgs.

(** A session's shared objects, by the connection that allocated them. *)
Module SessionHandle.
Record SessionHandle := mk { pending_out : conn_id; next_req_id : conn_id }.
End SessionHandle.
Abbreviation SessionHandle := SessionHandle.SessionHandle.

Module Broker.
Record Broker := mk {
  config : BrokerConfig;
  registry : Registry;
  next_client_id : N;
  tokens : gmap string string;
  sessions : gmap (string * N) SessionHandle;
  subscriptions : gmap string (gset string);
  local_services : gmap string LocalServiceHandler;
  local_service_methods : gmap string (list MethodDecl);
  capabilities : gmap string ServiceCapabilities
}.

(** Field assignments. *)
Definition set_registry v (b : Broker) : Broker :=
  mk b.(config) v b.(next_client_id) b.(tokens) b.(sessions) b.(subscriptions)
     b.(local_services) b.(local_service_methods) b.(capabilities).
Definition set_next_client_id v (b : Broker) : Broker :=
  mk b.(config) b.(registry) v b.(tokens) b.(sessions) b.(subscriptions)
     b.(local_services) b.(local_service_methods) b.(capabilities).
Definition set_tokens v (b : Broker) : Broker :=
  mk b.(config) b.(registry) b.(next_client_id) v b.(sessions) b.(subscriptions)
     b.(local_services) b.(local_service_methods) b.(capabilities).
Definition set_sessions v (b : Broker) : Broker :=
  mk b.(config) b.(registry) b.(next_client_id) b.(tokens) v b.(subscriptions)
     b.(local_services) b.(local_service_methods) b.(capabilities).
Definition set_subscriptions v (b : Broker) : Broker :=
  mk b.(config) b.(registry) b.(next_client_id) b.(tokens) b.(sessions) v
     b.(local_services) b.(local_service_methods) b.(capabilities).
Definition set_locals v vm (b : Broker) : Broker :=
  mk b.(config) b.(registry) b.(next_client_id) b.(tokens) b.(sessions)
     b.(subscriptions) v vm b.(capabilities).
Definition set_capabilities v (b : Broker) : Broker :=
  mk b.(config) b.(registry) b.(next_client_id) b.(tokens) b.(sessions)
     b.(subscriptions) b.(local_services) b.(local_service_methods) v.

(** [Broker::new]. *)
Definition new (config : BrokerConfig) : Broker :=
  {| config := config; registry := Registry.default; next_client_id := 1;
     tokens := ∅; sessions := ∅; subscriptions := ∅; local_services := ∅;
     local_service_methods := ∅; capabilities := ∅ |}.

(** [random_token]: the clock ([None] before the epoch), the process id and
    the value drawn from the static counter. *)
Definition random_token (now_ns : option N) (pid ctr : N) : string :=
  let ns := default 0%N (as_u64 <$> now_ns) in
  fmt_hex 16 ns +:+ fmt_hex 8 pid +:+ fmt_hex 16 ctr.

(** [issue_token]: [ctr] is the static counter of [random_token]. *)
Definition issue_token (b : Broker) (now_ns : option N) (pid ctr : N) (service : string)
    : Broker * N * string :=
  let '(c, ctr) := fetch_add1 ctr in
  let token := random_token now_ns pid c in
  (set_tokens (<[service := token]> b.(tokens)) b, ctr, token).

(** [consume_token]: the token is removed whether or not it matches. *)
Definition consume_token (b : Broker) (service token : string) : Broker * bool :=
  match b.(tokens) !! service with
  | Some expected =>
      (set_tokens (delete service b.(tokens)) b, bool_decide (expected = token))
  | None => (b, false)
  end.

(** [register_local_service]: the catalog first, then the handler. *)
Definition register_local_methods (b : Broker) (service : string) (methods : list MethodDecl)
    : Broker :=
  set_locals b.(local_services) (<[service := methods]> b.(local_service_methods)) b.
Definition register_local_handler (b : Broker) (service : string) (handler : LocalServiceHandler)
    : Broker :=
  set_locals (<[service := handler]> b.(local_services)) b.(local_service_methods) b.

Definition has_local_service (b : Broker) (service : string) : bool :=
  bool_decide (is_Some (b.(local_services) !! service)).
Definition get_local_service_methods (b : Broker) (service : string) : option (list MethodDecl) :=
  b.(local_service_methods) !! service.
Definition local_service_names (b : Broker) : list string :=
  (map_to_list b.(local_services)).*1.
Definition registry_methods (b : Broker) (service : string) : option (list MethodDecl) :=
  ServiceEntry.methods <$> Registry.get b.(registry) service.
Definition registry_data_plane (b : Broker) (service : string) : option DataPlaneSocket :=
  e ← Registry.get b.(registry) service; e.(ServiceEntry.data_plane).
Definition get_capabilities (b : Broker) (service : string) : option ServiceCapabilities :=
  b.(capabilities) !! service.

(** [subscribe], [unsubscribe]. *)
Definition subscribe (b : Broker) (service prefix : string) : Broker :=
  let s := default ∅ (b.(subscriptions) !! service) in
  set_subscriptions (<[service := {[prefix]} ∪ s]> b.(subscriptions)) b.
Definition unsubscribe (b : Broker) (service prefix : string) : Broker :=
  match b.(subscriptions) !! service with
  | Some s => set_subscriptions (<[service := s ∖ {[prefix]}]> b.(subscriptions)) b
  | None => b
  end.

(** [next_client_id]. *)
Definition take_client_id (b : Broker) : Broker * N :=
  let '(id, next) := fetch_add1 b.(next_client_id) in (set_next_client_id next b, id).

(** [attach_session], and the first two accesses of [detach_session]; the
    third, when [should_remove], is [forget_capabilities]. *)
Definition attach_session (b : Broker) (service : string) (generation : N)
    (handle : SessionHandle) : Broker :=
  set_sessions (<[(service, generation) := handle]> b.(sessions)) b.
Definition remove_session (b : Broker) (service : string) (generation : N) : Broker :=
  set_sessions (delete (service, generation) b.(sessions)) b.
Definition should_remove (b : Broker) (service : string) (generation : N) : bool :=
  default true ((fun e => bool_decide (e.(ServiceEntry.generation) = generation))
                  <$> Registry.get b.(registry) service).

(** [capabilities.remove]: in [detach_session], and in [probe_capabilities]
    before its task is spawned. *)
Definition forget_capabilities (b : Broker) (service : string) : Broker :=
  set_capabilities (delete service b.(capabilities)) b.
(** The end of the probe task: is the probed registration still current? *)
Definition still_current (b : Broker) (service : string) (generation : N) : bool :=
  default false ((fun e => bool_decide (e.(ServiceEntry.generation) = generation))
                   <$> Registry.get b.(registry) service).
Definition store_capabilities (b : Broker) (service : string) (r : CapabilityResponse) : Broker :=
  set_capabilities
    (<[service := {| ServiceCapabilities.version := r.(CapabilityResponse.version);
                     ServiceCapabilities.methods := list_to_set r.(CapabilityResponse.methods) |}]>
       b.(capabilities)) b.
(** [call]: a [call_with_timeout] with the configured timeout. *)
Definition call (b : Broker) (service method : string) (payload : bytes) (caller : CallerCtx)
    : CallArgs := {|
  CallArgs.service := service; CallArgs.method := method; CallArgs.payload := payload;
  CallArgs.caller := caller; CallArgs.timeout := b.(config).(BrokerConfig.default_call_timeout) |}.
End Broker.
Abbreviation Broker := Broker.Broker.

(** * Shared objects *)

Section heap.
Context {Q : Type} `{Mpsc Q BusFrame}.

Record Heap := mkHeap {
  channels : gmap conn_id Q;
  pendings : gmap conn_id (gmap N call_id);
  req_counters : gmap conn_id N;
  replies : gmap call_id Response
}.

Definition empty_heap : Heap := mkHeap ∅ ∅ ∅ ∅.
Definition set_channels v (h : Heap) : Heap := mkHeap v (pendings h) (req_counters h) (replies h).
Definition set_pendings v (h : Heap) : Heap := mkHeap (channels h) v (req_counters h) (replies h).
Definition set_req_counters v (h : Heap) : Heap := mkHeap (channels h) (pendings h) v (replies h).
Definition set_replies v (h : Heap) : Heap := mkHeap (channels h) (pendings h) (req_counters h) v.

(** [tx.send(frame)]; [None]: the receiver is gone. *)
Definition chan_send (h : Heap) (c : conn_id) (f : BusFrame) : option Heap :=
  q ← channels h !! c; q' ← mpsc_send q f;
  Some (set_channels (<[c := q']> (channels h)) h).

(** [let _ = tx.send(frame)]. *)
Definition chan_send_ (h : Heap) (c : conn_id) (f : BusFrame) : Heap :=
  default h (chan_send h c f).

(** The receiver of a connection's channel is dropped. *)
Definition chan_drop_rx (h : Heap) (c : conn_id) : Heap :=
  set_channels (alter mpsc_drop_rx c (channels h)) h.

(** [pending_out] as a map from request ids to calls. *)
Definition pending_of (h : Heap) (c : conn_id) : gmap N call_id := default ∅ (pendings h !! c).
Definition set_pending (c : conn_id) (p : gmap N call_id) (h : Heap) : Heap :=
  set_pendings (<[c := p]> (pendings h)) h.

(** * call_with_timeout *)

Inductive CallPc :=
| CStart
| CLocal (handler : LocalServiceHandler)
| CRegistry
| CSession (entry : ServiceEntry)
| CRegister (entry : ServiceEntry) (handle : SessionHandle)
| CSend (entry : ServiceEntry) (handle : SessionHandle) (req_id : N)
| CAwaitLocal (handler : LocalServiceHandler)
| CAwaitRemote (handle : SessionHandle) (req_id : N)
| CDone (res : result bytes BusError).

Definition find_method (methods : list MethodDecl) (method : string) : option MethodDecl :=
  find (fun m => bool_decide (m.(MethodDecl.name) = method)) methods.

(** The catalog check: the method is declared, and an authenticated method
    has an authenticated caller. *)
Definition check_method (methods : list MethodDecl) (a : CallArgs) : result unit BusError :=
  (let? decl := ok_or (find_method methods a.(CallArgs.method))
                  (BusError.MethodNotFound a.(CallArgs.service) a.(CallArgs.method)) in
   if decl.(MethodDecl.requires_auth) && bool_decide (a.(CallArgs.caller).(CallerCtx.user_id) = None)
   then Err (BusError.Unauthorized a.(CallArgs.service) a.(CallArgs.method))
   else Ok tt)%res.

(** 1. local services take precedence; *)
Definition call_local (b : Broker) (a : CallArgs) : CallPc :=
  match b.(Broker.local_services) !! a.(CallArgs.service) with
  | Some handler => CLocal handler
  | None => CRegistry
  end.

(** their catalog is a map of its own. *)
Definition call_catalog (b : Broker) (a : CallArgs) (handler : LocalServiceHandler) : CallPc :=
  let checked :=
    match b.(Broker.local_service_methods) !! a.(CallArgs.service) with
    | Some methods => check_method methods a
    | None => Ok tt
    end in
  match checked with
  | Err e => CDone (Err e)
  | Ok _ => CAwaitLocal handler
  end.

(** 2. the registry entry and its catalog. *)
Definition call_registry (b : Broker) (a : CallArgs) : CallPc :=
  match Registry.get b.(Broker.registry) a.(CallArgs.service) with
  | None => CDone (Err (BusError.ServiceNotFound a.(CallArgs.service)))
  | Some entry =>
      match check_method entry.(ServiceEntry.methods) a with
      | Err e => CDone (Err e)
      | Ok _ => CSession entry
      end
  end.

(** The warning of step 2: the cached capabilities do not list the method. *)
Definition unadvertised (b : Broker) (a : CallArgs) : bool :=
  match b.(Broker.capabilities) !! a.(CallArgs.service) with
  | Some c => bool_decide (a.(CallArgs.method) <> "capabilities")
              && bool_decide (a.(CallArgs.method) ∉ c.(ServiceCapabilities.methods))
  | None => false
  end.

(** 3. the session of that generation. *)
Definition call_session (b : Broker) (a : CallArgs) (entry : ServiceEntry) : CallPc :=
  match b.(Broker.sessions) !! (a.(CallArgs.service), entry.(ServiceEntry.generation)) with
  | None => CDone (Err (BusError.ServiceNotFound a.(CallArgs.service)))
  | Some handle => CRegister entry handle
  end.

(** 4. a request id and the entry of the pending table. *)
Definition call_register (h : Heap) (id : call_id) (entry : ServiceEntry) (handle : SessionHandle)
    : Heap * CallPc :=
  let '(req_id, next) :=
    fetch_add1 (default 1%N (req_counters h !! handle.(SessionHandle.next_req_id))) in
  let h := set_req_counters (<[handle.(SessionHandle.next_req_id) := next]> (req_counters h)) h in
  let c := handle.(SessionHandle.pending_out) in
  (set_pending c (<[req_id := id]> (pending_of h c)) h, CSend entry handle req_id).

Definition invoke_frame (a : CallArgs) (req_id : N) : BusFrame :=
  BusFrame.Invoke {| Invoke.req_id := req_id; Invoke.method := a.(CallArgs.method);
                     Invoke.payload := a.(CallArgs.payload); Invoke.caller := a.(CallArgs.caller) |}.

(** 5. the frame is handed to the writer task of the session. *)
Definition call_send (h : Heap) (a : CallArgs) (entry : ServiceEntry) (handle : SessionHandle)
    (req_id : N) : Heap * CallPc :=
  match chan_send h entry.(ServiceEntry.tx) (invoke_frame a req_id) with
  | None => (h, CDone (Err (BusError.ServiceNotFound a.(CallArgs.service))))
  | Some h' => (h', CAwaitRemote handle req_id)
  end.

(** The next access to shared state; [None] while the call awaits. *)
Definition call_step (b : Broker) (h : Heap) (id : call_id) (a : CallArgs) (pc : CallPc)
    : option (Heap * CallPc) :=
  match pc with
  | CStart => Some (h, call_local b a)
  | CLocal handler => Some (h, call_catalog b a handler)
  | CRegistry => Some (h, call_registry b a)
  | CSession entry => Some (h, call_session b a entry)
  | CRegister entry handle => Some (call_register h id entry handle)
  | CSend entry handle req_id => Some (call_send h a entry handle req_id)
  | CAwaitLocal _ | CAwaitRemote _ _ | CDone _ => None
  end.

Fixpoint call_run (fuel : nat) (b : Broker) (h : Heap) (id : call_id) (a : CallArgs) (pc : CallPc)
    : Heap * CallPc :=
  match fuel with
  | O => (h, pc)
  | S fuel =>
      match call_step b h id a pc with
      | Some (h', pc') => call_run fuel b h' id a pc'
      | None => (h, pc)
      end
  end.

(** The call up to its await point, with no other task in between. *)
Definition call_begin (b : Broker) (h : Heap) (id : call_id) (a : CallArgs) : Heap * CallPc :=
  call_run 5 b h id a CStart.

(** The oneshot receiver yields the response. *)
Definition call_reply (resp : Response) : CallPc := CDone resp.(Response.result).

Definition timeout_error (a : CallArgs) : BusError :=
  BusError.Timeout (as_u64 (as_millis a.(CallArgs.timeout))).

(** The timer fires first: the pending entry is withdrawn. *)
Definition call_timeout (h : Heap) (a : CallArgs) (handle : SessionHandle) (req_id : N)
    : Heap * CallPc :=
  let c := handle.(SessionHandle.pending_out) in
  (set_pending c (delete req_id (pending_of h c)) h, CDone (Err (timeout_error a))).

(** session.rs, the [Response] frame: the waiting call is woken. *)
Definition wake (h : Heap) (c : conn_id) (resp : Response) : Heap :=
  match pending_of h c !! resp.(Response.req_id) with
  | Some id =>
      set_replies (<[id := resp]> (replies h))
        (set_pending c (delete resp.(Response.req_id) (pending_of h c)) h)
  | None => h
  end.

(** * Shutdown and events *)

(** [shutdown_service]: the channel of the entry, then the send. *)
Definition shutdown_target (b : Broker) (service : string) : result conn_id BusError :=
  match Registry.get b.(Broker.registry) service with
  | None => Err (BusError.ServiceNotFound service)
  | Some entry => Ok entry.(ServiceEntry.tx)
  end.
Definition shutdown_send (h : Heap) (tx : conn_id) : Heap * result unit BusError :=
  match chan_send h tx BusFrame.Shutdown with
  | None => (h, Err BusError.ConnectionClosed)
  | Some h' => (h', Ok tt)
  end.

(** [fanout]: the subscribers whose prefixes match, the publisher excepted. *)
Definition matches (topic : string) (prefixes : gset string) : bool :=
  existsb (fun p => starts_with topic p) (elements prefixes).
Definition targets (subs : gmap string (gset string)) (from_service : string) (topic : string)
    : list string :=
  (filter (fun '(svc, prefixes) => svc <> from_service /\ matches topic prefixes = true)
     (map_to_list subs)).*1.

(** Where [fanout] is: about to look up the next subscriber, or about to send
    to the channel of the entry it has found. *)
Inductive FanPc :=
| FNext (targets : list string)
| FSend (tx : conn_id) (targets : list string).

(** The event is stamped with its publisher, and the subscribers are listed
    under the lock of the subscriptions. *)
Definition fanout (b : Broker) (from_service : string) (ev : Event) : Event * FanPc :=
  let ev := Event.set_from (Some from_service) ev in
  (ev, FNext (targets b.(Broker.subscriptions) from_service ev.(Event.topic))).

(** The next access of the loop; [None]: it has ended. *)
Definition fan_step (b : Broker) (h : Heap) (ev : Event) (pc : FanPc) : Heap * option FanPc :=
  match pc with
  | FNext [] => (h, None)
  | FNext (subscriber :: targets) =>
      (h, Some match Registry.get b.(Broker.registry) subscriber with
               | Some entry => FSend entry.(ServiceEntry.tx) targets
               | None => FNext targets
               end)
  | FSend tx targets => (chan_send_ h tx (BusFrame.Event ev), Some (FNext targets))
  end.

End heap.
Arguments Heap Q : clear implicits.

(** * Observations and lemmas *)

Section heap_lemmas.
Context {Q : Type} `{LawfulMpsc Q BusFrame}.
Implicit Types h : Heap Q.

(** The frames handed to a connection's writer and not yet taken by it. *)
Definition chan_queue h (c : conn_id) : list BusFrame := default [] (queued <$> channels h !! c).
(** The writer still holds the receiver. *)
Definition chan_open h (c : conn_id) : bool := default false (rx_alive <$> channels h !! c).

(** Only the frames queued on channels differ. *)
Record same_tables h h' : Prop := {
  same_pendings : pendings h' = pendings h;
  same_counters : req_counters h' = req_counters h;
  same_replies : replies h' = replies h;
  same_open c : chan_open h' c = chan_open h c
}.

#[export] Instance same_tables_refl : Reflexive same_tables.
Proof. by split. Qed.
#[export] Instance same_tables_trans : Transitive same_tables.
Proof. intros h1 h2 h3 [] []. split; congruence. Qed.

(** The method is declared and, when it requires authentication, the caller
    is authenticated. *)
Definition admitted (ms : list MethodDecl) (m : string) (c : CallerCtx) : Prop :=
  exists d, find_method ms m = Some d
    /\ (d.(MethodDecl.requires_auth) = true -> c.(CallerCtx.user_id) <> None).

(** The connections of distinct registered services are distinct. *)
Definition tx_distinct (r : Registry) : Prop :=
  forall s1 s2 e1 e2, Registry.get r s1 = Some e1 -> Registry.get r s2 = Some e2 ->
    e1.(ServiceEntry.tx) = e2.(ServiceEntry.tx) -> s1 = s2.

Lemma pending_of_same h h' c : same_tables h h' -> pending_of h' c = pending_of h c.
Proof. intros [Hp _ _ _]. unfold pending_of. by rewrite Hp. Qed.

Lemma chan_send_Some h c f h' :
  chan_send h c f = Some h' ->
  chan_open h c = true /\ same_tables h h'
  /\ forall c', chan_queue h' c' = if decide (c' = c) then chan_queue h c ++ [f] else chan_queue h c'.
Proof.
  unfold chan_send. intros (q & Hq & (q' & Hs & [= <-])%bind_Some)%bind_Some.
  destruct (send_Some q f q' Hs) as (Ha & Hqueue & Ha').
  unfold chan_open, chan_queue. rewrite Hq. simpl. split_and!; [done| |].
  - split; [done..|]. intros c'. unfold chan_open. simpl. destruct (decide (c = c')) as [->|Hne].
    + by rewrite lookup_insert_eq, Hq; simpl; rewrite Ha, Ha'.
    + by rewrite lookup_insert_ne.
  - intros c'. simpl. case_decide as Hc.
    + subst c'. by rewrite lookup_insert_eq; simpl.
    + by rewrite lookup_insert_ne by done.
Qed.

Lemma chan_send_None h c f : chan_send h c f = None <-> chan_open h c = false.
Proof.
  unfold chan_send, chan_open. destruct (channels h !! c) as [q|] eqn:Hq; simpl; [|done].
  rewrite <-(send_None q f). destruct (mpsc_send q f); done.
Qed.

Lemma chan_send_open h c f :
  chan_open h c = true -> exists h', chan_send h c f = Some h'.
Proof.
  intros Ho. destruct (chan_send h c f) eqn:Hs; [eauto|].
  apply chan_send_None in Hs. congruence.
Qed.

(** Sending and ignoring the outcome. *)
Lemma chan_send_spec h c f :
  same_tables h (chan_send_ h c f)
  /\ forall c', chan_queue (chan_send_ h c f) c' =
       chan_queue h c' ++ (if decide (c' = c /\ chan_open h c = true) then [f] else []).
Proof.
  unfold chan_send_. destruct (chan_send h c f) as [h'|] eqn:Hs; simpl.
  - destruct (chan_send_Some h c f h' Hs) as (Ho & Hsame & Hq). split; [done|].
    intros c'. rewrite Hq. repeat case_decide; try naive_solver. by rewrite app_nil_r.
  - apply chan_send_None in Hs. split; [done|]. intros c'.
    rewrite decide_False by (intros [_ ?]; congruence). by rewrite app_nil_r.
Qed.

Lemma chan_drop_rx_open h c c' :
  chan_open (chan_drop_rx h c) c' = if decide (c' = c) then false else chan_open h c'.
Proof.
  unfold chan_open, chan_drop_rx. simpl. case_decide as Hc.
  - subst c'. rewrite lookup_alter_eq. destruct (channels h !! c); simpl; [apply drop_alive | done].
  - by rewrite lookup_alter_ne.
Qed.

Lemma chan_drop_rx_queue h c c' :
  chan_queue (chan_drop_rx h c) c' = if decide (c' = c) then [] else chan_queue h c'.
Proof.
  unfold chan_queue, chan_drop_rx. simpl. case_decide as Hc.
  - subst c'. rewrite lookup_alter_eq. destruct (channels h !! c); simpl; [apply drop_queued | done].
  - by rewrite lookup_alter_ne.
Qed.

Lemma pending_of_set h c p c' :
  pending_of (set_pending c p h) c' = if decide (c' = c) then p else pending_of h c'.
Proof.
  unfold pending_of, set_pending. simpl. case_decide as Hc.
  - subst. by rewrite lookup_insert_eq.
  - by rewrite lookup_insert_ne.
Qed.

(** ** The catalog check *)

Lemma find_method_Some ms m d :
  find_method ms m = Some d -> d ∈ ms /\ d.(MethodDecl.name) = m.
Proof.
  intros Hf. apply find_some in Hf as [Hin Hn].
  split; [by apply list_elem_of_In | by apply bool_decide_eq_true in Hn].
Qed.

Lemma find_method_None ms m :
  find_method ms m = None <-> forall d, d ∈ ms -> d.(MethodDecl.name) <> m.
Proof.
  split.
  - intros Hf d Hd Heq. apply list_elem_of_In in Hd.
    pose proof (find_none _ _ Hf d Hd) as Hn. simpl in Hn.
    by apply bool_decide_eq_false in Hn.
  - intros Hall. destruct (find_method ms m) as [d|] eqn:Hf; [|done].
    apply find_method_Some in Hf as [Hd Hn]. by apply Hall in Hd.
Qed.

Lemma check_method_ok ms (a : CallArgs) :
  check_method ms a = Ok tt <-> admitted ms a.(CallArgs.method) a.(CallArgs.caller).
Proof.
  unfold check_method, admitted. destruct (find_method ms _) as [d|]; simpl.
  2: { split; [done | by intros (? & ? & ?)]. }
  destruct (MethodDecl.requires_auth d) eqn:Hr; simpl;
    destruct (CallerCtx.user_id (CallArgs.caller a)) eqn:Hu; simpl; split; try done;
    try (intros _; exists d; split; [done | intros Hr'; congruence]).
  intros (d' & [= <-] & Hd). by destruct (Hd Hr).
Qed.

Lemma check_method_err ms (a : CallArgs) e :
  check_method ms a = Err e <->
    find_method ms a.(CallArgs.method) = None
      /\ e = BusError.MethodNotFound a.(CallArgs.service) a.(CallArgs.method)
    \/ exists d, find_method ms a.(CallArgs.method) = Some d
      /\ d.(MethodDecl.requires_auth) = true
      /\ a.(CallArgs.caller).(CallerCtx.user_id) = None
      /\ e = BusError.Unauthorized a.(CallArgs.service) a.(CallArgs.method).
Proof.
  unfold check_method. destruct (find_method ms _) as [d|]; simpl.
  - destruct (MethodDecl.requires_auth d) eqn:Hr; simpl;
      destruct (CallerCtx.user_id (CallArgs.caller a)) eqn:Hu; simpl; split; try done;
      try (intros [[? ?]|(d' & [= <-] & ? & ? & ?)]; congruence).
    intros [= <-]. right. by exists d.
  - split; [intros [= <-]; by left|]. by intros [[_ ->]|(d & ? & ?)].
Qed.

Lemma check_method_cases ms (a : CallArgs) :
  check_method ms a = Ok tt \/ exists e, check_method ms a = Err e.
Proof. destruct (check_method ms a) as [[]|]; eauto. Qed.

(** ** Events *)

(** A step of a fan-out sends its event to the channel it has found, or
    changes nothing. *)
Definition fan_sends (pc : FanPc) : option conn_id :=
  match pc with FSend tx _ => Some tx | FNext _ => None end.

(** The services a fan-out has still to look up. *)
Definition fan_left (pc : FanPc) : list string :=
  match pc with FNext l | FSend _ l => l end.

Lemma matches_spec topic ps :
  matches topic ps = true <-> exists p, p ∈ ps /\ starts_with topic p = true.
Proof.
  unfold matches. rewrite existsb_exists. split.
  - intros (p & Hp%list_elem_of_In%elem_of_elements & Hs). eauto.
  - intros (p & Hp & Hs). exists p. split; [|done].
    by apply list_elem_of_In, elem_of_elements.
Qed.

Lemma elem_of_targets subs from topic svc :
  svc ∈ targets subs from topic <->
    svc <> from /\ exists ps, subs !! svc = Some ps /\ matches topic ps = true.
Proof.
  unfold targets. rewrite list_elem_of_fmap. split.
  - intros ([s ps] & -> & Hin). apply list_elem_of_filter in Hin as [[Hne Hm] Hin].
    apply elem_of_map_to_list in Hin. simpl. eauto.
  - intros (Hne & ps & Hps & Hm). exists (svc, ps). split; [done|].
    apply list_elem_of_filter. split; [done|]. by apply elem_of_map_to_list.
Qed.

Lemma NoDup_targets subs from topic : NoDup (targets subs from topic).
Proof.
  unfold targets. eapply sublist_NoDup; [apply (NoDup_fst_map_to_list subs)|].
  apply fmap_sublist. apply sublist_filter.
Qed.

Lemma fan_step_spec b h ev pc :
  same_tables h (fan_step b h ev pc).1
  /\ forall c, chan_queue (fan_step b h ev pc).1 c = chan_queue h c ++
       (if decide (fan_sends pc = Some c /\ chan_open h c = true)
        then [BusFrame.Event ev] else []).
Proof.
  destruct pc as [[|s l]|tx l]; simpl; [split; [done|by intros c; rewrite app_nil_r]..|].
  destruct (chan_send_spec h tx (BusFrame.Event ev)) as [Hs Hq]. split; [done|].
  intros c. rewrite Hq. f_equal. repeat case_decide; naive_solver.
Qed.

End heap_lemmas.

#[export] Hint Resolve NoDup_targets : bus.

(** * Properties *)

Section properties.
Context {Q : Type} `{LawfulMpsc Q BusFrame}.
Implicit Types h : Heap Q.

Lemma call_begin_local b h id (a : CallArgs) handler :
  b.(Broker.local_services) !! a.(CallArgs.service) = Some handler ->
  call_begin b h id a = (h, call_catalog b a handler).
Proof.
  intros Hl. unfold call_begin. cbn [call_run call_step].
  unfold call_local. rewrite Hl. cbn [call_run call_step].
  unfold call_catalog. by repeat case_match.
Qed.

Lemma call_begin_remote b h id (a : CallArgs) entry handle :
  b.(Broker.local_services) !! a.(CallArgs.service) = None ->
  Registry.get b.(Broker.registry) a.(CallArgs.service) = Some entry ->
  admitted entry.(ServiceEntry.methods) a.(CallArgs.method) a.(CallArgs.caller) ->
  b.(Broker.sessions) !! (a.(CallArgs.service), entry.(ServiceEntry.generation)) = Some handle ->
  call_begin b h id a =
    let '(h1, pc1) := call_register h id entry handle in
    match pc1 with
    | CSend entry handle req_id => call_send h1 a entry handle req_id
    | _ => (h1, pc1)
    end.
Proof.
  intros Hl He Ha%check_method_ok Hs. unfold call_begin. cbn [call_run call_step].
  unfold call_local. rewrite Hl. cbn [call_run call_step].
  unfold call_registry. rewrite He, Ha. cbn [call_run call_step].
  unfold call_session. rewrite Hs. cbn [call_run call_step].
  unfold call_register. cbn [fetch_add1]. cbn [call_run call_step].
  by destruct (call_send _ _ _ _ _).
Qed.


(** What a subscription matches. After [subscribe], every topic of which
    the prefix is a string prefix is delivered to the subscriber, whether or
    not the next character is a dot; [unsubscribe] removes exactly that
    prefix, and neither changes what other services receive. *)
Lemma subscription_prefix (b : Broker) (svc prefix rest : string) :
  (forall from, svc <> from ->
     svc ∈ targets (Broker.subscriptions (Broker.subscribe b svc prefix)) from (prefix +:+ rest))
  /\ (forall from topic,
        svc ∈ targets (Broker.subscriptions (Broker.unsubscribe b svc prefix)) from topic
        <-> svc <> from /\ exists ps p, b.(Broker.subscriptions) !! svc = Some ps /\ p ∈ ps
              /\ p <> prefix /\ starts_with topic p = true)
  /\ (forall from topic other, other <> svc ->
        (other ∈ targets (Broker.subscriptions (Broker.subscribe b svc prefix)) from topic
         <-> other ∈ targets b.(Broker.subscriptions) from topic)
        /\ (other ∈ targets (Broker.subscriptions (Broker.unsubscribe b svc prefix)) from topic
            <-> other ∈ targets b.(Broker.subscriptions) from topic)).
Proof.
  unfold Broker.subscribe, Broker.unsubscribe. split_and!.
  - intros from Hne. apply elem_of_targets. split; [done|]. simpl.
    eexists. rewrite lookup_insert_eq. split; [done|].
    apply matches_spec. exists prefix. split; [set_solver|]. apply starts_with_spec. eauto.
  - intros from topic. rewrite elem_of_targets. apply and_iff_compat_l.
    destruct (Broker.subscriptions b !! svc) as [ps|] eqn:Hps; simpl.
    + rewrite lookup_insert_eq. setoid_rewrite matches_spec. split.
      * intros (ps' & [= <-] & p & [Hp Hne]%elem_of_difference & Hst).
        exists ps, p. split_and!; [done | done | set_solver | done].
      * intros (ps' & p & [= <-] & Hp & Hne & Hst). eexists. split; [done|].
        exists p. split; [set_solver | done].
    + rewrite Hps. split; [by intros (? & ? & ?) | by intros (? & ? & ? & ?)].
  - intros from topic other Ho. rewrite !elem_of_targets. simpl.
    rewrite lookup_insert_ne by done. split; [done|].
    destruct (Broker.subscriptions b !! svc); simpl; by rewrite ?lookup_insert_ne by done.
Qed.

(** Spawn tokens are single use. A token just issued for a service admits
    exactly one [consume_token] with that token; any attempt, also one with a
    wrong token, removes it, so that every later attempt for the service
    fails until a token is issued again; other services are not affected. *)
Lemma token_single_use (b : Broker) (now : option N) (pid ctr : N) (svc : string) (t t' : string) :
  let '(b1, _, token) := Broker.issue_token b now pid ctr svc in
  (Broker.consume_token b1 svc token).2 = true
  /\ (t <> token -> (Broker.consume_token b1 svc t).2 = false)
  /\ (Broker.consume_token (Broker.consume_token b1 svc t).1 svc t').2 = false
  /\ (forall svc', svc' <> svc ->
        (Broker.consume_token b1 svc' t).2 = (Broker.consume_token b svc' t).2).
Proof.
  unfold Broker.issue_token. cbn [fetch_add1]. unfold Broker.consume_token. simpl.
  rewrite lookup_insert_eq. simpl. split_and!.
  - by apply bool_decide_eq_true.
  - intros Hne. by apply bool_decide_eq_false.
  - by rewrite lookup_delete_eq.
  - intros svc' Hne. rewrite lookup_insert_ne by done.
    by destruct (Broker.tokens b !! svc').
Qed.

(** Tokens are 40 hexadecimal characters that determine the clock reading,
    the process and the counter value they were made from; two tokens of one
    process drawn at different counter values therefore differ, whatever the
    clock does. *)
Lemma random_token_injective (now1 now2 : option N) (pid1 pid2 c1 c2 : N) :
  (pid1 < U32_SIZE)%N -> (pid2 < U32_SIZE)%N -> (c1 < U64_SIZE)%N -> (c2 < U64_SIZE)%N ->
  String.length (Broker.random_token now1 pid1 c1) = 40
  /\ (Broker.random_token now1 pid1 c1 = Broker.random_token now2 pid2 c2 ->
      default 0%N (as_u64 <$> now1) = default 0%N (as_u64 <$> now2) /\ pid1 = pid2 /\ c1 = c2).
Proof.
  intros Hp1 Hp2 Hc1 Hc2. unfold Broker.random_token.
  assert (Hns : forall o : option N, (default 0 (as_u64 <$> o) < 16 ^ 16)%N).
  { intros [n|]; [apply as_u64_lt | done]. }
  split.
  - by rewrite !string_length_app, !fmt_hex_length.
  - intros [H1 [H2 H3]%string_app_inj_l]%string_app_inj_l; rewrite ?fmt_hex_length; try done.
    apply (f_equal (hex_parse 0)) in H1, H2, H3.
    rewrite !fmt_hex_parse in H1 by apply Hns.
    rewrite !fmt_hex_parse in H2 by done. by rewrite !fmt_hex_parse in H3 by done.
Qed.

Lemma random_token_injective_witness :
  Broker.random_token (Some 1700000000000000000%N) 4242 0
  <> Broker.random_token (Some 1700000000000000000%N) 4242 1.
Proof.
  intros Heq.
  destruct (proj2 (random_token_injective (Some 1700000000000000000%N) (Some 1700000000000000000%N)
    4242 4242 0 1 eq_refl eq_refl eq_refl eq_refl) Heq) as (_ & _ & Hc).
  discriminate Hc.
Defined.

(** A response wakes exactly the call registered under its request id,
    once: the call gets the response, its entry is gone and a repeated
    response changes nothing, no other entry or reply is touched, and a
    response after the call's timer has fired wakes nobody. *)
Lemma response_wakes_once h (c : conn_id) (resp : Response) (id : call_id)
    (a : CallArgs) (handle : SessionHandle) :
  let rid := resp.(Response.req_id) in
  pending_of h c !! rid = Some id ->
  handle.(SessionHandle.pending_out) = c ->
  let h' := wake h c resp in
  replies h' !! id = Some resp
  /\ wake h' c resp = h'
  /\ (forall id', id' <> id -> replies h' !! id' = replies h !! id')
  /\ (forall c' rid', (c', rid') <> (c, rid) -> pending_of h' c' !! rid' = pending_of h c' !! rid')
  /\ (forall c', chan_queue h' c' = chan_queue h c')
  /\ wake (call_timeout h a handle rid).1 c resp = (call_timeout h a handle rid).1.
Proof.
  intros rid Hid Hc h'. subst h'.
  assert (Hpend : forall c', pending_of (wake h c resp) c'
      = if decide (c' = c) then delete rid (pending_of h c) else pending_of h c').
  { intros c'. unfold wake. fold rid. rewrite Hid.
    change (pending_of (set_replies ?r ?h0)) with (pending_of h0). apply pending_of_set. }
  split_and!.
  - unfold wake. fold rid. rewrite Hid. simpl. apply lookup_insert_eq.
  - unfold wake at 1. fold rid. rewrite Hpend, decide_True by done. by rewrite lookup_delete_eq.
  - intros id' Hne. unfold wake. fold rid. rewrite Hid. simpl. by rewrite lookup_insert_ne.
  - intros c' rid' Hne. rewrite Hpend. case_decide as Heq; [|done]. subst c'.
    rewrite lookup_delete_ne; [done | congruence].
  - intros c'. unfold wake. fold rid. by rewrite Hid.
  - unfold wake. fold rid. unfold call_timeout. cbn [fst]. rewrite Hc, pending_of_set, decide_True by done.
    by rewrite lookup_delete_eq.
Qed.

End properties.

Lemma response_wakes_once_witness :
  let h := set_pending 0 {[1%N := 4%N]} (empty_heap (Q := Fifo BusFrame)) in
  let resp := {| Response.req_id := 1; Response.result := Ok [] |} in
  replies (wake h 0 resp) !! 4%N = Some resp /\ wake (wake h 0 resp) 0 resp = wake h 0 resp.
Proof.
  intros h resp.
  destruct (response_wakes_once h 0 resp 4
    {| CallArgs.service := "echo"; CallArgs.method := "ping"; CallArgs.payload := [];
       CallArgs.caller := CallerCtx.default; CallArgs.timeout := 0 |}
    {| SessionHandle.pending_out := 0; SessionHandle.next_req_id := 0 |}
    ltac:(vm_compute; reflexivity) eq_refl) as (Hr & Hw & _).
  split; [exact Hr | exact Hw].
Defined.

