(* ===== verification/Session.v ===== *)
(** The per-connection task (crates/broker/src/session.rs).

    [serve] is cut at its awaits and at its accesses to the state it shares
    with other tasks: [SessionPc] is its program counter, [Job] what it is
    doing between two awaits of the main loop or after it, and each [serve_*]
    definition is the code from one cut to the next.  The tasks it spawns for
    app-originated calls and for the capability probe are [Task]s, and so is
    what is left of a public method of the broker after its first access. *)

From stdpp Require Import prelude gmap strings.
From Stdlib Require Import Ascii.
From S2P Require Import Prelude Frame Runtime Registry Broker.

(** Where the connection's task is. *)
Inductive SessionPc :=
| SHandshake
| SAccepted (hello : HelloRequest)
| SNumbered (hello : HelloRequest) (client_id : N)
| SDrawn (hello : HelloRequest) (generation client_id : N)
| SAck (hello : HelloRequest) (generation client_id : N)
| SAttach (hello : HelloRequest) (generation : N)
| SRunning (hello : HelloRequest) (generation : N)
| SDetached (hello : HelloRequest) (generation : N)
| SClosed (was : option (HelloRequest * N)).

(** Who awaits a call of [Broker::call]. *)
Inductive Origin :=
| OHost
| OApp (conn : conn_id) (req_id : N)
| OProbe (service : string) (generation : N).

Inductive Task :=
| TCall (o : Origin) (a : CallArgs) (pc : CallPc)
| TReply (conn : conn_id) (resp : Response)
| TStore (service : string) (r : CapabilityResponse)
| TLocal (service : string) (handler : LocalServiceHandler)
| TShutdown (tx : conn_id).

(** What the task does before it reads the next frame: the probe is spawned
    after [attach_session]; a published event is fanned out; after the loop,
    [detach_session] looks the entry up and removes the capabilities. *)
Inductive Job :=
| JProbe
| JFan (ev : Event) (pc : FanPc)
| JDetach
| JForget.

(** The registration a connection made, also after it has ended. *)
Definition registration (pc : SessionPc) : option (HelloRequest * N) :=
  match pc with
  | SHandshake | SAccepted _ | SNumbered _ _ | SDrawn _ _ _ => None
  | SAck hello g _ | SAttach hello g | SRunning hello g | SDetached hello g => Some (hello, g)
  | SClosed was => was
  end.

(** The [Hello] the connection was let in with. *)
Definition admission (pc : SessionPc) : option HelloRequest :=
  match pc with
  | SHandshake => None
  | SAccepted hello | SNumbered hello _ | SDrawn hello _ _ => Some hello
  | _ => fst <$> registration pc
  end.

(** The task still holds its [Arc] of the pending table. *)
Definition holds_tables (pc : SessionPc) : bool :=
  match pc with SRunning _ _ | SDetached _ _ => true | _ => false end.

Section session.
Context {Q : Type} `{Mpsc Q BusFrame}.
Implicit Types h : Heap Q.

(** ** Handshake *)

(** [mpsc::unbounded_channel()]. *)
Definition chan_new h (c : conn_id) : Heap Q :=
  set_channels (<[c := mpsc_new]> (channels h)) h.

Definition error_frame (e : BusError) : BusFrame :=
  BusFrame.Response {| Response.req_id := 0; Response.result := Err e |}.

(** The first [read_frame_opt] and the check of the token: the new shared
    state, the refusal that is written without looking at the outcome, and
    what comes next. *)
Definition serve_hello (b : Broker) (read : result (option BusFrame) BusError)
    : Broker * option BusFrame * SessionPc :=
  match read with
  | Ok (Some (BusFrame.Hello hello)) =>
      if negb (bool_decide (hello.(HelloRequest.protocol).(ProtocolVersion.major)
                            = ProtocolVersion.CURRENT.(ProtocolVersion.major)))
      then (b,
            Some (error_frame (BusError.ProtocolMismatch ProtocolVersion.CURRENT
                                 hello.(HelloRequest.protocol))),
            SClosed None)
      else
        let '(b, ok) :=
          Broker.consume_token b hello.(HelloRequest.service) hello.(HelloRequest.auth_token) in
        if negb ok
        then (b, Some (error_frame BusError.InvalidAuthToken), SClosed None)
        else (b, None, SAccepted hello)
  | _ => (b, None, SClosed None)
  end.

(** The entry of the registry, before [insert] has set its generation. *)
Definition hello_entry (hello : HelloRequest) (c : conn_id) : ServiceEntry := {|
  ServiceEntry.service := hello.(HelloRequest.service);
  ServiceEntry.generation := 0;
  ServiceEntry.tx := c;
  ServiceEntry.methods := hello.(HelloRequest.methods);
  ServiceEntry.pid := hello.(HelloRequest.pid);
  ServiceEntry.data_plane := hello.(HelloRequest.data_plane) |}.

(** From there to the [HelloAck], one access at a time: the client id, the
    generation, the entry with the channel, which nobody knew before. *)
Definition serve_register (b : Broker) h (c : conn_id) (pc : SessionPc)
    : option (Broker * Heap Q * SessionPc) :=
  match pc with
  | SAccepted hello =>
      let '(b, client_id) := Broker.take_client_id b in
      Some (b, h, SNumbered hello client_id)
  | SNumbered hello client_id =>
      let '(registry, generation) := Registry.draw b.(Broker.registry) in
      Some (Broker.set_registry registry b, h, SDrawn hello generation client_id)
  | SDrawn hello generation client_id =>
      let h := chan_new h c in
      Some (Broker.set_registry
              (Registry.put b.(Broker.registry) (hello_entry hello c) generation) b,
            h, SAck hello generation client_id)
  | _ => None
  end.

(** The [HelloAck] frame. *)
Definition ack_frame (b : Broker) (client_id : N) : BusFrame :=
  BusFrame.HelloAck {| HelloAck.client_id := client_id;
    HelloAck.heartbeat_interval := b.(Broker.config).(BrokerConfig.heartbeat_interval) |}.

(** The outcome of writing it; on failure the receiver is dropped with the
    task. *)
Definition serve_ack (b : Broker) h (c : conn_id) (hello : HelloRequest) (generation : N)
    (written : bool) : Broker * Heap Q * SessionPc :=
  if written then (b, h, SAttach hello generation)
  else
    (Broker.set_registry
       (Registry.remove_if b.(Broker.registry) hello.(HelloRequest.service) generation).1 b,
     chan_drop_rx h c, SClosed (Some (hello, generation))).

(** [b"{}".to_vec()]. *)
Definition probe_args (b : Broker) (service : string) : CallArgs := {|
  CallArgs.service := service;
  CallArgs.method := "capabilities";
  CallArgs.payload := bytes_lit "{}";
  CallArgs.caller := CallerCtx.default;
  CallArgs.timeout := b.(Broker.config).(BrokerConfig.default_call_timeout) |}.

(** The cached capabilities are dropped and the task that asks for new ones is
    spawned. *)
Definition probe_capabilities (b : Broker) (service : string) (generation : N) : Broker * Task :=
  (Broker.forget_capabilities b service,
   TCall (OProbe service generation) (probe_args b service) CStart).

(** The tables are allocated and shared with the broker; the capability probe
    is next. *)
Definition serve_attach (b : Broker) h (c : conn_id) (hello : HelloRequest) (generation : N)
    : Broker * Heap Q * Job * SessionPc :=
  let h := set_req_counters (<[c := 1%N]> (req_counters h)) (set_pending c ∅ h) in
  let b := Broker.attach_session b hello.(HelloRequest.service) generation
             {| SessionHandle.pending_out := c; SessionHandle.next_req_id := c |} in
  (b, h, JProbe, SRunning hello generation).

(** ** The main loop *)

Definition bad_invoke (method : string) : BusError :=
  BusError.BadRequest
    ("invoke method must be `service.method`, got `" +:+ method +:+ "`").

(** An app-originated [Invoke]: the target is split off the method name and
    the caller is stamped with the connection's service. *)
Definition route_invoke (b : Broker) (c : conn_id) (originator : string) (inv : Invoke) : Task :=
  match split_once inv.(Invoke.method) "."%char with
  | Some (target_service, target_method) =>
      TCall (OApp c inv.(Invoke.req_id))
        (Broker.call b target_service target_method inv.(Invoke.payload)
           (CallerCtx.set_caller_app_id (Some originator) inv.(Invoke.caller)))
        CStart
  | None =>
      TReply c {| Response.req_id := inv.(Invoke.req_id);
                  Response.result := Err (bad_invoke inv.(Invoke.method)) |}
  end.

(** One frame of the loop: the new shared state, the spawned task, and what
    is left to do. *)
Definition serve_frame (b : Broker) h (c : conn_id) (hello : HelloRequest) (f : BusFrame)
    : Broker * Heap Q * option Task * option Job :=
  let service := hello.(HelloRequest.service) in
  match f with
  | BusFrame.Pong => (b, h, None, None)
  | BusFrame.Response resp => (b, wake h c resp, None, None)
  | BusFrame.Publish ev =>
      let '(ev, pc) := fanout b service ev in (b, h, None, Some (JFan ev pc))
  | BusFrame.Subscribe topic_prefix => (Broker.subscribe b service topic_prefix, h, None, None)
  | BusFrame.Unsubscribe topic_prefix => (Broker.unsubscribe b service topic_prefix, h, None, None)
  | BusFrame.Invoke inv => (b, h, Some (route_invoke b c service inv), None)
  | _ => (b, h, None, None)
  end.

(** ** The end of the task *)

(** The loop has seen the end of the stream or an error: [detach_session]
    begins. *)
Definition serve_detach (b : Broker) (hello : HelloRequest) (generation : N)
    : Broker * Job * SessionPc :=
  (Broker.remove_session b hello.(HelloRequest.service) generation, JDetach,
   SDetached hello generation).

(** The next access of a job. *)
Definition serve_job (b : Broker) h (hello : HelloRequest) (generation : N) (job : Job)
    : Broker * Heap Q * option Task * option Job :=
  let service := hello.(HelloRequest.service) in
  match job with
  | JProbe => let '(b, probe) := probe_capabilities b service generation in (b, h, Some probe, None)
  | JFan ev pc => let '(h, pc) := fan_step b h ev pc in (b, h, None, JFan ev <$> pc)
  | JDetach =>
      (b, h, None, if Broker.should_remove b service generation then Some JForget else None)
  | JForget => (Broker.forget_capabilities b service, h, None, None)
  end.

(** [remove_if], and the writer task is aborted: the receiver is dropped. *)
Definition serve_remove (b : Broker) h (c : conn_id) (hello : HelloRequest) (generation : N)
    : Broker * Heap Q * SessionPc :=
  (Broker.set_registry
     (Registry.remove_if b.(Broker.registry) hello.(HelloRequest.service) generation).1 b,
   chan_drop_rx h c, SClosed (Some (hello, generation))).

(** ** Spawned tasks *)

(** What follows a finished call: an app gets its [Response]; a probe stores
    the capabilities it parsed if its registration is still current.
    [parse] is [serde_json::from_slice]. *)
Definition call_continue (parse : bytes -> result CapabilityResponse string) (b : Broker)
    (o : Origin) (r : result bytes BusError) : option Task :=
  match o with
  | OHost => None
  | OApp c req_id => Some (TReply c {| Response.req_id := req_id; Response.result := r |})
  | OProbe service generation =>
      match r with
      | Err _ => None
      | Ok l =>
          match parse l with
          | Err _ => None
          | Ok response =>
              if Broker.still_current b service generation then Some (TStore service response)
              else None
          end
      end
  end.

(** ** Properties *)

Section lawful.
Context `{!LawfulMpsc Q BusFrame}.

Lemma consume_token_spec (b : Broker) s t :
  Broker.consume_token b s t =
    (Broker.set_tokens (delete s b.(Broker.tokens)) b,
     bool_decide (b.(Broker.tokens) !! s = Some t)).
Proof.
  unfold Broker.consume_token. destruct (Broker.tokens b !! s) as [t'|] eqn:Ht.
  - f_equal. apply bool_decide_ext. split; congruence.
  - rewrite delete_id by done. by destruct b.
Qed.

(** C31: the outcomes of a handshake. Anything but a [Hello] closes the
    connection silently; a foreign major version is refused with
    [ProtocolMismatch] and costs no token; a wrong or missing token is refused
    with [InvalidAuthToken] and uses up the token of that service; otherwise
    the token is gone and the connection goes on to register. Registering is
    three accesses, whatever other tasks do in between: it takes the next
    client id, draws the next generation, and then gets an open, empty channel
    while its declared catalog becomes the registered entry of its service
    under the generation it drew and every other service keeps its entry. *)
Theorem handshake_outcomes (b : Broker) h (c : conn_id) (hello : HelloRequest) :
  let s := hello.(HelloRequest.service) in
  let valid := b.(Broker.tokens) !! s = Some hello.(HelloRequest.auth_token) in
  let hello_frame := Ok (Some (BusFrame.Hello hello)) in
  let major := hello.(HelloRequest.protocol).(ProtocolVersion.major) in
  (forall read, (forall hl, read <> Ok (Some (BusFrame.Hello hl))) ->
     serve_hello b read = (b, None, SClosed None))
  /\ (major <> 1%N -> serve_hello b hello_frame
       = (b, Some (error_frame (BusError.ProtocolMismatch ProtocolVersion.CURRENT
                                  hello.(HelloRequest.protocol))), SClosed None))
  /\ (major = 1%N -> ~ valid -> serve_hello b hello_frame
       = (Broker.set_tokens (delete s b.(Broker.tokens)) b,
          Some (error_frame BusError.InvalidAuthToken), SClosed None))
  /\ (major = 1%N -> valid -> serve_hello b hello_frame
       = (Broker.set_tokens (delete s b.(Broker.tokens)) b, None, SAccepted hello))
  /\ (exists b', serve_register b h c (SAccepted hello)
         = Some (b', h, SNumbered hello b.(Broker.next_client_id))
       /\ b'.(Broker.next_client_id) = as_u64 (b.(Broker.next_client_id) + 1)
       /\ b'.(Broker.registry) = b.(Broker.registry) /\ b'.(Broker.tokens) = b.(Broker.tokens))
  /\ (forall id, exists b' g, serve_register b h c (SNumbered hello id)
         = Some (b', h, SDrawn hello g id)
       /\ g = as_u64 (b.(Broker.registry).(Registry.next_gen) + 1)
       /\ b'.(Broker.registry).(Registry.next_gen) = g
       /\ b'.(Broker.tokens) = b.(Broker.tokens)
       /\ (forall s', Registry.get b'.(Broker.registry) s' = Registry.get b.(Broker.registry) s'))
  /\ (forall id g, exists b' h', serve_register b h c (SDrawn hello g id)
         = Some (b', h', SAck hello g id)
       /\ chan_open h' c = true /\ chan_queue h' c = []
       /\ (forall c', c' <> c -> channels h' !! c' = channels h !! c')
       /\ b'.(Broker.registry).(Registry.next_gen) = b.(Broker.registry).(Registry.next_gen)
       /\ b'.(Broker.tokens) = b.(Broker.tokens)
       /\ (exists e, Registry.get b'.(Broker.registry) s = Some e
            /\ e.(ServiceEntry.generation) = g /\ e.(ServiceEntry.tx) = c
            /\ e.(ServiceEntry.methods) = hello.(HelloRequest.methods)
            /\ e.(ServiceEntry.data_plane) = hello.(HelloRequest.data_plane))
       /\ (forall s', s' <> s -> Registry.get b'.(Broker.registry) s'
            = Registry.get b.(Broker.registry) s')).
Proof.
  cbv zeta. unfold serve_hello. split_and!.
  - intros read Hr. destruct read as [[f|]|]; [|done..]. destruct f; try done. by edestruct Hr.
  - intros Hm. by rewrite bool_decide_eq_false_2.
  - intros Hm Hv. rewrite bool_decide_eq_true_2 by done. simpl.
    by rewrite consume_token_spec, bool_decide_eq_false_2.
  - intros Hm Hv. rewrite bool_decide_eq_true_2 by done. simpl.
    by rewrite consume_token_spec, bool_decide_eq_true_2.
  - eexists. by split_and!.
  - intros id. do 2 eexists. by split_and!.
  - intros id g. do 2 eexists. split; [reflexivity|]. split_and!; try done.
    + unfold chan_open. simpl. by rewrite lookup_insert_eq; simpl; rewrite new_alive.
    + unfold chan_queue. simpl. by rewrite lookup_insert_eq; simpl; rewrite new_queued.
    + intros c' Hc'. simpl. by rewrite lookup_insert_ne.
    + simpl. rewrite registry_put_get, decide_True by done. by eexists.
    + intros s' Hs'. simpl. by rewrite registry_put_get, decide_False.
Qed.

End lawful.

(** Where an app's [Invoke] goes. The method name is split at its first
    dot: the part before it names the target service, the whole rest, further
    dots included, the method; the payload is untouched, the caller keeps
    everything but its [caller_app_id], and the answer will carry the app's own
    request id. A name without a dot is answered with [BadRequest] and calls
    nobody. *)
Lemma invoke_routing (b : Broker) (c : conn_id) (originator service rest : string) (inv : Invoke) :
  string_mem "."%char service = false ->
  (inv.(Invoke.method) = service +:+ "." +:+ rest ->
     exists a, route_invoke b c originator inv = TCall (OApp c inv.(Invoke.req_id)) a CStart
       /\ a.(CallArgs.service) = service /\ a.(CallArgs.method) = rest
       /\ a.(CallArgs.payload) = inv.(Invoke.payload)
       /\ a.(CallArgs.caller).(CallerCtx.user_id) = inv.(Invoke.caller).(CallerCtx.user_id)
       /\ a.(CallArgs.caller).(CallerCtx.caller_app_id) = Some originator)
  /\ (inv.(Invoke.method) = service ->
     route_invoke b c originator inv
     = TReply c {| Response.req_id := inv.(Invoke.req_id);
                   Response.result := Err (bad_invoke service) |}).
Proof.
  intros Hs. unfold route_invoke. split.
  - intros ->. change ("." +:+ rest) with (String "."%char rest).
    rewrite split_once_app by done. by eexists.
  - intros ->. by rewrite (proj2 (split_once_None _ _)).
Qed.

Lemma invoke_routing_witness :
  exists a, route_invoke (Broker.new BrokerConfig.default) 2 "app"
      {| Invoke.req_id := 9; Invoke.method := "fs.v1.read"; Invoke.payload := [];
         Invoke.caller := CallerCtx.default |} = TCall (OApp 2 9) a CStart
    /\ a.(CallArgs.service) = "fs" /\ a.(CallArgs.method) = "v1.read".
Proof.
  destruct (proj1 (invoke_routing (Broker.new BrokerConfig.default) 2 "app" "fs" "v1.read"
    {| Invoke.req_id := 9; Invoke.method := "fs.v1.read"; Invoke.payload := [];
       Invoke.caller := CallerCtx.default |} eq_refl) eq_refl) as (a & Ha & Hs & Hm & _).
  exists a. split; [exact Ha|]. split; [exact Hs | exact Hm].
Defined.

End session.

#[export] Instance SessionPc_eq_dec : EqDecision SessionPc.
Proof. solve_decision. Defined.
