(* ===== verification/System.v ===== *)
(** The broker process: connections, calls and the host, interleaved.

    A [World] is the shared state of the process together with the program
    counter of every task.  [exec] performs one labelled step: the next piece
    of one task, or an event of its environment (a connection, a frame read,
    a write that succeeds or fails, a timer, the end of a local handler, the
    host using the broker's public methods).  A step makes at most one access
    to state that tasks share, with the exceptions the header of Prelude.v
    lists.  [reachable n] are the worlds
    after [n] steps from a fresh broker; counters of 64 bits do not wrap
    within 2^64 steps, so the invariants are stated for [n < U64_SIZE - 1]. *)

From stdpp Require Import prelude gmap strings.
From S2P Require Import Prelude Frame Runtime Registry Broker Session.

Section system.
Context {Q : Type} `{Mpsc Q BusFrame}.
(** [serde_json::from_slice::<CapabilityResponse>]. *)
Context (parse : bytes -> result CapabilityResponse string).

(** [busy] is the job of a session task that is between two awaits; [inbox]
    and [wire] record the frames read from and written to each connection,
    [entered] the connection that stored an entry last under each service,
    [hosted] and [resolved] the local services the host registered and what
    their handlers returned;
    [results] what the host's calls returned; [next_id] is the next unused
    number for a connection or a task; [token_ctr] is the static counter of
    [random_token]. *)
Record World := mkWorld {
  broker : Broker;
  heap : Heap Q;
  conns : gmap conn_id SessionPc;
  busy : gmap conn_id Job;
  tasks : gmap call_id Task;
  results : gmap call_id (result bytes BusError);
  inbox : gmap conn_id (list BusFrame);
  wire : gmap conn_id (list BusFrame);
  entered : gmap string conn_id;
  hosted : list (string * list MethodDecl * LocalServiceHandler);
  resolved : list (LocalServiceHandler * CallArgs * result bytes BusError);
  next_id : N;
  token_ctr : N
}.

Definition init (config : BrokerConfig) : World :=
  mkWorld (Broker.new config) empty_heap ∅ ∅ ∅ ∅ ∅ ∅ ∅ [] [] 0 0.

Definition set_broker v w := mkWorld v (heap w) (conns w) (busy w) (tasks w) (results w) (inbox w) (wire w) (entered w) (hosted w) (resolved w) (next_id w) (token_ctr w).
Definition set_heap v w := mkWorld (broker w) v (conns w) (busy w) (tasks w) (results w) (inbox w) (wire w) (entered w) (hosted w) (resolved w) (next_id w) (token_ctr w).
Definition set_conns v w := mkWorld (broker w) (heap w) v (busy w) (tasks w) (results w) (inbox w) (wire w) (entered w) (hosted w) (resolved w) (next_id w) (token_ctr w).
Definition set_busy v w := mkWorld (broker w) (heap w) (conns w) v (tasks w) (results w) (inbox w) (wire w) (entered w) (hosted w) (resolved w) (next_id w) (token_ctr w).
Definition set_tasks v w := mkWorld (broker w) (heap w) (conns w) (busy w) v (results w) (inbox w) (wire w) (entered w) (hosted w) (resolved w) (next_id w) (token_ctr w).
Definition set_results v w := mkWorld (broker w) (heap w) (conns w) (busy w) (tasks w) v (inbox w) (wire w) (entered w) (hosted w) (resolved w) (next_id w) (token_ctr w).
Definition set_inbox v w := mkWorld (broker w) (heap w) (conns w) (busy w) (tasks w) (results w) v (wire w) (entered w) (hosted w) (resolved w) (next_id w) (token_ctr w).
Definition set_wire v w := mkWorld (broker w) (heap w) (conns w) (busy w) (tasks w) (results w) (inbox w) v (entered w) (hosted w) (resolved w) (next_id w) (token_ctr w).
Definition set_entered v w := mkWorld (broker w) (heap w) (conns w) (busy w) (tasks w) (results w) (inbox w) (wire w) v (hosted w) (resolved w) (next_id w) (token_ctr w).
Definition set_hosted v w := mkWorld (broker w) (heap w) (conns w) (busy w) (tasks w) (results w) (inbox w) (wire w) (entered w) v (resolved w) (next_id w) (token_ctr w).
Definition set_resolved v w := mkWorld (broker w) (heap w) (conns w) (busy w) (tasks w) (results w) (inbox w) (wire w) (entered w) (hosted w) v (next_id w) (token_ctr w).
Definition set_next_id v w := mkWorld (broker w) (heap w) (conns w) (busy w) (tasks w) (results w) (inbox w) (wire w) (entered w) (hosted w) (resolved w) v (token_ctr w).
Definition set_token_ctr v w := mkWorld (broker w) (heap w) (conns w) (busy w) (tasks w) (results w) (inbox w) (wire w) (entered w) (hosted w) (resolved w) (next_id w) v.

(** The frames read from / written to a connection so far. *)
Definition inbox_of w (c : conn_id) : list BusFrame := default [] (inbox w !! c).
Definition wire_of w (c : conn_id) : list BusFrame := default [] (wire w !! c).

Definition set_conn c pc w := set_conns (<[c := pc]> (conns w)) w.
Definition set_job c (job : option Job) w := set_busy (partial_alter (fun _ => job) c (busy w)) w.
Definition enter service c w := set_entered (<[service := c]> (entered w)) w.
Definition log_hosted service methods handler w :=
  set_hosted (hosted w ++ [(service, methods, handler)]) w.
Definition log_resolved handler a r w := set_resolved (resolved w ++ [(handler, a, r)]) w.
Definition log_in c f w := set_inbox (<[c := inbox_of w c ++ [f]]> (inbox w)) w.
Definition log_out c f w := set_wire (<[c := wire_of w c ++ [f]]> (wire w)) w.
Definition put_task id t w := set_tasks (<[id := t]> (tasks w)) w.
Definition drop_task id w := set_tasks (delete id (tasks w)) w.
Definition spawn (t : Task) w :=
  set_next_id (next_id w + 1)%N (put_task (next_id w) t w).
Definition spawn_opt (o : option Task) w := match o with Some t => spawn t w | None => w end.

Inductive Label :=
(** A connection is accepted; its first frame is read (and the refusal, if
    any, is written or not); the ack is written or not; the tables are
    attached; a frame is read; the stream ends; the task ends; the writer
    task takes a frame, which is written or not; the session's task makes its
    next access to shared state. *)
| LAccept
| LHello (c : conn_id) (read : result (option BusFrame) BusError) (written : bool)
| LAck (c : conn_id) (written : bool)
| LAttach (c : conn_id)
| LFrame (c : conn_id) (f : BusFrame)
| LClose (c : conn_id)
| LRemove (c : conn_id)
| LWriter (c : conn_id) (written : bool)
| LSession (c : conn_id)
(** The host calls; a call takes its next step; its local handler resolves,
    its receiver yields, its sender is gone, its timer fires; it continues. *)
| LCall (a : CallArgs)
| LStep (id : call_id)
| LLocal (id : call_id) (r : result bytes BusError)
| LReply (id : call_id)
| LRxClosed (id : call_id)
| LTimer (id : call_id)
| LContinue (id : call_id)
(** The host drops the future of its call. *)
| LDrop (id : call_id)
(** Other public methods of the broker. *)
| LIssueToken (now : option N) (pid : N) (service : string)
| LRegisterLocal (service : string) (methods : list MethodDecl) (handler : LocalServiceHandler)
| LShutdown (service : string).

(** [handle.pending_out] of a task that is inside [call_with_timeout]. *)
Definition task_tables (t : Task) : option conn_id :=
  match t with
  | TCall _ _ (CRegister _ h | CSend _ h _ | CAwaitRemote h _) =>
      Some h.(SessionHandle.pending_out)
  | _ => None
  end.

(** A future is dropped before its first poll or at an await: the code of
    [call_with_timeout] in between does not run, and what it left in shared
    tables stays there. The calls of apps and the probes are tasks nobody
    aborts. *)
Definition droppable (pc : CallPc) : bool :=
  match pc with CStart | CAwaitLocal _ | CAwaitRemote _ _ => true | _ => false end.

(** Some [Arc] of the pending table of [c] is alive: in its session task, in
    the broker's [sessions], or in a call that cloned the handle. *)
Definition tables_alive w (c : conn_id) : bool :=
  default false (holds_tables <$> conns w !! c)
  || existsb (fun '(_, h) => bool_decide (h.(SessionHandle.pending_out) = c))
       (map_to_list (Broker.sessions (broker w)))
  || existsb (fun '(_, t) => bool_decide (task_tables t = Some c)) (map_to_list (tasks w)).

(** The oneshot sender of a call has been dropped without a response: it is
    no longer in the table, or the table is gone. *)
Definition sender_dropped w (id : call_id) (c : conn_id) (req_id : N) : bool :=
  bool_decide (replies (heap w) !! id = None)
  && (negb (bool_decide (pending_of (heap w) c !! req_id = Some id)) || negb (tables_alive w c)).

Definition exec_conn w (l : Label) : option World :=
  match l with
  | LAccept => Some (set_next_id (next_id w + 1)%N (set_conn (next_id w) SHandshake w))
  | LHello c read written =>
      match conns w !! c with
      | Some SHandshake =>
          let '(b, out, pc) := serve_hello (broker w) read in
          let w := match read with Ok (Some f) => log_in c f w | _ => w end in
          let w := match out with
                   | Some f => if written then log_out c f w else w
                   | None => w
                   end in
          Some (set_conn c pc (set_broker b w))
      | _ => None
      end
  | LAck c written =>
      match conns w !! c with
      | Some (SAck hello g client_id) =>
          let '(b, h, pc) := serve_ack (broker w) (heap w) c hello g written in
          let w := if written then log_out c (ack_frame (broker w) client_id) w else w in
          Some (set_conn c pc (set_heap h (set_broker b w)))
      | _ => None
      end
  | LAttach c =>
      match conns w !! c with
      | Some (SAttach hello g) =>
          let '(b, h, job, pc) := serve_attach (broker w) (heap w) c hello g in
          Some (set_job c (Some job) (set_conn c pc (set_heap h (set_broker b w))))
      | _ => None
      end
  | LFrame c f =>
      match conns w !! c, busy w !! c with
      | Some (SRunning hello g), None =>
          let '(b, h, t, job) := serve_frame (broker w) (heap w) c hello f in
          Some (spawn_opt t (set_job c job (set_heap h (set_broker b (log_in c f w)))))
      | _, _ => None
      end
  | LClose c =>
      match conns w !! c, busy w !! c with
      | Some (SRunning hello g), None =>
          let '(b, job, pc) := serve_detach (broker w) hello g in
          Some (set_job c (Some job) (set_conn c pc (set_broker b w)))
      | _, _ => None
      end
  | LRemove c =>
      match conns w !! c, busy w !! c with
      | Some (SDetached hello g), None =>
          let '(b, h, pc) := serve_remove (broker w) (heap w) c hello g in
          Some (set_conn c pc (set_heap h (set_broker b w)))
      | _, _ => None
      end
  | LWriter c written =>
      match conns w !! c with
      | Some (SAttach _ _ | SRunning _ _ | SDetached _ _) =>
          match q ← channels (heap w) !! c; mpsc_recv q with
          | Some (f, q) =>
              let h := set_channels (<[c := q]> (channels (heap w))) (heap w) in
              Some (if written then log_out c f (set_heap h w)
                    else set_heap (chan_drop_rx h c) w)
          | None => None
          end
      | _ => None
      end
  | LSession c =>
      match conns w !! c, busy w !! c with
      | Some (SRunning hello g | SDetached hello g), Some job =>
          let '(b, h, t, job) := serve_job (broker w) (heap w) hello g job in
          Some (spawn_opt t (set_job c job (set_heap h (set_broker b w))))
      | Some pc, None =>
          match serve_register (broker w) (heap w) c pc with
          | Some (b, h, pc) =>
              let w := match pc with
                       | SAck hello _ _ => enter hello.(HelloRequest.service) c w
                       | _ => w
                       end in
              Some (set_conn c pc (set_heap h (set_broker b w)))
          | None => None
          end
      | _, _ => None
      end
  | _ => None
  end.

Definition exec_task w (l : Label) : option World :=
  match l with
  | LStep id =>
      match tasks w !! id with
      | Some (TCall o a pc) =>
          match call_step (broker w) (heap w) id a pc with
          | Some (h, pc) => Some (put_task id (TCall o a pc) (set_heap h w))
          | None => None
          end
      | _ => None
      end
  | LLocal id r =>
      match tasks w !! id with
      | Some (TCall o a (CAwaitLocal handler)) =>
          Some (put_task id (TCall o a (CDone r)) (log_resolved handler a r w))
      | _ => None
      end
  | LReply id =>
      match tasks w !! id, replies (heap w) !! id with
      | Some (TCall o a (CAwaitRemote _ _)), Some resp =>
          Some (put_task id (TCall o a (call_reply resp)) w)
      | _, _ => None
      end
  | LRxClosed id =>
      match tasks w !! id with
      | Some (TCall o a (CAwaitRemote handle req_id)) =>
          if sender_dropped w id handle.(SessionHandle.pending_out) req_id
          then Some (put_task id (TCall o a (CDone (Err BusError.ConnectionClosed))) w)
          else None
      | _ => None
      end
  | LTimer id =>
      match tasks w !! id with
      | Some (TCall o a pc) =>
          if bool_decide (a.(CallArgs.timeout) = 0%N) then None
          else
            match pc with
            | CAwaitRemote handle req_id =>
                let '(h, pc) := call_timeout (heap w) a handle req_id in
                Some (put_task id (TCall o a pc) (set_heap h w))
            | CAwaitLocal _ => Some (put_task id (TCall o a (CDone (Err (timeout_error a)))) w)
            | _ => None
            end
      | _ => None
      end
  | LContinue id =>
      match tasks w !! id with
      | Some (TCall o a (CDone r)) =>
          let w := match o with OHost => set_results (<[id := r]> (results w)) w | _ => w end in
          Some (match call_continue parse (broker w) o r with
                | Some t => put_task id t w
                | None => drop_task id w
                end)
      | Some (TReply c resp) =>
          Some (drop_task id (set_heap (chan_send_ (heap w) c (BusFrame.Response resp)) w))
      | Some (TStore service r) =>
          Some (drop_task id (set_broker (Broker.store_capabilities (broker w) service r) w))
      | Some (TLocal service handler) =>
          Some (drop_task id
                  (set_broker (Broker.register_local_handler (broker w) service handler) w))
      | Some (TShutdown tx) => Some (drop_task id (set_heap (shutdown_send (heap w) tx).1 w))
      | _ => None
      end
  | LDrop id =>
      match tasks w !! id with
      | Some (TCall OHost _ pc) => if droppable pc then Some (drop_task id w) else None
      | _ => None
      end
  | _ => None
  end.

Definition exec_host w (l : Label) : option World :=
  match l with
  | LCall a => Some (spawn (TCall OHost a CStart) w)
  | LIssueToken now pid service =>
      let '(b, ctr, _) := Broker.issue_token (broker w) now pid (token_ctr w) service in
      Some (set_token_ctr ctr (set_broker b w))
  | LRegisterLocal service methods handler =>
      Some (spawn (TLocal service handler)
              (set_broker (Broker.register_local_methods (broker w) service methods)
                 (log_hosted service methods handler w)))
  | LShutdown service =>
      Some (spawn_opt (match shutdown_target (broker w) service with
                       | Ok tx => Some (TShutdown tx)
                       | Err _ => None
                       end) w)
  | _ => None
  end.

Definition exec w (l : Label) : option World :=
  match exec_conn w l with
  | Some w' => Some w'
  | None =>
      match exec_task w l with
      | Some w' => Some w'
      | None => exec_host w l
      end
  end.

Fixpoint run w (ls : list Label) : option World :=
  match ls with
  | [] => Some w
  | l :: ls => w' ← exec w l; run w' ls
  end.

Inductive reachable (config : BrokerConfig) : N -> World -> Prop :=
| reachable_init : reachable config 0 (init config)
| reachable_step n w l w' :
    reachable config n w -> exec w l = Some w' -> reachable config (n + 1) w'.

End system.
Arguments World Q : clear implicits.
