(* ===== verification/Invariant.v ===== *)
(** Structural invariants of the broker process: which connection stands
    behind a registry entry, a session handle, a channel and a task, in every
    reachable world of System.v. *)

From stdpp Require Import prelude gmap strings.
From S2P Require Import Prelude Frame Runtime Registry Broker Session System.

Section invariant.
Context {Q : Type} `{LawfulMpsc Q BusFrame}.
Context (parse : bytes -> result CapabilityResponse string).
Implicit Types w : World Q.

(** The connection [c] registered with [hello] and got generation [g]. *)
Definition registered_in (cs : gmap conn_id SessionPc) (c : conn_id) (hello : HelloRequest)
    (g : N) : Prop :=
  exists pc, cs !! c = Some pc /\ registration pc = Some (hello, g).
Definition registered w := registered_in (conns w).

(** The connection has registered, and its task has not returned. *)
Definition live (pc : SessionPc) : bool :=
  match pc with SAck _ _ _ | SAttach _ _ | SRunning _ _ | SDetached _ _ => true | _ => false end.

(** The generation a connection has drawn. *)
Definition drawn_generation (pc : SessionPc) : option N :=
  match pc with SDrawn _ g _ => Some g | _ => snd <$> registration pc end.
Definition holds_gen w (c : conn_id) (g : N) : Prop :=
  exists pc, conns w !! c = Some pc /\ drawn_generation pc = Some g.

(** Where a session task can have a job. *)
Definition job_ok (job : Job) (pc : SessionPc) : bool :=
  match job, pc with
  | (JProbe | JFan _ _), SRunning _ _ | (JDetach | JForget), SDetached _ _ => true
  | _, _ => false
  end.

Definition reg w : Registry := (broker w).(Broker.registry).

(** The registry entry a task holds. *)
Definition pc_entry (pc : CallPc) : option ServiceEntry :=
  match pc with
  | CSession e | CRegister e _ | CSend e _ _ => Some e
  | _ => None
  end.

(** What the connection a registry entry names declared. *)
Definition entry_ok w (e : ServiceEntry) : Prop :=
  exists hello, registered w e.(ServiceEntry.tx) hello e.(ServiceEntry.generation)
    /\ e.(ServiceEntry.service) = hello.(HelloRequest.service)
    /\ e.(ServiceEntry.methods) = hello.(HelloRequest.methods).

(** [n]: the number of steps taken. *)
Record structural (n : N) w : Prop := {
  str_conn_ids c pc : conns w !! c = Some pc -> (c < next_id w)%N;
  str_task_ids id t : tasks w !! id = Some t -> (id < next_id w)%N;
  str_next_gen : ((reg w).(Registry.next_gen) <= n)%N;
  str_drawn c g : holds_gen w c g -> (0 < g <= (reg w).(Registry.next_gen))%N;
  str_drawn_inj c1 c2 g : holds_gen w c1 g -> holds_gen w c2 g -> c1 = c2;
  str_job c job : busy w !! c = Some job ->
    exists pc, conns w !! c = Some pc /\ job_ok job pc = true;
  str_entry s e : Registry.get (reg w) s = Some e ->
    e.(ServiceEntry.service) = s /\ entry_ok w e
    /\ exists pc, conns w !! e.(ServiceEntry.tx) = Some pc /\ live pc = true;
  str_last s e : Registry.get (reg w) s = Some e -> entered w !! s = Some e.(ServiceEntry.tx);
  str_entered s c : entered w !! s = Some c ->
    exists pc hello g, conns w !! c = Some pc /\ registration pc = Some (hello, g)
      /\ hello.(HelloRequest.service) = s
      /\ (live pc = true -> exists e, Registry.get (reg w) s = Some e /\ e.(ServiceEntry.tx) = c);
  str_session s g handle : Broker.sessions (broker w) !! (s, g) = Some handle ->
    exists c hello, conns w !! c = Some (SRunning hello g) /\ hello.(HelloRequest.service) = s
      /\ handle = {| SessionHandle.pending_out := c; SessionHandle.next_req_id := c |};
  str_channel c q : channels (heap w) !! c = Some q -> exists hello g, registered w c hello g;
  str_task id o a pc e : tasks w !! id = Some (TCall o a pc) -> pc_entry pc = Some e ->
    entry_ok w e
}.

Lemma registered_drawn w c hello g : registered w c hello g -> holds_gen w c g.
Proof.
  intros (pc & Hc & Hr). exists pc. split; [done|]. by destruct pc; simpl in *; simplify_eq.
Qed.

Lemma str_gen n w (Hs : structural n w) c hello g :
  registered w c hello g -> (0 < g <= (reg w).(Registry.next_gen))%N.
Proof. intros Hr. by eapply str_drawn, registered_drawn. Qed.

Lemma str_gen_inj n w (Hs : structural n w) c1 c2 hello1 hello2 g :
  registered w c1 hello1 g -> registered w c2 hello2 g -> c1 = c2.
Proof. intros H1 H2. by eapply (str_drawn_inj n w Hs); eapply registered_drawn. Qed.

Lemma no_job n w c pc :
  structural n w -> conns w !! c = Some pc -> holds_tables pc = false -> busy w !! c = None.
Proof.
  intros Hs Hc Hh. destruct (busy w !! c) as [job|] eqn:Hj; [|done].
  destruct (str_job n w Hs c job Hj) as (pc' & Hc' & Hok). simplify_eq. by destruct job, pc.
Qed.

(** One connection may change its job and its program counter. *)
Lemma jobs_upd n w w' c pc' :
  structural n w -> conns w' !! c = Some pc' ->
  (forall c', c' <> c -> conns w' !! c' = conns w !! c' /\ busy w' !! c' = busy w !! c') ->
  (forall job, busy w' !! c = Some job -> job_ok job pc' = true) ->
  forall c' job, busy w' !! c' = Some job ->
    exists pc, conns w' !! c' = Some pc /\ job_ok job pc = true.
Proof.
  intros Hs Hc Ho Hj c' job Hb. destruct (decide (c' = c)) as [->|Hne]; [eauto|].
  destruct (Ho c' Hne) as [-> Hb']. rewrite Hb' in Hb. by eapply str_job.
Qed.

Lemma sessions_keep n w w' c pc' :
  structural n w -> (forall hello g, conns w !! c <> Some (SRunning hello g)) ->
  conns w' = <[c := pc']> (conns w) ->
  Broker.sessions (broker w') = Broker.sessions (broker w) ->
  forall s g handle, Broker.sessions (broker w') !! (s, g) = Some handle ->
    exists c hello, conns w' !! c = Some (SRunning hello g) /\ hello.(HelloRequest.service) = s
      /\ handle = {| SessionHandle.pending_out := c; SessionHandle.next_req_id := c |}.
Proof.
  intros Hs Hc Hcs Hse s g handle Hh. rewrite Hse in Hh.
  destruct (str_session n w Hs s g handle Hh) as (c' & hl & Hc' & ?).
  exists c', hl. rewrite Hcs, lookup_insert_ne; [done|]. intros <-. by eapply Hc.
Qed.

(** ** The steps of a session's task *)

Inductive session_step w (c : conn_id) : World Q -> Prop :=
| ss_number hello :
    conns w !! c = Some (SAccepted hello) ->
    session_step w c (set_conn c (SNumbered hello (Broker.next_client_id (broker w)))
      (set_heap (heap w) (set_broker (Broker.take_client_id (broker w)).1 w)))
| ss_draw hello id :
    conns w !! c = Some (SNumbered hello id) ->
    session_step w c (set_conn c (SDrawn hello (Registry.draw (reg w)).2 id)
      (set_heap (heap w) (set_broker (Broker.set_registry (Registry.draw (reg w)).1 (broker w)) w)))
| ss_put hello g id :
    conns w !! c = Some (SDrawn hello g id) ->
    session_step w c (set_conn c (SAck hello g id)
      (set_heap (chan_new (heap w) c)
         (set_broker (Broker.set_registry (Registry.put (reg w) (hello_entry hello c) g) (broker w))
            (enter hello.(HelloRequest.service) c w))))
| ss_job hello g pc job b h t job' :
    conns w !! c = Some pc -> holds_tables pc = true -> registration pc = Some (hello, g) ->
    busy w !! c = Some job ->
    serve_job (broker w) (heap w) hello g job = (b, h, t, job') ->
    session_step w c (spawn_opt t (set_job c job' (set_heap h (set_broker b w)))).

Lemma exec_session w c w' : exec_conn w (LSession c) = Some w' -> session_step w c w'.
Proof.
  intros Hx. simpl in Hx. destruct (conns w !! c) as [pc|] eqn:Hc; [|done].
  destruct (busy w !! c) as [job|] eqn:Hj.
  - destruct pc; try done; destruct (serve_job _ _ _ _ _) as [[[b h] t] job'] eqn:Hsj;
      injection Hx as <-; by eapply ss_job.
  - destruct pc; try done; simpl in Hx; injection Hx as <-.
    + by apply ss_number.
    + by apply ss_draw.
    + by apply ss_put.
Qed.

Lemma channels_send h c f c' q :
  channels (chan_send_ h c f) !! c' = Some q -> is_Some (channels h !! c').
Proof.
  unfold chan_send_, chan_send. intros Hq.
  destruct (channels h !! c) as [qc|] eqn:Hc; simpl in Hq; [|eauto].
  destruct (mpsc_send qc f) as [q'|]; simpl in Hq; [|eauto].
  destruct (decide (c' = c)) as [->|Hne]; [eauto|].
  rewrite lookup_insert_ne in Hq by done. eauto.
Qed.

(** What a job does. *)
Lemma serve_job_frame b (h : Heap Q) hello g job b' h' t job' :
  serve_job b h hello g job = (b', h', t, job') ->
  b'.(Broker.registry) = b.(Broker.registry) /\ b'.(Broker.sessions) = b.(Broker.sessions)
  /\ b'.(Broker.config) = b.(Broker.config) /\ b'.(Broker.subscriptions) = b.(Broker.subscriptions)
  /\ b'.(Broker.tokens) = b.(Broker.tokens)
  /\ b'.(Broker.local_services) = b.(Broker.local_services)
  /\ b'.(Broker.local_service_methods) = b.(Broker.local_service_methods)
  /\ same_tables h h' /\ (forall c q, channels h' !! c = Some q -> is_Some (channels h !! c))
  /\ t = match job with
         | JProbe => Some (TCall (OProbe hello.(HelloRequest.service) g)
                             (probe_args b hello.(HelloRequest.service)) CStart)
         | _ => None
         end
  /\ (forall pc, job_ok job pc = true -> forall j, job' = Some j -> job_ok j pc = true).
Proof.
  intros Hs. destruct job as [|ev pc| |]; simpl in Hs.
  - injection Hs as <- <- <- <-. split_and!; eauto; done.
  - destruct (fan_step_spec b h ev pc) as [Hsame _].
    assert (Hch : forall c q, channels (fan_step b h ev pc).1 !! c = Some q ->
      is_Some (channels h !! c))
      by (intros c q; destruct pc as [[|]|]; simpl; [eauto..|apply channels_send]).
    destruct (fan_step b h ev pc) as [h1 pc1]. injection Hs as <- <- <- <-.
    split_and!; try done. intros p Hp j Hj. destruct pc1; by simplify_eq/=.
  - injection Hs as <- <- <- <-. split_and!; eauto; try done.
    intros p Hp j Hj. case_match; by simplify_eq/=.
  - injection Hs as <- <- <- <-. split_and!; eauto; done.
Qed.

(** ** Steps that register nobody *)

Lemma entry_ok_mono w w' e :
  (forall c hello g, registered w c hello g -> registered w' c hello g) ->
  entry_ok w e -> entry_ok w' e.
Proof. intros Hm (hello & Hr & ?). exists hello. eauto. Qed.

Lemma structural_keep n w w' :
  structural n w ->
  (forall c hello g, registered w' c hello g <-> registered w c hello g) ->
  (forall c g, holds_gen w' c g -> holds_gen w c g) ->
  entered w' = entered w ->
  (forall c pc, conns w' !! c = Some pc -> live pc = true ->
     exists pc0, conns w !! c = Some pc0 /\ live pc0 = true) ->
  (forall c pc, conns w' !! c = Some pc -> (c < next_id w')%N) ->
  (forall id t, tasks w' !! id = Some t -> (id < next_id w')%N
     /\ forall o a pc e, t = TCall o a pc -> pc_entry pc = Some e -> entry_ok w e) ->
  (reg w').(Registry.next_gen) = (reg w).(Registry.next_gen) ->
  (forall c job, busy w' !! c = Some job ->
     exists pc, conns w' !! c = Some pc /\ job_ok job pc = true) ->
  (forall s e, Registry.get (reg w') s = Some e -> Registry.get (reg w) s = Some e
     /\ exists pc, conns w' !! e.(ServiceEntry.tx) = Some pc /\ live pc = true) ->
  (forall s e, Registry.get (reg w) s = Some e -> Registry.get (reg w') s = Some e
     \/ exists pc, conns w' !! e.(ServiceEntry.tx) = Some pc /\ live pc = false) ->
  (forall s g handle, Broker.sessions (broker w') !! (s, g) = Some handle ->
     exists c hello, conns w' !! c = Some (SRunning hello g) /\ hello.(HelloRequest.service) = s
       /\ handle = {| SessionHandle.pending_out := c; SessionHandle.next_req_id := c |}) ->
  (forall c q, channels (heap w') !! c = Some q -> is_Some (channels (heap w) !! c)) ->
  structural (n + 1) w'.
Proof.
  intros Hs Hr Hd Hen Hlv Hc Ht Hn Hj Hg Hg' Hse Hch.
  assert (Hm : forall e, entry_ok w e -> entry_ok w' e)
    by (intros e; apply entry_ok_mono; by intros ??? ?%Hr).
  split; [done | by intros id t [? _]%Ht | | | | done | | | | done | |].
  - rewrite Hn. pose proof (str_next_gen n w Hs). lia.
  - intros c g Hx%Hd. rewrite Hn. by eapply str_drawn.
  - intros c1 c2 g Hx1%Hd Hx2%Hd. by eapply str_drawn_inj.
  - intros s e [He Hl]%Hg. destruct (str_entry n w Hs s e He) as (? & ? & _). auto.
  - intros s e [He _]%Hg. rewrite Hen. by eapply str_last.
  - intros s c. rewrite Hen. intros He.
    destruct (str_entered n w Hs s c He) as (pc & hello & g & Hpc & Hrg & Hsv & Hl).
    destruct (proj2 (Hr c hello g)) as (pc' & Hpc' & Hrg'); [by exists pc|].
    exists pc', hello, g. split_and!; [done..|]. intros Hlive.
    destruct (Hlv c pc' Hpc' Hlive) as (pc0 & Hpc0 & Hlive0). simplify_eq.
    destruct (Hl Hlive0) as (e & Hge & Htx). exists e. split; [|done].
    destruct (Hg' _ e Hge) as [?|(pc2 & Hpc2 & Hl2)]; [done|]. congruence.
  - intros c q Hq. apply Hch in Hq as [q' Hq'].
    destruct (str_channel n w Hs c q' Hq') as (hello & g & Hx). exists hello, g. by apply Hr.
  - intros id o a pc e Hid He. destruct (Ht _ _ Hid) as [_ Hx]. eauto.
Qed.

(** Moving one connection to a program counter with the same registration. *)
Lemma registered_move (cs : gmap conn_id SessionPc) c pc' :
  registration pc' = (cs !! c) ≫= registration ->
  forall c' hello g, registered_in (<[c := pc']> cs) c' hello g <-> registered_in cs c' hello g.
Proof.
  intros Heq c' hello g. unfold registered_in. destruct (decide (c' = c)) as [->|Hne].
  - rewrite lookup_insert_eq. split.
    + intros (pc & [= <-] & Hr). rewrite Heq in Hr. apply bind_Some in Hr as (pc & Hp & Hr). eauto.
    + intros (pc & Hp & Hr). exists pc'. split; [done|]. by rewrite Heq, Hp.
  - by rewrite lookup_insert_ne.
Qed.

Lemma drawn_move w w' c pc' :
  conns w' = <[c := pc']> (conns w) ->
  drawn_generation pc' = (conns w !! c) ≫= drawn_generation ->
  forall c' g, holds_gen w' c' g -> holds_gen w c' g.
Proof.
  intros Hcs Heq c' g (pc & Hpc & Hg). rewrite Hcs in Hpc.
  apply lookup_insert_Some in Hpc as [[<- <-]|[_ Hpc]]; [|by exists pc].
  rewrite Heq in Hg. apply bind_Some in Hg as (pc & Hp & Hg). by exists pc.
Qed.

Lemma channels_drop (h : Heap Q) c c' q :
  channels (chan_drop_rx h c) !! c' = Some q -> is_Some (channels h !! c').
Proof.
  unfold chan_drop_rx. simpl. intros Hq. destruct (decide (c' = c)) as [->|Hne].
  - rewrite lookup_alter_eq in Hq. by destruct (channels h !! c).
  - rewrite lookup_alter_ne in Hq by done. eauto.
Qed.

(** ** The steps, one lemma per group *)

Lemma serve_hello_cases b read b' out pc :
  serve_hello b read = (b', out, pc) ->
  exists tk, b' = Broker.set_tokens tk b
    /\ (pc = SClosed None /\ (out = None \/ exists e, out = Some (error_frame e))
       \/ exists hello, read = Ok (Some (BusFrame.Hello hello)) /\ out = None
          /\ pc = SAccepted hello
          /\ hello.(HelloRequest.protocol).(ProtocolVersion.major) = 1%N
          /\ b.(Broker.tokens) !! hello.(HelloRequest.service) = Some hello.(HelloRequest.auth_token)
          /\ tk = delete hello.(HelloRequest.service) b.(Broker.tokens)).
Proof.
  assert (Hid : b = Broker.set_tokens b.(Broker.tokens) b) by by destruct b.
  intros Hs. unfold serve_hello in Hs.
  destruct read as [[[hello| | | | | | | | | | | | | ]|]|]; try (simplify_eq; eauto 10; fail).
  case_bool_decide as Hv; simpl in Hs; [|simplify_eq; eauto 10].
  unfold Broker.consume_token in Hs.
  destruct (Broker.tokens b !! _) as [tok|] eqn:Htok; simpl in Hs; [|simplify_eq; eauto 10].
  case_bool_decide as Heq; simpl in Hs; simplify_eq; eexists; (split; [reflexivity|]); [|eauto 10].
  right. exists hello. by split_and!.
Qed.

Lemma get_set_registry_remove r s g s' e :
  Registry.get (Registry.remove_if r s g).1 s' = Some e ->
  Registry.get r s' = Some e /\ (s' = s -> e.(ServiceEntry.generation) <> g).
Proof.
  destruct (Registry.remove_if r s g) as [r' rm] eqn:Hrm. simpl. intros Hg.
  rewrite (registry_remove_if_get _ _ _ _ _ s' Hrm) in Hg.
  destruct (decide (rm = true /\ s' = s)) as [|Hn]; [done|]. split; [done|].
  intros -> Hgen. apply Hn. split; [|done].
  unfold Registry.remove_if in Hrm. unfold Registry.get in Hg. rewrite Hg in Hrm.
  rewrite decide_True in Hrm by done. by simplify_eq.
Qed.

Lemma next_gen_remove r s g :
  (Registry.remove_if r s g).1.(Registry.next_gen) = r.(Registry.next_gen).
Proof. unfold Registry.remove_if. by repeat case_match. Qed.

Lemma registered_fun w c hello1 hello2 g1 g2 :
  registered w c hello1 g1 -> registered w c hello2 g2 -> hello1 = hello2 /\ g1 = g2.
Proof. intros (pc1 & Hx1 & Hr1) (pc2 & Hx2 & Hr2). split; congruence. Qed.

Lemma registered_add (cs : gmap conn_id SessionPc) c pc0 pc hello g :
  cs !! c = Some pc0 -> registration pc0 = None -> registration pc = Some (hello, g) ->
  forall c' hello' g', registered_in (<[c := pc]> cs) c' hello' g' <->
    (c' = c /\ hello' = hello /\ g' = g) \/ registered_in cs c' hello' g'.
Proof.
  intros Hc Hpc0 Hpc c' hello' g'. unfold registered_in. destruct (decide (c' = c)) as [->|Hne].
  - rewrite lookup_insert_eq, Hc. split.
    + intros (? & [= <-] & Hr). left. split; [done|]. split; congruence.
    + intros [(_ & -> & ->)|(? & [= <-] & ?)]; [eauto | congruence].
  - rewrite lookup_insert_ne by done. naive_solver.
Qed.

(** The step that registers a connection. *)
Lemma structural_put n w c hello g id :
  structural n w -> conns w !! c = Some (SDrawn hello g id) ->
  structural (n + 1)
    (set_conn c (SAck hello g id)
      (set_heap (chan_new (heap w) c)
         (set_broker (Broker.set_registry (Registry.put (reg w) (hello_entry hello c) g) (broker w))
            (enter hello.(HelloRequest.service) c w)))).
Proof.
  intros Hs Hc. set (w' := set_conn _ _ _). set (s0 := hello.(HelloRequest.service)).
  pose proof (str_next_gen n w Hs) as Hng.
  assert (Hd : holds_gen w c g) by by exists (SDrawn hello g id).
  assert (Hr : forall c' hello' g', registered w' c' hello' g' <->
      (c' = c /\ hello' = hello /\ g' = g) \/ registered w c' hello' g')
    by by apply (registered_add _ c (SDrawn hello g id)).
  assert (Hd' : forall c' g', holds_gen w' c' g' -> holds_gen w c' g').
  { apply (drawn_move w w' c (SAck hello g id) eq_refl). by rewrite Hc. }
  assert (Hm : forall e', entry_ok w e' -> entry_ok w' e')
    by (intros e'; apply entry_ok_mono; intros *; rewrite Hr; auto).
  assert (Hget : forall s, Registry.get (reg w') s = if decide (s = s0)
    then Some (ServiceEntry.set_generation g (hello_entry hello c)) else Registry.get (reg w) s)
    by (intros s; apply registry_put_get).
  assert (Hlive : forall c' pc', conns w !! c' = Some pc' -> live pc' = true ->
    conns w' !! c' = Some pc').
  { intros c' pc' Hpc' Hl. simpl. rewrite lookup_insert_ne; [done|]. intros <-. by simplify_eq/=. }
  split.
  - simpl. intros c' pc' [[<- _]|[_ Hc']]%lookup_insert_Some; by eapply (str_conn_ids n w).
  - apply (str_task_ids n w Hs).
  - simpl. lia.
  - intros c' g' Hx%Hd'. by apply (str_drawn n w Hs c').
  - intros c1 c2 g' Hx1%Hd' Hx2%Hd'. by eapply (str_drawn_inj n w Hs).
  - apply (jobs_upd n w w' c (SAck hello g id) Hs); [apply lookup_insert_eq|..].
    + intros c' Hne. simpl. by rewrite lookup_insert_ne.
    + simpl. by rewrite (no_job n w c _ Hs Hc).
  - intros s e'. rewrite Hget. case_decide as Hss.
    + intros [= <-]. subst s. simpl. split_and!; [done| |].
      * exists hello. simpl. split; [apply Hr; auto | done].
      * exists (SAck hello g id). split; [apply lookup_insert_eq | done].
    + intros He'. destruct (str_entry n w Hs s e' He') as (? & ? & pc' & Hpc' & Hl). eauto 10.
  - intros s e'. rewrite Hget. simpl. fold s0. case_decide as Hss.
    + intros [= <-]. subst s. apply lookup_insert_eq.
    + intros He'. rewrite lookup_insert_ne by done. by eapply (str_last n w Hs).
  - intros s c'. simpl. fold s0. intros [[<- <-]|[Hne He]]%lookup_insert_Some.
    + exists (SAck hello g id), hello, g. rewrite lookup_insert_eq. split_and!; try done.
      intros _. fold (reg w'). rewrite Hget, decide_True by done. by eexists.
    + destruct (str_entered n w Hs s c' He) as (pc & hl & g' & Hpc & Hrg & Hsv & Hl).
      exists pc, hl, g'. rewrite lookup_insert_ne by (intros <-; by simplify_eq/=).
      split_and!; try done. intros Hlv. fold (reg w'). rewrite Hget, decide_False by done. auto.
  - intros s g' handle Hx. destruct (str_session n w Hs s g' handle Hx) as (c' & h' & Hc' & ?).
    exists c', h'. split; [by apply Hlive | done].
  - simpl. intros c' q [[<- _]|[_ Hq]]%lookup_insert_Some.
    + exists hello, g. apply Hr. auto.
    + destruct (str_channel n w Hs c' q Hq) as (h' & g' & Hx). exists h', g'. apply Hr. auto.
  - intros i o a pc' e' Hid' He'. apply Hm. by eapply (str_task n w Hs).
Qed.

(** The step that draws a generation. *)
Lemma structural_draw n w c hello id :
  structural n w -> (n + 1 < U64_SIZE)%N -> conns w !! c = Some (SNumbered hello id) ->
  structural (n + 1)
    (set_conn c (SDrawn hello (Registry.draw (reg w)).2 id)
      (set_heap (heap w) (set_broker (Broker.set_registry (Registry.draw (reg w)).1 (broker w)) w))).
Proof.
  intros Hs Hb Hc. pose proof (str_next_gen n w Hs) as Hng.
  assert (Hg : (Registry.draw (reg w)).2 = ((reg w).(Registry.next_gen) + 1)%N
    /\ (Registry.draw (reg w)).1.(Registry.next_gen) = ((reg w).(Registry.next_gen) + 1)%N)
    by (unfold Registry.draw; simpl; rewrite next_gen_small by lia; done).
  destruct Hg as [Hg Hg']. rewrite Hg.
  set (g := ((reg w).(Registry.next_gen) + 1)%N) in *. set (w' := set_conn _ _ _).
  assert (Hr : forall c' hello' g', registered w' c' hello' g' <-> registered w c' hello' g')
    by (intros *; apply registered_move; simpl; by rewrite Hc).
  assert (Hd : forall c' g', holds_gen w' c' g' -> (c' = c /\ g' = g) \/ holds_gen w c' g').
  { intros c' g' (pc & Hpc & Hdg). simpl in Hpc.
    apply lookup_insert_Some in Hpc as [[<- <-]|[_ Hpc]]; [left; by simplify_eq/=|right; by exists pc]. }
  assert (Hm : forall e', entry_ok w e' -> entry_ok w' e')
    by (intros e'; apply entry_ok_mono; intros *; rewrite Hr; auto).
  assert (Hkeep : forall c' pc', conns w !! c' = Some pc' -> registration pc' <> None ->
    conns w' !! c' = Some pc').
  { intros c' pc' Hpc' Hl. simpl. rewrite lookup_insert_ne; [done|]. intros <-. by simplify_eq/=. }
  split.
  - simpl. intros c' pc' [[<- _]|[_ Hc']]%lookup_insert_Some; by eapply (str_conn_ids n w).
  - apply (str_task_ids n w Hs).
  - change ((Registry.draw (reg w)).1.(Registry.next_gen) <= n + 1)%N. lia.
  - change (reg w') with (Registry.draw (reg w)).1. rewrite Hg'.
    intros c' g' [[-> ->]|Hx]%Hd; [lia|]. apply (str_drawn n w Hs) in Hx. lia.
  - intros c1 c2 g' [[-> ->]|Hx1]%Hd [[-> Heq]|Hx2]%Hd; [done|..].
    + apply (str_drawn n w Hs) in Hx2. lia.
    + subst g'. apply (str_drawn n w Hs) in Hx1. lia.
    + by eapply (str_drawn_inj n w Hs).
  - apply (jobs_upd n w w' c (SDrawn hello g id) Hs); [apply lookup_insert_eq|..].
    + intros c' Hne. simpl. by rewrite lookup_insert_ne.
    + simpl. by rewrite (no_job n w c _ Hs Hc).
  - intros s e' He'. destruct (str_entry n w Hs s e' He') as (? & ? & pc' & Hpc' & Hl).
    split_and!; [done|auto|]. exists pc'. split; [|done]. apply Hkeep; [done|by destruct pc'].
  - intros s e' He'. by apply (str_last n w Hs).
  - intros s c' He. destruct (str_entered n w Hs s c' He) as (pc & hl & g' & Hpc & Hrg & ?).
    exists pc, hl, g'. split; [|done]. apply Hkeep; [done|by rewrite Hrg].
  - intros s g' handle Hx. destruct (str_session n w Hs s g' handle Hx) as (c' & h' & Hc' & ?).
    exists c', h'. split; [by apply Hkeep | done].
  - intros c' q Hq. destruct (str_channel n w Hs c' q Hq) as (h' & g' & Hx). exists h', g'. by apply Hr.
  - intros i o a pc' e' Hid' He'. apply Hm. by eapply (str_task n w Hs).
Qed.

(** An ended registration is not in the registry any more. *)
Lemma structural_end n w w' c pc hello g :
  structural n w ->
  conns w !! c = Some pc -> live pc = true -> registration pc = Some (hello, g) ->
  (forall hello' g', pc <> SRunning hello' g') ->
  conns w' = <[c := SClosed (Some (hello, g))]> (conns w) -> tasks w' = tasks w ->
  busy w' = busy w -> busy w !! c = None -> entered w' = entered w ->
  next_id w' = next_id w ->
  heap w' = chan_drop_rx (heap w) c ->
  reg w' = (Registry.remove_if (reg w) hello.(HelloRequest.service) g).1 ->
  Broker.sessions (broker w') = Broker.sessions (broker w) ->
  structural (n + 1) w'.
Proof.
  intros Hs Hc Hlive Hpc Hnr Hcs Ht Hbu Hnb Hen Hid Hh Hreg Hse.
  assert (Hr : forall c' hello' g', registered w' c' hello' g' <-> registered w c' hello' g').
  { intros *. unfold registered. rewrite Hcs. apply registered_move. by rewrite Hc; simpl; rewrite Hpc. }
  assert (Hrc : registered w c hello g) by (exists pc; done).
  assert (Hcl : conns w' !! c = Some (SClosed (Some (hello, g))))
    by (rewrite Hcs; apply lookup_insert_eq).
  apply (structural_keep n w w'); [done|done| |done|..].
  - apply (drawn_move w w' c (SClosed (Some (hello, g))) Hcs). rewrite Hc. simpl.
    by destruct pc; simpl in *; simplify_eq.
  - intros c' pc' Hc' Hl. rewrite Hcs in Hc'.
    apply lookup_insert_Some in Hc' as [[<- <-]|[_ Hc']]; [done | eauto].
  - intros c' pc' Hc'. rewrite Hcs in Hc'. rewrite Hid.
    apply lookup_insert_Some in Hc' as [[<- _]|[_ Hc']]; by eapply str_conn_ids.
  - intros id t Hidt. rewrite Ht in Hidt. rewrite Hid. split; [by eapply str_task_ids|].
    intros o a pc' e -> He. by eapply str_task.
  - rewrite Hreg. apply next_gen_remove.
  - apply (jobs_upd n w w' c _ Hs Hcl).
    + intros c' Hne. by rewrite Hcs, Hbu, lookup_insert_ne.
    + by rewrite Hbu, Hnb.
  - intros s e He. rewrite Hreg in He. apply get_set_registry_remove in He as [He Hne].
    split; [done|]. destruct (str_entry n w Hs s e He) as (Hks & (h' & Hr' & Hsv & _) & pc' & Hpc' & Hl).
    exists pc'. split; [|done]. rewrite Hcs, lookup_insert_ne; [done|]. intros Heq.
    rewrite <-Heq in Hr'. destruct (registered_fun w _ _ _ _ _ Hr' Hrc) as [-> Hgen].
    apply Hne; congruence.
  - intros s e He. destruct (Registry.remove_if (reg w) (HelloRequest.service hello) g) as [r rm] eqn:Hrm.
    rewrite Hreg. simpl. rewrite (registry_remove_if_get _ _ _ _ _ s Hrm).
    case_decide as Hd; [right|by left]. destruct Hd as [-> ->].
    exists (SClosed (Some (hello, g))). split; [|done].
    destruct (str_entry n w Hs _ e He) as (_ & (h' & Hr' & _) & _).
    unfold Registry.remove_if in Hrm. unfold Registry.get in He. rewrite He in Hrm.
    case_decide as Hgen; [|done]. rewrite Hgen in Hr'.
    by rewrite (str_gen_inj n w Hs _ _ _ _ _ Hr' Hrc).
  - apply (sessions_keep n w w' c (SClosed (Some (hello, g))) Hs); [|done..].
    intros hl g' Hx. rewrite Hc in Hx. simplify_eq. by eapply Hnr.
  - intros c' q Hq. rewrite Hh in Hq. by eapply channels_drop.
Qed.

Lemma structural_quiet_job n w w' :
  structural n w ->
  conns w' = conns w -> reg w' = reg w -> entered w' = entered w ->
  (forall c job, busy w' !! c = Some job ->
     exists pc, conns w' !! c = Some pc /\ job_ok job pc = true) ->
  Broker.sessions (broker w') = Broker.sessions (broker w) ->
  (next_id w <= next_id w')%N ->
  (forall id t, tasks w' !! id = Some t -> (id < next_id w')%N
     /\ forall o a pc e, t = TCall o a pc -> pc_entry pc = Some e -> entry_ok w e) ->
  (forall c q, channels (heap w') !! c = Some q -> is_Some (channels (heap w) !! c)) ->
  structural (n + 1) w'.
Proof.
  intros Hs Hc Hr Hen Hbu Hse Hid Ht Hch. apply (structural_keep n w w'); [done|..]; try done.
  - intros. unfold registered. by rewrite Hc.
  - unfold holds_gen. by rewrite Hc.
  - intros c pc Hpc Hl. rewrite Hc in Hpc. eauto.
  - intros c pc Hpc. rewrite Hc in Hpc. pose proof (str_conn_ids n w Hs c pc Hpc). lia.
  - by rewrite Hr.
  - intros s e He. rewrite Hr in He. split; [done|]. rewrite Hc. by eapply str_entry.
  - intros s e He. rewrite Hr. by left.
  - intros s g handle Hx. rewrite Hse in Hx. rewrite Hc. by eapply str_session.
Qed.

Lemma structural_quiet n w w' :
  structural n w ->
  conns w' = conns w -> reg w' = reg w -> entered w' = entered w -> busy w' = busy w ->
  Broker.sessions (broker w') = Broker.sessions (broker w) ->
  (next_id w <= next_id w')%N ->
  (forall id t, tasks w' !! id = Some t -> (id < next_id w')%N
     /\ forall o a pc e, t = TCall o a pc -> pc_entry pc = Some e -> entry_ok w e) ->
  (forall c q, channels (heap w') !! c = Some q -> is_Some (channels (heap w) !! c)) ->
  structural (n + 1) w'.
Proof.
  intros Hs Hc Hr Hen Hbu Hse Hid Ht Hch. apply (structural_quiet_job n w w'); try done.
  intros c job. rewrite Hbu, Hc. by apply (str_job n w).
Qed.

(** Moving a connection whose registration stays alive. *)
Lemma structural_move n w w' c pc pc' :
  structural n w ->
  conns w !! c = Some pc -> registration pc' = registration pc ->
  drawn_generation pc' = drawn_generation pc -> live pc' = live pc ->
  conns w' = <[c := pc']> (conns w) -> reg w' = reg w -> entered w' = entered w ->
  next_id w' = next_id w -> tasks w' = tasks w ->
  (forall c' job, busy w' !! c' = Some job ->
     if decide (c' = c) then job_ok job pc' = true else busy w !! c' = Some job) ->
  (forall s g handle, Broker.sessions (broker w') !! (s, g) = Some handle ->
     exists c hello, conns w' !! c = Some (SRunning hello g) /\ hello.(HelloRequest.service) = s
       /\ handle = {| SessionHandle.pending_out := c; SessionHandle.next_req_id := c |}) ->
  (forall c q, channels (heap w') !! c = Some q -> is_Some (channels (heap w) !! c)) ->
  structural (n + 1) w'.
Proof.
  intros Hs Hc Hpc Hdg Hl Hcs Hr Hen Hid Ht Hbu Hse Hch.
  apply (structural_keep n w w'); [done|..|done|done]; try done.
  - intros. unfold registered. rewrite Hcs. apply registered_move. by rewrite Hc.
  - apply (drawn_move w w' c pc' Hcs). by rewrite Hc.
  - intros c' q Hq Hlq. rewrite Hcs in Hq.
    apply lookup_insert_Some in Hq as [[<- <-]|[_ Hq]]; [|by exists q].
    exists pc. split; [done|congruence].
  - intros c' q Hq. rewrite Hcs in Hq. rewrite Hid.
    apply lookup_insert_Some in Hq as [[<- _]|[_ Hq]]; by eapply str_conn_ids.
  - intros id t Hx. rewrite Ht in Hx. rewrite Hid. split; [by eapply str_task_ids|].
    intros o a p e -> He. by eapply str_task.
  - by rewrite Hr.
  - intros c' job Hj. apply Hbu in Hj. rewrite Hcs. case_decide as Hcc.
    + subst c'. exists pc'. split; [apply lookup_insert_eq|done].
    + rewrite lookup_insert_ne by done. by eapply str_job.
  - intros s e He. rewrite Hr in He. split; [done|].
    destruct (str_entry n w Hs s e He) as (_ & _ & p & Hp & Hlp).
    rewrite Hcs. destruct (decide (ServiceEntry.tx e = c)) as [Heq|Hne].
    + exists pc'. rewrite Heq in Hp |- *. rewrite Hc in Hp. simplify_eq.
      split; [apply lookup_insert_eq | congruence].
    + exists p. by rewrite lookup_insert_ne.
  - intros s e He. rewrite Hr. by left.
Qed.

Lemma put_task_lookup (w : World Q) n id t id' t' :
  structural n w -> (id < next_id w)%N ->
  <[id := t]> (tasks w) !! id' = Some t' ->
  (forall o a pc e, t = TCall o a pc -> pc_entry pc = Some e -> entry_ok w e) ->
  (id' < next_id w)%N
  /\ forall o a pc e, t' = TCall o a pc -> pc_entry pc = Some e -> entry_ok w e.
Proof.
  intros Hs Hid Hl Ht. apply lookup_insert_Some in Hl as [[<- <-]|[_ Hl]]; [done|].
  split; [by eapply str_task_ids|]. intros o a pc e -> He. by eapply str_task.
Qed.

Lemma call_step_entry n w id o a pc h' pc' e :
  structural n w -> tasks w !! id = Some (TCall o a pc) ->
  call_step (broker w) (heap w) id a pc = Some (h', pc') -> pc_entry pc' = Some e ->
  entry_ok w e.
Proof.
  intros Hs Ht Hst He. destruct pc; simpl in Hst; simplify_eq.
  - unfold call_local in He. by repeat case_match.
  - unfold call_catalog in He. by repeat case_match.
  - unfold call_registry in He. destruct (Registry.get _ _) as [e'|] eqn:Hg; [|done].
    destruct (check_method _ _); simplify_eq/=.
    by destruct (str_entry n w Hs _ _ Hg) as (_ & ? & _).
  - unfold call_session in He. destruct (Broker.sessions _ !! _); simplify_eq/=.
    by eapply (str_task n w Hs _ _ _ _ _ Ht).
  - unfold call_register in Hst. simplify_eq/=. by eapply (str_task n w Hs _ _ _ _ _ Ht).
  - unfold call_send in Hst. destruct (chan_send _ _ _); by simplify_eq/=.
Qed.

Lemma call_step_channels b h id a pc h' pc' c q :
  call_step b h id a pc = Some (h', pc') -> channels h' !! c = Some q ->
  is_Some (channels (Q := Q) h !! c).
Proof.
  intros Hst Hq. destruct pc; simpl in Hst; simplify_eq; eauto.
  - unfold call_register in Hst. simplify_eq/=. eauto.
  - unfold call_send in Hst. destruct (chan_send h _ _) as [h1|] eqn:Hsend; simplify_eq; [|eauto].
    apply (channels_send h (ServiceEntry.tx entry) (invoke_frame a req_id) c q).
    unfold chan_send_. by rewrite Hsend.
Qed.

Lemma no_jobs_moved n w c pc pc' :
  structural n w -> conns w !! c = Some pc -> holds_tables pc = false ->
  forall c' job, busy w !! c' = Some job ->
    if decide (c' = c) then job_ok job pc' = true else busy w !! c' = Some job.
Proof.
  intros Hs Hc Hh c' job Hj. case_decide as Heq; [|done]. subst c'.
  by rewrite (no_job n w c pc Hs Hc Hh) in Hj.
Qed.

Lemma structural_hello n w c read written w' :
  structural n w -> exec_conn w (LHello c read written) = Some w' -> structural (n + 1) w'.
Proof.
  intros Hs Hx. simpl in Hx.
  destruct (conns w !! c) as [[]|] eqn:Hc; try done.
  destruct (serve_hello (broker w) read) as [[b out] pc] eqn:Hsh. injection Hx as <-.
  destruct (serve_hello_cases _ _ _ _ _ Hsh) as (tk & -> & Hpc).
  assert (Hpc' : registration pc = None /\ drawn_generation pc = None /\ live pc = false)
    by by destruct Hpc as [[-> _]|(hl & _ & _ & -> & _)].
  destruct Hpc' as (Hp1 & Hp2 & Hp3).
  apply (structural_move n w _ c SHandshake pc); try done;
    try (destruct read as [[]|], out, written; done).
  - intros c' job Hj. apply (no_jobs_moved n w c SHandshake pc Hs Hc eq_refl).
    by destruct read as [[]|], out, written.
  - apply (sessions_keep n w _ c pc Hs); [congruence|by destruct read as [[]|], out, written..].
Qed.

(** A connection is accepted. *)
Lemma structural_accept n w w' :
  structural n w -> exec_conn w LAccept = Some w' -> structural (n + 1) w'.
Proof.
  intros Hs Hx. injection Hx as <-. assert (Hnone : conns w !! next_id w = None).
  { destruct (conns w !! next_id w) eqn:Hc; [|done]. apply (str_conn_ids n w Hs) in Hc. lia. }
  apply (structural_keep n w); try done.
  - intros. apply registered_move. by rewrite Hnone.
  - eapply drawn_move; [done|]. by rewrite Hnone.
  - simpl. intros c pc [[<- <-]|[_ Hc]]%lookup_insert_Some Hl; [done|eauto].
  - simpl. intros c pc [[<- _]|[_ Hc]]%lookup_insert_Some; [lia|].
    apply (str_conn_ids n w Hs) in Hc. lia.
  - simpl. intros id t Ht. split; [apply (str_task_ids n w Hs) in Ht; lia|].
    intros o a pc e -> He. by eapply str_task.
  - intros c job Hj. destruct (str_job n w Hs c job Hj) as (pc & Hpc & Hok).
    exists pc. simpl. split; [|done]. rewrite lookup_insert_ne; [done|]. intros <-. congruence.
  - intros s e He. split; [done|]. destruct (str_entry n w Hs s e He) as (_ & _ & pc & Hpc & Hl).
    exists pc. simpl. split; [|done]. rewrite lookup_insert_ne; [done|]. intros Heq.
    by rewrite <-Heq, Hnone in Hpc.
  - intros s e He. by left.
  - intros s g handle Hh. destruct (str_session n w Hs s g handle Hh) as (c' & hl & Hc' & ?).
    exists c', hl. simpl. rewrite lookup_insert_ne; [done|]. intros Heq.
    by rewrite <-Heq, Hnone in Hc'.
Qed.

(** The session's task takes its next step. *)
Lemma structural_session n w c w' :
  structural n w -> (n + 1 < U64_SIZE)%N ->
  exec_conn w (LSession c) = Some w' -> structural (n + 1) w'.
Proof.
  intros Hs Hb Hx. apply exec_session in Hx as [hello Hc|hello id Hc|hello g id Hc|
    hello g pc job b h t job' Hc Hh Hrg Hj Hsj].
  - apply (structural_move n w _ c (SAccepted hello)
      (SNumbered hello (Broker.next_client_id (broker w)))); try done; eauto.
    + by apply (no_jobs_moved n w c (SAccepted hello)).
    + apply (sessions_keep n w _ c (SNumbered hello (Broker.next_client_id (broker w))) Hs);
        [congruence|done..].
  - by apply structural_draw.
  - by apply structural_put.
  - destruct (serve_job_frame _ _ _ _ _ _ _ _ _ Hsj)
      as (Hr & Hse & _ & _ & _ & _ & _ & _ & Hch & -> & Hok).
    apply (structural_quiet_job n w); try done; try (by destruct job); try (by destruct job; simpl).
    + assert (Hcs : forall t, conns (spawn_opt t (set_job c job' (set_heap h (set_broker b w)))) = conns w)
        by by intros [].
      intros c' j Hj'. rewrite Hcs.
      assert (Hj2 : partial_alter (fun _ => job') c (busy w) !! c' = Some j) by by destruct job.
      destruct (decide (c' = c)) as [->|Hne].
      * rewrite lookup_partial_alter_eq in Hj2. destruct (str_job n w Hs c job Hj) as (p & Hp & Hok').
        exists p. split; [done|]. by eapply Hok.
      * rewrite lookup_partial_alter_ne in Hj2 by done. by eapply str_job.
    + destruct job; simpl; lia.
    + assert (Hold : forall id t', tasks w !! id = Some t' -> (id < next_id w)%N
        /\ forall o a pc e, t' = TCall o a pc -> pc_entry pc = Some e -> entry_ok w e)
        by (intros id t' Ht; split; [by eapply str_task_ids|intros o a p e -> He; by eapply str_task]).
      destruct job; simpl; try exact Hold.
      intros id t' [[<- <-]|[_ Ht]]%lookup_insert_Some.
      * split; [lia|]. by intros o a p e [= <- <- <-].
      * destruct (Hold _ _ Ht). split; [lia|done].
Qed.

(** The ack is written, or not. *)
Lemma structural_ack n w c wr w' :
  structural n w -> exec_conn w (LAck c wr) = Some w' -> structural (n + 1) w'.
Proof.
  intros Hs Hx. simpl in Hx. destruct (conns w !! c) as [[]|] eqn:Hc; try done.
  destruct wr; simpl in Hx; injection Hx as <-.
  - apply (structural_move n w _ c (SAck hello generation client_id) (SAttach hello generation));
      try done; eauto.
    + by apply (no_jobs_moved n w c (SAck hello generation client_id)).
    + apply (sessions_keep n w _ c (SAttach hello generation) Hs); [congruence|done..].
  - eapply (structural_end n w _ c); try done. by eapply (no_job n w c).
Qed.

(** The session is attached. *)
Lemma structural_attach n w c w' :
  structural n w -> exec_conn w (LAttach c) = Some w' -> structural (n + 1) w'.
Proof.
  intros Hs Hx. simpl in Hx. destruct (conns w !! c) as [[]|] eqn:Hc; try done.
  injection Hx as <-.
  apply (structural_move n w _ c (SAttach hello generation) (SRunning hello generation));
    try done; eauto.
  - intros c' job Hj. simpl in Hj. case_decide as Heq; [subst c'|].
    + rewrite lookup_partial_alter_eq in Hj. by simplify_eq.
    + by rewrite lookup_partial_alter_ne in Hj by done.
  - intros s g handle Hh. simpl in Hh.
    apply lookup_insert_Some in Hh as [[[= <- <-] <-]|[_ Hh]].
    + exists c, hello. simpl. split; [apply lookup_insert_eq | done].
    + destruct (str_session n w Hs s g handle Hh) as (c' & hl & Hc' & ?).
      exists c', hl. simpl. rewrite lookup_insert_ne; [done|]. intros <-. congruence.
Qed.

Lemma serve_frame_cases b (h : Heap Q) c hello f b' h' t job :
  serve_frame b h c hello f = (b', h', t, job) ->
  b'.(Broker.registry) = b.(Broker.registry) /\ b'.(Broker.sessions) = b.(Broker.sessions)
  /\ b'.(Broker.config) = b.(Broker.config) /\ b'.(Broker.tokens) = b.(Broker.tokens)
  /\ b'.(Broker.local_services) = b.(Broker.local_services)
  /\ b'.(Broker.local_service_methods) = b.(Broker.local_service_methods)
  /\ channels h' = channels h
  /\ (h' = h \/ exists resp, f = BusFrame.Response resp /\ h' = wake h c resp)
  /\ t = match f with
         | BusFrame.Invoke inv => Some (route_invoke b c hello.(HelloRequest.service) inv)
         | _ => None
         end
  /\ job = match f with
           | BusFrame.Publish ev => Some (JFan (Event.set_from (Some hello.(HelloRequest.service)) ev)
               (FNext (targets b.(Broker.subscriptions) hello.(HelloRequest.service) ev.(Event.topic))))
           | _ => None
           end.
Proof.
  intros Hs. destruct f; simpl in Hs; simplify_eq; split_and!; try done; eauto;
    unfold wake, Broker.unsubscribe; by case_match.
Qed.

Lemma route_invoke_entry b c s inv o a pc :
  route_invoke b c s inv = TCall o a pc -> pc_entry pc = None.
Proof. unfold route_invoke. case_match; [case_match|]; naive_solver. Qed.

(** A frame is read. *)
Lemma structural_frame n w c f w' :
  structural n w -> exec_conn w (LFrame c f) = Some w' -> structural (n + 1) w'.
Proof.
  intros Hs Hx. simpl in Hx. destruct (conns w !! c) as [[]|] eqn:Hc; try done.
  destruct (busy w !! c) eqn:Hbu; [done|].
  destruct (serve_frame _ _ _ _ _) as [[[b h] t] job] eqn:Hsf. injection Hx as <-.
  destruct (serve_frame_cases _ _ _ _ _ _ _ _ _ Hsf)
    as (Hbr & Hbs & _ & _ & _ & _ & Hch & _ & Ht & Hjob). clear Hsf.
  assert (Ht' : forall o a pc, t = Some (TCall o a pc) -> pc_entry pc = None)
    by (subst t; intros o a pc Ht; destruct f; try done; injection Ht; by apply route_invoke_entry).
  assert (Hcs : forall t, conns (spawn_opt t (set_job c job (set_heap h (set_broker b (log_in c f w)))))
    = conns w) by by intros [].
  apply (structural_quiet_job n w); try done; try (by destruct t).
  - apply (jobs_upd n w _ c (SRunning hello generation) Hs); [by rewrite Hcs|..].
    + intros c' Hne. rewrite Hcs. split; [done|].
      transitivity (partial_alter (fun _ => job) c (busy w) !! c'); [by destruct t|].
      by apply lookup_partial_alter_ne.
    + intros j Hj. assert (job = Some j) as Hjs.
      { rewrite <-Hj. replace (busy _) with (partial_alter (fun _ => job) c (busy w)) by by destruct t.
        by rewrite lookup_partial_alter_eq. }
      rewrite Hjob in Hjs. destruct f; by simplify_eq.
  - destruct t; simpl; lia.
  - destruct t as [t|]; simpl.
    + intros id t' [[<- <-]|[_ Hid]]%lookup_insert_Some.
      * split; [lia|]. intros o a pc e -> He. by rewrite (Ht' _ _ _ eq_refl) in He.
      * split; [apply (str_task_ids n w Hs) in Hid; lia|]. intros o a pc e -> He. by eapply str_task.
    + intros id t' Hid. split; [by eapply str_task_ids|]. intros o a pc e -> He. by eapply str_task.
  - intros c' q Hq. rewrite <-Hch. exists q. by destruct t.
Qed.

(** The stream ends. *)
Lemma structural_close n w c w' :
  structural n w -> exec_conn w (LClose c) = Some w' -> structural (n + 1) w'.
Proof.
  intros Hs Hx. simpl in Hx. destruct (conns w !! c) as [[]|] eqn:Hc; try done.
  destruct (busy w !! c) eqn:Hbu; [done|]. injection Hx as <-.
  apply (structural_move n w _ c (SRunning hello generation) (SDetached hello generation));
    try done; eauto.
  - intros c' job Hj. simpl in Hj. case_decide as Heq; [subst c'|].
    + rewrite lookup_partial_alter_eq in Hj. by simplify_eq.
    + by rewrite lookup_partial_alter_ne in Hj by done.
  - intros s g handle Hh. simpl in Hh. apply lookup_delete_Some in Hh as [Hne Hh].
    destruct (str_session n w Hs s g handle Hh) as (c' & hl & Hc' & Hsv & ?).
    exists c', hl. simpl. rewrite lookup_insert_ne; [done|]. intros <-. rewrite Hc in Hc'. naive_solver.
Qed.

(** The writer takes a frame. *)
Lemma structural_writer n w c wr w' :
  structural n w -> exec_conn w (LWriter c wr) = Some w' -> structural (n + 1) w'.
Proof.
  intros Hs Hx. simpl in Hx. destruct (conns w !! c) as [[]|] eqn:Hc; try done.
  all: destruct (channels (heap w) !! c) as [q0|] eqn:Hq0; simpl in Hx; [|done].
  all: destruct (mpsc_recv q0) as [[f q1]|]; [|done]; injection Hx as <-.
  all: apply (structural_quiet n w); try done; try (by destruct wr).
  all: try (intros id t Ht; replace (next_id _) with (next_id w) by (by destruct wr);
    replace (tasks _) with (tasks w) in Ht by (by destruct wr);
    split; [by eapply str_task_ids|]; intros o a pc e -> He; by eapply str_task).
  all: intros c' q Hq; destruct wr;
    [simpl in Hq; apply lookup_insert_Some in Hq as [[<- _]|[_ Hq]]; eauto |
     apply channels_drop in Hq as [q' Hq]; simpl in Hq;
     apply lookup_insert_Some in Hq as [[<- _]|[_ Hq]]; eauto].
Qed.

Lemma structural_conn n w l w' :
  structural n w -> (n + 1 < U64_SIZE)%N ->
  exec_conn w l = Some w' -> structural (n + 1) w'.
Proof.
  intros Hs Hb Hx. destruct l as [|c read wr|c wr|c|c f|c|c|c wr|c| | | | | | | | | | |]; try done.
  - by eapply structural_accept.
  - by eapply structural_hello.
  - by eapply structural_ack.
  - by eapply structural_attach.
  - by eapply structural_frame.
  - by eapply structural_close.
  - simpl in Hx. destruct (conns w !! c) as [[]|] eqn:Hc; try done.
    destruct (busy w !! c) eqn:Hbu; [done|]. injection Hx as <-.
    by eapply (structural_end n w _ c).
  - by eapply structural_writer.
  - by eapply structural_session.
Qed.

Lemma channels_shutdown (h : Heap Q) tx c q :
  channels (shutdown_send h tx).1 !! c = Some q -> is_Some (channels h !! c).
Proof.
  unfold shutdown_send. destruct (chan_send _ _ _) as [h'|] eqn:Hsend; simpl; [|eauto].
  intros Hq. apply (channels_send h tx BusFrame.Shutdown c q). unfold chan_send_. by rewrite Hsend.
Qed.

(** A task step: conns, registry and sessions stay, the task may change. *)
Lemma structural_task n w l w' :
  structural n w -> exec_task parse w l = Some w' -> structural (n + 1) w'.
Proof.
  intros Hs Hx.
  assert (Hput : forall id t, tasks w !! id = Some t -> forall t' id' t'',
    (forall o a pc e, t' = TCall o a pc -> pc_entry pc = Some e -> entry_ok w e) ->
    <[id := t']> (tasks w) !! id' = Some t'' ->
    (id' < next_id w)%N
    /\ forall o a pc e, t'' = TCall o a pc -> pc_entry pc = Some e -> entry_ok w e).
  { intros id t Ht t' id' t'' Ht' Hl. by eapply put_task_lookup; [| eapply str_task_ids | |]. }
  assert (Hkeep : forall id id' t, delete id (tasks w) !! id' = Some t ->
    (id' < next_id w)%N
    /\ forall o a pc e, t = TCall o a pc -> pc_entry pc = Some e -> entry_ok w e).
  { intros id id' t [_ Hl]%lookup_delete_Some. split; [by eapply str_task_ids|].
    intros o a pc e -> He. by eapply str_task. }
  destruct l as [| | | | | | | | | |id|id r|id|id|id|id|id| | |]; try done; simpl in Hx;
    destruct (tasks w !! id) as [[o a pc|c resp|svc cr|svc hd|tx]|] eqn:Ht; try done.
  - destruct (call_step _ _ _ _ _) as [[h pc']|] eqn:Hst; [|done]. injection Hx as <-.
    apply (structural_quiet n w); try done.
    + intros id' t'. apply (Hput _ _ Ht). intros o' a' pc2 e [= <- <- <-] He.
      by eapply call_step_entry.
    + intros c q. by eapply call_step_channels.
  - destruct pc; try done. injection Hx as <-. apply (structural_quiet n w); try done.
    intros id' t'. apply (Hput _ _ Ht). by intros o' a' pc2 e [= <- <- <-].
  - destruct pc; try done. destruct (replies _ !! id); [|done]. injection Hx as <-.
    apply (structural_quiet n w); try done.
    intros id' t'. apply (Hput _ _ Ht). by intros o' a' pc2 e [= <- <- <-].
  - destruct pc; try done. destruct (sender_dropped _ _ _ _); [|done]. injection Hx as <-.
    apply (structural_quiet n w); try done.
    intros id' t'. apply (Hput _ _ Ht). by intros o' a' pc2 e [= <- <- <-].
  - destruct (bool_decide _); [done|]. destruct pc; try done; injection Hx as <-;
      (apply (structural_quiet n w); try done;
       intros id' t'; apply (Hput _ _ Ht); by intros o' a' pc2 e [= <- <- <-]).
  - destruct pc; try done. injection Hx as <-.
    set (w1 := match o with OHost => _ | _ => _ end).
    assert (Hw1 : conns w1 = conns w /\ reg w1 = reg w /\ broker w1 = broker w
      /\ next_id w1 = next_id w /\ tasks w1 = tasks w /\ heap w1 = heap w
      /\ entered w1 = entered w /\ busy w1 = busy w) by by destruct o.
    destruct Hw1 as (E1 & E2 & E3 & E4 & E5 & E6 & E7 & E8).
    destruct (call_continue _ _ _ _) as [t|] eqn:Hcc;
      (apply (structural_quiet n w); [done|try (simpl; congruence)..| |simpl; rewrite E6; eauto]).
    all: try exact E2. all: try (simpl; rewrite E4; lia).
    + simpl. rewrite E4, E5. intros id' t'. apply (Hput _ _ Ht).
      intros o' a' pc2 e -> He. destruct o; simpl in Hcc; repeat case_match; simplify_eq.
    + simpl. rewrite E4, E5. apply Hkeep.
  - injection Hx as <-. apply (structural_quiet n w); try done; [apply Hkeep|].
    intros c' q. apply channels_send.
  - injection Hx as <-. apply (structural_quiet n w); try done. apply Hkeep.
  - injection Hx as <-. apply (structural_quiet n w); try done. apply Hkeep.
  - injection Hx as <-. apply (structural_quiet n w); try done; [apply Hkeep|].
    intros c q. apply channels_shutdown.
  - destruct o; try done. destruct (droppable pc); [|done]. injection Hx as <-.
    apply (structural_quiet n w); try done. apply Hkeep.
Qed.

Lemma structural_host n w l w' :
  structural n w -> exec_host w l = Some w' -> structural (n + 1) w'.
Proof.
  intros Hs Hx. assert (Hkeep : forall id t, tasks w !! id = Some t ->
    (id < next_id w)%N
    /\ forall o a pc e, t = TCall o a pc -> pc_entry pc = Some e -> entry_ok w e).
  { intros id t Hl. split; [by eapply str_task_ids|]. intros o a pc e -> He. by eapply str_task. }
  assert (Hnew : forall t, (forall o a pc, t = TCall o a pc -> pc_entry pc = None) ->
    forall id t', <[next_id w := t]> (tasks w) !! id = Some t' ->
    (id < next_id w + 1)%N
    /\ forall o a pc e, t' = TCall o a pc -> pc_entry pc = Some e -> entry_ok w e).
  { intros t Ht id t' [[<- <-]|[_ Hl]]%lookup_insert_Some.
    - split; [lia|]. intros o a pc e -> He. by rewrite (Ht _ _ _ eq_refl) in He.
    - destruct (Hkeep _ _ Hl). split; [lia | done]. }
  destruct l; try done; simpl in Hx; injection Hx as <-.
  - apply (structural_quiet n w); try done; [simpl; lia|]. apply Hnew. by intros o a' pc [= <- <- <-].
  - by apply (structural_quiet n w).
  - apply (structural_quiet n w); try done; [simpl; lia|]. by apply Hnew.
  - unfold shutdown_target. destruct (Registry.get _ _) as [e|]; simpl.
    + apply (structural_quiet n w); try done; [simpl; lia|]. by apply Hnew.
    + by apply (structural_quiet n w).
Qed.

Lemma structural_exec n w l w' :
  structural n w -> (n + 1 < U64_SIZE)%N -> exec parse w l = Some w' -> structural (n + 1) w'.
Proof.
  unfold exec. intros Hs Hb Hx.
  destruct (exec_conn w l) eqn:H1; [simplify_eq; by eapply structural_conn|].
  destruct (exec_task parse w l) eqn:H2; [simplify_eq; by eapply structural_task|].
  by eapply structural_host.
Qed.

Lemma structural_init config : structural 0 (init config).
Proof.
  split; simpl; try (intros * Hx; unfold registered, registered_in, holds_gen in *; simpl in *;
    rewrite ?lookup_empty in *; naive_solver).
Qed.

Lemma reachable_structural config n w :
  reachable parse config n w -> (n < U64_SIZE)%N -> structural n w.
Proof.
  induction 1 as [|n w l w' Hr IH Hx]; intros Hb; [apply structural_init|].
  apply (structural_exec n w l); [apply IH; lia | done | done].
Qed.

End invariant.
