(* ===== verification/Steps.v ===== *)
(** Case analysis of one step of System.v: the frames it adds to a
    connection, where each task comes from, and how connections move.  The
    invariants of Safety.v and Calls.v are proved from these lemmas. *)

From stdpp Require Import prelude gmap strings.
From S2P Require Import Prelude Frame Runtime Registry Broker Session System Invariant.

Section steps.
Context {Q : Type} `{LawfulMpsc Q BusFrame}.
Context (parse : bytes -> result CapabilityResponse string).
Implicit Types w : World Q.

(** The frames written to a connection or queued for its writer. *)
Definition frames_to w (c : conn_id) : list BusFrame := wire_of w c ++ chan_queue (heap w) c.

(** Where a frame for connection [c] can come from in one step. *)
Inductive new_frame w (l : Label) (c : conn_id) : BusFrame -> Prop :=
| new_ack hello g id : conns w !! c = Some (SAck hello g id) ->
    new_frame w l c (ack_frame (broker w) id)
| new_error e : conns w !! c = Some SHandshake -> new_frame w l c (error_frame e)
| new_event pub ev svcs : l = LSession pub ->
    busy w !! pub = Some (JFan ev (FSend c svcs)) ->
    new_frame w l c (BusFrame.Event ev)
| new_reply id resp : tasks w !! id = Some (TReply c resp) ->
    new_frame w l c (BusFrame.Response resp)
| new_shutdown : new_frame w l c BusFrame.Shutdown
| new_invoke id o a e handle rid : l = LStep id ->
    tasks w !! id = Some (TCall o a (CSend e handle rid)) -> e.(ServiceEntry.tx) = c ->
    new_frame w l c (invoke_frame a rid).

(** At most one new frame. *)
Definition adds w (l : Label) (c : conn_id) (old new : list BusFrame) : Prop :=
  new ⊆+ old \/ exists f, new_frame w l c f /\ new ⊆+ old ++ [f].

(** Where the task numbered [id] after the step comes from. *)
Inductive task_from w (l : Label) (id : call_id) : Task -> Prop :=
| task_same t : tasks w !! id = Some t -> task_from w l id t
| task_host a : l = LCall a -> id = next_id w -> task_from w l id (TCall OHost a CStart)
| task_probe c hello g : l = LSession c -> registered w c hello g ->
    busy w !! c = Some JProbe -> id = next_id w ->
    task_from w l id (TCall (OProbe hello.(HelloRequest.service) g)
                        (probe_args (broker w) hello.(HelloRequest.service)) CStart)
| task_routed c hello g inv : l = LFrame c (BusFrame.Invoke inv) ->
    conns w !! c = Some (SRunning hello g) -> id = next_id w ->
    task_from w l id (route_invoke (broker w) c hello.(HelloRequest.service) inv)
| task_step o a pc h pc' : l = LStep id -> tasks w !! id = Some (TCall o a pc) ->
    call_step (broker w) (heap w) id a pc = Some (h, pc') ->
    task_from w l id (TCall o a pc')
| task_local o a hd r : l = LLocal id r -> tasks w !! id = Some (TCall o a (CAwaitLocal hd)) ->
    task_from w l id (TCall o a (CDone r))
| task_reply o a hd rid resp : l = LReply id ->
    tasks w !! id = Some (TCall o a (CAwaitRemote hd rid)) ->
    replies (heap w) !! id = Some resp ->
    task_from w l id (TCall o a (call_reply resp))
| task_rx_closed o a hd rid : l = LRxClosed id ->
    tasks w !! id = Some (TCall o a (CAwaitRemote hd rid)) ->
    sender_dropped w id hd.(SessionHandle.pending_out) rid = true ->
    task_from w l id (TCall o a (CDone (Err BusError.ConnectionClosed)))
| task_timer o a pc : l = LTimer id -> tasks w !! id = Some (TCall o a pc) ->
    a.(CallArgs.timeout) <> 0%N ->
    ((exists hd, pc = CAwaitLocal hd) \/ (exists hd rid, pc = CAwaitRemote hd rid)) ->
    task_from w l id (TCall o a (CDone (Err (timeout_error a))))
| task_cont o a r t : l = LContinue id -> tasks w !! id = Some (TCall o a (CDone r)) ->
    call_continue parse (broker w) o r = Some t -> task_from w l id t
| task_handler svc ms hd : l = LRegisterLocal svc ms hd -> id = next_id w ->
    task_from w l id (TLocal svc hd)
| task_shutdown svc e : l = LShutdown svc -> Registry.get (reg w) svc = Some e -> id = next_id w ->
    task_from w l id (TShutdown e.(ServiceEntry.tx)).

(** The labels that move the task numbered [id]. *)
Definition moves_task (l : Label) (id : call_id) : Prop :=
  l = LStep id \/ (exists r, l = LLocal id r) \/ l = LReply id \/ l = LRxClosed id
  \/ l = LTimer id \/ l = LContinue id \/ l = LDrop id.

(** How a connection's program counter moves in one step. *)
Inductive conn_from w (l : Label) (c : conn_id) : SessionPc -> Prop :=
| conn_same pc : conns w !! c = Some pc -> conn_from w l c pc
| conn_accept : l = LAccept -> c = next_id w -> conn_from w l c SHandshake
| conn_refused read wr : l = LHello c read wr -> conns w !! c = Some SHandshake ->
    conn_from w l c (SClosed None)
| conn_accepted hello wr : l = LHello c (Ok (Some (BusFrame.Hello hello))) wr ->
    conns w !! c = Some SHandshake ->
    hello.(HelloRequest.protocol).(ProtocolVersion.major) = 1%N ->
    Broker.tokens (broker w) !! hello.(HelloRequest.service) = Some hello.(HelloRequest.auth_token) ->
    conn_from w l c (SAccepted hello)
| conn_numbered hello id : l = LSession c -> conns w !! c = Some (SAccepted hello) ->
    conn_from w l c (SNumbered hello id)
| conn_drawn hello id : l = LSession c -> conns w !! c = Some (SNumbered hello id) ->
    conn_from w l c (SDrawn hello (Registry.draw (reg w)).2 id)
| conn_registered hello g id : l = LSession c -> conns w !! c = Some (SDrawn hello g id) ->
    conn_from w l c (SAck hello g id)
| conn_acked hello g id : l = LAck c true -> conns w !! c = Some (SAck hello g id) ->
    conn_from w l c (SAttach hello g)
| conn_ack_failed hello g id : l = LAck c false -> conns w !! c = Some (SAck hello g id) ->
    conn_from w l c (SClosed (Some (hello, g)))
| conn_attached hello g : l = LAttach c -> conns w !! c = Some (SAttach hello g) ->
    conn_from w l c (SRunning hello g)
| conn_detached hello g : l = LClose c -> conns w !! c = Some (SRunning hello g) ->
    conn_from w l c (SDetached hello g)
| conn_removed hello g : l = LRemove c -> conns w !! c = Some (SDetached hello g) ->
    conn_from w l c (SClosed (Some (hello, g))).

(** Where the job of a connection after the step comes from. *)
Inductive job_from w (l : Label) (c : conn_id) : Job -> Prop :=
| job_same job : busy w !! c = Some job -> job_from w l c job
| job_probe hello g : l = LAttach c -> conns w !! c = Some (SAttach hello g) ->
    job_from w l c JProbe
| job_fan hello g ev : l = LFrame c (BusFrame.Publish ev) -> busy w !! c = None ->
    conns w !! c = Some (SRunning hello g) ->
    job_from w l c (JFan (Event.set_from (Some hello.(HelloRequest.service)) ev)
      (FNext (targets (Broker.subscriptions (broker w)) hello.(HelloRequest.service)
                ev.(Event.topic))))
| job_detach hello g : l = LClose c -> conns w !! c = Some (SRunning hello g) ->
    job_from w l c JDetach
| job_next hello g job b h t job' : l = LSession c -> registered w c hello g ->
    busy w !! c = Some job ->
    serve_job (broker w) (heap w) hello g job = (b, h, t, Some job') ->
    job_from w l c job'.

(** ** What each operation does to the frames *)

Lemma frames_log_out w c f c' :
  wire_of (log_out c f w) c' = if decide (c' = c) then wire_of w c ++ [f] else wire_of w c'.
Proof.
  unfold wire_of, log_out. simpl. case_decide as Hc.
  - subst. by rewrite lookup_insert_eq.
  - by rewrite lookup_insert_ne.
Qed.

Lemma adds_same w l c old : adds w l c old old.
Proof. by left. Qed.

Lemma chan_queue_new (h : Heap Q) c c' :
  chan_queue (chan_new h c) c' = if decide (c' = c) then [] else chan_queue h c'.
Proof.
  unfold chan_queue, chan_new. simpl. case_decide as Hc.
  - subst. by rewrite lookup_insert_eq; simpl; rewrite new_queued.
  - by rewrite lookup_insert_ne.
Qed.

Lemma chan_queue_wake (h : Heap Q) c resp c' : chan_queue (wake h c resp) c' = chan_queue h c'.
Proof. unfold wake. by case_match. Qed.

Lemma call_step_queue b h id a pc h' pc' c :
  call_step (Q := Q) b h id a pc = Some (h', pc') ->
  chan_queue h' c = chan_queue h c
  \/ exists e handle rid, pc = CSend e handle rid /\ e.(ServiceEntry.tx) = c
       /\ chan_open h c = true /\ pc' = CAwaitRemote handle rid
       /\ chan_queue h' c = chan_queue h c ++ [invoke_frame a rid].
Proof.
  intros Hst. destruct pc; simpl in Hst; simplify_eq; auto.
  - unfold call_register in Hst. simplify_eq/=. auto.
  - unfold call_send in Hst. destruct (chan_send _ _ _) as [h1|] eqn:Hsend; simplify_eq; [|auto].
    destruct (chan_send_Some _ _ _ _ Hsend) as (Ho & _ & Hq). rewrite Hq.
    case_decide as Hc; [|auto]. right. subst c. eauto 10.
Qed.

Lemma adds_new w l c f old new : new_frame w l c f -> new ⊆+ old ++ [f] -> adds w l c old new.
Proof. right. eauto. Qed.

Lemma adds_job w c0 c hello g job b h t job' :
  busy w !! c0 = Some job -> serve_job (broker w) (heap w) hello g job = (b, h, t, job') ->
  adds w (LSession c0) c (chan_queue (heap w) c) (chan_queue h c).
Proof.
  intros Hj Hs. destruct job as [|ev pc| |]; simpl in Hs; try (injection Hs as <- <- <- <-; apply adds_same).
  destruct (fan_step_spec (broker w) (heap w) ev pc) as [_ Hq].
  destruct (fan_step _ _ _ _) as [h1 pc1]. injection Hs as <- <- <- <-.
  rewrite Hq. destruct (decide _) as [[Hx _]|]; [|rewrite app_nil_r; apply adds_same].
  destruct pc as [|tx svcs]; simplify_eq/=. eapply adds_new; [by eapply new_event|done].
Qed.

Lemma adds_wire w l c new : adds w l c (chan_queue (heap w) c) new ->
  adds w l c (frames_to w c) (wire_of w c ++ new).
Proof.
  unfold frames_to. intros [Hs|(f & Hf & Hs)].
  - left. by apply submseteq_app.
  - eapply adds_new; [done|]. rewrite <-app_assoc. by apply submseteq_app.
Qed.

Lemma queue_drop_sub (h : Heap Q) c c' : chan_queue (chan_drop_rx h c) c' ⊆+ chan_queue h c'.
Proof. rewrite chan_drop_rx_queue. case_decide; [apply submseteq_nil_l | done]. Qed.

Lemma recv_queue w c q f q' :
  channels (heap w) !! c = Some q -> mpsc_recv q = Some (f, q') ->
  chan_queue (heap w) c = f :: queued q'
  /\ forall c', chan_queue (set_channels (<[c := q']> (channels (heap w))) (heap w)) c'
       = if decide (c' = c) then queued q' else chan_queue (heap w) c'.
Proof.
  intros Hq Hr. destruct (recv_Some q f q' Hr) as [Hqueue _]. split.
  - unfold chan_queue. rewrite Hq. done.
  - intros c'. unfold chan_queue. simpl. case_decide as Hc.
    + subst. by rewrite lookup_insert_eq.
    + by rewrite lookup_insert_ne.
Qed.

Lemma exec_conn_frames w l w' c :
  exec_conn w l = Some w' ->
  adds w l c (frames_to w c) (frames_to w' c).
Proof.
  intros Hx. destruct l as [|c0 read wr|c0 wr|c0|c0 f|c0|c0|c0 wr|c0| | | | | | | | | | |]; try done.
  - injection Hx as <-. apply adds_same.
  - simpl in Hx. destruct (conns w !! c0) as [[]|] eqn:Hc; try done.
    destruct (serve_hello _ _) as [[b out] pc] eqn:Hsh. injection Hx as <-.
    unfold frames_to. simpl.
    assert (Hout : out = None \/ exists e, out = Some (error_frame e)).
    { destruct (serve_hello_cases _ _ _ _ _ Hsh)
        as (tk & _ & [(_ & Ho)|(hello & _ & -> & _)]); auto. }
    clear Hsh. destruct Hout as [->|[e ->]].
    + destruct read as [[]|]; apply adds_same.
    + assert (Hin : forall r : World Q, wire_of (match read with Ok (Some f) => log_in c0 f r | _ => r end) c
        = wire_of r c) by by destruct read as [[]|].
      assert (Hh : heap (match read with Ok (Some f) => log_in c0 f w | _ => w end) = heap w)
        by by destruct read as [[]|].
      change (wire_of (set_conn ?x ?y (set_broker ?t ?u)) c) with (wire_of u c).
      destruct wr; simpl; rewrite Hh; [|rewrite Hin; apply adds_same].
      rewrite frames_log_out. case_decide as Hcc; [|rewrite Hin; apply adds_same]. subst c0.
      eapply adds_new; [by apply new_error|].
      replace (wire_of _ c) with (wire_of w c) by by destruct read as [[]|].
      rewrite <-!app_assoc. apply submseteq_app; [done|].
      by rewrite (Permutation_app_comm (chan_queue _ _)).
  - simpl in Hx. destruct (conns w !! c0) as [[]|] eqn:Hc; try done.
    destruct wr; simpl in Hx; injection Hx as <-; unfold frames_to; simpl.
    + change (wire_of (set_conn ?x ?y (set_heap ?z (set_broker ?t ?u))) c) with (wire_of u c).
      rewrite frames_log_out. case_decide as Hcc; [|apply adds_same]. subst c0.
      eapply adds_new; [by eapply new_ack|]. rewrite <-!app_assoc. apply submseteq_app; [done|].
      by rewrite (Permutation_app_comm (chan_queue _ _)).
    + left. apply submseteq_app; [done | apply queue_drop_sub].
  - simpl in Hx. destruct (conns w !! c0) as [[]|] eqn:Hc; try done. injection Hx as <-.
    apply adds_same.
  - simpl in Hx. destruct (conns w !! c0) as [[]|] eqn:Hc; try done.
    destruct (busy w !! c0); [done|].
    destruct (serve_frame _ _ _ _ _) as [[[b h] t] job] eqn:Hsf. injection Hx as <-.
    assert (Hw : frames_to (spawn_opt t (set_job c0 job (set_heap h (set_broker b (log_in c0 f w))))) c
      = wire_of w c ++ chan_queue h c) by by destruct t.
    rewrite Hw. apply adds_wire.
    destruct (serve_frame_cases _ _ _ _ _ _ _ _ _ Hsf) as (_ & _ & _ & _ & _ & _ & _ & Hh & _).
    destruct Hh as [->|(resp & _ & ->)]; [apply adds_same|]. rewrite chan_queue_wake. apply adds_same.
  - simpl in Hx. destruct (conns w !! c0) as [[]|] eqn:Hc; try done.
    destruct (busy w !! c0); [done|]. injection Hx as <-. apply adds_same.
  - simpl in Hx. destruct (conns w !! c0) as [[]|] eqn:Hc; try done.
    destruct (busy w !! c0); [done|]. injection Hx as <-.
    left. apply submseteq_app; [done | apply queue_drop_sub].
  - simpl in Hx. destruct (conns w !! c0) as [[]|] eqn:Hc; try done.
    all: destruct (channels (heap w) !! c0) as [q0|] eqn:Hq0; simpl in Hx; [|done].
    all: destruct (mpsc_recv q0) as [[f q1]|] eqn:Hrecv; [|done]; injection Hx as <-.
    all: destruct (recv_queue w c0 q0 f q1 Hq0 Hrecv) as [Hq1 Hq2].
    all: left; unfold frames_to; destruct wr; simpl.
    all: try (rewrite frames_log_out; change (wire_of (set_heap _ w)) with (wire_of w);
      rewrite Hq2; case_decide; [subst c; rewrite Hq1, <-app_assoc|]; done).
    all: apply submseteq_app; [done|]; etransitivity; [apply queue_drop_sub|]; rewrite Hq2;
      (case_decide; [subst c; rewrite Hq1; by apply submseteq_cons | done]).
  - apply exec_session in Hx as [hello Hc|hello id Hc|hello g id Hc|
      hello g pc job b h t job' Hc _ _ Hj Hsj]; try apply adds_same.
    + left. unfold frames_to. simpl. rewrite chan_queue_new. apply submseteq_app; [done|].
      case_decide; [apply submseteq_nil_l | done].
    + replace (frames_to (spawn_opt _ _) c) with (wire_of w c ++ chan_queue h c) by by destruct t.
      apply adds_wire. by eapply adds_job.
Qed.

Lemma exec_task_frames w l w' c :
  exec_task parse w l = Some w' -> adds w l c (frames_to w c) (frames_to w' c).
Proof.
  intros Hx. destruct l as [| | | | | | | | | |id|id r|id|id|id|id|id| | |]; try done; simpl in Hx;
    destruct (tasks w !! id) as [[o a pc|c0 resp|svc cr|svc hd|tx]|] eqn:Ht; try done.
  - destruct (call_step _ _ _ _ _) as [[h pc']|] eqn:Hst; [|done]. injection Hx as <-.
    change (frames_to _ c) with (wire_of w c ++ chan_queue h c) at 2. apply adds_wire.
    destruct (call_step_queue _ _ _ _ _ _ _ c Hst) as [->|(e & hd & rid & -> & He & _ & _ & ->)];
      [apply adds_same|].
    eapply adds_new; [by eapply new_invoke | done].
  - destruct pc; try done. injection Hx as <-. apply adds_same.
  - destruct pc; try done. destruct (replies _ !! id); [|done]. injection Hx as <-. apply adds_same.
  - destruct pc; try done. destruct (sender_dropped _ _ _ _); [|done]. injection Hx as <-.
    apply adds_same.
  - destruct (bool_decide _); [done|]. destruct pc; try done; injection Hx as <-; apply adds_same.
  - destruct pc; try done. injection Hx as <-. destruct o; simpl; repeat case_match; apply adds_same.
  - injection Hx as <-. change (frames_to _ c) with
      (wire_of w c ++ chan_queue (chan_send_ (heap w) c0 (BusFrame.Response resp)) c) at 2.
    apply adds_wire. destruct (chan_send_spec (heap w) c0 (BusFrame.Response resp)) as [_ Hq].
    rewrite Hq. destruct (decide (c = c0 /\ chan_open (heap w) c0 = true)) as [[-> _]|_];
      [|rewrite app_nil_r; apply adds_same].
    eapply adds_new; [by eapply new_reply | done].
  - injection Hx as <-. apply adds_same.
  - injection Hx as <-. apply adds_same.
  - injection Hx as <-. change (frames_to _ c) with
      (wire_of w c ++ chan_queue (shutdown_send (heap w) tx).1 c) at 2.
    apply adds_wire. unfold shutdown_send.
    destruct (chan_send _ _ _) as [h'|] eqn:Hsend; simpl; [|apply adds_same].
    destruct (chan_send_Some _ _ _ _ Hsend) as (_ & _ & Hq). rewrite Hq.
    case_decide as Hd; [|apply adds_same]. subst. eapply adds_new; [apply new_shutdown | done].
  - destruct o; try done. destruct (droppable pc); [|done]. injection Hx as <-. apply adds_same.
Qed.

Lemma exec_host_frames w l w' c :
  exec_host w l = Some w' -> adds w l c (frames_to w c) (frames_to w' c).
Proof.
  intros Hx. destruct l; try done; simpl in Hx; injection Hx as <-; try apply adds_same.
  destruct (shutdown_target _ _); apply adds_same.
Qed.

(** One step adds at most one frame to a connection, of known origin. *)
Lemma exec_frames w l w' c :
  exec parse w l = Some w' ->
  adds w l c (frames_to w c) (frames_to w' c).
Proof.
  unfold exec. intros Hx.
  destruct (exec_conn w l) eqn:Hx1; [simplify_eq; by eapply exec_conn_frames|].
  destruct (exec_task parse w l) eqn:Hx2; [simplify_eq; by eapply exec_task_frames|].
  by eapply exec_host_frames.
Qed.

Lemma structural_tx_distinct n w : structural n w -> tx_distinct (reg w).
Proof.
  intros Hs s1 s2 e1 e2 He1 He2 Htx.
  destruct (str_entry n w Hs _ _ He1) as (<- & (hl1 & Hr1 & -> & _) & _).
  destruct (str_entry n w Hs _ _ He2) as (<- & (hl2 & Hr2 & -> & _) & _).
  rewrite Htx in Hr1. by destruct (registered_fun w _ _ _ _ _ Hr1 Hr2) as [-> _].
Qed.

Lemma adds_elem w l c old new f : adds w l c old new -> f ∈ new -> f ∈ old \/ new_frame w l c f.
Proof.
  intros [Hs|(f' & Hf & Hs)] Hin.
  - left. by eapply elem_of_submseteq.
  - assert (Hin' : f ∈ old ++ [f']) by by eapply elem_of_submseteq.
    apply elem_of_app in Hin' as [?|?%list_elem_of_singleton]; [auto | subst; auto].
Qed.

(** ** Tasks *)

Lemma task_from_put w l id id' t t' :
  <[id := t]> (tasks w) !! id' = Some t' -> task_from w l id t -> task_from w l id' t'.
Proof.
  intros [[<- <-]|[_ Hl]]%lookup_insert_Some Ht; [done | by apply task_same].
Qed.

Lemma exec_conn_tasks w l w' id t :
  exec_conn w l = Some w' -> tasks w' !! id = Some t -> task_from w l id t.
Proof.
  intros Hx Hid. destruct l as [|c0 read wr|c0 wr|c0|c0 f|c0|c0|c0 wr|c0| | | | | | | | | | |]; try done;
    simpl in Hx.
  - injection Hx as <-. by apply task_same.
  - destruct (conns w !! c0) as [[]|] eqn:Hc; try done.
    destruct (serve_hello _ _) as [[b out] pc] eqn:Hsh. injection Hx as <-.
    apply task_same. destruct read as [[]|], out, wr; done.
  - destruct (conns w !! c0) as [[]|] eqn:Hc; try done.
    destruct wr; simpl in Hx; injection Hx as <-; by apply task_same.
  - destruct (conns w !! c0) as [[]|] eqn:Hc; try done. injection Hx as <-. by apply task_same.
  - destruct (conns w !! c0) as [[]|] eqn:Hc; try done. destruct (busy w !! c0); [done|].
    destruct (serve_frame _ _ _ _ _) as [[[b h] t0] job] eqn:Hsf. injection Hx as <-.
    destruct (serve_frame_cases _ _ _ _ _ _ _ _ _ Hsf) as (_ & _ & _ & _ & _ & _ & _ & _ & -> & _).
    destruct f; simpl in Hid; try (by apply task_same).
    eapply task_from_put; [exact Hid|]. by eapply task_routed.
  - destruct (conns w !! c0) as [[]|] eqn:Hc; try done. destruct (busy w !! c0); [done|].
    injection Hx as <-. by apply task_same.
  - destruct (conns w !! c0) as [[]|] eqn:Hc; try done. destruct (busy w !! c0); [done|].
    injection Hx as <-. by apply task_same.
  - destruct (conns w !! c0) as [[]|] eqn:Hc; try done.
    all: destruct (channels (heap w) !! c0) as [q0|] eqn:Hq0; simpl in Hx; [|done].
    all: destruct (mpsc_recv q0) as [[f q1]|] eqn:Hrecv; [|done]; injection Hx as <-.
    all: apply task_same; by destruct wr.
  - apply exec_session in Hx. destruct Hx as [hello Hc|hello i Hc|hello g i Hc|
      hello g pc job b h t0 job' Hc _ Hrg Hj Hsj]; try (by apply task_same).
    destruct (serve_job_frame _ _ _ _ _ _ _ _ _ Hsj)
      as (_ & _ & _ & _ & _ & _ & _ & _ & _ & -> & _).
    destruct job; simpl in Hid; try (by apply task_same).
    eapply task_from_put; [exact Hid|]. eapply task_probe; try done. by exists pc.
Qed.

Lemma exec_task_tasks w l w' id t :
  exec_task parse w l = Some w' -> tasks w' !! id = Some t -> task_from w l id t.
Proof.
  intros Hx Hid. destruct l as [| | | | | | | | | |i|i r|i|i|i|i|i| | |]; try done; simpl in Hx;
    destruct (tasks w !! i) as [[o a pc|c0 resp|svc cr|svc hd|tx]|] eqn:Ht; try done.
  - destruct (call_step _ _ _ _ _) as [[h pc']|] eqn:Hst; [|done]. injection Hx as <-.
    eapply task_from_put; [exact Hid|]. by eapply task_step.
  - destruct pc; try done. injection Hx as <-. eapply task_from_put; [exact Hid|]. by eapply task_local.
  - destruct pc; try done. destruct (replies _ !! i) eqn:Hr; [|done]. injection Hx as <-.
    eapply task_from_put; [exact Hid|]. by eapply task_reply.
  - destruct pc; try done. destruct (sender_dropped _ _ _ _) eqn:Hd; [|done]. injection Hx as <-.
    eapply task_from_put; [exact Hid|]. by eapply task_rx_closed.
  - destruct (bool_decide _) eqn:Hb; [done|]. apply bool_decide_eq_false in Hb.
    destruct pc; try done; injection Hx as <-; (eapply task_from_put; [exact Hid|]); eapply task_timer; eauto.
  - destruct pc; try done. injection Hx as <-.
    assert (Hb : broker (match o with OHost => set_results (<[i:=res]> (results w)) w | _ => w end)
      = broker w) by by destruct o.
    assert (Htk : tasks (match o with OHost => set_results (<[i:=res]> (results w)) w | _ => w end)
      = tasks w) by by destruct o.
    rewrite Hb in Hid. destruct (call_continue _ _ _ _) as [t'|] eqn:Hcc.
    + unfold put_task in Hid. simpl in Hid. rewrite Htk in Hid.
      eapply task_from_put; [exact Hid|]. by eapply task_cont.
    + unfold drop_task in Hid. simpl in Hid. rewrite Htk in Hid.
      apply lookup_delete_Some in Hid as [_ Hid]. by apply task_same.
  - injection Hx as <-. simpl in Hid. apply lookup_delete_Some in Hid as [_ Hid]. by apply task_same.
  - injection Hx as <-. simpl in Hid. apply lookup_delete_Some in Hid as [_ Hid]. by apply task_same.
  - injection Hx as <-. simpl in Hid. apply lookup_delete_Some in Hid as [_ Hid]. by apply task_same.
  - injection Hx as <-. simpl in Hid. apply lookup_delete_Some in Hid as [_ Hid]. by apply task_same.
  - destruct o; try done. destruct (droppable pc); [|done]. injection Hx as <-.
    simpl in Hid. apply lookup_delete_Some in Hid as [_ Hid]. by apply task_same.
Qed.

Lemma exec_tasks w l w' id t :
  exec parse w l = Some w' -> tasks w' !! id = Some t -> task_from w l id t.
Proof.
  unfold exec. intros Hx Hid.
  destruct (exec_conn w l) eqn:Hx1; [simplify_eq; by eapply exec_conn_tasks|].
  destruct (exec_task parse w l) eqn:Hx2; [simplify_eq; by eapply exec_task_tasks|].
  destruct l; try done; simpl in Hx; injection Hx as <-; try (by apply task_same).
  - simpl in Hid. eapply task_from_put; [exact Hid|]. by eapply task_host.
  - simpl in Hid. eapply task_from_put; [exact Hid|]. by eapply task_handler.
  - unfold shutdown_target in Hid. destruct (Registry.get _ _) as [e|] eqn:Hg; simpl in Hid;
      [|by apply task_same]. eapply task_from_put; [exact Hid|]. by eapply task_shutdown.
Qed.

Lemma exec_task_only w l w' :
  exec_task parse w l = Some w' ->
  exists i, moves_task l i /\ forall id, id <> i -> tasks w' !! id = tasks w !! id.
Proof.
  intros Hx. unfold moves_task. destruct l as [| | | | | | | | | |i|i r|i|i|i|i|i| | |]; try done;
    exists i; (split; [eauto 10|]); intros id Hne; simpl in Hx;
    destruct (tasks w !! i) as [[o a pc0|c0 resp|svc cr|svc hd|tx]|] eqn:Ht; try done.
  - destruct (call_step _ _ _ _ _) as [[h pc']|]; [|done]. injection Hx as <-. by apply lookup_insert_ne.
  - destruct pc0; try done. injection Hx as <-. by apply lookup_insert_ne.
  - destruct pc0; try done. destruct (replies _ !! i); [|done]. injection Hx as <-. by apply lookup_insert_ne.
  - destruct pc0; try done. destruct (sender_dropped _ _ _ _); [|done]. injection Hx as <-.
    by apply lookup_insert_ne.
  - destruct (bool_decide _); [done|]. destruct pc0; try done; injection Hx as <-; by apply lookup_insert_ne.
  - destruct pc0; try done. injection Hx as <-.
    destruct o; simpl; repeat case_match; simpl; by rewrite ?lookup_insert_ne, ?lookup_delete_ne by done.
  - injection Hx as <-. simpl. by rewrite lookup_delete_ne.
  - injection Hx as <-. simpl. by rewrite lookup_delete_ne.
  - injection Hx as <-. simpl. by rewrite lookup_delete_ne.
  - injection Hx as <-. simpl. by rewrite lookup_delete_ne.
  - destruct o; try done. destruct (droppable pc0); [|done]. injection Hx as <-. simpl.
    by rewrite lookup_delete_ne.
Qed.

(** Every other step leaves the task where it is. *)
Lemma exec_task_kept w l w' id t :
  (id < next_id w)%N -> exec parse w l = Some w' -> tasks w !! id = Some t ->
  tasks w' !! id = Some t \/ moves_task l id.
Proof.
  intros Hid Hx Ht.
  assert (Hnew : forall t', <[next_id w := t']> (tasks w) !! id = Some t)
    by (intros t'; by rewrite lookup_insert_ne by lia).
  unfold exec in Hx. destruct (exec_conn w l) as [w1|] eqn:Hx1.
  { simplify_eq. left. destruct l as [|c0 read wr|c0 wr|c0|c0 f|c0|c0|c0 wr|c0| | | | | | | | | | |];
      try done; [..|apply exec_session in Hx1; destruct Hx1 as [| | |hl g pc job b h t0 job' _ _ _ _ Hsj];
        [done..|destruct t0; [apply Hnew|done]]]; simpl in Hx1; [|destruct (conns w !! c0) as [[]|] eqn:Hc; try done..].
    - by injection Hx1 as <-.
    - destruct (serve_hello _ _) as [[b out] pc0]. injection Hx1 as <-.
      by destruct read as [[]|], out, wr.
    - destruct wr; simpl in Hx1; by injection Hx1 as <-.
    - by injection Hx1 as <-.
    - destruct (busy w !! c0); [done|].
      destruct (serve_frame _ _ _ _ _) as [[[b h] [t0|]] job]; injection Hx1 as <-; [apply Hnew | done].
    - destruct (busy w !! c0); [done|]. by injection Hx1 as <-.
    - destruct (busy w !! c0); [done|]. by injection Hx1 as <-.
    - destruct (channels (heap w) !! c0) as [q0|]; simpl in Hx1; [|done].
      destruct (mpsc_recv q0) as [[f q1]|]; [|done]. injection Hx1 as <-. by destruct wr.
    - destruct (channels (heap w) !! c0) as [q0|]; simpl in Hx1; [|done].
      destruct (mpsc_recv q0) as [[f q1]|]; [|done]. injection Hx1 as <-. by destruct wr.
    - destruct (channels (heap w) !! c0) as [q0|]; simpl in Hx1; [|done].
      destruct (mpsc_recv q0) as [[f q1]|]; [|done]. injection Hx1 as <-. by destruct wr. }
  destruct (exec_task parse w l) as [w1|] eqn:Hx2.
  { simplify_eq. destruct (exec_task_only w l w' Hx2) as (i & Hl & Hother).
    destruct (decide (id = i)) as [->|Hne]; [by right | left]. by rewrite Hother. }
  left. destruct l; try done; simpl in Hx; injection Hx as <-; try done; try apply Hnew.
  destruct (shutdown_target _ _); [apply Hnew|done].
Qed.

Lemma exec_task_stays n w l w' id t :
  structural n w -> exec parse w l = Some w' -> tasks w !! id = Some t ->
  tasks w' !! id = Some t \/ moves_task l id.
Proof. intros Hst Hx Ht. by eapply exec_task_kept; [eapply str_task_ids|..]. Qed.

(** ** Jobs *)

(** How many steps a job has left. *)
Definition job_rank (job : option Job) : nat :=
  match job with
  | None => 0
  | Some JProbe | Some JForget => 1
  | Some JDetach => 2
  | Some (JFan _ (FNext l)) => 1 + 2 * length l
  | Some (JFan _ (FSend _ l)) => 2 + 2 * length l
  end.

Lemma exec_task_busy w l w' : exec_task parse w l = Some w' -> busy w' = busy w.
Proof.
  intros Hx. destruct l as [| | | | | | | | | |i|i r|i|i|i|i|i| | |]; try done; simpl in Hx;
    destruct (tasks w !! i) as [[o a pc0|c0 resp|svc cr|svc hd|tx]|] eqn:Ht; try done.
  - destruct (call_step _ _ _ _ _) as [[h pc']|]; [|done]. by injection Hx as <-.
  - destruct pc0; try done. by injection Hx as <-.
  - destruct pc0; try done. destruct (replies _ !! i); [|done]. by injection Hx as <-.
  - destruct pc0; try done. destruct (sender_dropped _ _ _ _); [|done]. by injection Hx as <-.
  - destruct (bool_decide _); [done|]. destruct pc0; try done; by injection Hx as <-.
  - destruct pc0; try done. injection Hx as <-. by destruct o; simpl; repeat case_match.
  - by injection Hx as <-.
  - by injection Hx as <-.
  - by injection Hx as <-.
  - by injection Hx as <-.
  - destruct o; try done. destruct (droppable pc0); [|done]. by injection Hx as <-.
Qed.

Lemma exec_host_busy w l w' : exec_host w l = Some w' -> busy w' = busy w.
Proof.
  intros Hx. destruct l; try done; simpl in Hx; injection Hx as <-; try done.
  by destruct (shutdown_target _ _).
Qed.

Lemma busy_set_job w c job b h t c' :
  busy (spawn_opt t (set_job c job (set_heap h (set_broker b w)))) !! c'
  = if decide (c' = c) then job else busy w !! c'.
Proof.
  transitivity (partial_alter (fun _ => job) c (busy w) !! c'); [by destruct t|].
  case_decide as Hc; [subst; apply lookup_partial_alter_eq|by apply lookup_partial_alter_ne].
Qed.

(** Only the session's own steps change its job. *)
Lemma exec_conn_busy w l w' c :
  exec_conn w l = Some w' ->
  busy w' !! c = busy w !! c
  \/ (l = LAttach c /\ (exists hello g, conns w !! c = Some (SAttach hello g))
      /\ busy w' !! c = Some JProbe)
  \/ (exists f hello g, l = LFrame c f /\ conns w !! c = Some (SRunning hello g)
      /\ busy w !! c = None
      /\ busy w' !! c = (serve_frame (broker w) (heap w) c hello f).2)
  \/ (l = LClose c /\ (exists hello g, conns w !! c = Some (SRunning hello g))
      /\ busy w !! c = None /\ busy w' !! c = Some JDetach)
  \/ (exists pc hello g job, l = LSession c /\ conns w !! c = Some pc /\ holds_tables pc = true
      /\ registration pc = Some (hello, g) /\ busy w !! c = Some job
      /\ busy w' !! c = (serve_job (broker w) (heap w) hello g job).2).
Proof.
  intros Hx. destruct l as [|c0 read wr|c0 wr|c0|c0 f|c0|c0|c0 wr|c0| | | | | | | | | | |];
    try done; [..|apply exec_session in Hx; destruct Hx as [hl Hc|hl i Hc|hl g i Hc|
        hl g pc job b h t job' Hc Hh Hr Hj Hsj]; [by left..|rewrite busy_set_job]];
    [simpl in Hx..|]; [|destruct (conns w !! c0) as [[]|] eqn:Hc; try done..|].
  - injection Hx as <-. by left.
  - destruct (serve_hello _ _) as [[b out] pc]. injection Hx as <-. left. by destruct read as [[]|], out, wr.
  - destruct wr; simpl in Hx; injection Hx as <-; by left.
  - injection Hx as <-. destruct (decide (c = c0)) as [->|Hne]; [right; left|left].
    + split_and!; eauto. simpl. apply lookup_partial_alter_eq.
    + simpl. by apply lookup_partial_alter_ne.
  - destruct (busy w !! c0) eqn:Hb; [done|].
    destruct (serve_frame _ _ _ _ _) as [[[b h] t] job] eqn:Hsf. injection Hx as <-.
    rewrite busy_set_job. case_decide as Hcc; [subst c0|by left]. right; right; left.
    exists f, hello, generation. split_and!; eauto. by rewrite Hsf.
  - destruct (busy w !! c0) eqn:Hb; [done|]. injection Hx as <-.
    destruct (decide (c = c0)) as [->|Hne]; [do 3 right; left|left].
    + split_and!; eauto. simpl. apply lookup_partial_alter_eq.
    + simpl. by apply lookup_partial_alter_ne.
  - destruct (busy w !! c0) eqn:Hb; [done|]. injection Hx as <-. by left.
  - destruct (channels (heap w) !! c0) as [q0|]; simpl in Hx; [|done].
    destruct (mpsc_recv q0) as [[f q1]|]; [|done]. injection Hx as <-. left. by destruct wr.
  - destruct (channels (heap w) !! c0) as [q0|]; simpl in Hx; [|done].
    destruct (mpsc_recv q0) as [[f q1]|]; [|done]. injection Hx as <-. left. by destruct wr.
  - destruct (channels (heap w) !! c0) as [q0|]; simpl in Hx; [|done].
    destruct (mpsc_recv q0) as [[f q1]|]; [|done]. injection Hx as <-. left. by destruct wr.
  - case_decide as Hcc; [subst c0|by left]. do 4 right.
    exists pc, hl, g, job. split_and!; eauto. by rewrite Hsj.
Qed.

Lemma exec_jobs w l w' c job :
  exec parse w l = Some w' -> busy w' !! c = Some job -> job_from w l c job.
Proof.
  unfold exec. intros Hx Hj. destruct (exec_conn w l) as [w1|] eqn:Hx1.
  - simplify_eq. destruct (exec_conn_busy w l w' c Hx1)
      as [Heq|[(-> & (hello & g & Hc) & Heq)|[(f & hello & g & -> & Hc & Hb & Heq)|
         [(-> & (hello & g & Hc) & _ & Heq)|(pc & hello & g & j & -> & Hc & _ & Hr & Hb & Heq)]]]];
      rewrite Heq in Hj.
    + by apply job_same.
    + simplify_eq. by eapply job_probe.
    + destruct f; simpl in Hj; simplify_eq. by eapply job_fan.
    + simplify_eq. by eapply job_detach.
    + destruct (serve_job _ _ _ _ _) as [[[b h] t] j'] eqn:Hsj. simpl in Hj. subst j'.
      eapply job_next; try done. by exists pc.
  - destruct (exec_task parse w l) as [w1|] eqn:Hx2; [simplify_eq; rewrite (exec_task_busy _ _ _ Hx2) in Hj
      |rewrite (exec_host_busy _ _ _ Hx) in Hj]; by apply job_same.
Qed.

Lemma serve_job_rank b (h : Heap Q) hello g job :
  job_rank (serve_job b h hello g job).2 < job_rank (Some job).
Proof.
  destruct job as [|ev [[|s l]|tx l]| |]; simpl; try lia; [destruct (Registry.get _ s); simpl; lia|].
  destruct (Broker.should_remove _ _ _); simpl; lia.
Qed.

(** A running session reads when it has no job, and works its job off. *)
Lemma running_job w l w' c hello g :
  exec parse w l = Some w' -> conns w !! c = Some (SRunning hello g) -> l <> LClose c ->
  busy w' !! c = busy w !! c /\ l <> LSession c
  \/ (exists f, l = LFrame c f)
  \/ l = LSession c /\ job_rank (busy w' !! c) < job_rank (busy w !! c).
Proof.
  intros Hx Hc Hcl. destruct (exec_conn w l) as [w1|] eqn:Hx1.
  - assert (w1 = w') as -> by (unfold exec in Hx; rewrite Hx1 in Hx; congruence).
    destruct (exec_conn_busy w l w' c Hx1) as [Heq|[(-> & (h1 & g1 & Hc1) & _)|[(f & h1 & g1 & -> & _)|
         [(-> & _)|(pc & h1 & g1 & job & -> & Hc1 & _ & Hr & Hb & Heq)]]]].
    + left. split; [done|]. intros ->. simpl in Hx1. rewrite Hc in Hx1.
      destruct (busy w !! c) as [job|] eqn:Hb; [|done].
      pose proof (serve_job_rank (broker w) (heap w) hello g job) as Hlt.
      destruct (serve_job _ _ _ _ _) as [[[b h] t] j]. injection Hx1 as <-.
      rewrite busy_set_job, decide_True in Heq by done. subst j. simpl in Hlt. lia.
    + congruence.
    + right; left. by exists f.
    + done.
    + right; right. split; [done|]. rewrite Heq, Hb. apply serve_job_rank.
  - left. unfold exec in Hx. rewrite Hx1 in Hx. split; [|intros ->; done].
    destruct (exec_task parse w l) as [w1|] eqn:Hx2;
      [simplify_eq; by rewrite (exec_task_busy _ _ _ Hx2)|by rewrite (exec_host_busy _ _ _ Hx)].
Qed.

(** ** Connections *)

(** At most one connection moves. *)
Lemma exec_conns_upd w l w' :
  exec parse w l = Some w' ->
  conns w' = conns w
  \/ exists c pc, conns w' = <[c := pc]> (conns w) /\ conn_from w l c pc.
Proof.
  unfold exec. intros Hx. destruct (exec_conn w l) as [w1|] eqn:Hx1.
  - simplify_eq. destruct l as [|c0 read wr|c0 wr|c0|c0 f|c0|c0|c0 wr|c0| | | | | | | | | | |];
      try done; [..|apply exec_session in Hx1; destruct Hx1 as [hl Hc|hl i Hc|hl g i Hc|
        hl g pc job b h t0 job' _ _ _ _ Hsj]; [right; do 2 eexists; (split; [done|])..|left; by destruct t0];
        [by apply conn_numbered|by apply conn_drawn|by apply conn_registered]]; simpl in Hx1; [|destruct (conns w !! c0) as [[]|] eqn:Hc; try done..].
    + injection Hx1 as <-. right. do 2 eexists. split; [done|]. by apply conn_accept.
    + destruct (serve_hello _ _) as [[b out] pc0] eqn:Hsh. injection Hx1 as <-.
      right. exists c0, pc0. split; [by destruct read as [[]|], out, wr|].
      destruct (serve_hello_cases _ _ _ _ _ Hsh)
        as (tk & _ & [[-> _]|(hello & -> & -> & -> & Hv & Htok & _)]).
      * by eapply conn_refused.
      * by eapply conn_accepted.
    + right. destruct wr; simpl in Hx1; injection Hx1 as <-; (do 2 eexists; split; [done|]).
      * by eapply conn_acked.
      * by eapply conn_ack_failed.
    + injection Hx1 as <-. right. do 2 eexists. split; [done|]. by apply conn_attached.
    + destruct (busy w !! c0); [done|].
      destruct (serve_frame _ _ _ _ _) as [[[b h] t0] job] eqn:Hsf. injection Hx1 as <-.
      left. by destruct t0.
    + destruct (busy w !! c0); [done|]. injection Hx1 as <-.
      right. do 2 eexists. split; [done|]. by apply conn_detached.
    + destruct (busy w !! c0); [done|]. injection Hx1 as <-.
      right. do 2 eexists. split; [done|]. by apply conn_removed.
    + destruct (channels (heap w) !! c0) as [q0|]; simpl in Hx1; [|done].
      destruct (mpsc_recv q0) as [[f q1]|]; [|done]. injection Hx1 as <-. left. by destruct wr.
    + destruct (channels (heap w) !! c0) as [q0|]; simpl in Hx1; [|done].
      destruct (mpsc_recv q0) as [[f q1]|]; [|done]. injection Hx1 as <-. left. by destruct wr.
    + destruct (channels (heap w) !! c0) as [q0|]; simpl in Hx1; [|done].
      destruct (mpsc_recv q0) as [[f q1]|]; [|done]. injection Hx1 as <-. left. by destruct wr.
  - left. destruct (exec_task parse w l) as [w1|] eqn:Hx2.
    + simplify_eq. destruct l as [| | | | | | | | | |i|i r|i|i|i|i|i| | |]; try done; simpl in Hx2;
        destruct (tasks w !! i) as [[o a pc0|c0 resp|svc cr|svc hd|tx]|] eqn:Ht; try done.
      * destruct (call_step _ _ _ _ _) as [[h pc']|]; [|done]. by injection Hx2 as <-.
      * destruct pc0; try done. by injection Hx2 as <-.
      * destruct pc0; try done. destruct (replies _ !! i); [|done]. by injection Hx2 as <-.
      * destruct pc0; try done. destruct (sender_dropped _ _ _ _); [|done]. by injection Hx2 as <-.
      * destruct (bool_decide _); [done|]. destruct pc0; try done; by injection Hx2 as <-.
      * destruct pc0; try done. injection Hx2 as <-. by destruct o; simpl; repeat case_match.
      * by injection Hx2 as <-.
      * by injection Hx2 as <-.
      * by injection Hx2 as <-.
      * by injection Hx2 as <-.
      * destruct o; try done. destruct (droppable pc0); [|done]. by injection Hx2 as <-.
    + destruct l; try done; simpl in Hx; injection Hx as <-; try done.
      by destruct (shutdown_target _ _).
Qed.

Lemma exec_conns w l w' c pc :
  exec parse w l = Some w' -> conns w' !! c = Some pc -> conn_from w l c pc.
Proof.
  intros Hx Hpc. destruct (exec_conns_upd w l w' Hx) as [Heq|(c0 & pc0 & Heq & Hf)];
    rewrite Heq in Hpc; [by apply conn_same|].
  apply lookup_insert_Some in Hpc as [[<- <-]|[_ Hl]]; [done | by apply conn_same].
Qed.

(** Only the step that stores an entry changes who stored the last one. *)
Lemma exec_entered w l w' :
  exec parse w l = Some w' ->
  entered w' = entered w
  \/ exists c hello g id, l = LSession c /\ conns w !! c = Some (SDrawn hello g id)
       /\ entered w' = <[hello.(HelloRequest.service) := c]> (entered w).
Proof.
  unfold exec. intros Hx. destruct (exec_conn w l) as [w1|] eqn:Hx1.
  - simplify_eq. destruct l as [|c0 read wr|c0 wr|c0|c0 f|c0|c0|c0 wr|c0| | | | | | | | | | |];
      try done; [..|apply exec_session in Hx1; destruct Hx1 as [hl Hc|hl i Hc|hl g i Hc|
        hl g pc job b h t0 job' _ _ _ _ Hsj]; [by left..|right; eauto 10|left; by destruct t0]];
      left; simpl in Hx1; unfold spawn_opt, spawn, set_job, log_in, log_out in *;
      repeat case_match; by simplify_eq.
  - left. destruct (exec_task parse w l) as [w1|] eqn:Hx2.
    + simplify_eq. destruct l; try done; simpl in Hx2; repeat case_match; by simplify_eq.
    + destruct l; try done; simpl in Hx; injection Hx as <-; try done.
      by destruct (shutdown_target _ _).
Qed.

(** A registration is never forgotten. *)
Lemma registered_exec n w l w' c hello g :
  structural n w -> exec parse w l = Some w' ->
  registered w c hello g -> registered w' c hello g.
Proof.
  intros Hs Hx (pc & Hpc & Hr). unfold registered, registered_in.
  destruct (exec_conns_upd w l w' Hx) as [->|(c0 & pc0 & -> & Hf)]; [eauto|].
  destruct (decide (c = c0)) as [<-|Hne]; [|exists pc; by rewrite lookup_insert_ne].
  exists pc0. rewrite lookup_insert_eq. split; [done|].
  destruct Hf; subst; simplify_eq/=; try congruence.
  apply (str_conn_ids n w Hs) in Hpc. lia.
Qed.

End steps.
