(* ===== verification/History.v ===== *)
(** What a step of System.v appends to the histories of the connections: the
    frames read, the frames written, and the settings of the broker that never
    change or only grow. *)

From stdpp Require Import prelude gmap strings.
From S2P Require Import Prelude Frame Runtime Registry Broker Session System Invariant Steps.

(** The frame a step reads from the connection. *)
Definition frames_read (l : Label) (c : conn_id) : list BusFrame :=
  match l with
  | LFrame c' f | LHello c' (Ok (Some f)) _ => if decide (c' = c) then [f] else []
  | _ => []
  end.

(** What has been read from a connection, against its program counter. *)
Definition hello_read (pc : option SessionPc) (l : list BusFrame) : Prop :=
  match pc with
  | None | Some SHandshake => l = []
  | Some pc => forall hello, admission pc = Some hello -> exists l', l = BusFrame.Hello hello :: l'
  end.

Section history.
Context {Q : Type} `{LawfulMpsc Q BusFrame}.
Context (parse : bytes -> result CapabilityResponse string).
Implicit Types w : World Q.

Record logs w (l : Label) w' : Prop := {
  lg_next : (next_id w <= next_id w')%N;
  lg_inbox c : inbox_of w' c = inbox_of w c ++ frames_read l c;
  lg_wire c : wire_of w c `prefix_of` wire_of w' c;
  lg_config : Broker.config (broker w') = Broker.config (broker w);
  lg_hosted : hosted w `prefix_of` hosted w';
  lg_resolved : resolved w `prefix_of` resolved w'
}.

Lemma logs_same w l w' :
  (next_id w <= next_id w')%N -> inbox w' = inbox w -> wire w' = wire w ->
  Broker.config (broker w') = Broker.config (broker w) ->
  hosted w `prefix_of` hosted w' -> resolved w `prefix_of` resolved w' ->
  (forall c, frames_read l c = []) -> logs w l w'.
Proof.
  intros Hn Hi Hw Hc Hho Hre Hr. split; [done| | |done..].
  - intros c. unfold inbox_of. by rewrite Hi, Hr, app_nil_r.
  - intros c. unfold wire_of. by rewrite Hw.
Qed.

Lemma inbox_log_in (w : World Q) c f c' :
  inbox_of (log_in c f w) c' = inbox_of w c' ++ (if decide (c = c') then [f] else []).
Proof.
  unfold inbox_of, log_in. simpl. case_decide as Hc.
  - subst. by rewrite lookup_insert_eq.
  - by rewrite lookup_insert_ne, app_nil_r.
Qed.

Lemma wire_log_out (w : World Q) c f c' : wire_of w c' `prefix_of` wire_of (log_out c f w) c'.
Proof.
  unfold wire_of, log_out. simpl. destruct (decide (c = c')) as [<-|Hne].
  - rewrite lookup_insert_eq. simpl. by apply prefix_app_r.
  - by rewrite lookup_insert_ne.
Qed.

Local Ltac same := apply logs_same; try done; try (simpl; lia).

(** A step of a connection that reads nothing and writes at most one frame. *)
Lemma logs_written w l w' c f :
  next_id w' = next_id w -> inbox w' = inbox w -> wire w' = wire (log_out c f w) ->
  Broker.config (broker w') = Broker.config (broker w) ->
  hosted w `prefix_of` hosted w' -> resolved w `prefix_of` resolved w' ->
  (forall c, frames_read l c = []) -> logs w l w'.
Proof.
  intros Hn Hi Hw Hc Hho Hre Hr. split; [by rewrite Hn| | |done..].
  - intros c'. unfold inbox_of. by rewrite Hi, Hr, app_nil_r.
  - intros c'. unfold wire_of at 2. rewrite Hw. apply wire_log_out.
Qed.

Lemma hello_settings b read b' out pc :
  serve_hello b read = (b', out, pc) -> Broker.config b' = Broker.config b.
Proof. intros Hs. by destruct (serve_hello_cases _ _ _ _ _ Hs) as (tk & -> & _). Qed.

Lemma logs_hello w c read wr w' :
  exec_conn w (LHello c read wr) = Some w' -> logs w (LHello c read wr) w'.
Proof.
  simpl. intros Hx. destruct (conns w !! c) as [[]|]; try done.
  destruct (serve_hello _ _) as [[b out] pc] eqn:Hs. injection Hx as <-.
  pose proof (hello_settings _ _ _ _ _ Hs) as Hc. split.
  - simpl. by destruct read as [[]|], out, wr.
  - intros c'. simpl. destruct read as [[f|]|]; simpl.
    + rewrite <-inbox_log_in. by destruct out, wr.
    + rewrite app_nil_r. by destruct out, wr.
    + rewrite app_nil_r. by destruct out, wr.
  - intros c'. destruct read as [[f|]|], out as [g|], wr; try done;
      first [exact (wire_log_out w c g c') | exact (wire_log_out (log_in c f w) c g c')].
  - done.
  - by destruct read as [[f|]|], out, wr.
  - by destruct read as [[f|]|], out, wr.
Qed.

Lemma logs_conn w l w' : exec_conn w l = Some w' -> logs w l w'.
Proof.
  intros Hx. destruct l as [|c read wr|c wr|c|c f|c|c|c wr|c| | | | | | | | | | |];
    try done; try (by apply logs_hello); [..|apply exec_session in Hx;
      destruct Hx as [hl Hc|hl i Hc|hl g i Hc|hl g pc job b h t job' Hc _ _ _ Hsj]; [same..|]];
    [..|destruct (serve_job_frame _ _ _ _ _ _ _ _ _ Hsj) as (_ & _ & Hcf & _);
        same; destruct t; try done; simpl; lia]; simpl in Hx;
    [|destruct (conns w !! c) as [[]|] eqn:Hc; try done..].
  - injection Hx as <-. same.
  - destruct wr; simpl in Hx; injection Hx as <-; [by eapply logs_written|same].
  - injection Hx as <-. same.
  - destruct (busy w !! c); [done|].
    destruct (serve_frame _ _ _ _ _) as [[[b h] t] job] eqn:Hsf. injection Hx as <-.
    destruct (serve_frame_cases _ _ _ _ _ _ _ _ _ Hsf) as (_ & _ & Hcf & _). split.
    + destruct t; simpl; lia.
    + intros c'. simpl. rewrite <-inbox_log_in. by destruct t.
    + intros c'. by destruct t.
    + by destruct t.
    + by destruct t.
    + by destruct t.
  - destruct (busy w !! c); [done|]. injection Hx as <-. same.
  - destruct (busy w !! c); [done|]. injection Hx as <-. same.
  - destruct (channels (heap w) !! c) as [q|]; simpl in Hx; [|done].
    destruct (mpsc_recv q) as [[f q']|]; [|done]. injection Hx as <-. destruct wr; [by eapply logs_written|same].
  - destruct (channels (heap w) !! c) as [q|]; simpl in Hx; [|done].
    destruct (mpsc_recv q) as [[f q']|]; [|done]. injection Hx as <-. destruct wr; [by eapply logs_written|same].
  - destruct (channels (heap w) !! c) as [q|]; simpl in Hx; [|done].
    destruct (mpsc_recv q) as [[f q']|]; [|done]. injection Hx as <-. destruct wr; [by eapply logs_written|same].
Qed.

Lemma logs_task w l w' : exec_task parse w l = Some w' -> logs w l w'.
Proof.
  intros Hx. destruct l as [| | | | | | | | | |i|i r|i|i|i|i|i| | |]; try done; simpl in Hx;
    destruct (tasks w !! i) as [[o a pc|c resp|svc cr|svc hd|tx]|] eqn:Ht; try done.
  - destruct (call_step _ _ _ _ _) as [[h pc']|]; [|done]. injection Hx as <-. same.
  - destruct pc; try done. injection Hx as <-. same. by apply prefix_app_r.
  - destruct pc; try done. destruct (replies _ !! i); [|done]. injection Hx as <-. same.
  - destruct pc; try done. destruct (sender_dropped _ _ _ _); [|done]. injection Hx as <-. same.
  - destruct (bool_decide _); [done|]. destruct pc; try done; injection Hx as <-; same.
  - destruct pc; try done. injection Hx as <-. destruct o; simpl; repeat case_match; same.
  - injection Hx as <-. same.
  - injection Hx as <-. same.
  - injection Hx as <-. same.
  - injection Hx as <-. same.
  - destruct o; try done. destruct (droppable pc); [|done]. injection Hx as <-. same.
Qed.

(** Every step reads and writes at the ends of the histories. *)
Lemma exec_logs w l w' : exec parse w l = Some w' -> logs w l w'.
Proof.
  unfold exec. intros Hx. destruct (exec_conn w l) eqn:Hx1; [simplify_eq; by apply logs_conn|].
  destruct (exec_task parse w l) eqn:Hx2; [simplify_eq; by apply logs_task|].
  destruct l; try done; simpl in Hx; injection Hx as <-; try (same; fail).
  - same. by apply prefix_app_r.
  - destruct (shutdown_target _ _); same.
Qed.

(** Frames read stay read, and ids only grow. *)
Lemma exec_inbox w l w' :
  exec parse w l = Some w' ->
  (next_id w <= next_id w')%N
  /\ (forall c f, f ∈ inbox_of w c -> f ∈ inbox_of w' c)
  /\ (forall c f, l = LFrame c f -> f ∈ inbox_of w' c).
Proof.
  intros Hx. destruct (exec_logs w l w' Hx) as [Hn Hi _ _ _ _]. split_and!; [done| |].
  - intros c f Hf. rewrite Hi. by apply elem_of_app; left.
  - intros c f ->. rewrite Hi. simpl. rewrite decide_True by done. set_solver.
Qed.

(** The configuration never changes. *)
Lemma reachable_config config n w :
  reachable parse config n w -> Broker.config (broker w) = config.
Proof. induction 1 as [|n w l w' _ IH Hx]; [done|]. by rewrite (lg_config _ _ _ (exec_logs w l w' Hx)). Qed.

(** ** The first frame read *)

(** A frame is read by the handshake, which it ends, or by the main loop. *)
Lemma frames_read_from w l w' c f :
  exec parse w l = Some w' -> frames_read l c = [f] ->
  (exists wr, l = LHello c (Ok (Some f)) wr)
  /\ conns w !! c = Some SHandshake /\ conns w' !! c <> Some SHandshake
  \/ l = LFrame c f /\ exists hello g, conns w !! c = Some (SRunning hello g).
Proof.
  intros Hx Hf. destruct l as [|c0 [[f0|]|e] wr|c0 wr|c0|c0 f0|c0|c0|c0 wr|c0| | | | | | | | | | |];
    simpl in Hf; try done; case_decide as Hc; simplify_eq.
  - left. unfold exec, exec_conn in Hx. destruct (conns w !! c) as [[]|] eqn:Hc; try done.
    destruct (serve_hello _ _) as [[b out] pc] eqn:Hs. injection Hx as <-. split_and!; eauto.
    simpl. rewrite lookup_insert_eq. intros [= ->].
    by destruct (serve_hello_cases _ _ _ _ _ Hs) as (tk & _ & [[? _]|(hello & _ & _ & ? & _)]).
  - right. split; [done|]. unfold exec in Hx. simpl in Hx.
    destruct (conns w !! c) as [[]|] eqn:Hc; try done. eauto.
Qed.

Lemma frames_read_nil l c : frames_read l c = [] \/ exists f, frames_read l c = [f].
Proof. destruct l as [|c0 [[f0|]|e] wr| | |c0 f0| | | | | | | | | | | | | | |]; simpl; try case_decide; eauto. Qed.

Lemma hello_read_exec n w l w' :
  structural n w -> exec parse w l = Some w' ->
  (forall c, hello_read (conns w !! c) (inbox_of w c)) ->
  forall c, hello_read (conns w' !! c) (inbox_of w' c).
Proof.
  intros Hst Hx Hh c. specialize (Hh c). rewrite (lg_inbox _ _ _ (exec_logs w l w' Hx)).
  destruct (conns w' !! c) as [pc'|] eqn:Hc'.
  - pose proof (exec_conns parse w l w' c pc' Hx Hc') as Hf.
    destruct (frames_read_nil l c) as [Hr|[f Hr]]; rewrite Hr.
    + rewrite app_nil_r. inversion Hf as [pc Hc|Hl Hc|read wr Hl Hc|hello wr Hl Hc|hello id Hl Hc
        |hello id Hl Hc|hello g id Hl Hc|hello g id Hl Hc|hello g id Hl Hc|hello g Hl Hc|hello g Hl Hc
        |hello g Hl Hc]; subst; try (rewrite Hc in Hh; exact Hh); try done.
      * destruct (conns w !! next_id w) as [pc|] eqn:Hc; [|done].
        apply (str_conn_ids n w Hst) in Hc. lia.
      * simpl in Hr. by rewrite decide_True in Hr.
    + destruct (frames_read_from _ _ _ _ _ Hx Hr) as [([wr ->] & Hc & Hne)|(-> & hello & g & Hc)];
        rewrite Hc in Hh; simpl in Hh.
      * rewrite Hh. simpl. inversion Hf; subst; try congruence; try done. simplify_eq. simpl.
        intros hello' [= <-]. eauto.
      * inversion Hf; subst; try congruence. assert (pc' = SRunning hello g) as -> by congruence.
        simpl. intros hello' [= <-]. destruct (Hh _ eq_refl) as [l' ->]. by eexists.
  - assert (Hc : conns w !! c = None).
    { destruct (exec_conns_upd parse w l w' Hx) as [Heq|(c0 & pc0 & Heq & _)]; rewrite Heq in Hc'; [done|].
      by apply lookup_insert_None in Hc' as [? _]. }
    rewrite Hc in Hh. simpl in *. rewrite Hh.
    destruct (frames_read_nil l c) as [->|[f Hr]]; [done|].
    by destruct (frames_read_from _ _ _ _ _ Hx Hr) as [(_ & ? & _)|(_ & ? & ? & ?)]; congruence.
Qed.

Lemma reachable_hello_read config n w :
  reachable parse config n w -> (n < U64_SIZE)%N -> forall c, hello_read (conns w !! c) (inbox_of w c).
Proof.
  induction 1 as [|n w l w' Hr IH Hx]; intros Hb.
  - intros c. simpl. rewrite lookup_empty. unfold inbox_of. simpl. by rewrite lookup_empty.
  - eapply hello_read_exec; [|done|apply IH; lia]. eapply (reachable_structural parse config n); [done|lia].
Qed.

(** A connection that was let in, and so a registered one, has said [Hello]
    first. *)
Lemma admitted_hello config n w c pc hello :
  reachable parse config n w -> (n < U64_SIZE)%N ->
  conns w !! c = Some pc -> admission pc = Some hello ->
  exists l, inbox_of w c = BusFrame.Hello hello :: l.
Proof.
  intros Hr Hb Hc Ha. pose proof (reachable_hello_read config n w Hr Hb c) as Hh.
  rewrite Hc in Hh. by destruct pc; try done; apply Hh.
Qed.

Lemma registered_admission pc hello g :
  registration pc = Some (hello, g) -> admission pc = Some hello.
Proof. by destruct pc; simpl; intros; simplify_eq. Qed.

Lemma registered_hello config n w c hello g :
  reachable parse config n w -> (n < U64_SIZE)%N -> registered w c hello g ->
  exists l, inbox_of w c = BusFrame.Hello hello :: l.
Proof.
  intros Hr Hb (pc & Hc & Hg). by eapply admitted_hello, registered_admission.
Qed.

End history.
