(* ===== verification/Safety.v ===== *)
(** What the broker writes to its connections, in every reachable world: the
    authentication gate, the provenance of events, the stamp on app-originated
    calls, the refusal of unregistered connections and the order on the
    wire. *)

From stdpp Require Import prelude gmap strings.
From Stdlib Require Import Ascii.
From S2P Require Import Prelude Frame Runtime Registry Broker Session System Invariant Steps.

Section safety.
Context {Q : Type} `{LawfulMpsc Q BusFrame}.
Context (parse : bytes -> result CapabilityResponse string).
Implicit Types w : World Q.

(** Tasks keep to what their registry entry admits, and app-originated calls
    carry the name of the connection they came from. *)
Definition task_safe w (t : Task) : Prop :=
  match t with
  | TCall o a pc =>
      (forall e, pc_entry pc = Some e ->
         admitted e.(ServiceEntry.methods) a.(CallArgs.method) a.(CallArgs.caller))
      /\ (forall c rid, o = OApp c rid -> exists hello g, registered w c hello g
            /\ a.(CallArgs.caller).(CallerCtx.caller_app_id) = Some hello.(HelloRequest.service))
  | _ => True
  end.

(** Requests are admitted by the receiver's catalog; events carry the name of
    another service that registered. *)
Definition frame_safe w (c : conn_id) (f : BusFrame) : Prop :=
  match f with
  | BusFrame.Invoke inv => exists hello g, registered w c hello g
      /\ admitted hello.(HelloRequest.methods) inv.(Invoke.method) inv.(Invoke.caller)
  | BusFrame.Event ev => exists hello g pub hello' g', registered w c hello g
      /\ registered w pub hello' g' /\ ev.(Event.from) = Some hello'.(HelloRequest.service)
      /\ hello'.(HelloRequest.service) <> hello.(HelloRequest.service)
  | _ => True
  end.

(** A fan-out is of a publisher's stamped event, to other services, each of
    them once. *)
Definition job_safe w (c : conn_id) (job : Job) : Prop :=
  match job with
  | JFan ev pc => exists hello g, registered w c hello g
      /\ ev.(Event.from) = Some hello.(HelloRequest.service)
      /\ hello.(HelloRequest.service) ∉ fan_left pc /\ NoDup (fan_left pc)
      /\ forall tx, fan_sends pc = Some tx -> exists hello' g', registered w tx hello' g'
           /\ hello'.(HelloRequest.service) <> hello.(HelloRequest.service)
           /\ hello'.(HelloRequest.service) ∉ fan_left pc
  | _ => True
  end.

Record safe w : Prop := {
  safe_job c job : busy w !! c = Some job -> job_safe w c job;
  safe_task id t : tasks w !! id = Some t -> task_safe w t;
  safe_frame c f : f ∈ frames_to w c -> frame_safe w c f
}.

(** The program counter of a connection against what was written to it. *)
Definition wire_ok (pc : option SessionPc) (l : list BusFrame) : Prop :=
  match pc with
  | None | Some (SHandshake | SAccepted _ | SNumbered _ _ | SDrawn _ _ _ | SAck _ _ _) => l = []
  | Some (SAttach _ _ | SRunning _ _ | SDetached _ _) =>
      exists a l', l = BusFrame.HelloAck a :: l'
  | Some (SClosed None) => l = [] \/ exists e, l = [error_frame e]
  | Some (SClosed (Some _)) => l = [] \/ exists a l', l = BusFrame.HelloAck a :: l'
  end.

Definition wire_inv w : Prop := forall c, wire_ok (conns w !! c) (wire_of w c).

(** ** Preservation *)

Lemma task_safe_mono w w' t :
  (forall c hello g, registered w c hello g -> registered w' c hello g) ->
  task_safe w t -> task_safe w' t.
Proof.
  destruct t as [o a pc| | | |]; simpl; [|done..]. intros Hm [Ha Ho]. split; [done|].
  intros c rid Heq. destruct (Ho c rid Heq) as (hello & g & ? & ?). eauto.
Qed.

Lemma frame_safe_mono w w' c f :
  (forall c hello g, registered w c hello g -> registered w' c hello g) ->
  frame_safe w c f -> frame_safe w' c f.
Proof. destruct f; simpl; try done; naive_solver (eauto 10). Qed.

Lemma job_safe_mono w w' c job :
  (forall c hello g, registered w c hello g -> registered w' c hello g) ->
  job_safe w c job -> job_safe w' c job.
Proof.
  destruct job as [|ev pc| |]; simpl; try done. intros Hm (hello & g & Hr & Hf & Hl & Hn & Hs).
  exists hello, g. split_and!; try done; [auto|]. intros tx Htx.
  destruct (Hs tx Htx) as (hl & g' & ? & ?). eauto.
Qed.

Lemma job_from_safe n w l c job :
  structural n w -> safe w -> job_from w l c job -> job_safe w c job.
Proof.
  intros Hst Hs [j Hj|hello g|hello g ev Hl Hb Hc|hello g|hello g j b h t j' Hl Hr Hj Hsj]; try done.
  - by eapply safe_job.
  - exists hello, g. split_and!; try done; [by exists (SRunning hello g)|..].
    + simpl. rewrite elem_of_targets. by intros [? _].
    + apply NoDup_targets.
  - destruct j as [|ev pc| |]; simpl in Hsj; simplify_eq; try done.
    2: { by destruct (Broker.should_remove _ _ _); simplify_eq. }
    destruct (safe_job w Hs c _ Hj) as (hl & g' & Hr' & Hf & Hl & Hnd & Hsd).
    destruct (registered_fun w _ _ _ _ _ Hr Hr') as [<- <-].
    destruct (fan_step _ _ _ _) as [h1 [pc1|]] eqn:Hfs; simplify_eq/=.
    exists hello, g. split; [done|]. split; [done|]. destruct pc as [[|s l]|tx l]; simplify_eq/=.
    + apply not_elem_of_cons in Hl as [Hne Hl]. apply NoDup_cons in Hnd as [Hns Hnd].
      destruct (Registry.get _ s) as [e|] eqn:Hg; simpl; [|done]. split_and!; [done..|].
      intros tx [= <-]. destruct (str_entry n w Hst s e Hg) as (<- & (hl & Hre & Hsv & _) & _).
      exists hl, (ServiceEntry.generation e). split_and!; [done|congruence|congruence].
    + split_and!; [done..|by intros ?].
Qed.

Lemma route_invoke_safe w c hello g inv :
  conns w !! c = Some (SRunning hello g) ->
  task_safe w (route_invoke (broker w) c hello.(HelloRequest.service) inv).
Proof.
  intros Hc. unfold route_invoke. destruct (split_once _ _) as [[s m]|]; simpl; [|done].
  split; [done|]. intros c' rid [= <- <-]. exists hello, g. split; [|done].
  by exists (SRunning hello g).
Qed.

Lemma call_step_admitted b h id (a : CallArgs) pc h' pc' e :
  call_step (Q := Q) b h id a pc = Some (h', pc') -> pc_entry pc' = Some e ->
  (forall e, pc_entry pc = Some e ->
     admitted e.(ServiceEntry.methods) a.(CallArgs.method) a.(CallArgs.caller)) ->
  admitted e.(ServiceEntry.methods) a.(CallArgs.method) a.(CallArgs.caller).
Proof.
  intros Hst He Hpc. destruct pc; simpl in Hst; simplify_eq.
  - unfold call_local in He. by repeat case_match.
  - unfold call_catalog in He. by repeat case_match.
  - unfold call_registry in He. destruct (Registry.get _ _) as [e'|]; [|done].
    destruct (check_method _ _) as [[]|] eqn:Hck; simplify_eq/=. by apply check_method_ok.
  - unfold call_session in He. destruct (Broker.sessions _ !! _); simplify_eq/=. by apply Hpc.
  - unfold call_register in Hst. simplify_eq/=. by apply Hpc.
  - unfold call_send in Hst. destruct (chan_send _ _ _); by simplify_eq/=.
Qed.

Lemma task_from_safe w l id t : safe w -> task_from parse w l id t -> task_safe w t.
Proof.
  intros Hs Hf. destruct Hf; simpl; try done.
  - by eapply safe_task.
  - by eapply route_invoke_safe.
  - destruct (safe_task w Hs _ _ H2) as [Ha Ho]. split; [|done].
    intros e He. by eapply call_step_admitted.
  - split; [done|]. by destruct (safe_task w Hs _ _ H2).
  - split; [done|]. by destruct (safe_task w Hs _ _ H2).
  - split; [done|]. by destruct (safe_task w Hs _ _ H2).
  - split; [done|]. by destruct (safe_task w Hs _ _ H2).
  - destruct o; simpl in *; repeat case_match; by simplify_eq.
Qed.

Lemma new_frame_safe n w l c f : structural n w -> safe w -> new_frame w l c f -> frame_safe w c f.
Proof.
  intros Hst Hs Hf. destruct Hf as [| |pub ev svcs _ Hj| | |id o a e hd rid _ Ht Hc];
    simpl; try done.
  - destruct (safe_job w Hs pub _ Hj) as (hello & g & Hr & Hfr & _ & _ & Hsd).
    destruct (Hsd c eq_refl) as (hl & g' & Hr' & Hne & _). eauto 15.
  - destruct (str_task n w Hst id o a _ e Ht eq_refl) as (hl & Hr & _ & Hm).
    destruct (safe_task w Hs _ _ Ht) as [Ha _]. subst c. do 2 eexists. split; [done|].
    rewrite <-Hm. by apply Ha.
Qed.

Lemma safe_exec n w l w' :
  structural n w -> safe w -> exec parse w l = Some w' -> safe w'.
Proof.
  intros Hst Hs Hx.
  assert (Hm : forall c hello g, registered w c hello g -> registered w' c hello g)
    by (intros *; by eapply registered_exec).
  split.
  - intros c job Hj. apply (job_safe_mono w w' c job Hm). eapply job_from_safe; [done..|].
    by eapply exec_jobs.
  - intros id t Ht. apply (task_safe_mono w w' t Hm). eapply task_from_safe; [done|].
    by eapply exec_tasks.
  - intros c f Hf. apply (frame_safe_mono w w' c f Hm).
    destruct (adds_elem _ _ _ _ _ _ (exec_frames parse w l w' c Hx) Hf).
    + by eapply safe_frame.
    + by eapply new_frame_safe.
Qed.

Lemma safe_init config : safe (init config).
Proof.
  split; [by intros ? ? ?..|]. intros c f Hf. unfold frames_to, wire_of, chan_queue in Hf.
  simpl in Hf. rewrite !lookup_empty in Hf. by apply elem_of_nil in Hf.
Qed.

Lemma reachable_safe config n w :
  reachable parse config n w -> (n < U64_SIZE)%N -> safe w.
Proof.
  induction 1 as [|n w l w' Hr IH Hx]; intros Hb; [apply safe_init|].
  eapply (safe_exec n w l w'); [|apply IH; lia|done].
  apply (reachable_structural parse config); [done | lia].
Qed.

(** ** The order on the wire *)

Lemma wire_inv_same w w' :
  wire_inv w -> conns w' = conns w -> wire w' = wire w -> wire_inv w'.
Proof. intros Hi Hc Hw c. unfold wire_of. rewrite Hc, Hw. apply Hi. Qed.

Lemma exec_task_wire w l w' :
  exec_task parse w l = Some w' -> conns w' = conns w /\ wire w' = wire w.
Proof.
  intros Hx. destruct l as [| | | | | | | | | |i|i r|i|i|i|i|i| | |]; try done; simpl in Hx;
    destruct (tasks w !! i) as [[o a pc0|c0 resp|svc cr|svc hd|tx]|] eqn:Ht; try done.
  - destruct (call_step _ _ _ _ _) as [[h pc']|]; [|done]. by injection Hx as <-.
  - destruct pc0; try done. by injection Hx as <-.
  - destruct pc0; try done. destruct (replies _ !! i); [|done]. by injection Hx as <-.
  - destruct pc0; try done. destruct (sender_dropped _ _ _ _); [|done]. by injection Hx as <-.
  - destruct (bool_decide _); [done|]. destruct pc0; try done; by injection Hx as <-.
  - destruct pc0; try done. injection Hx as <-. by destruct o; simpl; repeat case_match.
  - by injection Hx as <-.
  - by injection Hx as <-.
  - by injection Hx as <-.
  - by injection Hx as <-.
  - destruct o; try done. destruct (droppable pc0); [|done]. by injection Hx as <-.
Qed.

(** One connection moves and at most one frame is written to it. *)
Lemma wire_inv_conn w w' c pc f :
  wire_inv w -> conns w' = <[c := pc]> (conns w) ->
  (wire w' = wire w \/ wire w' = <[c := wire_of w c ++ [f]]> (wire w)) ->
  wire_ok (Some pc) (wire_of w' c) -> wire_inv w'.
Proof.
  intros Hi Hc Hw Hok c'. rewrite Hc. destruct (decide (c' = c)) as [->|Hne].
  - by rewrite lookup_insert_eq.
  - rewrite lookup_insert_ne by done. unfold wire_of.
    destruct Hw as [->| ->]; [apply Hi|]. rewrite lookup_insert_ne by done. apply Hi.
Qed.

Lemma wire_inv_hello w c read wr w' :
  wire_inv w -> exec_conn w (LHello c read wr) = Some w' -> wire_inv w'.
Proof.
  intros Hi Hx. simpl in Hx. destruct (conns w !! c) as [[]|] eqn:Hc; try done.
  destruct (serve_hello _ _) as [[b out] pc] eqn:Hsh. injection Hx as <-.
  pose proof (Hi c) as Hw. rewrite Hc in Hw. simpl in Hw.
  destruct (serve_hello_cases _ _ _ _ _ Hsh)
    as (tk & -> & [(-> & [->|[e ->]])|(hello & -> & -> & -> & _)]).
  - eapply (wire_inv_conn w _ c (SClosed None) BusFrame.Ping); [done | | |].
    + by destruct read as [[]|].
    + left. by destruct read as [[]|].
    + left. by destruct read as [[]|].
  - destruct wr.
    + eapply (wire_inv_conn w _ c (SClosed None) (error_frame e)); [done | | |].
      * by destruct read as [[]|].
      * right. by destruct read as [[]|].
      * right. exists e. unfold wire_of.
        destruct read as [[]|]; simpl; rewrite lookup_insert_eq; simpl; unfold wire_of in *;
          simpl; by rewrite Hw.
    + eapply (wire_inv_conn w _ c (SClosed None) BusFrame.Ping); [done | | |].
      * by destruct read as [[]|].
      * left. by destruct read as [[]|].
      * left. by destruct read as [[]|].
  - by eapply (wire_inv_conn w _ c (SAccepted hello) BusFrame.Ping); [| |left|].
Qed.

Lemma wire_inv_exec n w l w' :
  structural n w -> wire_inv w -> exec parse w l = Some w' -> wire_inv w'.
Proof.
  intros Hst Hi. unfold exec. intros Hx. destruct (exec_conn w l) as [w1|] eqn:Hx1.
  2: { destruct (exec_task parse w l) as [w1|] eqn:Hx2.
    - simplify_eq. destruct (exec_task_wire w l w' Hx2). by eapply wire_inv_same.
    - destruct l; try done; simpl in Hx; injection Hx as <-; try (by eapply wire_inv_same).
      eapply wire_inv_same; [done|..]; by destruct (shutdown_target _ _). }
  simplify_eq. destruct l as [|c0 read wr|c0 wr|c0|c0 f|c0|c0|c0 wr|c0| | | | | | | | | | |]; try done.
  - injection Hx1 as <-. assert (Hnone : conns w !! next_id w = None).
    { destruct (conns w !! next_id w) eqn:Hc; [|done]. apply (str_conn_ids n w Hst) in Hc. lia. }
    pose proof (Hi (next_id w)) as Hw. rewrite Hnone in Hw.
    by eapply (wire_inv_conn w _ (next_id w) SHandshake BusFrame.Ping); [| |left|].
  - by eapply wire_inv_hello.
  - simpl in Hx1. destruct (conns w !! c0) as [[]|] eqn:Hc; try done.
    pose proof (Hi c0) as Hw. rewrite Hc in Hw. simpl in Hw.
    destruct wr; simpl in Hx1; injection Hx1 as <-.
    + eapply (wire_inv_conn w _ c0 (SAttach hello generation) (ack_frame (broker w) client_id));
        [done | done | by right |].
      unfold wire_of. simpl. rewrite lookup_insert_eq. simpl. rewrite Hw. simpl.
      unfold ack_frame. eauto.
    + eapply (wire_inv_conn w _ c0 _ BusFrame.Ping); [done | done | by left |]. by left.
  - simpl in Hx1. destruct (conns w !! c0) as [[]|] eqn:Hc; try done. injection Hx1 as <-.
    pose proof (Hi c0) as Hw. rewrite Hc in Hw.
    by eapply (wire_inv_conn w _ c0 _ BusFrame.Ping); [| |left|].
  - simpl in Hx1. destruct (conns w !! c0) as [[]|] eqn:Hc; try done.
    destruct (busy w !! c0); [done|].
    destruct (serve_frame _ _ _ _ _) as [[[b h] t0] job] eqn:Hsf. injection Hx1 as <-.
    destruct t0; by eapply wire_inv_same.
  - simpl in Hx1. destruct (conns w !! c0) as [[]|] eqn:Hc; try done.
    destruct (busy w !! c0); [done|]. injection Hx1 as <-.
    pose proof (Hi c0) as Hw. rewrite Hc in Hw.
    by eapply (wire_inv_conn w _ c0 _ BusFrame.Ping); [| |left|].
  - simpl in Hx1. destruct (conns w !! c0) as [[]|] eqn:Hc; try done.
    destruct (busy w !! c0); [done|]. injection Hx1 as <-.
    pose proof (Hi c0) as Hw. rewrite Hc in Hw.
    eapply (wire_inv_conn w _ c0 _ BusFrame.Ping); [done|done|by left|]. by right.
  - pose proof (Hi c0) as Hw. simpl in Hx1.
    destruct (conns w !! c0) as [[]|] eqn:Hc; try done.
    all: destruct (channels (heap w) !! c0) as [q0|]; simpl in Hx1; [|done].
    all: destruct (mpsc_recv q0) as [[f q1]|]; [|done]; injection Hx1 as <-.
    all: destruct wr; [|by eapply wire_inv_same].
    all: intros c; simpl; rewrite frames_log_out;
      change (wire_of (set_heap _ w)) with (wire_of w).
    all: case_decide; [subst c; rewrite Hc; destruct Hw as (a & l' & ->); simpl; eauto | apply Hi].
  - apply exec_session in Hx1. destruct Hx1 as [hl Hc|hl i Hc|hl g i Hc|
      hl g pc job b h t job' Hc _ _ _ _]; [| | |by eapply wire_inv_same; [done|by destruct t..]].
    all: pose proof (Hi c0) as Hw; rewrite Hc in Hw;
      by eapply (wire_inv_conn w _ c0 _ BusFrame.Ping); [| |left|].
Qed.

Lemma reachable_wire config n w :
  reachable parse config n w -> (n < U64_SIZE)%N -> wire_inv w.
Proof.
  induction 1 as [|n w l w' Hr IH Hx]; intros Hb.
  - intros c. simpl. unfold wire_of. simpl. by rewrite !lookup_empty.
  - eapply (wire_inv_exec n w l w'); [|apply IH; lia|done].
    apply (reachable_structural parse config); [done | lia].
Qed.

End safety.
