(* ===== verification/Calls.v ===== *)
(** The calls of the broker process: request ids, pending tables and
    replies, in every reachable world.  From these invariants: a reply reaches
    the one call whose request it answers and comes from the service that was
    called; the sender of a waiting call is never dropped; how calls end. *)

From stdpp Require Import prelude gmap strings.
From S2P Require Import Prelude Frame Runtime Registry Broker Session System Invariant Steps History.

Section calls.
Context {Q : Type} `{LawfulMpsc Q BusFrame}.
Context (parse : bytes -> result CapabilityResponse string).
Implicit Types w : World Q.

(** The handle a call holds, what it waits for, and whether it has still to
    register itself in a pending table. *)
Definition pc_handle (pc : CallPc) : option SessionHandle :=
  match pc with
  | CRegister _ h | CSend _ h _ | CAwaitRemote h _ => Some h
  | _ => None
  end.
Definition pc_wait (pc : CallPc) : option (SessionHandle * N) :=
  match pc with
  | CSend _ h rid | CAwaitRemote h rid => Some (h, rid)
  | _ => None
  end.
Definition pc_before (pc : CallPc) : bool :=
  match pc with
  | CStart | CRegistry | CSession _ | CRegister _ _ => true
  | _ => false
  end.

(** The tables of the connection exist. *)
Definition attached (pc : SessionPc) : bool :=
  match pc with SRunning _ _ | SDetached _ _ | SClosed (Some _) => true | _ => false end.

(** A handle names the tables of one connection, of the called service. *)
Definition handle_ok w (a : CallArgs) (hd : SessionHandle) : Prop :=
  exists c pc hello g,
    hd = {| SessionHandle.pending_out := c; SessionHandle.next_req_id := c |}
    /\ conns w !! c = Some pc /\ registration pc = Some (hello, g) /\ attached pc = true
    /\ hello.(HelloRequest.service) = a.(CallArgs.service)
    /\ is_Some (req_counters (heap w) !! c).

(** The number has been drawn from the counter of the connection. *)
Definition drawn w (c : conn_id) (rid : N) : Prop :=
  (exists pc, conns w !! c = Some pc /\ attached pc = true)
  /\ exists k, req_counters (heap w) !! c = Some k /\ (rid < k)%N.

Record calls_ok (n : N) w : Prop := {
  co_handle id o a pc hd : tasks w !! id = Some (TCall o a pc) -> pc_handle pc = Some hd ->
    handle_ok w a hd;
  co_counter c k : req_counters (heap w) !! c = Some k -> (1 <= k <= n + 1)%N;
  co_running c hello g : conns w !! c = Some (SRunning hello g) ->
    is_Some (req_counters (heap w) !! c);
  co_pending c rid id : pending_of (heap w) c !! rid = Some id ->
    (id < next_id w)%N
    /\ (exists k, req_counters (heap w) !! c = Some k /\ (rid < k)%N)
    /\ (forall o a pc, tasks w !! id = Some (TCall o a pc) -> pc_before pc = false
          /\ forall hd rid', pc_wait pc = Some (hd, rid') ->
               hd.(SessionHandle.pending_out) = c /\ rid' = rid);
  co_wait id o a pc hd rid : tasks w !! id = Some (TCall o a pc) -> pc_wait pc = Some (hd, rid) ->
    (replies (heap w) !! id = None ->
       pending_of (heap w) hd.(SessionHandle.pending_out) !! rid = Some id)
    /\ (forall resp, replies (heap w) !! id = Some resp -> resp.(Response.req_id) = rid
          /\ BusFrame.Response resp ∈ inbox_of w hd.(SessionHandle.pending_out))
    /\ exists k, req_counters (heap w) !! hd.(SessionHandle.pending_out) = Some k /\ (rid < k)%N;
  co_unique id1 id2 o1 o2 a1 a2 pc1 pc2 hd1 hd2 rid :
    tasks w !! id1 = Some (TCall o1 a1 pc1) -> tasks w !! id2 = Some (TCall o2 a2 pc2) ->
    pc_wait pc1 = Some (hd1, rid) -> pc_wait pc2 = Some (hd2, rid) ->
    hd1.(SessionHandle.pending_out) = hd2.(SessionHandle.pending_out) -> id1 = id2;
  co_reply id resp : replies (heap w) !! id = Some resp -> (id < next_id w)%N
    /\ forall o a pc, tasks w !! id = Some (TCall o a pc) -> pc_before pc = false
}.

(** ** Steps that leave the tables alone *)

(** How a task may change without touching a table. *)
Definition quiet_task w w' (id : call_id) (t : Task) : Prop :=
  tasks w !! id = Some t
  \/ (id = next_id w /\ forall o a pc, t = TCall o a pc -> pc = CStart)
  \/ exists o a pc, tasks w !! id = Some (TCall o a pc)
       /\ forall o' a' pc', t = TCall o' a' pc' -> a' = a
          /\ ((pc_before pc = true /\ pc_before pc' = true /\ pc_wait pc' = None
               /\ forall hd, pc_handle pc' = Some hd -> handle_ok w' a hd)
              \/ (pc_wait pc' = pc_wait pc /\ pc_handle pc' = pc_handle pc
                  /\ pc_before pc' = pc_before pc)
              \/ (pc_wait pc' = None /\ pc_handle pc' = None /\ pc_before pc' = false)).

Definition handles_grow w w' : Prop := forall a hd, handle_ok w a hd -> handle_ok w' a hd.

(** A request id of [c] is in use. *)
Definition used w (c : conn_id) (rid : N) : Prop :=
  is_Some (pending_of (heap w) c !! rid)
  \/ exists id o a pc hd, tasks w !! id = Some (TCall o a pc) /\ pc_wait pc = Some (hd, rid)
       /\ hd.(SessionHandle.pending_out) = c.

(** The five ways a step touches a pending table, a counter or a reply. *)
Inductive tables_from w (l : Label) (h : Heap Q) : Prop :=
| tables_same : (forall c, l <> LAttach c) ->
    (forall id o a e hd, l = LStep id -> tasks w !! id <> Some (TCall o a (CRegister e hd))) ->
    pendings h = pendings (heap w) -> req_counters h = req_counters (heap w) ->
    replies h = replies (heap w) -> tables_from w l h
| tables_attach c hello g : l = LAttach c -> conns w !! c = Some (SAttach hello g) ->
    pendings h = <[c := ∅]> (pendings (heap w)) ->
    req_counters h = <[c := 1%N]> (req_counters (heap w)) ->
    replies h = replies (heap w) -> tables_from w l h
| tables_wake c hello g resp : l = LFrame c (BusFrame.Response resp) ->
    conns w !! c = Some (SRunning hello g) -> h = wake (heap w) c resp -> tables_from w l h
| tables_register id o a e hd : l = LStep id ->
    tasks w !! id = Some (TCall o a (CRegister e hd)) ->
    h = (call_register (heap w) id e hd).1 -> tables_from w l h
| tables_timer id o a hd rid : l = LTimer id ->
    tasks w !! id = Some (TCall o a (CAwaitRemote hd rid)) ->
    h = (call_timeout (heap w) a hd rid).1 -> tables_from w l h.

(** A waiting task of the new world waited in the old one. *)
Lemma quiet_wait w w' id o a pc x :
  quiet_task w w' id (TCall o a pc) -> pc_wait pc = Some x ->
  exists o1 pc1, tasks w !! id = Some (TCall o1 a pc1) /\ pc_wait pc1 = Some x.
Proof.
  intros [Hs|[[_ Hs]|(o1 & a1 & pc1 & Hs & Hx)]] Hw; [eauto|by rewrite (Hs _ _ _ eq_refl) in Hw|].
  destruct (Hx _ _ _ eq_refl) as [-> [(_ & _ & Hw' & _)|[(Hw' & _ & _)|(Hw' & _ & _)]]];
    [congruence| |congruence]. rewrite Hw' in Hw. eauto.
Qed.

(** A task past its registration was so, or is, in the old world. *)
Lemma quiet_before w w' id o a pc :
  quiet_task w w' id (TCall o a pc) -> (id < next_id w)%N ->
  (forall o a pc, tasks w !! id = Some (TCall o a pc) -> pc_before pc = false) ->
  pc_before pc = false.
Proof.
  intros [Hs|[[-> _]|(o1 & a1 & pc1 & Hs & Hx)]] Hid Hb; [by eapply Hb|lia|].
  pose proof (Hb _ _ _ Hs) as Hb1.
  destruct (Hx _ _ _ eq_refl) as [_ [(Hb' & _)|[(_ & _ & Hb')|(_ & _ & Hb')]]]; congruence.
Qed.

(** Steps that register no call: entries may go, replies may come. *)
Lemma calls_ok_gen n w w' :
  calls_ok n w -> handles_grow w w' -> (next_id w <= next_id w')%N ->
  (forall id t, tasks w' !! id = Some t -> quiet_task w w' id t) ->
  (forall c k, req_counters (heap w') !! c = Some k -> (1 <= k <= n + 2)%N) ->
  (forall c hello g, conns w' !! c = Some (SRunning hello g) -> is_Some (req_counters (heap w') !! c)) ->
  (forall c rid, used w' c rid -> req_counters (heap w') !! c = req_counters (heap w) !! c) ->
  (forall c rid id, pending_of (heap w') c !! rid = Some id -> pending_of (heap w) c !! rid = Some id) ->
  (forall c f, f ∈ inbox_of w c -> f ∈ inbox_of w' c) ->
  (forall id resp, replies (heap w') !! id = Some resp -> replies (heap w) !! id = Some resp
     \/ exists c, pending_of (heap w) c !! resp.(Response.req_id) = Some id
          /\ BusFrame.Response resp ∈ inbox_of w' c) ->
  (forall id o a pc hd rid, tasks w' !! id = Some (TCall o a pc) -> pc_wait pc = Some (hd, rid) ->
     replies (heap w') !! id = None -> replies (heap w) !! id = None /\
     (pending_of (heap w) hd.(SessionHandle.pending_out) !! rid = Some id ->
      pending_of (heap w') hd.(SessionHandle.pending_out) !! rid = Some id)) ->
  calls_ok (n + 1) w'.
Proof.
  intros [Ch Cc Cr Cp Cw Cu Cy] Hg Hid Ht Hk Hrun Hused Hp Hi Hr Hpw.
  assert (Hwait : forall id o a pc x, tasks w' !! id = Some (TCall o a pc) -> pc_wait pc = Some x ->
    exists o1 pc1, tasks w !! id = Some (TCall o1 a pc1) /\ pc_wait pc1 = Some x)
    by (intros id o a pc x Hidt%Ht; exact (quiet_wait _ _ _ _ _ _ _ Hidt)).
  split; [|intros c k Hck; apply Hk in Hck; lia|done|..].
  - intros id o a pc hd Hidt Hpc. destruct (Ht _ _ Hidt) as [Hs|[[_ Hs]|(o1 & a1 & pc1 & Hs & Hx)]].
    + apply Hg. by eapply Ch.
    + by rewrite (Hs _ _ _ eq_refl) in Hpc.
    + destruct (Hx _ _ _ eq_refl) as [-> [(_ & _ & _ & Hh)|[(_ & Hh & _)|(_ & Hh & _)]]];
        [auto | | congruence]. apply Hg. rewrite Hh in Hpc. by eapply Ch.
  - intros c rid id Hin. destruct (Cp c rid id (Hp _ _ _ Hin)) as (Hz1 & Hz2 & Hz3).
    split_and!; [lia | rewrite (Hused c rid) by (left; eauto); done|].
    intros o a pc Hidt. split.
    + eapply quiet_before; [by apply Ht|done|]. intros *. by apply Hz3.
    + intros hd rid' Hw. destruct (Hwait _ _ _ _ _ Hidt Hw) as (o1 & pc1 & Hs & Hw1). by eapply Hz3.
  - intros id o a pc hd rid Hidt Hw.
    destruct (Hwait _ _ _ _ _ Hidt Hw) as (o1 & pc1 & Hs & Hw1).
    destruct (Cw _ _ _ _ _ _ Hs Hw1) as (Hz1 & Hz2 & Hz3). split_and!.
    + intros Hn. destruct (Hpw _ _ _ _ _ _ Hidt Hw Hn). auto.
    + intros resp Hresp. destruct (Hr _ _ Hresp) as [Ho|(c & Hpc & Hinb)].
      * destruct (Hz2 resp Ho). auto.
      * destruct (Cp _ _ _ Hpc) as (_ & _ & Hz4). destruct (Hz4 _ _ _ Hs) as [_ Hz5].
        destruct (Hz5 _ _ Hw1) as [-> ->]. auto.
    + rewrite (Hused _ rid) by (right; eauto 10). done.
  - intros id1 id2 o1 o2 a1 a2 pc1 pc2 hd1 hd2 rid H1 H2 Hw1 Hw2 Heq.
    destruct (Hwait _ _ _ _ _ H1 Hw1) as (o1' & pc1' & Hs1 & Hw1').
    destruct (Hwait _ _ _ _ _ H2 Hw2) as (o2' & pc2' & Hs2 & Hw2').
    exact (Cu _ _ _ _ _ _ _ _ _ _ _ Hs1 Hs2 Hw1' Hw2' Heq).
  - intros id resp Hresp.
    assert (Hz : (id < next_id w)%N /\ forall o a pc, tasks w !! id = Some (TCall o a pc) -> pc_before pc = false).
    { destruct (Hr _ _ Hresp) as [Ho|(c & Hpc & _)]; [by apply (Cy id resp)|].
      destruct (Cp _ _ _ Hpc) as (? & _ & Hz). split; [done|]. intros *. by apply Hz. }
    split; [lia|]. intros o a pc Hidt. eapply quiet_before; [by apply Ht|apply Hz..].
Qed.

(** ** What a step does to the tables *)

Lemma tables_same_of w l h :
  (forall c, l <> LAttach c) ->
  (forall id o a e hd, l = LStep id -> tasks w !! id <> Some (TCall o a (CRegister e hd))) ->
  same_tables (heap w) h -> tables_from w l h.
Proof. intros ?? []. by apply tables_same. Qed.

Local Ltac same := apply tables_same; intros; solve [reflexivity | congruence].
Local Ltac same_of := apply tables_same_of; [congruence | congruence |].

Lemma exec_tables w l w' :
  exec parse w l = Some w' -> tables_from w l (heap w').
Proof.
  unfold exec. intros Hx. destruct (exec_conn w l) as [w1|] eqn:Hx1.
  { simplify_eq. destruct l as [|c0 read wr|c0 wr|c0|c0 f|c0|c0|c0 wr|c0| | | | | | | | | | |];
      try done; [..|apply exec_session in Hx1; destruct Hx1 as [hl Hc|hl i Hc|hl g i Hc|
        hl g pc job b h t job' _ _ _ _ Hsj]; [same..|]];
      [..|replace (heap _) with h by (by destruct t); same_of;
          by destruct (serve_job_frame _ _ _ _ _ _ _ _ _ Hsj) as (_ & _ & _ & _ & _ & _ & _ & ? & _)];
      simpl in Hx1; [|destruct (conns w !! c0) as [[]|] eqn:Hc; try done..].
    - injection Hx1 as <-. same.
    - destruct (serve_hello _ _) as [[b out] pc0] eqn:Hsh. injection Hx1 as <-.
      destruct read as [[]|], out, wr; same.
    - destruct wr; simpl in Hx1; injection Hx1 as <-; same.
    - injection Hx1 as <-. by eapply tables_attach.
    - destruct (busy w !! c0); [done|].
      destruct (serve_frame _ _ _ _ _) as [[[b h] t0] job] eqn:Hsf. injection Hx1 as <-.
      replace (heap _) with h by by destruct t0.
      destruct (serve_frame_cases _ _ _ _ _ _ _ _ _ Hsf)
        as (_ & _ & _ & _ & _ & _ & _ & [->|(resp & -> & ->)] & _); [same|by eapply tables_wake].
    - destruct (busy w !! c0); [done|]. injection Hx1 as <-. same.
    - destruct (busy w !! c0); [done|]. injection Hx1 as <-. same.
    - destruct (channels (heap w) !! c0) as [q0|]; simpl in Hx1; [|done].
      destruct (mpsc_recv q0) as [[f q1]|]; [|done]. injection Hx1 as <-. by destruct wr; apply tables_same.
    - destruct (channels (heap w) !! c0) as [q0|]; simpl in Hx1; [|done].
      destruct (mpsc_recv q0) as [[f q1]|]; [|done]. injection Hx1 as <-. by destruct wr; apply tables_same.
    - destruct (channels (heap w) !! c0) as [q0|]; simpl in Hx1; [|done].
      destruct (mpsc_recv q0) as [[f q1]|]; [|done]. injection Hx1 as <-. by destruct wr; apply tables_same. }
  destruct (exec_task parse w l) as [w1|] eqn:Hx2.
  { simplify_eq. destruct l as [| | | | | | | | | |i|i r|i|i|i|i|i| | |]; try done; simpl in Hx2;
      destruct (tasks w !! i) as [[o a pc0|c0 resp|svc cr|svc hd|tx]|] eqn:Ht; try done.
    - destruct (call_step _ _ _ _ _) as [[h pc']|] eqn:Hst; [|done]. injection Hx2 as <-. simpl.
      destruct pc0; simpl in Hst; try done; try (simplify_eq; same).
      + injection Hst as <- <-. by eapply tables_register.
      + unfold call_send in Hst. destruct (chan_send _ _ _) as [h1|] eqn:Hsend; simplify_eq.
        * same_of. by destruct (chan_send_Some _ _ _ _ Hsend) as (_ & ? & _).
        * same.
    - destruct pc0; try done. injection Hx2 as <-. same.
    - destruct pc0; try done. destruct (replies _ !! i); [|done]. injection Hx2 as <-. same.
    - destruct pc0; try done. destruct (sender_dropped _ _ _ _); [|done]. injection Hx2 as <-.
      same.
    - destruct (bool_decide _); [done|]. destruct pc0; try done; injection Hx2 as <-;
        [same | by eapply tables_timer].
    - destruct pc0; try done. injection Hx2 as <-. destruct o; simpl; repeat case_match; same.
    - injection Hx2 as <-. same_of. apply chan_send_spec.
    - injection Hx2 as <-. same.
    - injection Hx2 as <-. same.
    - injection Hx2 as <-. same_of. simpl. unfold shutdown_send.
      destruct (chan_send _ _ _) as [h'|] eqn:Hsend; [|done].
      by destruct (chan_send_Some _ _ _ _ Hsend) as (_ & ? & _).
    - destruct o; try done. destruct (droppable pc0); [|done]. injection Hx2 as <-. same. }
  destruct l; try done; simpl in Hx; injection Hx as <-; try (same).
  destruct (shutdown_target _ _); same.
Qed.

(** ** Preservation *)

Lemma handles_grow_exec n w l w' :
  structural n w -> exec parse w l = Some w' ->
  (forall c, is_Some (req_counters (heap w) !! c) -> is_Some (req_counters (heap w') !! c)) ->
  handles_grow w w'.
Proof.
  intros Hst Hx Hk a hd (c & pc & hello & g & -> & Hc & Hr & Ha & Hs & Hi).
  destruct (exec_conns_upd parse w l w' Hx) as [Heq|(c0 & pc0 & Heq & Hf)].
  { exists c, pc, hello, g. rewrite Heq. auto 10. }
  destruct (decide (c0 = c)) as [->|Hne].
  - exists c, pc0, hello, g. rewrite Heq, lookup_insert_eq.
    destruct Hf; simplify_eq/=; auto 10. apply (str_conn_ids n w Hst) in Hc. lia.
  - exists c, pc, hello, g. rewrite Heq, lookup_insert_ne by done. auto 10.
Qed.

(** Steps of tasks, the registration in a pending table apart. *)
Lemma task_from_quiet n w l w' id t :
  structural n w -> calls_ok n w -> handles_grow w w' -> task_from parse w l id t ->
  (forall o a e hd, l = LStep id -> tasks w !! id <> Some (TCall o a (CRegister e hd))) ->
  quiet_task w w' id t.
Proof.
  intros Hst Hok Hg Hf Hnr. destruct Hf as [t Ht|a _ ->|c hello g _ _ _ ->|c hello g inv _ _ ->
    |o a pc h pc' Hl Ht Hs|o a hd r _ Ht|o a hd rid resp _ Ht _|o a hd rid _ Ht _
    |o a pc _ Ht _ Hpc|o a r t _ Ht Hc|svc ms hd _ ->|svc e _ _ ->]; unfold quiet_task; [eauto|..].
  - right. left. split; [done|]. by intros ??? [= <- <- <-].
  - right. left. split; [done|]. by intros ??? [= <- <- <-].
  - right. left. split; [done|]. intros o a pc. unfold route_invoke. case_match; [case_match|]; congruence.
  - right. right. do 3 eexists. split; [exact Ht|]. intros o' a' p' [= <- <- <-]. split; [done|].
    destruct pc as [|hd| |e|e hd|e hd rid| | |]; simpl in Hs; simplify_eq.
    + unfold call_local. repeat case_match; simpl; auto 10; left; by split_and!.
    + unfold call_catalog. repeat case_match; simpl; auto 10.
    + unfold call_registry. repeat case_match; simpl; auto 10; left; by split_and!.
    + unfold call_session. destruct (Broker.sessions (broker w) !! _) as [hd|] eqn:Hse; simpl; auto 10.
      left. split_and!; [done..|]. intros hd' [= <-]. apply Hg.
      destruct (str_session n w Hst _ _ _ Hse) as (c & hello & Hc & Hsv & ->).
      exists c, (SRunning hello (ServiceEntry.generation e)), hello, (ServiceEntry.generation e).
      split_and!; try done. by eapply co_running.
    + exfalso. by eapply Hnr.
    + unfold call_send in Hs. destruct (chan_send _ _ _); simplify_eq; simpl; auto 10.
  - right. right. do 3 eexists. split; [exact Ht|]. intros o' a' p' [= <- <- <-]. simpl. auto 10.
  - right. right. do 3 eexists. split; [exact Ht|]. intros o' a' p' [= <- <- <-]. simpl. auto 10.
  - right. right. do 3 eexists. split; [exact Ht|]. intros o' a' p' [= <- <- <-]. simpl. auto 10.
  - right. right. do 3 eexists. split; [exact Ht|]. intros o' a' p' [= <- <- <-]. simpl. auto 10.
  - right. right. do 3 eexists. split; [exact Ht|]. intros o' a' p' ->.
    destruct o; simpl in Hc; repeat case_match; simplify_eq.
  - right. left. by split.
  - right. left. by split.
Qed.

(** Who waits after a step waited before it, or has just drawn its number. *)
Lemma wait_from w l w' id o a pc hd rid :
  exec parse w l = Some w' -> tasks w' !! id = Some (TCall o a pc) -> pc_wait pc = Some (hd, rid) ->
  (exists pc0, tasks w !! id = Some (TCall o a pc0) /\ pc_wait pc0 = Some (hd, rid))
  \/ (l = LStep id /\ (exists e, pc = CSend e hd rid /\ tasks w !! id = Some (TCall o a (CRegister e hd)))
      /\ rid = default 1%N (req_counters (heap w) !! hd.(SessionHandle.next_req_id))).
Proof.
  intros Hx Ht Hw. pose proof (exec_tasks parse w l w' id _ Hx Ht) as Hf.
  inversion Hf as [t Hs|a' Hl Hi|c hello g Hl Hc Hj Hi|c hello g inv Hl Hc Hi Hr|o' a' pc0 h pc' Hl Hs Hst
    |o' a' hd' r Hl Hs|o' a' hd' rid' resp Hl Hs Hrep|o' a' hd' rid' Hl Hs Hd|o' a' pc0 Hl Hs Hz Hpc
    |o' a' r t Hl Hs Hc|svc ms hd' Hl Hi|svc e Hl He Hi]; subst; simpl in Hw; try done.
  - eauto.
  - unfold route_invoke in Hr. case_match; [case_match|]; simplify_eq; done.
  - destruct pc0 as [|hd0| |e|e hd0|e hd0 k| | |]; simpl in Hst; simplify_eq.
    + unfold call_local in Hw. by repeat case_match.
    + unfold call_catalog in Hw. by repeat case_match.
    + unfold call_registry in Hw. by repeat case_match.
    + unfold call_session in Hw. by repeat case_match.
    + unfold call_register in Hst. simplify_eq/=. right. split_and!; eauto.
    + unfold call_send in Hst. destruct (chan_send _ _ _); simplify_eq; simpl in Hw; simplify_eq.
      left. eauto.
  - destruct o'; simpl in Hc; repeat case_match; simplify_eq.
Qed.

(** The connection that starts running is the one whose tables are created. *)
Lemma exec_running w l w' c hello g :
  exec parse w l = Some w' -> conns w' !! c = Some (SRunning hello g) ->
  l = LAttach c \/ conns w !! c = Some (SRunning hello g).
Proof.
  intros Hx Hc. pose proof (exec_conns _ _ _ _ _ _ Hx Hc) as Hf. inversion Hf; subst; auto.
Qed.

Section one_step.
Context n w l w' (Hst : structural n w) (Hok : calls_ok n w) (Hx : exec parse w l = Some w').

(** What drawing the request id [k] on the connection [c] changes. *)
Record draws (id : call_id) o a e (c : conn_id) (k : N) : Prop := {
  dr_tasks : tasks w' = <[id := TCall o a (CSend e {| SessionHandle.pending_out := c; SessionHandle.next_req_id := c |} k)]> (tasks w);
  dr_counters : req_counters (heap w') = <[c := (k + 1)%N]> (req_counters (heap w));
  dr_replies : replies (heap w') = replies (heap w);
  dr_conns : conns w' = conns w;
  dr_inbox : inbox w' = inbox w;
  dr_next : next_id w' = next_id w;
  dr_pending c' : pending_of (heap w') c'
    = if decide (c' = c) then <[k := id]> (pending_of (heap w) c) else pending_of (heap w) c'
}.

Lemma exec_quiet :
  (forall c, is_Some (req_counters (heap w) !! c) -> is_Some (req_counters (heap w') !! c)) ->
  (forall id o a e hd, l = LStep id -> tasks w !! id <> Some (TCall o a (CRegister e hd))) ->
  handles_grow w w' /\ forall id t, tasks w' !! id = Some t -> quiet_task w w' id t.
Proof.
  intros Hk Hnr. assert (Hg : handles_grow w w') by by eapply handles_grow_exec.
  split; [done|]. intros id t Ht. eapply task_from_quiet; [done..| |by intros *; apply Hnr].
  by eapply exec_tasks.
Qed.

Lemma calls_ok_same :
  (forall c, l <> LAttach c) ->
  (forall id o a e hd, l = LStep id -> tasks w !! id <> Some (TCall o a (CRegister e hd))) ->
  pendings (heap w') = pendings (heap w) -> req_counters (heap w') = req_counters (heap w) ->
  replies (heap w') = replies (heap w) -> calls_ok (n + 1) w'.
Proof.
  intros Hna Hnr Hp Hc Hr. destruct (exec_inbox parse w l w' Hx) as (Hid & Hin & _).
  destruct exec_quiet as [Hg Hq]; [by rewrite Hc|done|].
  assert (Hpo : forall c, pending_of (heap w') c = pending_of (heap w) c)
    by (intros c; unfold pending_of; by rewrite Hp).
  apply (calls_ok_gen n w w'); try done.
  - intros c k Hk. rewrite Hc in Hk. apply (co_counter n w Hok) in Hk. lia.
  - intros c hello g Hc1. rewrite Hc.
    destruct (exec_running _ _ _ _ _ _ Hx Hc1) as [->|Hc2]; [by edestruct Hna|by eapply co_running].
  - intros *. by rewrite Hc.
  - intros *. by rewrite Hpo.
  - intros *. rewrite Hr. auto.
  - intros *. rewrite Hr, Hpo. auto.
Qed.

(** The tables of [c] are created: no handle names them yet. *)
Lemma calls_ok_attach c hello g :
  l = LAttach c -> conns w !! c = Some (SAttach hello g) ->
  pendings (heap w') = <[c := ∅]> (pendings (heap w)) ->
  req_counters (heap w') = <[c := 1%N]> (req_counters (heap w)) ->
  replies (heap w') = replies (heap w) -> calls_ok (n + 1) w'.
Proof.
  intros Hl Hc Hp Hk Hr. destruct (exec_inbox parse w l w' Hx) as (Hid & Hin & _).
  destruct exec_quiet as [Hg Hq]; [|congruence|].
  { intros c'. rewrite Hk. destruct (decide (c' = c)) as [->|Hne];
      [rewrite lookup_insert_eq; eauto | by rewrite lookup_insert_ne]. }
  assert (Hpo : forall c', pending_of (heap w') c' = if decide (c' = c) then ∅ else pending_of (heap w) c').
  { intros c'. unfold pending_of. rewrite Hp. case_decide as Hd;
      [subst c'; by rewrite lookup_insert_eq | by rewrite lookup_insert_ne]. }
  assert (Hne : forall id o a pc hd rid, tasks w' !! id = Some (TCall o a pc) ->
      pc_wait pc = Some (hd, rid) -> hd.(SessionHandle.pending_out) <> c).
  { intros id o a pc hd rid Ht%Hq Hw.
    destruct (quiet_wait _ _ _ _ _ _ _ Ht Hw) as (o1 & pc1 & Hs & Hw1).
    destruct (co_handle n w Hok _ _ _ _ hd Hs) as (c' & pc' & h' & g' & -> & Hc' & _ & Ha & _);
      [by destruct pc1; simplify_eq/= | ]. intros Heq. simpl in Heq. subst c'. by simplify_eq. }
  apply (calls_ok_gen n w w'); try done.
  - intros c' k Hck. rewrite Hk in Hck. apply lookup_insert_Some in Hck as [[_ <-]|[_ Hck]]; [lia|].
    apply (co_counter n w Hok) in Hck. lia.
  - intros c' h' g' Hc1. rewrite Hk. destruct (decide (c' = c)) as [->|Hcc];
      [rewrite lookup_insert_eq; eauto | rewrite lookup_insert_ne by done].
    destruct (exec_running _ _ _ _ _ _ Hx Hc1) as [Heq|Hc2]; [congruence|by eapply co_running].
  - intros c' rid Hu. rewrite Hk, lookup_insert_ne; [done|]. intros <-. destruct Hu as [Hu|Hu].
    + rewrite Hpo, decide_True in Hu by done. rewrite lookup_empty in Hu. by destruct Hu.
    + destruct Hu as (id & o & a & pc & hd & Ht & Hw & Heq). by eapply Hne.
  - intros c' rid id Hpc. rewrite Hpo in Hpc. by case_decide; [rewrite lookup_empty in Hpc|].
  - intros *. rewrite Hr. auto.
  - intros id o a pc hd rid Ht Hw. rewrite Hr, Hpo, decide_False by by eapply Hne. auto.
Qed.

Lemma calls_ok_wake c hello g resp :
  l = LFrame c (BusFrame.Response resp) -> conns w !! c = Some (SRunning hello g) ->
  heap w' = wake (heap w) c resp -> calls_ok (n + 1) w'.
Proof.
  intros Hl Hc Hh. destruct (exec_inbox parse w l w' Hx) as (Hid & Hin & Hlog).
  assert (Hk : req_counters (heap w') = req_counters (heap w))
    by (rewrite Hh; unfold wake; by case_match).
  destruct exec_quiet as [Hg Hq]; [by rewrite Hk|congruence|].
  assert (Hr : forall id resp', replies (heap w') !! id = Some resp' ->
      replies (heap w) !! id = Some resp'
      \/ (resp' = resp /\ pending_of (heap w) c !! resp.(Response.req_id) = Some id)).
  { intros id resp'. rewrite Hh. unfold wake. destruct (pending_of _ c !! _) as [i|] eqn:Hi; [|auto].
    simpl. intros [[<- <-]|[_ ?]]%lookup_insert_Some; auto. }
  assert (Hp : forall c' rid id, pending_of (heap w') c' !! rid = Some id <->
      pending_of (heap w) c' !! rid = Some id /\ (c', rid) <> (c, resp.(Response.req_id))).
  { intros c' rid id. rewrite Hh. unfold wake. destruct (pending_of _ c !! _) as [i|] eqn:Hi.
    - change (pending_of (set_replies ?r ?h0)) with (pending_of h0). rewrite pending_of_set.
      case_decide as Hd; [subst c'; rewrite lookup_delete_Some|]; naive_solver.
    - split; [|naive_solver]. intros Hs. split; [done|]. congruence. }
  apply (calls_ok_gen n w w'); try done.
  - intros c' k Hck. rewrite Hk in Hck. apply (co_counter n w Hok) in Hck. lia.
  - intros c' h' g' Hc1. rewrite Hk.
    destruct (exec_running _ _ _ _ _ _ Hx Hc1) as [Heq|Hc2]; [congruence|by eapply co_running].
  - intros *. by rewrite Hk.
  - intros c' rid id [? _]%Hp. done.
  - intros id resp' [?|[-> ?]]%Hr; [auto|]. right. exists c. auto.
  - intros id o a pc hd rid Ht Hw Hn. split.
    + destruct (replies (heap w) !! id) eqn:Ho; [|done]. rewrite Hh in Hn. unfold wake in Hn.
      destruct (pending_of _ c !! _) as [i|]; simpl in Hn; [|congruence].
      apply lookup_insert_None in Hn as [? _]. congruence.
    + intros Hpi. apply Hp. split; [done|]. intros [= Hc1 Hc2]. rewrite Hc1, Hc2 in Hpi.
      rewrite Hh in Hn. unfold wake in Hn. rewrite Hpi in Hn. simpl in Hn.
      by rewrite lookup_insert_eq in Hn.
Qed.

Lemma calls_ok_timer id o a hd rid :
  l = LTimer id -> tasks w !! id = Some (TCall o a (CAwaitRemote hd rid)) ->
  heap w' = (call_timeout (heap w) a hd rid).1 -> calls_ok (n + 1) w'.
Proof.
  intros Hl Ht Hh. destruct (exec_inbox parse w l w' Hx) as (Hid & Hin & _).
  assert (Hk : req_counters (heap w') = req_counters (heap w)) by by rewrite Hh.
  assert (Hr : replies (heap w') = replies (heap w)) by by rewrite Hh.
  destruct exec_quiet as [Hg Hq]; [by rewrite Hk|congruence|].
  assert (Hp : forall c' rid' id', pending_of (heap w') c' !! rid' = Some id' <->
      pending_of (heap w) c' !! rid' = Some id' /\ (c', rid') <> (hd.(SessionHandle.pending_out), rid)).
  { intros c' rid' id'. rewrite Hh. unfold call_timeout. cbn [fst]. rewrite pending_of_set.
    case_decide as Hd; [subst c'; rewrite lookup_delete_Some|]; naive_solver. }
  apply (calls_ok_gen n w w'); try done.
  - intros c' k Hck. rewrite Hk in Hck. apply (co_counter n w Hok) in Hck. lia.
  - intros c' h' g' Hc1. rewrite Hk.
    destruct (exec_running _ _ _ _ _ _ Hx Hc1) as [Heq|Hc2]; [congruence|by eapply co_running].
  - intros *. by rewrite Hk.
  - intros c' rid' id' [? _]%Hp. done.
  - intros *. rewrite Hr. auto.
  - intros id' o' a' pc' hd' rid' Ht' Hw' Hn. rewrite Hr in Hn. split; [done|]. intros Hpi.
    apply Hp. split; [done|]. intros [= Hc1 Hc2]. subst rid'.
    destruct (quiet_wait _ _ _ _ _ _ _ (Hq _ _ Ht') Hw') as (o1 & pc1 & Hs & Hw1).
    assert (id' = id) as -> by exact (co_unique n w Hok _ _ _ _ _ _ _ _ _ _ _ Hs Ht Hw1 eq_refl Hc1).
    unfold exec in Hx. rewrite Hl in Hx. simpl in Hx. rewrite Ht in Hx.
    destruct (bool_decide _); [done|]. injection Hx as Hxw. rewrite <-Hxw in Ht'. simpl in Ht'.
    rewrite lookup_insert_eq in Ht'. by simplify_eq.
Qed.

Lemma register_draws id o a e hd :
  l = LStep id -> tasks w !! id = Some (TCall o a (CRegister e hd)) -> (n + 2 < U64_SIZE)%N ->
  exists c k, hd = {| SessionHandle.pending_out := c; SessionHandle.next_req_id := c |}
    /\ req_counters (heap w) !! c = Some k /\ (k <= n + 1)%N /\ draws id o a e c k.
Proof.
  intros Hl Ht Hb. unfold exec in Hx. rewrite Hl in Hx. simpl in Hx. rewrite Ht in Hx. simpl in Hx.
  destruct (co_handle n w Hok _ _ _ _ _ Ht eq_refl) as (c & pc & hello & g & -> & Hz & _ & _ & _ & [k Hk]).
  pose proof (co_counter n w Hok _ _ Hk) as Hkn. simpl in Hx. rewrite Hk in Hx. simpl in Hx.
  rewrite as_u64_small in Hx by lia. injection Hx as Hw.
  exists c, k. split; [done|]. split; [done|]. split; [lia|]. split; rewrite <-Hw; try done.
  intros c'. simpl heap. by rewrite pending_of_set.
Qed.

Section draw.
Context id o a e c k (Ht : tasks w !! id = Some (TCall o a (CRegister e {| SessionHandle.pending_out := c; SessionHandle.next_req_id := c |})))
  (Hk : req_counters (heap w) !! c = Some k) (Hd : draws id o a e c k).

Lemma draw_task id' o' a' pc' :
  tasks w' !! id' = Some (TCall o' a' pc') ->
  (id' = id /\ a' = a /\ pc' = CSend e {| SessionHandle.pending_out := c; SessionHandle.next_req_id := c |} k)
  \/ (id' <> id /\ tasks w !! id' = Some (TCall o' a' pc')).
Proof. rewrite (dr_tasks _ _ _ _ _ _ Hd), lookup_insert_Some. naive_solver. Qed.

(** The numbers in use are below the one drawn. *)
Lemma draw_below id' o' a' pc' hd' rid' :
  tasks w !! id' = Some (TCall o' a' pc') -> pc_wait pc' = Some (hd', rid') ->
  hd'.(SessionHandle.pending_out) = c -> (rid' < k)%N.
Proof.
  intros Ht' Hw' Hc'. destruct (co_wait n w Hok _ _ _ _ _ _ Ht' Hw') as (_ & _ & k' & Hk' & ?).
  rewrite Hc' in Hk'. congruence.
Qed.

Lemma draw_handles : handles_grow w w'.
Proof.
  intros a' hd' (c' & pc' & h' & g' & -> & Hc' & ? & ? & ? & Hi). exists c', pc', h', g'.
  rewrite (dr_conns _ _ _ _ _ _ Hd), (dr_counters _ _ _ _ _ _ Hd). split_and!; try done.
  destruct (decide (c' = c)) as [->|]; [rewrite lookup_insert_eq; eauto | by rewrite lookup_insert_ne].
Qed.

Lemma draw_pending c' rid' id' :
  pending_of (heap w') c' !! rid' = Some id' ->
  (id' < next_id w')%N
  /\ (exists k', req_counters (heap w') !! c' = Some k' /\ (rid' < k')%N)
  /\ (forall o' a' pc', tasks w' !! id' = Some (TCall o' a' pc') -> pc_before pc' = false
        /\ forall hd rid2, pc_wait pc' = Some (hd, rid2) ->
             hd.(SessionHandle.pending_out) = c' /\ rid2 = rid').
Proof.
  intros Hin. rewrite (dr_next _ _ _ _ _ _ Hd), (dr_counters _ _ _ _ _ _ Hd). rewrite (dr_pending _ _ _ _ _ _ Hd) in Hin.
  case_decide as Hcc.
  - subst c'. rewrite lookup_insert_eq. apply lookup_insert_Some in Hin as [[<- <-]|[Hne Hin]].
    + split_and!; [by eapply str_task_ids | exists (k + 1)%N; split; [done|lia] |].
      intros o' a' pc' [(_ & -> & ->)|[? _]]%draw_task; [|done]. split; [done|]. by intros ?? [= <- <-].
    + destruct (co_pending n w Hok _ _ _ Hin) as (? & (k' & Hk' & ?) & Hx').
      split_and!; [done | exists (k + 1)%N; split; [done|rewrite Hk in Hk'; simplify_eq; lia] |].
      intros o' a' pc' [(-> & -> & ->)|[_ Ht']]%draw_task; [|by eapply Hx']. by destruct (Hx' _ _ _ Ht).
  - rewrite lookup_insert_ne by done. destruct (co_pending n w Hok _ _ _ Hin) as (? & ? & Hx').
    split_and!; [done|done|]. intros o' a' pc' [(-> & -> & ->)|[_ Ht']]%draw_task; [|by eapply Hx'].
    by destruct (Hx' _ _ _ Ht).
Qed.

Lemma draw_wait id' o' a' pc' hd' rid' :
  tasks w' !! id' = Some (TCall o' a' pc') -> pc_wait pc' = Some (hd', rid') ->
  (replies (heap w') !! id' = None ->
     pending_of (heap w') hd'.(SessionHandle.pending_out) !! rid' = Some id')
  /\ (forall resp, replies (heap w') !! id' = Some resp -> resp.(Response.req_id) = rid'
        /\ BusFrame.Response resp ∈ inbox_of w' hd'.(SessionHandle.pending_out))
  /\ exists k', req_counters (heap w') !! hd'.(SessionHandle.pending_out) = Some k' /\ (rid' < k')%N.
Proof.
  intros Ht' Hw'. rewrite (dr_pending _ _ _ _ _ _ Hd), (dr_replies _ _ _ _ _ _ Hd), (dr_counters _ _ _ _ _ _ Hd).
  unfold inbox_of. rewrite (dr_inbox _ _ _ _ _ _ Hd). apply draw_task in Ht' as [(-> & -> & ->)|[Hne Ht']].
  - simpl in Hw'. injection Hw' as <- <-. simpl. rewrite decide_True by done.
    rewrite !lookup_insert_eq. split_and!; [done| |exists (k + 1)%N; split; [done|lia]].
    intros resp Hresp. destruct (co_reply n w Hok _ _ Hresp) as [_ Hb']. by pose proof (Hb' _ _ _ Ht).
  - destruct (co_wait n w Hok _ _ _ _ _ _ Ht' Hw') as (Hz1 & Hz2 & k' & Hk' & Hkl).
    case_decide as Hcc; [|rewrite lookup_insert_ne by done; eauto].
    pose proof (draw_below _ _ _ _ _ _ Ht' Hw' Hcc). rewrite Hcc in *. split_and!; [|done|].
    + intros Hn. rewrite lookup_insert_ne by lia. auto.
    + exists (k + 1)%N. rewrite lookup_insert_eq. split; [done|lia].
Qed.
End draw.

(** A call draws a request id: none in use reaches it. *)
Lemma calls_ok_register id o a e hd :
  l = LStep id -> tasks w !! id = Some (TCall o a (CRegister e hd)) -> (n + 2 < U64_SIZE)%N ->
  calls_ok (n + 1) w'.
Proof.
  intros Hl Ht Hb. destruct (register_draws id o a e hd Hl Ht Hb) as (c & k & -> & Hk & Hkn & Hd).
  pose proof (draw_task id o a e c k Ht Hd) as Hnew. pose proof (draw_below c k Hk) as Hlt.
  pose proof (draw_handles id o a e c k Hd) as Hgrow.
  split.
  - intros id' o' a' pc' hd' [(-> & -> & ->)|[_ Ht']]%Hnew Hpc; apply Hgrow;
      [simpl in Hpc; simplify_eq|]; by eapply co_handle.
  - intros c' k' Hck. rewrite (dr_counters _ _ _ _ _ _ Hd) in Hck.
    apply lookup_insert_Some in Hck as [[_ <-]|[_ Hck]]; apply (co_counter n w Hok) in Hk; [lia|].
    apply (co_counter n w Hok) in Hck. lia.
  - intros c' h' g' Hc'. rewrite (dr_counters _ _ _ _ _ _ Hd). destruct (decide (c' = c)) as [->|];
      [rewrite lookup_insert_eq; eauto | rewrite lookup_insert_ne by done].
    rewrite (dr_conns _ _ _ _ _ _ Hd) in Hc'. by eapply co_running.
  - intros c' rid' id'. by eapply draw_pending.
  - intros id' o' a' pc' hd' rid'. by eapply draw_wait.
  - intros id1 id2 o1 o2 a1 a2 pc1 pc2 hd1 hd2 rid.
    intros [(-> & -> & ->)|[Hn1 Ht1]]%Hnew [(-> & -> & ->)|[Hn2 Ht2]]%Hnew Hw1 Hw2 Heq; try done.
    + simpl in Hw1. injection Hw1 as <- <-. pose proof (Hlt _ _ _ _ _ _ Ht2 Hw2 (eq_sym Heq)). lia.
    + simpl in Hw2. injection Hw2 as <- <-. pose proof (Hlt _ _ _ _ _ _ Ht1 Hw1 Heq). lia.
    + by eapply (co_unique n w Hok id1 id2).
  - intros id' resp Hresp. rewrite (dr_replies _ _ _ _ _ _ Hd) in Hresp.
    destruct (co_reply n w Hok _ _ Hresp) as [? Hb']. rewrite (dr_next _ _ _ _ _ _ Hd). split; [done|].
    intros o' a' pc' [(-> & -> & ->)|[_ Ht']]%Hnew; [done|]. by eapply Hb'.
Qed.

Lemma calls_ok_exec : (n + 2 < U64_SIZE)%N -> calls_ok (n + 1) w'.
Proof.
  intros Hb. destruct (exec_tables w l w' Hx).
  - by apply calls_ok_same.
  - by eapply calls_ok_attach.
  - by eapply calls_ok_wake.
  - by eapply calls_ok_register.
  - by eapply calls_ok_timer.
Qed.

End one_step.

Lemma calls_ok_init config : calls_ok 0 (init config).
Proof.
  split; simpl; unfold pending_of; simpl; intros *; rewrite ?lookup_empty; simpl;
    rewrite ?lookup_empty; done.
Qed.

Lemma reachable_calls_ok config n w :
  reachable parse config n w -> (n + 1 < U64_SIZE)%N -> calls_ok n w.
Proof.
  induction 1 as [|n w l w' Hr IH Hx]; intros Hb; [apply calls_ok_init|].
  apply (calls_ok_exec n w l w'); [|apply IH; lia|done|lia].
  apply (reachable_structural parse config); [done | lia].
Qed.

(** ** Drawn numbers *)

Lemma attached_exec n w l w' c pc :
  structural n w -> exec parse w l = Some w' -> conns w !! c = Some pc -> attached pc = true ->
  exists pc', conns w' !! c = Some pc' /\ attached pc' = true.
Proof.
  intros Hst Hx Hc Ha. destruct (exec_conns_upd parse w l w' Hx) as [->|(c0 & pc0 & -> & Hf)]; [eauto|].
  destruct (decide (c0 = c)) as [->|Hne]; [|rewrite lookup_insert_ne by done; eauto].
  exists pc0. rewrite lookup_insert_eq. split; [done|].
  apply (str_conn_ids n w Hst) in Hc as Hlt. inversion Hf; subst; simplify_eq/=; (done || lia).
Qed.

Lemma drawn_exec n w l w' c rid :
  structural n w -> calls_ok n w -> (n + 2 < U64_SIZE)%N -> exec parse w l = Some w' ->
  drawn w c rid -> drawn w' c rid.
Proof.
  intros Hst Hok Hb Hx ((pc & Hc & Ha) & k & Hk & Hlt). split; [by eapply attached_exec|].
  destruct (exec_tables w l w' Hx)
    as [_ _ _ Hr _|c' hello g _ Hc' _ Hr _|c' hello g resp -> _ Hh|id' o a e hd _ Ht Hh|id' o a hd rid' _ Ht Hh].
  - rewrite Hr. eauto.
  - assert (c' <> c) by (intros ->; rewrite Hc in Hc'; by injection Hc' as ->).
    rewrite Hr, lookup_insert_ne by done. eauto.
  - rewrite Hh. unfold wake. case_match; eauto.
  - destruct (co_handle n w Hok _ _ _ _ _ Ht eq_refl) as (c0 & _ & _ & _ & -> & _ & _ & _ & _ & [k0 Hk0]).
    pose proof (co_counter n w Hok _ _ Hk0). rewrite Hh. unfold call_register. simpl. rewrite Hk0. simpl.
    rewrite as_u64_small by lia. destruct (decide (c0 = c)) as [->|Hne].
    + rewrite lookup_insert_eq. exists (k0 + 1)%N. split; [done|]. simplify_eq. lia.
    + rewrite lookup_insert_ne by done. eauto.
  - rewrite Hh. simpl. eauto.
Qed.

Lemma drawn_wait n w id o a pc hd rid :
  calls_ok n w -> tasks w !! id = Some (TCall o a pc) -> pc_wait pc = Some (hd, rid) ->
  drawn w hd.(SessionHandle.pending_out) rid.
Proof.
  intros Hok Ht Hw. destruct (co_wait n w Hok _ _ _ _ _ _ Ht Hw) as (_ & _ & Hk). split; [|done].
  assert (Hh : pc_handle pc = Some hd) by (destruct pc; simpl in *; by simplify_eq).
  destruct (co_handle n w Hok _ _ _ _ _ Ht Hh) as (c0 & pc0 & _ & _ & -> & Hc & _ & Ha & _). eauto.
Qed.

(** No number is drawn twice. *)
Lemma drawn_fresh n w l w' id o a pc hd rid c :
  calls_ok n w -> exec parse w l = Some w' -> tasks w' !! id = Some (TCall o a pc) ->
  pc_wait pc = Some (hd, rid) -> drawn w c rid -> hd.(SessionHandle.pending_out) = c ->
  exists pc0, tasks w !! id = Some (TCall o a pc0) /\ pc_wait pc0 = Some (hd, rid).
Proof.
  intros Hok Hx Ht Hw (_ & k & Hk & Hlt) <-.
  destruct (wait_from w l w' _ _ _ _ _ _ Hx Ht Hw) as [?|(_ & (e & _ & Ht0) & Hr)]; [done|exfalso].
  destruct (co_handle n w Hok _ _ _ _ _ Ht0 eq_refl) as (c0 & _ & _ & _ & -> & _).
  simpl in *. rewrite Hk in Hr. simpl in Hr. lia.
Qed.

End calls.
