(* ===== verification/Serving.v ===== *)
(** Who serves a service: the registry and the session table follow the
    connections, in both directions, in every reachable world; and how many
    connections the issued spawn tokens can admit. *)

From stdpp Require Import prelude gmap strings.
From S2P Require Import Prelude Frame Runtime Registry Broker Session System Invariant Steps.

Section serving.
Context {Q : Type} `{LawfulMpsc Q BusFrame}.
Context (parse : bytes -> result CapabilityResponse string).
Implicit Types w : World Q.

(** No connection has stored an entry for the service since [c] did. *)
Definition latest w (s : string) (c : conn_id) : Prop := entered w !! s = Some c.

(** The connection has been let in with [hello]. *)
Definition let_in w (c : conn_id) (hello : HelloRequest) : Prop :=
  exists pc, conns w !! c = Some pc /\ admission pc = Some hello.

(** A running session is in the session table. *)
Definition serving w : Prop :=
  forall c hello g, conns w !! c = Some (SRunning hello g) ->
    Broker.sessions (broker w) !! (hello.(HelloRequest.service), g)
      = Some {| SessionHandle.pending_out := c; SessionHandle.next_req_id := c |}.

(** How a step changes the connections, the session table and the tokens. *)
Inductive moves w (l : Label) w' : Prop :=
| moves_same : conns w' = conns w -> reg w' = reg w ->
    Broker.sessions (broker w') = Broker.sessions (broker w) ->
    Broker.tokens (broker w') = Broker.tokens (broker w) -> moves w l w'
| moves_issue now pid s t : l = LIssueToken now pid s ->
    conns w' = conns w -> reg w' = reg w ->
    Broker.sessions (broker w') = Broker.sessions (broker w) ->
    Broker.tokens (broker w') = <[s := t]> (Broker.tokens (broker w)) -> moves w l w'
| moves_accept : conns w' = <[next_id w := SHandshake]> (conns w) -> reg w' = reg w ->
    Broker.sessions (broker w') = Broker.sessions (broker w) ->
    Broker.tokens (broker w') = Broker.tokens (broker w) -> moves w l w'
| moves_refuse c : conns w !! c = Some SHandshake ->
    conns w' = <[c := SClosed None]> (conns w) -> reg w' = reg w ->
    Broker.sessions (broker w') = Broker.sessions (broker w) ->
    (Broker.tokens (broker w') = Broker.tokens (broker w)
     \/ exists s, Broker.tokens (broker w') = delete s (Broker.tokens (broker w))) -> moves w l w'
| moves_admit c hello wr : l = LHello c (Ok (Some (BusFrame.Hello hello))) wr ->
    conns w !! c = Some SHandshake ->
    hello.(HelloRequest.protocol).(ProtocolVersion.major) = 1%N ->
    Broker.tokens (broker w) !! hello.(HelloRequest.service) = Some hello.(HelloRequest.auth_token) ->
    conns w' = <[c := SAccepted hello]> (conns w) -> reg w' = reg w ->
    Broker.sessions (broker w') = Broker.sessions (broker w) ->
    Broker.tokens (broker w') = delete hello.(HelloRequest.service) (Broker.tokens (broker w)) ->
    moves w l w'
| moves_register c pc pc' : l = LSession c ->
    conns w !! c = Some pc -> admission pc' = admission pc -> registration pc = None ->
    (forall hello g, pc' <> SRunning hello g) ->
    conns w' = <[c := pc']> (conns w) ->
    Broker.sessions (broker w') = Broker.sessions (broker w) ->
    Broker.tokens (broker w') = Broker.tokens (broker w) -> moves w l w'
| moves_ack c hello g id : conns w !! c = Some (SAck hello g id) ->
    conns w' = <[c := SAttach hello g]> (conns w) -> reg w' = reg w ->
    Broker.sessions (broker w') = Broker.sessions (broker w) ->
    Broker.tokens (broker w') = Broker.tokens (broker w) -> moves w l w'
| moves_attach c hello g : l = LAttach c -> conns w !! c = Some (SAttach hello g) ->
    conns w' = <[c := SRunning hello g]> (conns w) -> reg w' = reg w ->
    Broker.sessions (broker w') = <[(hello.(HelloRequest.service), g) :=
      {| SessionHandle.pending_out := c; SessionHandle.next_req_id := c |}]> (Broker.sessions (broker w)) ->
    Broker.tokens (broker w') = Broker.tokens (broker w) -> moves w l w'
| moves_detach c hello g : l = LClose c -> conns w !! c = Some (SRunning hello g) ->
    conns w' = <[c := SDetached hello g]> (conns w) -> reg w' = reg w ->
    Broker.sessions (broker w') = delete (hello.(HelloRequest.service), g) (Broker.sessions (broker w)) ->
    Broker.tokens (broker w') = Broker.tokens (broker w) -> moves w l w'
| moves_end c pc hello g : conns w !! c = Some pc -> live pc = true ->
    (forall hello' g', pc <> SRunning hello' g') ->
    registration pc = Some (hello, g) ->
    conns w' = <[c := SClosed (Some (hello, g))]> (conns w) ->
    reg w' = (Registry.remove_if (reg w) hello.(HelloRequest.service) g).1 ->
    Broker.sessions (broker w') = Broker.sessions (broker w) ->
    Broker.tokens (broker w') = Broker.tokens (broker w) -> moves w l w'.

Local Ltac same := apply moves_same; reflexivity.

(** The connection was let in for service [s]. *)
Definition admits (s : string) (cp : conn_id * SessionPc) : Prop :=
  HelloRequest.service <$> admission cp.2 = Some s.
#[local] Instance admits_dec s cp : Decision (admits s cp).
Proof. unfold admits. apply _. Defined.

(** The connections that were ever let in for [s], and its unused token. *)
Definition admissions w (s : string) : nat := size (filter (admits s) (conns w)).
Definition unused w (s : string) : nat :=
  match Broker.tokens (broker w) !! s with Some _ => 1 | None => 0 end.

(** The tokens issued for [s] by a sequence of steps. *)
Fixpoint issued (s : string) (ls : list Label) : nat :=
  match ls with
  | [] => 0
  | l :: ls =>
      match l with LIssueToken _ _ s' => if decide (s' = s) then 1 else 0 | _ => 0 end + issued s ls
  end.

Lemma hello_moves w c read wr w' :
  exec_conn w (LHello c read wr) = Some w' -> moves w (LHello c read wr) w'.
Proof.
  simpl. intros Hx. destruct (conns w !! c) as [[]|] eqn:Hc; try done.
  destruct (serve_hello _ _) as [[b out] pc0] eqn:Hsh. injection Hx as <-.
  unfold serve_hello in Hsh.
  destruct read as [[[hello| | | | | | | | | | | | | ]|]|]; simplify_eq;
    try (eapply moves_refuse; [exact Hc | done | done | done | by left]; fail).
  destruct (negb _) eqn:Hv; simplify_eq.
  { eapply moves_refuse; [exact Hc | by destruct wr | by destruct wr | by destruct wr | left; by destruct wr]. }
  unfold Broker.consume_token in Hsh.
  destruct (Broker.tokens (broker w) !! _) as [tok|] eqn:Htok; simpl in Hsh.
  2: { simplify_eq. eapply moves_refuse;
         [exact Hc | by destruct wr | by destruct wr | by destruct wr | left; by destruct wr]. }
  case_bool_decide as Heq; simpl in Hsh; simplify_eq.
  - eapply (moves_admit _ _ _ c hello wr); try done.
    by apply negb_false_iff, bool_decide_eq_true in Hv.
  - eapply moves_refuse; [exact Hc | by destruct wr | by destruct wr | by destruct wr |].
    right. exists hello.(HelloRequest.service). by destruct wr.
Qed.

Lemma session_moves w c w' :
  exec_conn w (LSession c) = Some w' -> moves w (LSession c) w'.
Proof.
  intros Hx. apply exec_session in Hx. destruct Hx as [hl Hc|hl i Hc|hl g i Hc|
    hl g pc job b h t job' _ _ _ _ Hsj].
  - by apply (moves_register _ _ _ c (SAccepted hl) (SNumbered hl (Broker.next_client_id (broker w)))).
  - by apply (moves_register _ _ _ c (SNumbered hl i) (SDrawn hl (Registry.draw (reg w)).2 i)).
  - by apply (moves_register _ _ _ c (SDrawn hl g i) (SAck hl g i)).
  - destruct (serve_job_frame _ _ _ _ _ _ _ _ _ Hsj) as (? & ? & _ & _ & ? & _).
    by apply moves_same; destruct t.
Qed.

Lemma exec_moves w l w' : exec parse w l = Some w' -> moves w l w'.
Proof.
  unfold exec. intros Hx. destruct (exec_conn w l) as [w1|] eqn:Hx1.
  { simplify_eq. destruct l as [|c0 read wr|c0 wr|c0|c0 f|c0|c0|c0 wr|c0| | | | | | | | | | |];
      try done; try (by apply hello_moves); [..|by apply session_moves];
      simpl in Hx1; [|destruct (conns w !! c0) as [[]|] eqn:Hc; try done..].
    - injection Hx1 as <-. by apply moves_accept.
    - destruct wr; simpl in Hx1; injection Hx1 as <-; [by eapply moves_ack|].
      by eapply moves_end.
    - injection Hx1 as <-. by eapply moves_attach.
    - destruct (busy w !! c0); [done|].
      destruct (serve_frame _ _ _ _ _) as [[[b h] t0] job] eqn:Hsf. injection Hx1 as <-.
      destruct (serve_frame_cases _ _ _ _ _ _ _ _ _ Hsf) as (? & ? & _ & ? & _).
      by apply moves_same; destruct t0.
    - destruct (busy w !! c0); [done|]. injection Hx1 as <-. by eapply moves_detach.
    - destruct (busy w !! c0); [done|]. injection Hx1 as <-. by eapply moves_end.
    - destruct (channels (heap w) !! c0) as [q0|]; simpl in Hx1; [|done].
      destruct (mpsc_recv q0) as [[f q1]|]; [|done]. injection Hx1 as <-. destruct wr; same.
    - destruct (channels (heap w) !! c0) as [q0|]; simpl in Hx1; [|done].
      destruct (mpsc_recv q0) as [[f q1]|]; [|done]. injection Hx1 as <-. destruct wr; same.
    - destruct (channels (heap w) !! c0) as [q0|]; simpl in Hx1; [|done].
      destruct (mpsc_recv q0) as [[f q1]|]; [|done]. injection Hx1 as <-. destruct wr; same. }
  destruct (exec_task parse w l) as [w1|] eqn:Hx2.
  { simplify_eq. destruct l as [| | | | | | | | | |i|i r|i|i|i|i|i| | |]; try done; simpl in Hx2;
      destruct (tasks w !! i) as [[o a pc0|c0 resp|svc cr|svc hd|tx]|] eqn:Ht; try done.
    - destruct (call_step _ _ _ _ _) as [[h pc']|] eqn:Hst; [|done]. injection Hx2 as <-. same.
    - destruct pc0; try done. injection Hx2 as <-. same.
    - destruct pc0; try done. destruct (replies _ !! i); [|done]. injection Hx2 as <-. same.
    - destruct pc0; try done. destruct (sender_dropped _ _ _ _); [|done]. injection Hx2 as <-. same.
    - destruct (bool_decide _); [done|]. destruct pc0; try done; injection Hx2 as <-; same.
    - destruct pc0; try done. injection Hx2 as <-. destruct o; simpl; repeat case_match; same.
    - injection Hx2 as <-. same.
    - injection Hx2 as <-. same.
    - injection Hx2 as <-. same.
    - injection Hx2 as <-. same.
    - destruct o; try done. destruct (droppable pc0); [|done]. injection Hx2 as <-. same. }
  destruct l; try done; simpl in Hx; try (injection Hx as <-; same);
    [|injection Hx as <-; destruct (shutdown_target _ _); same].
  unfold Broker.issue_token in Hx. simpl in Hx. injection Hx as <-. by eapply moves_issue.
Qed.

(** ** Preservation *)

Lemma lookup_ins {A} (m : gmap conn_id A) c c' x y :
  <[c := x]> m !! c' = Some y -> (c' = c /\ y = x) \/ (c' <> c /\ m !! c' = Some y).
Proof. rewrite lookup_insert_Some. naive_solver. Qed.

Lemma serving_upd w w' c pc :
  serving w -> conns w' = <[c := pc]> (conns w) ->
  Broker.sessions (broker w') = Broker.sessions (broker w) ->
  (forall hello g, pc <> SRunning hello g) -> serving w'.
Proof.
  intros Hs Hc Hse Hp c' hello g Hr. rewrite Hc in Hr. rewrite Hse.
  apply lookup_ins in Hr as [[-> Heq]|[_ Hr]]; [|by apply Hs]. by destruct (Hp hello g).
Qed.

Lemma serving_exec n w l w' :
  structural n w -> serving w -> exec parse w l = Some w' -> serving w'.
Proof.
  intros Hst Hs Hx.
  assert (Hinj : forall c pc hello g c' hello', conns w !! c = Some pc ->
    registration pc = Some (hello, g) -> conns w !! c' = Some (SRunning hello' g) -> c' = c).
  { intros c pc hello g c' hello' Hc Hr Hc'.
    eapply (str_gen_inj n w Hst); [by exists (SRunning hello' g)|by exists pc]. }
  destruct (exec_moves w l w' Hx) as [Hc _ Hse _|now pid s t _ Hc _ Hse _|Hc _ Hse _|c _ Hc _ Hse _
    |c hello wr _ _ _ _ Hc _ Hse _|c pc pc' _ _ _ _ Hp Hc Hse _|c hello g id _ Hc _ Hse _
    |c hello g _ Hc0 Hc _ Hse _|c hello g _ Hc0 Hc _ Hse _|c pc hello g _ _ _ _ Hc _ Hse _];
    try (by eapply serving_upd).
  - unfold serving. rewrite Hc, Hse. exact Hs.
  - unfold serving. rewrite Hc, Hse. exact Hs.
  - intros c' hello' g' Hr. rewrite Hc in Hr. rewrite Hse. apply lookup_ins in Hr as [[-> Heq]|[Hne Hr]].
    + simplify_eq. by rewrite lookup_insert_eq.
    + rewrite lookup_insert_ne; [by apply Hs|]. intros [= _ <-]. apply Hne. by eapply Hinj.
  - intros c' hello' g' Hr. rewrite Hc in Hr. rewrite Hse. apply lookup_ins in Hr as [[-> Heq]|[Hne Hr]]; [done|].
    rewrite lookup_delete_ne; [by apply Hs|]. intros [= _ <-]. apply Hne. by eapply Hinj.
Qed.

Lemma reachable_serving config n w :
  reachable parse config n w -> (n < U64_SIZE)%N -> serving w.
Proof.
  induction 1 as [|n w l w' Hr IH Hx]; intros Hb; [done|].
  eapply (serving_exec n w l w'); [|apply IH; lia|done].
  apply (reachable_structural parse config); [done | lia].
Qed.

(** ** The last entry of a service *)

(** A registered connection that another one has followed stays behind. *)
Lemma latest_lost n w l w' c hello g s :
  structural n w -> exec parse w l = Some w' -> registered w c hello g ->
  ~ latest w s c -> ~ latest w' s c.
Proof.
  intros Hst Hx (pc & Hc & Hr) Hn. unfold latest.
  destruct (exec_entered parse w l w' Hx) as [->|(c' & hl & g' & id & _ & Hc' & ->)]; [done|].
  rewrite lookup_insert_Some. intros [[_ ->]|[_ ?]]; [|done]. by simplify_eq/=.
Qed.

(** The live connection that stored the last entry of its service is the
    registered one. *)
Lemma latest_entry n w c pc hello g :
  structural n w -> conns w !! c = Some pc -> live pc = true ->
  registration pc = Some (hello, g) -> latest w hello.(HelloRequest.service) c ->
  exists e, Registry.get (reg w) hello.(HelloRequest.service) = Some e
    /\ e.(ServiceEntry.tx) = c /\ e.(ServiceEntry.generation) = g
    /\ e.(ServiceEntry.methods) = hello.(HelloRequest.methods).
Proof.
  intros Hst Hc Hl Hr He. destruct (str_entered n w Hst _ _ He) as (pc' & hl & g' & Hc' & _ & _ & Hg).
  simplify_eq. destruct (Hg Hl) as (e & Hge & Htx). exists e. split; [done|]. split; [done|].
  destruct (str_entry n w Hst _ e Hge) as (_ & (hello' & Hreg & _ & ->) & _).
  rewrite Htx in Hreg. assert (Hrc : registered w c hello g) by by exists pc.
  by destruct (registered_fun w c _ _ _ _ Hreg Hrc) as [-> ->].
Qed.

(** ** Spawn tokens *)

Lemma admissions_move w w' s c pc :
  conns w' = <[c := pc]> (conns w) -> admission pc = conns w !! c ≫= admission ->
  admissions w' s = admissions w s.
Proof.
  unfold admissions. intros -> Hr. rewrite map_filter_insert.
  assert (Hiff : admits s (c, pc) <-> exists pc', conns w !! c = Some pc' /\ admits s (c, pc')).
  { unfold admits. simpl. rewrite Hr. destruct (conns w !! c) as [pc'|]; simpl; [naive_solver|].
    split; [done | by intros (? & ? & _)]. }
  case_decide as Hd.
  - apply Hiff in Hd as (pc' & Hc & Hp). apply map_size_insert_Some.
    exists pc'. by apply map_lookup_filter_Some.
  - rewrite map_filter_delete, delete_id; [done|]. apply map_lookup_filter_None. right.
    intros pc' Hc Hp. apply Hd, Hiff. eauto.
Qed.

Lemma admissions_add w w' s c pc hello :
  conns w !! c = Some SHandshake -> conns w' = <[c := pc]> (conns w) ->
  admission pc = Some hello ->
  admissions w' s = admissions w s + (if decide (hello.(HelloRequest.service) = s) then 1 else 0).
Proof.
  unfold admissions. intros Hc -> Hr. rewrite map_filter_insert.
  assert (Hn : filter (admits s) (conns w) !! c = None).
  { apply map_lookup_filter_None. right. intros pc' Hc' Hp. by simplify_eq. }
  destruct (decide (admits s (c, pc))) as [Hd|Hd]; unfold admits in Hd; simpl in Hd;
    rewrite Hr in Hd; simpl in Hd.
  - rewrite decide_True by congruence. rewrite map_size_insert_None by done. lia.
  - rewrite decide_False by congruence. rewrite map_filter_delete, delete_id by done. lia.
Qed.

Lemma admissions_exec n w l w' s :
  structural n w -> exec parse w l = Some w' ->
  admissions w' s + unused w' s <= admissions w s + unused w s + issued s [l].
Proof.
  intros Hst Hx.
  destruct (exec_moves w l w' Hx) as [Hc _ _ Ht|now pid s' t -> Hc _ _ Ht|Hc _ _ Ht|c Hc0 Hc _ _ Ht
    |c hello wr _ Hc0 _ Htk Hc _ _ Ht|c pc pc' _ Hc0 Ha _ _ Hc _ Ht|c hello g id Hc0 Hc _ _ Ht
    |c hello g _ Hc0 Hc _ _ Ht|c hello g _ Hc0 Hc _ _ Ht|c pc hello g Hc0 _ _ Hrg Hc _ _ Ht];
    unfold unused; rewrite ?Ht.
  - unfold admissions. rewrite Hc. lia.
  - unfold admissions. rewrite Hc. simpl. case_decide as Hd.
    + subst s'. rewrite lookup_insert_eq. case_match; lia.
    + rewrite lookup_insert_ne by done. lia.
  - erewrite admissions_move; [|done|]; [lia|].
    destruct (conns w !! next_id w) eqn:Hn; [|done]. apply (str_conn_ids n w Hst) in Hn. lia.
  - erewrite admissions_move; [|done|by rewrite Hc0].
    destruct Ht as [->|[s' ->]]; [lia|].
    destruct (decide (s' = s)) as [->|]; [rewrite lookup_delete_eq; lia|rewrite lookup_delete_ne by done; lia].
  - erewrite admissions_add; [|done..]. case_decide as Hd.
    + subst s. rewrite lookup_delete_eq, Htk. lia.
    + rewrite lookup_delete_ne by done. lia.
  - erewrite admissions_move; [|done|by rewrite Hc0]. lia.
  - erewrite admissions_move; [|done|by rewrite Hc0]. lia.
  - erewrite admissions_move; [|done|by rewrite Hc0]. lia.
  - erewrite admissions_move; [|done|by rewrite Hc0]. lia.
  - erewrite admissions_move; [|done|]; [lia|]. rewrite Hc0. simpl.
    destruct pc; simpl in *; by simplify_eq.
Qed.

Lemma admissions_run s : forall ls n w w',
  structural n w -> (n + N.of_nat (length ls) < U64_SIZE)%N -> run parse w ls = Some w' ->
  admissions w' s + unused w' s <= admissions w s + unused w s + issued s ls.
Proof.
  induction ls as [|l ls IH]; intros n w w' Hst Hb Hrun; simpl in Hrun.
  - simplify_eq. lia.
  - apply bind_Some in Hrun as (w1 & Hx & Hrun). simpl length in Hb.
    assert (Hst1 : structural (n + 1) w1) by (apply (structural_exec parse n w l); [done|lia|done]).
    pose proof (IH (n + 1)%N w1 w' Hst1 ltac:(lia) Hrun).
    pose proof (admissions_exec n w l w1 s Hst Hx). simpl in *. lia.
Qed.

End serving.
