(* ===== verification/Guarantees.v ===== *)
(** What the broker guarantees: the properties of the interleaved system, for
    every world a fresh broker can reach, and a concrete run that exercises
    them. *)

From stdpp Require Import prelude gmap strings.
From S2P Require Import Prelude Frame Runtime Registry Broker Session System Invariant Steps Safety Calls Serving.

(** * A concrete run *)

(** The services [echo], with one authenticated method, and [app], which
    subscribes to [echo]'s events and calls it. *)
Definition ping_decl : MethodDecl := {|
  MethodDecl.name := "ping"; MethodDecl.requires_auth := true; MethodDecl.streaming := false;
  MethodDecl.http_method := HttpMethod.Post; MethodDecl.path := None;
  MethodDecl.description := None |}.
Definition example_hello (service token : string) (methods : list MethodDecl) : HelloRequest := {|
  HelloRequest.protocol := ProtocolVersion.CURRENT; HelloRequest.service := service;
  HelloRequest.version := "0.1.0"; HelloRequest.pid := 77; HelloRequest.auth_token := token;
  HelloRequest.methods := methods; HelloRequest.events := []; HelloRequest.data_plane := None |}.
Definition echo_hello : HelloRequest :=
  example_hello "echo" (Broker.random_token (Some 5%N) 7 0) [ping_decl].
Definition app_hello : HelloRequest :=
  example_hello "app" (Broker.random_token (Some 6%N) 7 1) [].
Definition echo_hello2 : HelloRequest :=
  example_hello "echo" (Broker.random_token (Some 6%N) 7 1) [ping_decl].
Definition user_caller : CallerCtx := {|
  CallerCtx.user_id := Some "ada"; CallerCtx.request_id := "r1"; CallerCtx.workspace := None;
  CallerCtx.caller_app_id := Some "admin" |}.
Definition up_event : Event :=
  {| Event.topic := "echo.up"; Event.payload := bytes_lit "1"; Event.from := None |}.
Definition ping_invoke : Invoke := {|
  Invoke.req_id := 9; Invoke.method := "echo.ping"; Invoke.payload := bytes_lit "hi";
  Invoke.caller := user_caller |}.
Definition pong_response : Response :=
  {| Response.req_id := 1; Response.result := Ok (bytes_lit "pong") |}.
Definition no_capabilities (_ : bytes) : result CapabilityResponse string := Err "not JSON".

Definition connect_steps (c probe : N) (hello : HelloRequest) : list (Label) :=
  [LAccept; LHello c (Ok (Some (BusFrame.Hello hello))) true; LSession c; LSession c; LSession c;
   LAck c true; LAttach c; LSession c; LStep probe; LStep probe; LContinue probe].
Definition script_connect : list Label :=
  LIssueToken (Some 5%N) 7 "echo" :: connect_steps 0 1 echo_hello
  ++ LIssueToken (Some 6%N) 7 "app" :: connect_steps 2 3 app_hello.
Definition script_call : list Label :=
  [LFrame 2 (BusFrame.Subscribe "echo."); LFrame 0 (BusFrame.Publish up_event);
   LSession 0; LSession 0; LSession 0; LWriter 2 true;
   LFrame 2 (BusFrame.Invoke ping_invoke); LStep 4; LStep 4; LStep 4; LStep 4; LStep 4;
   LWriter 0 true].
Definition script_reply : list Label := [LFrame 0 (BusFrame.Response pong_response)].
Definition script_close : list Label := [LClose 0; LSession 0; LSession 0; LRemove 0].

Definition run_example (ls : list Label) : World (Fifo BusFrame) :=
  default (init BrokerConfig.default) (run no_capabilities (init BrokerConfig.default) ls).

Definition script_waiting : list Label := script_connect ++ script_call.

(** The call of [app] waits for [echo]'s answer. *)
Definition waiting : World (Fifo BusFrame) := run_example script_waiting.
Definition waiting_steps : N := N.of_nat (length script_waiting).
Definition routed_invoke : Invoke := {|
  Invoke.req_id := 1; Invoke.method := "ping"; Invoke.payload := bytes_lit "hi";
  Invoke.caller := CallerCtx.set_caller_app_id (Some "app") user_caller |}.
Definition routed_args : CallArgs := {|
  CallArgs.service := "echo"; CallArgs.method := "ping"; CallArgs.payload := bytes_lit "hi";
  CallArgs.caller := CallerCtx.set_caller_app_id (Some "app") user_caller;
  CallArgs.timeout := duration_from_secs 30 |}.
Definition echo_handle : SessionHandle :=
  {| SessionHandle.pending_out := 0; SessionHandle.next_req_id := 0 |}.

(** [echo] has answered. *)
Definition script_answered : list Label := script_waiting ++ script_reply.
Definition answered : World (Fifo BusFrame) := run_example script_answered.

(** [echo] has gone instead; the host's call has no timeout. *)
Definition untimed_args : CallArgs := {|
  CallArgs.service := "echo"; CallArgs.method := "ping"; CallArgs.payload := bytes_lit "hi";
  CallArgs.caller := user_caller; CallArgs.timeout := 0 |}.
Definition script_abandoned : list Label :=
  script_connect ++ LCall untimed_args :: replicate 5 (LStep 4) ++ LWriter 0 true :: script_close.
Definition abandoned_world : World (Fifo BusFrame) := run_example script_abandoned.

(** How many steps a call has to take before it awaits or is done. *)
Definition steps_left (pc : CallPc) : nat :=
  match pc with
  | CStart => 5 | CRegistry => 4 | CSession _ => 3 | CRegister _ _ => 2 | CSend _ _ _ => 1
  | CLocal _ => 1
  | CAwaitLocal _ | CAwaitRemote _ _ | CDone _ => 0
  end.

(** * Properties *)

Section guarantees.
Context {Q : Type} `{LawfulMpsc Q BusFrame}.
Context (parse : bytes -> result CapabilityResponse string).
Implicit Types w : World Q.

(** A call without timeout whose connection is closed and unanswered. *)
Definition abandoned w (id : call_id) o (a : CallArgs) hd rid : Prop :=
  tasks w !! id = Some (TCall o a (CAwaitRemote hd rid))
  /\ replies (heap w) !! id = None /\ a.(CallArgs.timeout) = 0%N
  /\ exists was, conns w !! hd.(SessionHandle.pending_out) = Some (SClosed was).

Lemma run_reachable config : forall ls n w w',
  reachable parse config n w -> run parse w ls = Some w' ->
  reachable parse config (n + N.of_nat (length ls)) w'.
Proof.
  induction ls as [|l ls IH]; intros n w w' Hr Hrun; simpl in Hrun.
  - simplify_eq. by rewrite N.add_0_r.
  - apply bind_Some in Hrun as (w1 & Hx & Hrun).
    assert (Hr1 : reachable parse config (n + 1) w1) by by eapply reachable_step.
    pose proof (IH _ _ _ Hr1 Hrun) as Hr2. simpl length.
    by replace (n + N.of_nat (S (length ls)))%N with (n + 1 + N.of_nat (length ls))%N by lia.
Qed.

(** C14: the authentication gate. Every [Invoke] frame ever written to a
    connection or queued for its writer went to a registered connection, names
    a method of the catalog that connection declared in its [Hello], and
    carries a user identity whenever that method requires authentication. *)
Theorem auth_gate config n w (c : conn_id) (inv : Invoke) :
  reachable parse config n w -> (n < U64_SIZE)%N ->
  BusFrame.Invoke inv ∈ frames_to w c ->
  exists hello g, registered w c hello g
    /\ exists d, d ∈ hello.(HelloRequest.methods) /\ d.(MethodDecl.name) = inv.(Invoke.method)
         /\ (d.(MethodDecl.requires_auth) = true ->
             inv.(Invoke.caller).(CallerCtx.user_id) <> None).
Proof.
  intros Hr Hb Hf. pose proof (safe_frame w (reachable_safe parse config n w Hr Hb) c _ Hf) as Hs.
  destruct Hs as (hello & g & Hreg & d & Hd & Ha). exists hello, g. split; [done|].
  destruct (find_method_Some _ _ _ Hd). eauto.
Qed.

(** The provenance of events. Every [Event] frame ever sent to a connection
    carries the name of a service that registered, and never the name of the
    receiving service. *)
Lemma event_provenance config n w (c : conn_id) (ev : Event) :
  reachable parse config n w -> (n < U64_SIZE)%N ->
  BusFrame.Event ev ∈ frames_to w c ->
  exists hello g pub hello' g', registered w c hello g /\ registered w pub hello' g'
    /\ ev.(Event.from) = Some hello'.(HelloRequest.service)
    /\ hello'.(HelloRequest.service) <> hello.(HelloRequest.service).
Proof.
  intros Hr Hb Hf. exact (safe_frame w (reachable_safe parse config n w Hr Hb) c _ Hf).
Qed.

(** An app cannot speak for another app. Every call an app originates runs
    with the service name of the connection it came from as its
    [caller_app_id], whatever the app wrote there. *)
Lemma app_calls_stamped config n w (id : call_id) (c : conn_id) rid (a : CallArgs) pc :
  reachable parse config n w -> (n < U64_SIZE)%N ->
  tasks w !! id = Some (TCall (OApp c rid) a pc) ->
  exists hello g, registered w c hello g
    /\ a.(CallArgs.caller).(CallerCtx.caller_app_id) = Some hello.(HelloRequest.service).
Proof.
  intros Hr Hb Ht. destruct (safe_task w (reachable_safe parse config n w Hr Hb) id _ Ht) as [_ Ho].
  by apply (Ho c rid).
Qed.

(** C32: the order on the wire. A connection that is not registered is sent
    nothing but one refusal, after which it is closed; on a registered
    connection the first frame is the [HelloAck], and nothing is written
    before it. *)
Theorem wire_order config n w (c : conn_id) pc :
  reachable parse config n w -> (n < U64_SIZE)%N ->
  conns w !! c = Some pc ->
  (registration pc = None ->
     wire_of w c = [] \/ pc = SClosed None /\ exists e, wire_of w c = [error_frame e])
  /\ (registration pc <> None ->
     wire_of w c = [] \/ exists a l, wire_of w c = BusFrame.HelloAck a :: l)
  /\ (forall hello g, pc = SRunning hello g ->
     exists a l, wire_of w c = BusFrame.HelloAck a :: l).
Proof.
  intros Hr Hb Hc. pose proof (reachable_wire parse config n w Hr Hb c) as Hw.
  rewrite Hc in Hw.
  destruct pc as [| | | | | | | |[[]|]]; simpl in Hw; split_and!; intros; simplify_eq/=; auto.
  destruct Hw; auto.
Qed.

(** C15: the registry follows the connections, in both directions. An entry
    always names a connection that is still being served, under the service,
    generation and catalog of that connection's [Hello], it is the entry that
    was stored last for its service, and two services never share a
    connection; conversely the connection that stored the last entry of its
    service is, for as long as its session runs, the registered one, and the
    session table routes its generation to that connection's own pending table
    and counter. *)
Theorem registry_follows_connections config n w :
  reachable parse config n w -> (n < U64_SIZE)%N ->
  (forall s e, Registry.get (reg w) s = Some e -> latest w s e.(ServiceEntry.tx)
     /\ exists hello pc,
     conns w !! e.(ServiceEntry.tx) = Some pc /\ live pc = true
     /\ registration pc = Some (hello, e.(ServiceEntry.generation))
     /\ hello.(HelloRequest.service) = s
     /\ e.(ServiceEntry.methods) = hello.(HelloRequest.methods))
  /\ tx_distinct (reg w)
  /\ (forall c hello g, conns w !! c = Some (SRunning hello g) ->
     Broker.sessions (broker w) !! (hello.(HelloRequest.service), g)
       = Some {| SessionHandle.pending_out := c; SessionHandle.next_req_id := c |}
     /\ (latest w hello.(HelloRequest.service) c ->
         exists e, Registry.get (reg w) hello.(HelloRequest.service) = Some e
           /\ e.(ServiceEntry.tx) = c /\ e.(ServiceEntry.generation) = g
           /\ e.(ServiceEntry.methods) = hello.(HelloRequest.methods))).
Proof.
  intros Hr Hb. pose proof (reachable_structural parse config n w Hr Hb) as Hst.
  pose proof (reachable_serving parse config n w Hr Hb) as Hs. split_and!.
  - intros s e He. split; [by eapply str_last|].
    destruct (str_entry n w Hst s e He) as (Hks & (hello & (pc & Hc & Hg) & Hsv & Hm) & pc' & Hc' & Hl).
    rewrite Hc in Hc'. simplify_eq. exists hello, pc'. split_and!; congruence.
  - by eapply structural_tx_distinct.
  - intros c hello g Hc. split; [by apply Hs|]. intros Hn. by eapply latest_entry.
Qed.

(** No entry ever names a registered connection that another one of its
    service has followed. *)
Lemma behind_forever config c hello g : forall ls n w w',
  reachable parse config n w -> registered w c hello g ->
  ~ latest w hello.(HelloRequest.service) c ->
  (n + N.of_nat (length ls) < U64_SIZE)%N -> run parse w ls = Some w' ->
  forall s e, Registry.get (reg w') s = Some e -> e.(ServiceEntry.tx) <> c.
Proof.
  induction ls as [|l ls IH]; intros n w w' Hr Hreg Hnl Hb Hrun s e He; simpl in Hrun.
  - simplify_eq. pose proof (reachable_structural parse config n w' Hr ltac:(simpl in Hb; lia)) as Hst.
    pose proof (str_last n w' Hst s e He) as Hen. intros Htx. rewrite Htx in Hen.
    destruct (str_entered n w' Hst s c Hen) as (pc & hl & g' & Hc & Hrg & <- & _).
    assert (Hrg' : registered w' c hl g') by by exists pc.
    by destruct (registered_fun w' c _ _ _ _ Hrg' Hreg) as [-> _].
  - apply bind_Some in Hrun as (w1 & Hx & Hrun). simpl in Hb.
    pose proof (reachable_structural parse config n w Hr ltac:(lia)) as Hst.
    eapply (IH (n + 1)%N w1); [by eapply reachable_step|by eapply registered_exec|
      by eapply latest_lost|lia|done|done].
Qed.

(** C16: two racing registrations can leave the newer connection unreachable.
    [insert] draws the generation under a lock it has released when it stores
    the entry: if a connection has drawn an older generation than another one
    of the same service that is live already, it can store its entry now; from
    then on no entry of the registry ever names the newer connection, however
    long it runs. *)
Theorem racing_registrations config n w (c1 c2 : conn_id) hello1 hello2 g1 g2 id1 pc2 :
  reachable parse config n w -> (n + 1 < U64_SIZE)%N ->
  conns w !! c1 = Some (SDrawn hello1 g1 id1) ->
  conns w !! c2 = Some pc2 -> live pc2 = true -> registration pc2 = Some (hello2, g2) ->
  hello1.(HelloRequest.service) = hello2.(HelloRequest.service) -> (g1 < g2)%N ->
  exists w', exec parse w (LSession c1) = Some w' /\ conns w' !! c2 = Some pc2
    /\ (exists e, Registry.get (reg w') hello2.(HelloRequest.service) = Some e
         /\ e.(ServiceEntry.tx) = c1 /\ e.(ServiceEntry.generation) = g1)
    /\ forall ls w'', (n + 1 + N.of_nat (length ls) < U64_SIZE)%N -> run parse w' ls = Some w'' ->
         forall s e, Registry.get (reg w'') s = Some e -> e.(ServiceEntry.tx) <> c2.
Proof.
  intros Hr Hb Hc1 Hc2 Hl2 Hr2 Hsv Hg.
  pose proof (reachable_structural parse config n w Hr ltac:(lia)) as Hst.
  assert (Hne : c1 <> c2) by (intros ->; by simplify_eq/=).
  destruct (exec parse w (LSession c1)) as [w'|] eqn:Hx.
  2: { unfold exec in Hx. simpl in Hx. rewrite Hc1, (no_job n w c1 _ Hst Hc1 eq_refl) in Hx. done. }
  exists w'. split; [done|]. pose proof Hx as Hx'. unfold exec in Hx'.
  destruct (exec_conn w (LSession c1)) as [w1|] eqn:Hxc; [|done]. simplify_eq.
  apply exec_session in Hxc. destruct Hxc as [| |hl g i Hc|]; simplify_eq/=.
  set (w' := set_conn c1 _ _) in *. rewrite lookup_insert_ne by done. split; [done|]. split.
  { exists (ServiceEntry.set_generation g1 (hello_entry hello1 c1)). split; [|done].
    rewrite <-Hsv. change (reg w') with (Registry.put (reg w) (hello_entry hello1 c1) g1).
    by rewrite registry_put_get, decide_True. }
  assert (Hreg : registered w' c2 hello2 g2).
  { exists pc2. split; [|done]. simpl. by rewrite lookup_insert_ne. }
  assert (Hnl : ~ latest w' hello2.(HelloRequest.service) c2).
  { unfold latest. simpl. rewrite Hsv, lookup_insert_eq. congruence. }
  assert (Hr' : reachable parse config (n + 1) w') by by eapply reachable_step.
  intros ls w'' Hb' Hrun. by apply (behind_forever config c2 hello2 g2 ls (n + 1) w').
Qed.

(** A call finds the service it names. In a reachable world, a call of a
    declared method of the service of a running connection that stored the
    last entry of its service, with the identity the method asks for, queues exactly its own
    [Invoke] on that connection and waits for the answer there. *)
Lemma call_reaches_service config n w (c : conn_id) hello g (id : call_id) (a : CallArgs) :
  reachable parse config n w -> (n < U64_SIZE)%N ->
  conns w !! c = Some (SRunning hello g) -> latest w hello.(HelloRequest.service) c ->
  chan_open (heap w) c = true ->
  a.(CallArgs.service) = hello.(HelloRequest.service) ->
  Broker.local_services (broker w) !! a.(CallArgs.service) = None ->
  admitted hello.(HelloRequest.methods) a.(CallArgs.method) a.(CallArgs.caller) ->
  let h' := (call_begin (broker w) (heap w) id a).1 in
  exists hd rid, (call_begin (broker w) (heap w) id a).2 = CAwaitRemote hd rid
    /\ hd.(SessionHandle.pending_out) = c
    /\ chan_queue h' c = chan_queue (heap w) c ++ [invoke_frame a rid]
    /\ pending_of h' c !! rid = Some id.
Proof.
  intros Hr Hb Hc Hn Ho Hsv Hl Ha. pose proof (reachable_structural parse config n w Hr Hb) as Hst.
  pose proof (reachable_serving parse config n w Hr Hb) as Hs.
  destruct (latest_entry n w c _ hello g Hst Hc eq_refl eq_refl Hn) as (e & He & Htx & Hg & Hm).
  pose proof (Hs c hello g Hc) as Hse.
  rewrite <-Hsv in He, Hse. rewrite <-Hg in Hse. rewrite <-Hm in Ha.
  rewrite (call_begin_remote _ _ _ _ e _ Hl He Ha Hse). unfold call_register. cbn [fetch_add1].
  set (rid := default 1%N _). set (h1 := set_pending _ _ _).
  unfold call_send. rewrite Htx.
  destruct (chan_send_open h1 c (invoke_frame a rid)) as [h2 Hs2]; [exact Ho|].
  rewrite Hs2. destruct (chan_send_Some _ _ _ _ Hs2) as (_ & Hsame & Hq).
  eexists _, rid. split; [done|]. split; [done|]. cbn [fst]. split.
  - by rewrite Hq, decide_True by done.
  - rewrite (pending_of_same _ _ _ Hsame). unfold h1. rewrite pending_of_set, decide_True by done.
    by rewrite lookup_insert_eq.
Qed.

(** Spawn tokens bound admissions. Along any run of a fresh broker, the
    number of connections that were ever let in for a service is at most the
    number of tokens issued for it, one less while a token is unused. *)
Lemma tokens_bound_admissions config w (s : string) ls :
  run parse (init config) ls = Some w -> (N.of_nat (length ls) < U64_SIZE)%N ->
  admissions w s + unused w s <= issued s ls.
Proof.
  intros Hrun Hb. apply (admissions_run parse s ls 0 (init config) w); [|done|done].
  apply structural_init.
Qed.

(** ** Replies *)

(** Replies are correlated. When a call of service [s] is answered, the
    response bears the request id under which the call waits, it was read from
    a connection registered for [s], no other call waits for that id of that
    connection, and the call returns exactly the result it carries. *)
Lemma reply_correlation config n w (id : call_id) o (a : CallArgs) hd rid (resp : Response) :
  reachable parse config n w -> (n + 1 < U64_SIZE)%N ->
  tasks w !! id = Some (TCall o a (CAwaitRemote hd rid)) ->
  replies (heap w) !! id = Some resp ->
  resp.(Response.req_id) = rid
  /\ (exists hello g, registered w hd.(SessionHandle.pending_out) hello g
        /\ hello.(HelloRequest.service) = a.(CallArgs.service))
  /\ BusFrame.Response resp ∈ inbox_of w hd.(SessionHandle.pending_out)
  /\ (forall id' o' a' pc' hd', tasks w !! id' = Some (TCall o' a' pc') ->
        pc_wait pc' = Some (hd', rid) ->
        hd'.(SessionHandle.pending_out) = hd.(SessionHandle.pending_out) -> id' = id)
  /\ exists w', exec parse w (LReply id) = Some w'
       /\ tasks w' !! id = Some (TCall o a (CDone resp.(Response.result))).
Proof.
  intros Hr Hb Ht Hrep. pose proof (reachable_calls_ok parse config n w Hr Hb) as Hok.
  destruct (co_wait n w Hok _ _ _ _ _ _ Ht eq_refl) as (_ & Hz & _). destruct (Hz _ Hrep) as [Hid Hin].
  destruct (co_handle n w Hok _ _ _ _ _ Ht eq_refl) as (c & pc & hello & g & -> & Hc & Hg & _ & Hs & _).
  split_and!; [done | exists hello, g; split; [by exists pc|done] | done | |].
  - intros id' o' a' pc' hd' Ht' Hw' Heq. exact (co_unique n w Hok _ _ _ _ _ _ _ _ _ _ _ Ht' Ht Hw' eq_refl Heq).
  - eexists. split; [unfold exec; simpl; by rewrite Ht, Hrep|]. simpl. by rewrite lookup_insert_eq.
Qed.

(** An answer reaches the caller. While an unanswered call waits on a
    running connection whose task is about to read, the response that bears its number, whatever it says,
    completes it in three steps that are always possible: the broker reads it
    and the entry of the call is gone, the call is woken, and its caller has
    the result: the host gets it, or the app that asked gets exactly one
    [Response] with the number of its own [Invoke]. *)
Lemma answer_reaches_caller config n w (id : call_id) o (a : CallArgs) hd rid hello g (resp : Response) :
  reachable parse config n w -> (n + 1 < U64_SIZE)%N ->
  tasks w !! id = Some (TCall o a (CAwaitRemote hd rid)) -> replies (heap w) !! id = None ->
  conns w !! hd.(SessionHandle.pending_out) = Some (SRunning hello g) ->
  busy w !! hd.(SessionHandle.pending_out) = None -> resp.(Response.req_id) = rid ->
  let c := hd.(SessionHandle.pending_out) in
  exists w', run parse w [LFrame c (BusFrame.Response resp); LReply id; LContinue id] = Some w'
    /\ pending_of (heap w') c !! rid = None
    /\ match o with
       | OHost => results w' !! id = Some resp.(Response.result) /\ tasks w' !! id = None
       | OApp d k => exists w'', exec parse w' (LContinue id) = Some w'' /\ tasks w'' !! id = None
           /\ chan_queue (heap w'') d = chan_queue (heap w') d
              ++ (if chan_open (heap w') d
                  then [BusFrame.Response {| Response.req_id := k; Response.result := resp.(Response.result) |}]
                  else [])
       | OProbe _ _ => True
       end.
Proof.
  intros Hr Hb Ht Hn Hc Hbu Hid c. pose proof (reachable_calls_ok parse config n w Hr Hb) as Hok.
  destruct (co_wait n w Hok _ _ _ _ _ _ Ht eq_refl) as (Hp & _ & _). specialize (Hp Hn).
  fold c in Hc, Hp, Hbu. set (h := wake (heap w) c resp).
  set (w1 := set_job c None (set_heap h (set_broker (broker w) (log_in c (BusFrame.Response resp) w)))).
  set (w2 := put_task id (TCall o a (CDone resp.(Response.result))) w1).
  assert (Hx1 : exec parse w (LFrame c (BusFrame.Response resp)) = Some w1)
    by (unfold exec; simpl; by rewrite Hc, Hbu).
  assert (Hrep : replies (heap w1) !! id = Some resp).
  { unfold w1, h, wake. simpl. rewrite Hid, Hp. simpl. apply lookup_insert_eq. }
  assert (Hpen : pending_of (heap w1) c !! rid = None).
  { unfold w1, h, wake. simpl. rewrite Hid, Hp. change (pending_of (set_replies ?r ?h0)) with (pending_of h0).
    rewrite pending_of_set, decide_True by done. apply lookup_delete_eq. }
  assert (Hx2 : exec parse w1 (LReply id) = Some w2).
  { unfold exec. cbn [exec_conn exec_task]. change (tasks w1) with (tasks w). by rewrite Ht, Hrep. }
  assert (Ht2 : tasks w2 !! id = Some (TCall o a (CDone resp.(Response.result)))) by apply lookup_insert_eq.
  cbn [run]. rewrite Hx1. cbn [mbind option_bind]. rewrite Hx2. cbn [mbind option_bind].
  unfold exec at 1. cbn [exec_conn exec_task]. rewrite Ht2. eexists. split; [done|].
  destruct o as [|d k|s gen]; cbn [call_continue].
  - split_and!; [exact Hpen|apply lookup_insert_eq|apply lookup_delete_eq].
  - split; [exact Hpen|]. eexists. split.
    { unfold exec. cbn [exec_conn exec_task]. unfold put_task at 1. cbn [tasks set_tasks].
      rewrite lookup_insert_eq. done. }
    split; [apply lookup_delete_eq|]. cbn [heap drop_task set_tasks set_heap].
    destruct (chan_send_spec (heap w1) d (BusFrame.Response
      {| Response.req_id := k; Response.result := resp.(Response.result) |})) as [_ Hq].
    etransitivity; [exact (Hq d)|]. f_equal. change (heap (put_task _ _ _)) with (heap w1).
    destruct (chan_open (heap w1) d) eqn:Ho; [by rewrite decide_True|by rewrite decide_False by (by intros [_ ?])].
  - split; [|done]. destruct (match resp.(Response.result) with Ok _ => _ | _ => _ end); exact Hpen.
Qed.

(** The sender of a waiting call is alive: the call itself keeps its table. *)
Lemma sender_alive config n w id o a hd rid :
  reachable parse config n w -> (n + 1 < U64_SIZE)%N ->
  tasks w !! id = Some (TCall o a (CAwaitRemote hd rid)) ->
  sender_dropped w id hd.(SessionHandle.pending_out) rid = false.
Proof.
  intros Hr Hb Ht. pose proof (reachable_calls_ok parse config n w Hr Hb) as Hok.
  destruct (co_wait n w Hok _ _ _ _ _ _ Ht eq_refl) as (Hz & _).
  unfold sender_dropped. case_bool_decide as Hn; [|done]. rewrite (Hz Hn).
  rewrite bool_decide_eq_true_2 by done. simpl. apply negb_false_iff.
  unfold tables_alive. apply orb_true_iff. right. apply existsb_exists.
  exists (id, TCall o a (CAwaitRemote hd rid)). split.
  - by apply list_elem_of_In, elem_of_map_to_list.
  - by apply bool_decide_eq_true_2.
Qed.

(** C23: a pending call never learns that the connection is gone. Its clone of
    the session handle keeps the pending table, and with it the call's own
    sender, alive, so the [ConnectionClosed] arm of [call_with_timeout] is
    unreachable: in no reachable world can a call's receiver observe a dropped
    sender. *)
Theorem connection_closed_unreachable config n w (id : call_id) :
  reachable parse config n w -> (n + 1 < U64_SIZE)%N ->
  exec parse w (LRxClosed id) = None.
Proof.
  intros Hr Hb. unfold exec. simpl.
  destruct (tasks w !! id) as [[o a pc| | | |]|] eqn:Ht; try done. destruct pc; try done.
  by rewrite (sender_alive _ _ _ _ _ _ _ _ Hr Hb Ht).
Qed.

Lemma closed_stays n w l w' c was :
  structural n w -> exec parse w l = Some w' ->
  conns w !! c = Some (SClosed was) -> conns w' !! c = Some (SClosed was).
Proof.
  intros Hst Hx Hc. destruct (exec_conns_upd parse w l w' Hx) as [->|(c0 & pc0 & -> & Hf)]; [done|].
  destruct (decide (c0 = c)) as [->|Hne]; [|by rewrite lookup_insert_ne].
  rewrite lookup_insert_eq. inversion Hf; subst; try congruence.
  apply (str_conn_ids _ w Hst) in Hc. lia.
Qed.

Lemma abandoned_exec config n w l w' id o a hd rid :
  reachable parse config n w -> (n + 1 < U64_SIZE)%N -> exec parse w l = Some w' ->
  l <> LDrop id -> abandoned w id o a hd rid -> abandoned w' id o a hd rid.
Proof.
  intros Hr Hb Hx Hnd (Ht & Hrep & Hz & was & Hc).
  pose proof (reachable_structural parse config n w Hr ltac:(lia)) as Hst.
  pose proof (reachable_calls_ok parse config n w Hr Hb) as Hok.
  pose proof (sender_alive _ _ _ _ _ _ _ _ Hr Hb Ht) as Hal.
  split_and!; [| |done|].
  - destruct (exec_task_stays parse n w l w' id _ Hst Hx Ht) as [|Hl]; [done|exfalso].
    destruct Hl as [->|[[r ->]|[->|[->|[->|[->|Hl]]]]]]; [..|by apply Hnd]; unfold exec in Hx; simpl in Hx; rewrite Ht in Hx;
      simpl in Hx; rewrite ?Hrep, ?Hal, ?Hz in Hx; done.
  - destruct (exec_tables parse w l w' Hx)
      as [_ _ _ _ ->| ? ? ? _ _ _ _ ->|c hello g resp _ Hcr ->|i ? ? ? ? _ _ ->|i ? ? ? ? _ _ ->];
      try done. unfold wake. destruct (pending_of _ c !! _) as [i|] eqn:Hp; [|done]. simpl.
    rewrite lookup_insert_ne; [done|]. intros ->.
    destruct (co_pending n w Hok _ _ _ Hp) as (_ & _ & Hw). destruct (Hw _ _ _ Ht) as [_ Hw'].
    destruct (Hw' _ _ eq_refl) as [Heq _]. rewrite Heq in Hc. congruence.
  - exists was. by eapply closed_stays.
Qed.

(** C24: a call without timeout hangs when its connection ends. Once the
    connection a call waits on is closed and the call unanswered, no run,
    however long, moves the call unless its own caller gives it up: nothing
    wakes it and it returns no error. *)
Theorem abandoned_call_hangs config n w w' (id : call_id) o (a : CallArgs) hd rid ls :
  reachable parse config n w -> (n + N.of_nat (length ls) + 1 < U64_SIZE)%N ->
  abandoned w id o a hd rid -> LDrop id ∉ ls -> run parse w ls = Some w' ->
  tasks w' !! id = Some (TCall o a (CAwaitRemote hd rid)).
Proof.
  revert n w. induction ls as [|l ls IH]; intros n w Hr Hb Hab Hnd Hrun; simpl in Hrun.
  - simplify_eq. apply Hab.
  - apply bind_Some in Hrun as (w1 & Hx & Hrun). simpl length in Hb.
    apply not_elem_of_cons in Hnd as [Hl Hnd].
    apply (IH (n + 1)%N w1); [by eapply reachable_step | lia | | done..].
    by eapply abandoned_exec; [exact Hr|lia| | |].
Qed.

(** ** Termination *)

Lemma call_step_enabled b h id a pc :
  0 < steps_left pc -> exists h' pc', call_step (Q := Q) b h id a pc = Some (h', pc').
Proof.
  destruct (call_step b h id a pc) as [[h' pc']|] eqn:Hs; [eauto|].
  destruct pc; simpl in *; (done || lia).
Qed.

Lemma call_step_decreases b h id a pc h' pc' :
  call_step (Q := Q) b h id a pc = Some (h', pc') -> steps_left pc' < steps_left pc.
Proof.
  destruct pc; simpl; intros Hs; simplify_eq; simpl.
  - unfold call_local. repeat case_match; simpl; lia.
  - unfold call_catalog. repeat case_match; simpl; lia.
  - unfold call_registry. repeat case_match; simpl; lia.
  - unfold call_session. repeat case_match; simpl; lia.
  - unfold call_register in Hs. simplify_eq/=. lia.
  - unfold call_send in Hs. destruct (chan_send _ _ _); simplify_eq/=; lia.
Qed.

Lemma call_runs : forall k w id o a pc, steps_left pc <= k ->
  tasks w !! id = Some (TCall o a pc) ->
  exists j w1 pc1, j <= k /\ run parse w (replicate j (LStep id)) = Some w1
    /\ tasks w1 !! id = Some (TCall o a pc1) /\ steps_left pc1 = 0.
Proof.
  induction k as [|k IH]; intros w id o a pc Hk Ht.
  - exists 0, w, pc. simpl. split_and!; [lia|done|done|lia].
  - destruct (decide (steps_left pc = 0)) as [Hz|Hz].
    { exists 0, w, pc. simpl. split_and!; [lia|done..]. }
    destruct (call_step_enabled (broker w) (heap w) id a pc) as (h' & pc' & Hst); [lia|].
    pose proof (call_step_decreases _ _ _ _ _ _ _ Hst) as Hl.
    set (w1 := put_task id (TCall o a pc') (set_heap h' w)).
    destruct (IH w1 id o a pc') as (j & w2 & pc2 & Hj & Hrun & Ht2 & Hz2); [lia| |].
    { simpl. by rewrite lookup_insert_eq. }
    exists (S j), w2, pc2. split_and!; [lia| |done|done].
    simpl. unfold exec. simpl. by rewrite Ht, Hst.
Qed.

(** A call with a timeout finishes. From any world, a call takes at most
    five steps of its own until it is done or waits, each of them is enabled
    whatever the other tasks do, and while it waits its timer is enabled and
    finishes it with the timeout error. *)
Lemma call_terminates w (id : call_id) o (a : CallArgs) pc :
  a.(CallArgs.timeout) <> 0%N ->
  tasks w !! id = Some (TCall o a pc) ->
  exists j w1, j <= 5 /\ run parse w (replicate j (LStep id)) = Some w1
    /\ ((exists r, tasks w1 !! id = Some (TCall o a (CDone r)))
        \/ exists w2, exec parse w1 (LTimer id) = Some w2
            /\ tasks w2 !! id = Some (TCall o a (CDone (Err (timeout_error a))))).
Proof.
  intros Hto Ht.
  destruct (call_runs 5 w id o a pc) as (j & w1 & pc1 & Hj & Hrun & Ht1 & Hz); [|done|].
  { destruct pc; simpl; lia. }
  exists j, w1. split_and!; [done|done|]. destruct pc1; simpl in Hz; try lia.
  - right. eexists. split; [unfold exec; simpl; rewrite Ht1, bool_decide_eq_false_2 by done; done|].
    simpl. by rewrite lookup_insert_eq.
  - right. eexists. split; [unfold exec; simpl; rewrite Ht1, bool_decide_eq_false_2 by done; done|].
    simpl. by rewrite lookup_insert_eq.
  - left. eauto.
Qed.

End guarantees.

(** * The run *)

Section example.

(** Two tokens for [echo] are used; the connection with the second one
    registers first. *)
Definition script_race : list Label :=
  [LIssueToken (Some 5%N) 7 "echo"; LAccept;
   LHello 0 (Ok (Some (BusFrame.Hello echo_hello))) true;
   LIssueToken (Some 6%N) 7 "echo"; LAccept;
   LHello 1 (Ok (Some (BusFrame.Hello echo_hello2))) true;
   LSession 0; LSession 0; LSession 1; LSession 1; LSession 1; LAck 1 true; LAttach 1].
Definition race_world : World (Fifo BusFrame) := run_example script_race.

Lemma example_reachable ls :
  bool_decide (is_Some (run no_capabilities (init (Q := Fifo BusFrame) BrokerConfig.default) ls)) = true ->
  reachable no_capabilities BrokerConfig.default (N.of_nat (length ls)) (run_example ls).
Proof.
  intros [w Hw]%bool_decide_eq_true_1. unfold run_example. rewrite Hw. simpl.
  apply (run_reachable _ _ _ 0 (init BrokerConfig.default)); [apply reachable_init | done].
Qed.

Local Ltac by_compute :=
  solve [apply (bool_decide_unpack _); vm_compute; exact I | vm_compute; reflexivity].

Lemma waiting_reachable : reachable no_capabilities BrokerConfig.default waiting_steps waiting.
Proof. apply example_reachable. reflexivity. Qed.

Lemma auth_gate_witness :
  BusFrame.Invoke routed_invoke ∈ frames_to waiting 0
  /\ exists hello g, registered waiting 0 hello g
    /\ exists d, d ∈ hello.(HelloRequest.methods) /\ d.(MethodDecl.name) = "ping"
         /\ (d.(MethodDecl.requires_auth) = true -> Some "ada" <> None).
Proof.
  assert (Hin : BusFrame.Invoke routed_invoke ∈ frames_to waiting 0) by by_compute.
  split; [exact Hin|].
  exact (auth_gate no_capabilities _ waiting_steps waiting 0 _ waiting_reachable eq_refl Hin).
Defined.

Lemma event_provenance_witness :
  let ev := Event.set_from (Some "echo") up_event in
  BusFrame.Event ev ∈ frames_to waiting 2
  /\ exists hello g pub hello' g', registered waiting 2 hello g /\ registered waiting pub hello' g'
    /\ Some "echo" = Some hello'.(HelloRequest.service)
    /\ hello'.(HelloRequest.service) <> hello.(HelloRequest.service).
Proof.
  intros ev. assert (Hin : BusFrame.Event ev ∈ frames_to waiting 2) by by_compute.
  split; [exact Hin|].
  exact (event_provenance no_capabilities _ waiting_steps waiting 2 ev waiting_reachable eq_refl Hin).
Defined.

Lemma app_calls_stamped_witness :
  exists hello g, registered waiting 2 hello g /\ Some "app" = Some hello.(HelloRequest.service).
Proof.
  exact (app_calls_stamped no_capabilities _ waiting_steps waiting 4 2 9 routed_args
    (CAwaitRemote echo_handle 1) waiting_reachable eq_refl ltac:(vm_compute; reflexivity)).
Defined.

Lemma wire_order_witness : exists a l, wire_of waiting 2 = BusFrame.HelloAck a :: l.
Proof.
  apply (wire_order no_capabilities _ waiting_steps waiting 2 (SRunning app_hello 2)
    waiting_reachable eq_refl ltac:(vm_compute; reflexivity)) with (hello := app_hello) (g := 2%N).
  reflexivity.
Defined.

Lemma registry_follows_connections_witness :
  Registry.get (reg waiting) "echo" <> None /\ tx_distinct (reg waiting).
Proof.
  split; [vm_compute; discriminate|].
  apply (registry_follows_connections no_capabilities _ waiting_steps waiting waiting_reachable eq_refl).
Defined.

Lemma racing_registrations_witness :
  exists w', exec no_capabilities race_world (LSession 0) = Some w'
    /\ conns w' !! 1%N = Some (SRunning echo_hello2 2)
    /\ forall s e, Registry.get (reg w') s = Some e -> e.(ServiceEntry.tx) <> 1%N.
Proof.
  destruct (racing_registrations no_capabilities BrokerConfig.default
    (N.of_nat (length script_race)) race_world 0 1 echo_hello echo_hello2 1 2 1 (SRunning echo_hello2 2)
    (example_reachable script_race eq_refl) eq_refl ltac:(vm_compute; reflexivity)
    ltac:(vm_compute; reflexivity) eq_refl eq_refl eq_refl eq_refl) as (w' & Hx & Hc & _ & Hall).
  exists w'. split; [exact Hx|]. split; [exact Hc|].
  exact (Hall [] w' eq_refl eq_refl).
Defined.

Lemma call_reaches_service_witness :
  exists hd rid, (call_begin (broker waiting) (heap waiting) 99 routed_args).2 = CAwaitRemote hd rid
    /\ hd.(SessionHandle.pending_out) = 0%N.
Proof.
  destruct (call_reaches_service no_capabilities _ waiting_steps waiting 0 echo_hello 1 99 routed_args
    waiting_reachable eq_refl ltac:(vm_compute; reflexivity) ltac:(vm_compute; reflexivity)) as (hd & rid & Hpc & Hc & _).
  - vm_compute. reflexivity.
  - reflexivity.
  - vm_compute. reflexivity.
  - exists ping_decl. split; [reflexivity | discriminate].
  - eauto.
Defined.

Lemma tokens_bound_admissions_witness : admissions waiting "echo" = 1
  /\ admissions waiting "echo" + unused waiting "echo" <= 1.
Proof.
  split; [vm_compute; reflexivity|].
  apply (tokens_bound_admissions no_capabilities BrokerConfig.default waiting "echo" script_waiting);
    vm_compute; reflexivity.
Defined.

Lemma reply_correlation_witness :
  replies (heap answered) !! 4%N = Some pong_response
  /\ exists w', exec no_capabilities answered (LReply 4) = Some w'
       /\ tasks w' !! 4%N = Some (TCall (OApp 2 9) routed_args (CDone (Ok (bytes_lit "pong")))).
Proof.
  assert (Hr : replies (heap answered) !! 4%N = Some pong_response) by (vm_compute; reflexivity).
  split; [exact Hr|].
  apply (reply_correlation no_capabilities _ (N.of_nat (length script_answered)) answered 4
    (OApp 2 9) routed_args echo_handle 1 pong_response (example_reachable script_answered eq_refl)
    eq_refl ltac:(vm_compute; reflexivity) Hr).
Defined.

Lemma answer_reaches_caller_witness :
  exists w', run no_capabilities waiting [LFrame 0 (BusFrame.Response pong_response); LReply 4; LContinue 4] = Some w'
    /\ pending_of (heap w') 0 !! 1%N = None
    /\ exists w'', exec no_capabilities w' (LContinue 4) = Some w'' /\ tasks w'' !! 4%N = None.
Proof.
  destruct (answer_reaches_caller no_capabilities _ waiting_steps waiting 4 (OApp 2 9) routed_args echo_handle 1
    echo_hello 1 pong_response waiting_reachable eq_refl) as (w' & Hrun & Hp & w'' & Hx & Ht & _);
    [vm_compute; reflexivity..|].
  exists w'. split; [exact Hrun|]. split; [exact Hp|]. exists w''. split; [exact Hx|exact Ht].
Defined.

Lemma connection_closed_unreachable_witness :
  tasks abandoned_world !! 4%N = Some (TCall OHost untimed_args (CAwaitRemote echo_handle 1))
  /\ exec no_capabilities abandoned_world (LRxClosed 4) = None.
Proof.
  split; [vm_compute; reflexivity|].
  apply (connection_closed_unreachable no_capabilities BrokerConfig.default
    (N.of_nat (length script_abandoned)) abandoned_world 4); [by apply example_reachable | reflexivity].
Defined.

Lemma abandoned_call_hangs_witness :
  exists w', run no_capabilities abandoned_world [LAccept; LCall routed_args; LStep 6] = Some w'
  /\ tasks w' !! 4%N = Some (TCall OHost untimed_args (CAwaitRemote echo_handle 1)).
Proof.
  destruct (run no_capabilities abandoned_world [LAccept; LCall routed_args; LStep 6]) as [w'|] eqn:Hrun.
  - exists w'. split; [reflexivity|].
    apply (abandoned_call_hangs no_capabilities BrokerConfig.default
      (N.of_nat (length script_abandoned)) abandoned_world w' 4 OHost untimed_args echo_handle 1
      [LAccept; LCall routed_args; LStep 6]); [by apply example_reachable | reflexivity | | | exact Hrun];
      [|intros Hin; repeat (apply elem_of_cons in Hin as [[=]|Hin]); exact (not_elem_of_nil _ Hin)].
    split; [vm_compute; reflexivity|]. split; [vm_compute; reflexivity|]. split; [reflexivity|].
    exists (Some (echo_hello, 1%N)). vm_compute. reflexivity.
  - exfalso. vm_compute in Hrun. discriminate Hrun.
Defined.

Lemma call_terminates_witness :
  exists j w1, j <= 5 /\ run no_capabilities waiting (replicate j (LStep 4)) = Some w1
    /\ ((exists r, tasks w1 !! 4%N = Some (TCall (OApp 2 9) routed_args (CDone r)))
        \/ exists w2, exec no_capabilities w1 (LTimer 4) = Some w2
            /\ tasks w2 !! 4%N = Some (TCall (OApp 2 9) routed_args (CDone (Err (timeout_error routed_args))))).
Proof.
  apply (call_terminates no_capabilities waiting 4 (OApp 2 9) routed_args (CAwaitRemote echo_handle 1)).
  - discriminate.
  - vm_compute. reflexivity.
Defined.

End example.
