(* ===== verification/Events.v ===== *)
(** The events of a publisher.  Fan-outs of several publishers interleave at
    every access to the registry and to a channel; along any such run the
    events handed to a connection are the sends of the fan-outs, and those of
    one publisher are the publications read from it, each at most once and in
    their order: all that its service subscribed to, for as long as the
    connection is the registered one and its writer lives. *)

From stdpp Require Import prelude gmap strings.
From S2P Require Import Prelude Frame Runtime Registry Broker Session System Invariant Steps History Safety Guarantees.

Definition event_of (f : BusFrame) : option Event :=
  match f with BusFrame.Event ev => Some ev | _ => None end.
Definition publish_of (f : BusFrame) : option Event :=
  match f with BusFrame.Publish ev => Some ev | _ => None end.

(** [app] subscribes to [echo.]; [echo] publishes three events, and the steps
    of [app] and of the writers come in between. *)
Definition topic_event (topic : string) : Event :=
  {| Event.topic := topic; Event.payload := bytes_lit "1"; Event.from := None |}.
Definition script_subscribed : list Label := script_connect ++ [LFrame 2 (BusFrame.Subscribe "echo.")].
Definition script_published : list Label :=
  [LFrame 0 (BusFrame.Publish (topic_event "echo.up")); LSession 0;
   LFrame 2 (BusFrame.Publish (topic_event "app.up")); LSession 0; LSession 2; LSession 0;
   LFrame 0 (BusFrame.Publish (topic_event "other")); LSession 0; LWriter 2 true;
   LFrame 0 (BusFrame.Publish (topic_event "echo.down")); LSession 0; LSession 0].
Definition subscribed_world : World (Fifo BusFrame) := run_example script_subscribed.
Definition evented : World (Fifo BusFrame) := run_example (script_subscribed ++ script_published).

Section feed.
Context {Q : Type} `{LawfulMpsc Q BusFrame}.
Context (parse : bytes -> result CapabilityResponse string).
Implicit Types w : World Q.

(** The event a step sends to [c], with the connection of its publisher. *)
Definition fed w (l : Label) (c : conn_id) : list (conn_id * Event) :=
  match l with
  | LSession p =>
      match busy w !! p with
      | Some (JFan ev (FSend tx _)) =>
          if decide (tx = c) then if chan_open (heap w) c then [(p, ev)] else [] else []
      | _ => []
      end
  | _ => []
  end.

(** The publication a step reads from [p], stamped, when service [svc]
    subscribes to it at that moment. *)
Definition read_for w (l : Label) (p : conn_id) (svc : string) : list Event :=
  match l with
  | LFrame p' (BusFrame.Publish ev) =>
      match conns w !! p with
      | Some (SRunning hello _) =>
          let from := hello.(HelloRequest.service) in
          if decide (p' = p /\ svc ∈ targets (Broker.subscriptions (broker w)) from ev.(Event.topic))
          then [Event.set_from (Some from) ev] else []
      | _ => []
      end
  | _ => []
  end.

(** What a step does, collected along a run. *)
Fixpoint along {A} (f : World Q -> Label -> list A) w (ls : list Label) : list A :=
  match ls with
  | [] => []
  | l :: ls => f w l ++ match exec parse w l with Some w' => along f w' ls | None => [] end
  end.
Definition feed w (ls : list Label) (c : conn_id) : list (conn_id * Event) :=
  along (fun w l => fed w l c) w ls.
Definition published w (ls : list Label) (p : conn_id) (svc : string) : list Event :=
  along (fun w l => read_for w l p svc) w ls.

(** The part of publisher [p]. *)
Definition from_publisher (p : conn_id) (l : list (conn_id * Event)) : list Event :=
  (filter (fun x => x.1 = p) l).*2.

(** What the fan-out of [p] has still to send to the service [svc], to whose
    connection [c] it may be about to send. *)
Definition owed w (p c : conn_id) (svc : string) : list Event :=
  match busy w !! p with
  | Some (JFan ev pc) =>
      (if decide (fan_sends pc = Some c) then [ev] else [])
      ++ (if decide (svc ∈ fan_left pc) then [ev] else [])
  | _ => []
  end.

(** [P] holds before every step of the run. *)
Fixpoint always (P : World Q -> Prop) w (ls : list Label) : Prop :=
  match ls with
  | [] => True
  | l :: ls => P w /\ match exec parse w l with Some w' => always P w' ls | None => True end
  end.

(** [c] is the registered connection of [svc]. *)
Definition entry_of (svc : string) (c : conn_id) w : Prop :=
  ServiceEntry.tx <$> Registry.get (reg w) svc = Some c.

(** The events sent to a connection, those queued for its writer included. *)
Definition events_to w (c : conn_id) : list Event := omap event_of (frames_to w c).

(** The connection has no channel yet. *)
Definition unborn w (c : conn_id) : Prop := forall pc, conns w !! c = Some pc ->
  match pc with SHandshake | SAccepted _ | SNumbered _ _ | SDrawn _ _ _ => True | _ => False end.

(** What one step does to a connection. *)
Inductive flow w (l : Label) w' (c : conn_id) : Prop :=
| flow_kept : chan_open (heap w') c = chan_open (heap w) c ->
    events_to w' c = events_to w c ++ (fed w l c).*2 -> flow w l w' c
| flow_born : unborn w c -> fed w l c = [] ->
    events_to w' c = events_to w c -> flow w l w' c
| flow_dropped : ~ unborn w c -> chan_open (heap w') c = false -> flow w l w' c.

(** * One step *)

(** A step keeps count of the events for a connection whose writer has not
    been dropped. *)
Definition intact w (c : conn_id) : Prop := unborn w c \/ chan_open (heap w) c = true.

Lemma fed_none w l c : (forall p, l <> LSession p) -> fed w l c = [].
Proof. intros Hl. destruct l; try done. by edestruct Hl. Qed.

Lemma events_to_app w c : events_to w c = omap event_of (wire_of w c) ++ omap event_of (chan_queue (heap w) c).
Proof. unfold events_to, frames_to. apply omap_app. Qed.

(** A step that appends to the queue of [c]. *)
Lemma flow_queue w l w' c k :
  wire w' = wire w -> chan_open (heap w') c = chan_open (heap w) c ->
  chan_queue (heap w') c = chan_queue (heap w) c ++ k ->
  omap event_of k = (fed w l c).*2 -> flow w l w' c.
Proof.
  intros Hw Ho Hq Hk. apply flow_kept; [done|]. rewrite !events_to_app, Hq, omap_app, <-Hk.
  unfold wire_of. rewrite Hw. by rewrite app_assoc.
Qed.

Lemma flow_same w l w' c :
  fed w l c = [] -> wire w' = wire w -> channels (heap w') = channels (heap w) -> flow w l w' c.
Proof.
  intros Hl Hw Hc. apply (flow_queue _ _ _ _ []); unfold chan_open, chan_queue;
    rewrite ?Hc, ?app_nil_r, ?Hl; done.
Qed.

(** A step that writes a frame which is no event. *)
Lemma flow_written w l w' c c0 f :
  fed w l c = [] -> event_of f = None ->
  wire w' = wire (log_out c0 f w) -> channels (heap w') = channels (heap w) -> flow w l w' c.
Proof.
  intros Hl Hf Hw Hc. apply flow_kept; [unfold chan_open; by rewrite Hc|].
  rewrite Hl, app_nil_r, !events_to_app by done. unfold chan_queue. rewrite Hc. f_equal.
  replace (wire_of w' c) with (wire_of (log_out c0 f w) c) by (unfold wire_of; by rewrite Hw).
  rewrite frames_log_out. case_decide as Hcc; [|done]. subst. rewrite omap_app. simpl. rewrite Hf.
  by rewrite app_nil_r.
Qed.

(** A step that drops the receiver of [c0], whose other queues stay. *)
Lemma flow_drop w l w' c c0 h pc :
  fed w l c = [] -> conns w !! c0 = Some pc -> ~ unborn w c0 ->
  wire w' = wire w -> channels (heap w') = channels (chan_drop_rx h c0) ->
  (forall c, c <> c0 -> chan_queue h c = chan_queue (heap w) c /\ chan_open h c = chan_open (heap w) c) ->
  flow w l w' c.
Proof.
  intros Hl Hpc Hne Hw Hc Hh. destruct (decide (c = c0)) as [->|Hcc].
  - apply flow_dropped; [done|]. pose proof (chan_drop_rx_open h c0 c0) as Ho.
    rewrite decide_True in Ho by done. unfold chan_open in *. by rewrite Hc.
  - destruct (Hh c Hcc) as [Hq Ho]. pose proof (chan_drop_rx_open h c0 c) as Ho'.
    pose proof (chan_drop_rx_queue h c0 c) as Hq'. rewrite decide_False in Ho' by done. rewrite decide_False in Hq' by done.
    apply (flow_queue _ _ _ _ []); [done|unfold chan_open in *; by rewrite Hc, Ho'| |by rewrite Hl].
    unfold chan_queue in *. by rewrite Hc, Hq', app_nil_r.
Qed.

(** A step that sends a frame which is no event on [c0]. *)
Lemma flow_send w l w' c c0 f h h' :
  fed w l c = [] -> event_of f = None ->
  wire w' = wire w -> heap w' = h' -> chan_send h c0 f = Some h' -> channels h = channels (heap w) ->
  flow w l w' c.
Proof.
  intros Hl Hf Hw Hh Hs Hc. destruct (chan_send_Some h c0 f h' Hs) as (_ & Hsame & Hq).
  apply (flow_queue _ _ _ _ (if decide (c = c0) then [f] else [])); [done|..].
  - rewrite Hh, (same_open _ _ Hsame c). unfold chan_open. by rewrite Hc.
  - rewrite Hh, Hq. unfold chan_queue. rewrite Hc. case_decide; [by subst|by rewrite app_nil_r].
  - rewrite Hl. case_decide; [|done]. simpl. by rewrite Hf.
Qed.

(** The steps of a session's task. *)
Lemma flow_session n w p w' c :
  structural n w -> exec_conn w (LSession p) = Some w' -> flow w (LSession p) w' c.
Proof.
  intros Hst Hx. apply exec_session in Hx.
  assert (Hidle : forall pc, conns w !! p = Some pc -> holds_tables pc = false -> fed w (LSession p) c = [])
    by (intros pc Hc Hh; simpl; by rewrite (no_job n w p pc Hst Hc Hh)).
  destruct Hx as [hl Hc|hl i Hc|hl g i Hc|hl g pc job b h t job' Hc Hh Hr Hj Hsj].
  - apply flow_same; try done. by eapply Hidle.
  - apply flow_same; try done. by eapply Hidle.
  - pose proof (Hidle _ Hc eq_refl) as Hf. destruct (decide (c = p)) as [->|Hne].
    + apply flow_born; [intros pc Hpc; by simplify_eq|done|]. rewrite !events_to_app. f_equal. simpl.
      rewrite chan_queue_new, decide_True by done. unfold chan_queue.
      destruct (channels (heap w) !! p) as [q|] eqn:Hq; [|done].
      destruct (str_channel n w Hst p q Hq) as (hl' & g' & pc' & Hpc & Hrg). simplify_eq.
    + apply (flow_queue _ _ _ _ []); [done| | |by rewrite Hf]; unfold chan_open; simpl.
      * by rewrite lookup_insert_ne.
      * by rewrite chan_queue_new, decide_False, app_nil_r.
  - assert (Hw : wire (spawn_opt t (set_job p job' (set_heap h (set_broker b w)))) = wire w) by by destruct t.
    assert (Hh' : heap (spawn_opt t (set_job p job' (set_heap h (set_broker b w)))) = h) by by destruct t.
    destruct job as [|ev fpc| |]; simpl in Hsj.
    1,3,4: by injection Hsj as <- <- <- <-; apply flow_same; simpl; rewrite ?Hj.
    destruct (fan_step_spec (broker w) (heap w) ev fpc) as [Hs Hq].
    destruct (fan_step _ _ _ _) as [h1 pc1]. injection Hsj as <- <- <- <-.
    eapply flow_queue; [exact Hw|rewrite Hh'; exact (same_open _ _ Hs c)|rewrite Hh'; exact (Hq c)|].
    simpl. rewrite Hj. destruct fpc as [|tx l]; simpl; [done|].
    destruct (decide (tx = c)) as [->|Hne].
    + destruct (chan_open (heap w) c); [by rewrite decide_True|by rewrite decide_False by (by intros [_ ?])].
    + rewrite decide_False; [done|]. intros [[= ?] _]. done.
Qed.

Lemma flow_hello w c0 read wr w' c :
  exec_conn w (LHello c0 read wr) = Some w' -> flow w (LHello c0 read wr) w' c.
Proof.
  intros Hx. simpl in Hx. destruct (conns w !! c0) as [[]|] eqn:Hc; try done.
  destruct (serve_hello _ _) as [[b out] pc] eqn:Hsh. injection Hx as <-.
  assert (Hout : out = None \/ exists e, out = Some (error_frame e)).
  { destruct (serve_hello_cases _ _ _ _ _ Hsh) as (tk & _ & [(_ & Ho)|(hello & _ & -> & _)]); auto. }
  destruct Hout as [->|[e ->]]; [by apply flow_same; destruct read as [[]|]|].
  destruct wr; [|by apply flow_same; destruct read as [[]|]].
  by eapply (flow_written _ _ _ _ c0 (error_frame e)); destruct read as [[]|].
Qed.

Lemma flow_writer w c0 wr w' c :
  exec_conn w (LWriter c0 wr) = Some w' -> flow w (LWriter c0 wr) w' c.
Proof.
  intros Hx. simpl in Hx.
  assert (Hpc : exists pc q f q', conns w !! c0 = Some pc /\ ~ unborn w c0
    /\ channels (heap w) !! c0 = Some q /\ mpsc_recv q = Some (f, q')
    /\ let h := set_channels (<[c0 := q']> (channels (heap w))) (heap w) in
       w' = if wr then log_out c0 f (set_heap h w) else set_heap (chan_drop_rx h c0) w).
  { destruct (conns w !! c0) as [pc|] eqn:Hc0; [|done].
    assert (Hnu : match pc with SAttach _ _ | SRunning _ _ | SDetached _ _ => True | _ => False end)
      by by destruct pc.
    assert (Hu : ~ unborn w c0) by (intros Hu; specialize (Hu pc Hc0); by destruct pc).
    destruct (channels (heap w) !! c0) as [q|]; simpl in Hx; [|by destruct pc].
    destruct (mpsc_recv q) as [[f q']|] eqn:Hr; [|by destruct pc].
    exists pc, q, f, q'. split_and!; try done. by destruct pc; simplify_eq. }
  destruct Hpc as (pc & q & f & q' & Hpc & Hne & Hq & Hr & ->). cbv zeta.
  destruct (recv_queue w c0 q f q' Hq Hr) as [Hq1 Hq2]. destruct (recv_Some q f q' Hr) as [_ Ha].
  assert (Hoq : rx_alive q = true) by (destruct (rx_alive q) eqn:E; [done|]; by rewrite recv_dead in Hr).
  destruct wr.
  - apply flow_kept.
    + unfold chan_open. simpl. destruct (decide (c = c0)) as [->|Hc].
      * by rewrite lookup_insert_eq, Hq; simpl; rewrite Ha, Hoq.
      * by rewrite lookup_insert_ne.
    + rewrite fed_none, app_nil_r by done. unfold events_to, frames_to. f_equal.
      rewrite frames_log_out. change (wire_of (set_heap _ w)) with (wire_of w). simpl. rewrite Hq2.
      case_decide; [subst c; by rewrite Hq1, <-app_assoc|done].
  - eapply (flow_drop _ _ _ _ c0 _ pc); [done..|]. intros c1 Hc1. rewrite Hq2, decide_False by done.
    split; [done|]. unfold chan_open. simpl. by rewrite lookup_insert_ne.
Qed.

Lemma flow_conn n w l w' c : structural n w -> exec_conn w l = Some w' -> flow w l w' c.
Proof.
  intros Hst Hx. destruct l as [|c0 read wr|c0 wr|c0|c0 f|c0|c0|c0 wr|c0| | | | | | | | | | |]; try done.
  - injection Hx as <-. by apply flow_same.
  - by apply flow_hello.
  - simpl in Hx. destruct (conns w !! c0) as [[]|] eqn:Hc; try done.
    destruct wr; simpl in Hx; injection Hx as <-; [by eapply (flow_written _ _ _ _ c0 (ack_frame _ _))|].
    eapply (flow_drop _ _ _ _ c0 (heap w)); try done. intros Hu. exact (Hu _ Hc).
  - simpl in Hx. destruct (conns w !! c0) as [[]|] eqn:Hc; try done. injection Hx as <-. by apply flow_same.
  - simpl in Hx. destruct (conns w !! c0) as [[]|] eqn:Hc; try done. destruct (busy w !! c0); [done|].
    destruct (serve_frame _ _ _ _ _) as [[[b h] t] job] eqn:Hsf. injection Hx as <-.
    destruct (serve_frame_cases _ _ _ _ _ _ _ _ _ Hsf) as (_ & _ & _ & _ & _ & _ & Hch & _).
    by apply flow_same; destruct t.
  - simpl in Hx. destruct (conns w !! c0) as [[]|] eqn:Hc; try done. destruct (busy w !! c0); [done|].
    injection Hx as <-. by apply flow_same.
  - simpl in Hx. destruct (conns w !! c0) as [[]|] eqn:Hc; try done. destruct (busy w !! c0); [done|].
    injection Hx as <-. eapply (flow_drop _ _ _ _ c0 (heap w)); try done. intros Hu. exact (Hu _ Hc).
  - by apply flow_writer.
  - by eapply flow_session.
Qed.

Lemma flow_task w l w' c : exec_task parse w l = Some w' -> flow w l w' c.
Proof.
  intros Hx. destruct l as [| | | | | | | | | |id|id r|id|id|id|id|id| | |]; try done; simpl in Hx;
    destruct (tasks w !! id) as [[o a pc|c0 resp|svc cr|svc hd|tx]|] eqn:Ht; try done.
  - destruct (call_step _ _ _ _ _) as [[h pc']|] eqn:Hst; [|done]. injection Hx as <-.
    destruct pc; simpl in Hst; simplify_eq; try (by apply flow_same).
    + unfold call_register in Hst. simplify_eq/=. by apply flow_same.
    + unfold call_send in Hst. destruct (chan_send _ _ _) as [h1|] eqn:Hs; simplify_eq; [|by apply flow_same].
      by eapply (flow_send _ _ _ _ _ (invoke_frame _ _) (heap w)).
  - destruct pc; try done. injection Hx as <-. by apply flow_same.
  - destruct pc; try done. destruct (replies _ !! id); [|done]. injection Hx as <-. by apply flow_same.
  - destruct pc; try done. destruct (sender_dropped _ _ _ _); [|done]. injection Hx as <-. by apply flow_same.
  - destruct (bool_decide _); [done|]. destruct pc; try done; injection Hx as <-; by apply flow_same.
  - destruct pc; try done. injection Hx as <-. destruct o; simpl; repeat case_match; by apply flow_same.
  - injection Hx as <-. unfold chan_send_.
    destruct (chan_send (heap w) c0 (BusFrame.Response resp)) as [h'|] eqn:Hs; simpl; [|by apply flow_same].
    by eapply (flow_send _ _ _ _ c0 (BusFrame.Response resp) (heap w)).
  - injection Hx as <-. by apply flow_same.
  - injection Hx as <-. by apply flow_same.
  - injection Hx as <-. unfold shutdown_send.
    destruct (chan_send _ _ _) as [h'|] eqn:Hs; simpl; [|by apply flow_same].
    by eapply (flow_send _ _ _ _ tx BusFrame.Shutdown (heap w)).
  - destruct o; try done. destruct (droppable pc); [|done]. injection Hx as <-. by apply flow_same.
Qed.

Lemma flow_host w l w' c : exec_host w l = Some w' -> flow w l w' c.
Proof.
  intros Hx. destruct l; try done; simpl in Hx; injection Hx as <-; try (by apply flow_same).
  destruct (shutdown_target _ _); by apply flow_same.
Qed.

Lemma flow_exec n w l w' c : structural n w -> exec parse w l = Some w' -> flow w l w' c.
Proof.
  unfold exec. intros Hst Hx. destruct (exec_conn w l) eqn:H1; [simplify_eq; by eapply flow_conn|].
  destruct (exec_task parse w l) eqn:H2; [simplify_eq; by apply flow_task|]. by apply flow_host.
Qed.

(** A connection without a channel had none before. *)
Lemma unborn_before n w l w' c : structural n w -> exec parse w l = Some w' -> unborn w' c -> unborn w c.
Proof.
  intros Hst Hx Hu pc Hc. unfold unborn in Hu. destruct (exec_conns_upd parse w l w' Hx) as [Heq|(c0 & pc0 & Heq & Hf)];
    rewrite Heq in Hu; [by apply Hu|].
  destruct (decide (c = c0)) as [->|Hne]; [|apply Hu; by rewrite lookup_insert_ne].
  specialize (Hu pc0). rewrite lookup_insert_eq in Hu. specialize (Hu eq_refl).
  inversion Hf; subst; simplify_eq; try done.
  apply (str_conn_ids n w Hst) in Hc. lia.
Qed.

Lemma intact_step n w l w' c :
  structural n w -> exec parse w l = Some w' -> intact w' c ->
  intact w c /\ events_to w' c = events_to w c ++ (fed w l c).*2.
Proof.
  intros Hst Hx Hi. unfold intact in *.
  destruct (flow_exec n w l w' c Hst Hx) as [Ho He|Hc Hf He|Hu Ho].
  - split; [|done]. destruct Hi as [Hi|Hi]; [left; by eapply unborn_before|right; congruence].
  - rewrite Hf, app_nil_r. split; [by left|done].
  - exfalso. destruct Hi as [Hi|Hi]; [by apply Hu; eapply unborn_before|congruence].
Qed.

(** What a step reads for a service was read from the publisher. *)
Lemma read_for_read w l p svc from :
  (forall hello g, conns w !! p = Some (SRunning hello g) -> hello.(HelloRequest.service) = from) ->
  read_for w l p svc `sublist_of` Event.set_from (Some from) <$> omap publish_of (frames_read l p).
Proof.
  intros Hfrom. destruct l as [| | | |q f| | | | | | | | | | | | | | |]; try apply sublist_nil_l.
  destruct f as [| | | | | | | | | |ev| | |]; try apply sublist_nil_l. simpl.
  destruct (conns w !! p) as [[]|] eqn:Hc; try apply sublist_nil_l.
  destruct (decide (q = p)) as [->|Hne]; [|rewrite decide_False by naive_solver; apply sublist_nil_l].
  rewrite (Hfrom _ _ eq_refl). simpl. case_decide; [done|apply sublist_nil_l].
Qed.

(** ** What a step leaves owed *)

Lemma from_publisher_app p l1 l2 : from_publisher p (l1 ++ l2) = from_publisher p l1 ++ from_publisher p l2.
Proof. unfold from_publisher. by rewrite filter_app, fmap_app. Qed.

Lemma fed_other w l c p : l <> LSession p -> from_publisher p (fed w l c) = [].
Proof.
  intros Hl. unfold from_publisher. destruct l as [| | | | | | | |q| | | | | | | | | | |]; try done. simpl.
  repeat case_match; try done. rewrite filter_cons, decide_False by (simpl; congruence). done.
Qed.

(** The next access of a fan-out. *)
Lemma owed_fan n w p c svc hello g ev pc h t job' b :
  structural n w -> safe w -> registered w p hello g -> busy w !! p = Some (JFan ev pc) ->
  (forall hl g', registered w c hl g' -> hl.(HelloRequest.service) = svc) ->
  serve_job (broker w) (heap w) hello g (JFan ev pc) = (b, h, t, job') ->
  let left' := match job' with
    | Some (JFan ev pc) => (if decide (fan_sends pc = Some c) then [ev] else [])
        ++ (if decide (svc ∈ fan_left pc) then [ev] else [])
    | _ => [] end in
  (from_publisher p (fed w (LSession p) c) ++ left') `sublist_of` owed w p c svc
  /\ (entry_of svc c w -> chan_open (heap w) c = true ->
      from_publisher p (fed w (LSession p) c) ++ left' = owed w p c svc).
Proof.
  intros Hst Hsafe Hr Hj Hsvc Hsj. destruct (safe_job w Hsafe p _ Hj) as (? & ? & _ & _ & _ & Hnd & _).
  unfold owed. rewrite Hj. simpl fed. rewrite Hj. simpl in Hsj. destruct pc as [[|s l]|tx l]; simpl in Hsj.
  - by injection Hsj as <- <- <- <-.
  - apply NoDup_cons in Hnd as [Hns _]. unfold entry_of.
    destruct (Registry.get (Broker.registry (broker w)) s) as [e|] eqn:He; injection Hsj as <- <- <- <-; simpl.
    + destruct (decide (Some (ServiceEntry.tx e) = Some c)) as [[= Htx]|Hne].
      * assert (s = svc) as ->.
        { destruct (str_entry n w Hst s e He) as (<- & (hl & Hre & -> & _) & _).
          rewrite Htx in Hre. by apply (Hsvc _ _ Hre). }
        rewrite decide_False, decide_True by set_solver. done.
      * split.
        -- repeat case_decide; try done; [set_solver|apply sublist_nil_l].
        -- intros Hen _. destruct (decide (s = svc)) as [->|Hs].
           { unfold reg in Hen. rewrite He in Hen. by destruct Hne. }
           apply decide_ext. set_solver.
    + split.
      * repeat case_decide; try done; [set_solver|apply sublist_nil_l].
      * intros Hen _. apply decide_ext. split; [set_solver|]. intros [Heq|?]%elem_of_cons; [|done].
        unfold reg in Hen. by rewrite Heq, He in Hen.
  - injection Hsj as <- <- <- <-. simpl. destruct (decide (tx = c)) as [->|Hne].
    + destruct (decide (Some c = Some c)) as [_|]; [|done].
      destruct (chan_open (heap w) c); simpl; unfold from_publisher; simpl.
      * by rewrite filter_cons, decide_True.
      * split; [by apply sublist_cons|done].
    + destruct (decide (Some tx = Some c)) as [[= ?]|_]; done.
Qed.

Lemma owed_step n w l w' p c svc :
  structural n w -> safe w -> exec parse w l = Some w' ->
  (forall hl g, registered w c hl g -> hl.(HelloRequest.service) = svc) ->
  (from_publisher p (fed w l c) ++ owed w' p c svc) `sublist_of` (owed w p c svc ++ read_for w l p svc)
  /\ (entry_of svc c w -> chan_open (heap w) c = true ->
      from_publisher p (fed w l c) ++ owed w' p c svc = owed w p c svc ++ read_for w l p svc).
Proof.
  intros Hst Hsafe Hx Hsvc.
  assert (Hsame : busy w' !! p = busy w !! p -> from_publisher p (fed w l c) = [] -> read_for w l p svc = [] ->
    from_publisher p (fed w l c) ++ owed w' p c svc = owed w p c svc ++ read_for w l p svc)
    by (intros Hb -> ->; unfold owed; by rewrite Hb, app_nil_r).
  unfold exec in Hx. destruct (exec_conn w l) as [w1|] eqn:Hx1.
  2: { assert (Hb : busy w' = busy w).
       { destruct (exec_task parse w l) eqn:Hx2; [simplify_eq; by eapply exec_task_busy|by eapply exec_host_busy]. }
       rewrite Hsame; [done|by rewrite Hb|apply fed_other; by intros ->|]. by destruct l. }
  simplify_eq.
  destruct (exec_conn_busy w l w' p Hx1) as [Hb|[(-> & (hello & g & Hc) & Hb)
    |[(f & hello & g & -> & Hc & Hn & Hb)|[(-> & (hello & g & Hc) & Hn & Hb)
    |(pc & hello & g & job & -> & Hc & Hh & Hr & Hj & Hb)]]]].
  - assert (Hd : l = LSession p \/ l <> LSession p).
    { destruct l as [| | | | | | | |q| | | | | | | | | | |]; try (by right).
      destruct (decide (q = p)) as [->|]; [by left|right; congruence]. }
    destruct Hd as [->|Hl].
    + assert (Hn : busy w !! p = None).
      { apply exec_session in Hx1. destruct Hx1 as [hl Hc|hl i Hc|hl g i Hc|hl g pc job b h t job' Hc Hh Hr Hj Hsj];
          [by eapply (no_job n w p)..|]. rewrite busy_set_job, decide_True in Hb by done. rewrite Hj in Hb. subst job'.
        destruct job as [|ev [[|s' l']|tx l']| |]; simpl in Hsj; repeat case_match;
          injection Hsj; intros; simplify_eq; try congruence.
        match goal with He : ?x = _ :: ?x |- _ => apply (f_equal length) in He; simpl in He; lia end. }
      rewrite Hsame; [done|done|by simpl; rewrite Hn|done].
    + assert (Hrd : read_for w l p svc = [] \/ exists ev, l = LFrame p (BusFrame.Publish ev)).
      { destruct l as [| | | |q f| | | | | | | | | | | | | | |]; auto. destruct f; auto. simpl.
        destruct (decide (q = p)) as [->|Hne]; [eauto|]. left. case_match; [|done]. case_match; try done.
        by rewrite decide_False by naive_solver. }
      destruct Hrd as [Hrd|[ev ->]]; [by rewrite Hsame; [|done|apply fed_other|]|].
      (* a [Publish] starts a fan-out *)
      simpl in Hx1. destruct (conns w !! p) as [[]|] eqn:Hc; try done.
      destruct (busy w !! p) eqn:Hn; [done|]. injection Hx1 as <-. simpl in Hb.
      by rewrite lookup_partial_alter_eq in Hb.
  - assert (Ho : owed w' p c svc = [] /\ owed w p c svc = []).
    { unfold owed. by rewrite Hb, (no_job n w p _ Hst Hc eq_refl). }
    destruct Ho as [-> ->]. by rewrite fed_other.
  - assert (Ho : owed w p c svc = []) by (unfold owed; by rewrite Hn).
    rewrite Ho, fed_other by done. unfold owed. rewrite Hb.
    destruct f as [| | | | | | | | | |ev| | |]; try done. simpl. rewrite Hc.
    destruct (decide (svc ∈ _)) as [Hin|Hin]; [rewrite decide_True by done|rewrite decide_False by naive_solver]; done.
  - assert (Ho : owed w' p c svc = [] /\ owed w p c svc = []) by (unfold owed; by rewrite Hb, Hn).
    destruct Ho as [-> ->]. by rewrite fed_other.
  - destruct (serve_job _ _ _ _ _) as [[[b h] t] job'] eqn:Hsj. simpl in Hb. simpl read_for. rewrite app_nil_r.
    destruct job as [|ev fpc| |].
    + unfold owed. rewrite Hb, Hj. injection Hsj as _ _ _ <-. simpl. by rewrite Hj.
    + destruct (owed_fan n w p c svc hello g ev fpc h t job' b) as [Hf1 Hf2]; try done; [by exists pc|].
      unfold owed at 1 3. rewrite Hb. done.
    + unfold owed. rewrite Hb, Hj. simpl in Hsj. injection Hsj as _ _ _ <-. simpl. rewrite Hj.
      by destruct (Broker.should_remove _ _ _).
    + unfold owed. rewrite Hb, Hj. injection Hsj as _ _ _ <-. simpl. by rewrite Hj.
Qed.

Lemma registered_run config c hello g : forall ls n w w',
  reachable parse config n w -> (n + N.of_nat (length ls) < U64_SIZE)%N -> run parse w ls = Some w' ->
  registered w c hello g -> registered w' c hello g.
Proof.
  induction ls as [|l ls IH]; intros n w w' Hr Hb Hrun Hreg; simpl in Hrun; [by simplify_eq|].
  apply bind_Some in Hrun as (w1 & Hx & Hrun). simpl length in Hb.
  eapply (IH (n + 1)%N w1); [by eapply reachable_step|lia|done|].
  eapply (registered_exec parse n); [eapply reachable_structural; [done|lia]|done..].
Qed.

(** C29: the events of each publisher arrive in order. Fan-outs of several
    connections run interleaved, one access at a time. Along any such run, as
    long as the writer of a registered connection [c] is not dropped, the events
    sent to [c] grow by exactly the sends of the fan-outs; for every publisher,
    those of its own sends, and what its fan-out still owes to [c], are among
    the publications that were read from it while the service of [c]
    subscribed to them (and what it owed before), each at most once, stamped
    with the publisher's service and in the order in which they were read; and
    they are all of these when [c] was the registered connection of its
    service throughout. *)
Theorem events_in_order config n w w' (c : conn_id) hello g ls :
  reachable parse config n w -> (n + N.of_nat (length ls) < U64_SIZE)%N ->
  run parse w ls = Some w' -> registered w' c hello g -> chan_open (heap w') c = true ->
  let svc := hello.(HelloRequest.service) in
  events_to w' c = events_to w c ++ (feed w ls c).*2
  /\ forall p,
       (from_publisher p (feed w ls c) ++ owed w' p c svc)
         `sublist_of` (owed w p c svc ++ published w ls p svc)
       /\ (always (entry_of svc c) w ls ->
           from_publisher p (feed w ls c) ++ owed w' p c svc = owed w p c svc ++ published w ls p svc)
       /\ forall hello_p g_p, registered w' p hello_p g_p ->
          exists read, inbox_of w' p = inbox_of w p ++ read
            /\ published w ls p svc `sublist_of`
               (Event.set_from (Some hello_p.(HelloRequest.service)) <$> omap publish_of read).
Proof.
  intros Hr Hb Hrun Hreg Ho svc.
  enough (intact w c /\ events_to w' c = events_to w c ++ (feed w ls c).*2
    /\ forall p, (from_publisher p (feed w ls c) ++ owed w' p c svc)
         `sublist_of` (owed w p c svc ++ published w ls p svc)
       /\ (always (entry_of svc c) w ls ->
           from_publisher p (feed w ls c) ++ owed w' p c svc = owed w p c svc ++ published w ls p svc)
       /\ forall hello_p g_p, registered w' p hello_p g_p ->
          exists read, inbox_of w' p = inbox_of w p ++ read
            /\ published w ls p svc `sublist_of`
               (Event.set_from (Some hello_p.(HelloRequest.service)) <$> omap publish_of read))
    as (_ & ? & ?) by done.
  revert n w Hr Hb Hrun. induction ls as [|l ls IH]; intros n w Hr Hb Hrun; simpl in Hrun.
  - simplify_eq. unfold feed, published, from_publisher. simpl. split_and!; [by right|by rewrite app_nil_r|].
    intros p. rewrite app_nil_r. split_and!; [done..|].
    intros *. exists []. split; [by rewrite app_nil_r|apply sublist_nil_l].
  - apply bind_Some in Hrun as (w1 & Hx & Hrun). simpl length in Hb.
    assert (Hr1 : reachable parse config (n + 1) w1) by by eapply reachable_step.
    destruct (IH (n + 1)%N w1) as (Hi1 & He1 & Hp1); [done|lia|done|].
    assert (Hst : structural n w) by (eapply reachable_structural; [done|lia]).
    assert (Hsafe : safe w) by (eapply reachable_safe; [done|lia]).
    destruct (intact_step n w l w1 c) as [Hi0 He0]; [done..|].
    assert (Hfeed : feed w (l :: ls) c = fed w l c ++ feed w1 ls c)
      by (unfold feed; cbn [along]; by rewrite Hx).
    assert (Hpub : forall p, published w (l :: ls) p svc = read_for w l p svc ++ published w1 ls p svc)
      by (intros p; unfold published; cbn [along]; by rewrite Hx).
    assert (Hold : forall q hl g', registered w q hl g' -> registered w' q hl g').
    { intros q hl g' Hq. eapply (registered_run config q hl g' (l :: ls) n); [done|simpl length; lia| |done].
      simpl. by rewrite Hx. }
    split; [done|]. split; [by rewrite He1, He0, Hfeed, fmap_app, app_assoc|].
    intros p. destruct (Hp1 p) as (Hs1 & Heq1 & Hrd1).
    destruct (owed_step n w l w1 p c svc Hst Hsafe Hx) as [Hs0 Heq0].
    { intros hl g' Hq%Hold. by destruct (registered_fun w' c _ _ _ _ Hq Hreg) as [-> _]. }
    rewrite Hfeed, Hpub, from_publisher_app, <-app_assoc. split_and!.
    + etransitivity; [apply sublist_app; [done|exact Hs1]|]. rewrite !app_assoc. by apply sublist_app.
    + cbn [always]. rewrite Hx. intros [Hen Hall]. rewrite (Heq1 Hall), !app_assoc. f_equal. apply Heq0; [done|].
      destruct Hi0 as [Hu|]; [|done]. unfold entry_of in Hen. apply fmap_Some in Hen as (e & He & ->).
      destruct (str_entry n w Hst _ e He) as (_ & _ & pc & Hpc & Hl). specialize (Hu pc Hpc). by destruct pc.
    + intros hp gp Hpr. destruct (Hrd1 hp gp Hpr) as (k & Hk & Hs). exists (frames_read l p ++ k).
      rewrite Hk, (lg_inbox _ _ _ (exec_logs parse w l w1 Hx)), <-app_assoc. split; [done|].
      rewrite omap_app, fmap_app. apply sublist_app; [|done]. apply read_for_read.
      intros hl g' Hc. assert (Hq : registered w' p hl g') by (apply Hold; by exists (SRunning hl g')).
      by destruct (registered_fun w' p _ _ _ _ Hq Hpr) as [-> _].
Qed.
End feed.

(** The second [echo] event waits for a last access: it is still owed. *)
Lemma events_in_order_witness :
  from_publisher 0 (feed no_capabilities subscribed_world script_published 2)
    ++ owed evented 0 2 "app"
  = Event.set_from (Some "echo") <$> [topic_event "echo.up"; topic_event "echo.down"]
  /\ events_to evented 2
     = (feed no_capabilities subscribed_world script_published 2).*2.
Proof.
  destruct (run no_capabilities subscribed_world script_published) as [w|] eqn:Hrun;
    [|exfalso; vm_compute in Hrun; discriminate Hrun].
  assert (Hw : evented = w) by (vm_compute in Hrun; injection Hrun as <-; vm_compute; reflexivity).
  rewrite Hw.
  destruct (events_in_order no_capabilities BrokerConfig.default (N.of_nat (length script_subscribed))
    subscribed_world w 2 app_hello 2 script_published) as [He Hp];
    [apply example_reachable; reflexivity | reflexivity | exact Hrun
    | exists (SRunning app_hello 2); rewrite <-Hw; vm_compute; split; reflexivity
    | rewrite <-Hw; vm_compute; reflexivity |].
  assert (H0 : events_to subscribed_world 2 = []) by (vm_compute; reflexivity).
  split; [|rewrite H0 in He; exact He].
  destruct (Hp 0%N) as (_ & Heq & _).
  etransitivity; [apply Heq; vm_compute; repeat split|vm_compute; reflexivity].
Defined.
