(* ===== verification/Dropped.v ===== *)
(** What a dropped call leaves behind: the host may drop the future of
    [Broker::call] at its await (LDrop of System.v), and no code of
    [call_with_timeout] runs then. *)

From stdpp Require Import prelude gmap strings.
From S2P Require Import Prelude Frame Runtime Registry Broker Session System Invariant Steps History Calls Guarantees.

(** The host gives up the call of [echo] it has just sent. *)
Definition script_dropped : list Label :=
  script_connect ++ LCall untimed_args :: replicate 5 (LStep 4) ++ [LWriter 0 true].
Definition dropped_world : World (Fifo BusFrame) := run_example script_dropped.

Section dropped.
Context {Q : Type} `{LawfulMpsc Q BusFrame}.
Context (parse : bytes -> result CapabilityResponse string).
Implicit Types w : World Q.

(** The number [rid] of connection [c] is held by a call that no longer
    exists. *)
Record leaked w (id : call_id) (c : conn_id) (rid : N) : Prop := {
  lk_gone : tasks w !! id = None;
  lk_used : (id < next_id w)%N;
  lk_entry : pending_of (heap w) c !! rid = Some id;
  lk_number : drawn w c rid;
  lk_alone id' o a pc hd : tasks w !! id' = Some (TCall o a pc) -> pc_wait pc = Some (hd, rid) ->
    hd.(SessionHandle.pending_out) <> c
}.

(** The frames that answer the number. *)
Definition answers_number (c : conn_id) (rid : N) (l : Label) : Prop :=
  exists resp, l = LFrame c (BusFrame.Response resp) /\ resp.(Response.req_id) = rid.

(** A task that is gone stays gone. *)
Lemma gone_exec w l w' id :
  exec parse w l = Some w' -> tasks w !! id = None -> (id < next_id w)%N ->
  tasks w' !! id = None.
Proof.
  intros Hx Hn Hid. destruct (tasks w' !! id) as [t|] eqn:Ht; [exfalso|done].
  pose proof (exec_tasks parse w l w' id t Hx Ht) as Hf. inversion Hf; subst; (congruence || lia).
Qed.

Lemma leaked_exec n w l w' id c rid :
  structural n w -> calls_ok n w -> (n + 2 < U64_SIZE)%N -> exec parse w l = Some w' ->
  ~ answers_number c rid l -> leaked w id c rid -> leaked w' id c rid.
Proof.
  intros Hst Hok Hb Hx Hna [Hg Hu He Hd Hal].
  split; [by eapply gone_exec|destruct (exec_inbox parse w l w' Hx); lia| |by eapply drawn_exec|].
  - destruct (exec_tables parse w l w' Hx)
      as [_ _ Hp _ _|c' hello g _ Hc' Hp _ _|c' hello g resp -> _ Hh
         |id' o a e hd _ Ht Hh|id' o a hd rid' _ Ht Hh]; unfold pending_of in *.
    + by rewrite Hp.
    + rewrite Hp, lookup_insert_ne; [done|]. intros ->. destruct Hd as [(pc & Hc & Ha) _].
      rewrite Hc in Hc'. by injection Hc' as ->.
    + rewrite Hh. unfold wake, pending_of.
      destruct (default ∅ (pendings (heap w) !! c') !! _) eqn:Hpe; simpl; [|done].
      destruct (decide (c' = c)) as [->|Hne]; [|by rewrite lookup_insert_ne].
      rewrite lookup_insert_eq. simpl. rewrite lookup_delete_ne; [done|].
      intros Heq. apply Hna. by exists resp.
    + destruct (co_handle n w Hok _ _ _ _ _ Ht eq_refl) as (c0 & _ & _ & _ & -> & _ & _ & _ & _ & [k0 Hk0]).
      rewrite Hh. unfold call_register, pending_of. simpl. rewrite Hk0. simpl.
      destruct (decide (c0 = c)) as [->|Hne]; [|by rewrite lookup_insert_ne].
      rewrite lookup_insert_eq. simpl. rewrite lookup_insert_ne; [done|].
      intros ->. destruct Hd as (_ & k & Hk & Hlt). simplify_eq. lia.
    + rewrite Hh. unfold call_timeout, pending_of. simpl.
      destruct (decide (hd.(SessionHandle.pending_out) = c)) as [Heq|Hne]; [|by rewrite lookup_insert_ne].
      rewrite Heq, lookup_insert_eq. simpl. rewrite lookup_delete_ne; [done|]. intros ->.
      by apply (Hal _ _ _ _ _ Ht eq_refl).
  - intros id' o a pc hd Ht Hw Heq.
    destruct (drawn_fresh parse n w l w' _ _ _ _ _ _ _ Hok Hx Ht Hw Hd Heq) as (pc0 & Ht0 & Hw0).
    by eapply Hal.
Qed.

(** C35: a dropped call leaks its entry. When the host drops a call that waits
    for the answer of an app, the entry of the call stays in the pending table
    of that connection along every run in which the app does not answer its
    number, whatever timeout the call had. *)
Theorem dropped_call_leaks config n w w1 w2 (id : call_id) (a : CallArgs) hd rid ls :
  reachable parse config n w -> (n + N.of_nat (length ls) + 2 < U64_SIZE)%N ->
  tasks w !! id = Some (TCall OHost a (CAwaitRemote hd rid)) -> replies (heap w) !! id = None ->
  exec parse w (LDrop id) = Some w1 -> run parse w1 ls = Some w2 ->
  Forall (fun l => ~ answers_number hd.(SessionHandle.pending_out) rid l) ls ->
  tasks w2 !! id = None
  /\ pending_of (heap w2) hd.(SessionHandle.pending_out) !! rid = Some id.
Proof.
  intros Hr Hb Ht Hrep Hx Hrun Hna. set (c := hd.(SessionHandle.pending_out)) in *.
  pose proof (reachable_structural parse config n w Hr ltac:(lia)) as Hst.
  pose proof (reachable_calls_ok parse config n w Hr ltac:(lia)) as Hok.
  assert (Hl : leaked w1 id c rid).
  { pose proof Hx as Hx'. unfold exec in Hx'. simpl in Hx'. rewrite Ht in Hx'. injection Hx' as <-.
    destruct (co_wait n w Hok _ _ _ _ _ _ Ht eq_refl) as (Hz & _ & _).
    split; simpl; [by rewrite lookup_delete_eq|by eapply str_task_ids|by apply Hz
      |by eapply (drawn_wait n w id) | ].
    intros id' o' a' pc' hd' [Hne Ht']%lookup_delete_Some Hw Heq. apply Hne.
    exact (co_unique n w Hok _ _ _ _ _ _ _ _ _ _ _ Ht Ht' eq_refl Hw (eq_sym Heq)). }
  assert (Hr1 : reachable parse config (n + 1) w1) by by eapply reachable_step.
  assert (Hb1 : (n + 1 + N.of_nat (length ls) + 1 < U64_SIZE)%N) by lia.
  clear Hx Ht Hrep Hr Hst Hok Hb. revert Hb1 Hr1. generalize (n + 1)%N as m.
  revert w1 Hl Hrun Hna. induction ls as [|l ls IH]; intros w1 Hl Hrun Hna m Hb Hr1; simpl in Hrun.
  - simplify_eq. split; apply Hl.
  - apply bind_Some in Hrun as (w3 & Hx & Hrun). apply Forall_cons in Hna as [Hn Hna].
    simpl length in Hb. apply (IH w3) with (m := (m + 1)%N); [|done|done|lia|by eapply reachable_step].
    apply (leaked_exec m w1 l); [by eapply reachable_structural; [done|lia]
      | by eapply reachable_calls_ok; [done|lia] | lia | done..].
Qed.
End dropped.

Lemma dropped_call_leaks_witness :
  exists w1 w2, exec no_capabilities dropped_world (LDrop 4) = Some w1
    /\ run no_capabilities w1 script_close = Some w2
    /\ pending_of (heap w2) 0 !! 1%N = Some 4%N.
Proof.
  destruct (exec no_capabilities dropped_world (LDrop 4)) as [w1|] eqn:Hx;
    [|exfalso; vm_compute in Hx; discriminate Hx].
  destruct (run no_capabilities w1 script_close) as [w2|] eqn:Hrun;
    [|exfalso; vm_compute in Hx; injection Hx as <-; vm_compute in Hrun; discriminate Hrun].
  exists w1, w2. split; [reflexivity|]. split; [exact Hrun|].
  apply (dropped_call_leaks no_capabilities BrokerConfig.default (N.of_nat (length script_dropped))
    dropped_world w1 w2 4 untimed_args echo_handle 1 script_close);
    [by apply example_reachable | reflexivity | vm_compute; reflexivity | vm_compute; reflexivity
    | exact Hx | exact Hrun |].
  repeat constructor; intros (resp & [=] & _).
Defined.
