(* ===== verification/Router.v ===== *)
(** What the broker promises to its callers, as an abstract machine, and the
    proof that the broker process implements it.

    The machine is a table of calls with a phase each. It has no pending
    tables, counters, oneshot cells, queues or session handles: a call is sent
    to a connection under a number nobody else waits for there, and a response
    of that connection with that number goes to that call and to nobody else.
    [calls_of] reads the table off a [World]; every step of the process is a
    step of the machine ([broker_refines_router]). *)

From stdpp Require Import prelude gmap strings.
From S2P Require Import Prelude Frame Runtime Registry Broker Session System Invariant Steps Calls Guarantees.

(** * The abstract machine *)

Inductive Phase :=
| Routing
| AtLocal (handler : LocalServiceHandler)
| AtRemote (c : conn_id) (number : N)
| Answered (r : result bytes BusError)
| Finished (r : result bytes BusError).

Abbreviation Table := (gmap call_id (CallArgs * Phase)).

Inductive RouterEvent :=
| EvResponse (c : conn_id) (resp : Response)
| EvTimer (id : call_id)
| EvLocal (id : call_id) (r : result bytes BusError)
| EvEnd (id : call_id)
| EvDrop (id : call_id)
| EvOther.

(** Why a call can fail before it is answered. *)
Inductive routing_error (a : CallArgs) : BusError -> Prop :=
| err_service : routing_error a (BusError.ServiceNotFound a.(CallArgs.service))
| err_method : routing_error a (BusError.MethodNotFound a.(CallArgs.service) a.(CallArgs.method))
| err_user : routing_error a (BusError.Unauthorized a.(CallArgs.service) a.(CallArgs.method)).

(** A call waits somewhere; a call has not been answered from there. *)
Definition waiting_phase (ph : Phase) : bool :=
  match ph with AtLocal _ | AtRemote _ _ | Answered _ => true | _ => false end.
Definition sending_phase (ph : Phase) : bool :=
  match ph with Routing | AtRemote _ _ | Answered _ => true | _ => false end.

(** Nobody waits for the number at the connection. *)
Definition unawaited (m : Table) (c : conn_id) (k : N) : Prop :=
  forall id a, m !! id <> Some (a, AtRemote c k).

(** [serves s c]: the connection has registered for the service. *)
Inductive router_step (serves : string -> conn_id -> Prop) (m : Table) : RouterEvent -> Table -> Prop :=
| rs_new id a : m !! id = None -> router_step serves m EvOther (<[id := (a, Routing)]> m)
| rs_local id a h : m !! id = Some (a, Routing) ->
    router_step serves m EvOther (<[id := (a, AtLocal h)]> m)
| rs_send id a c k : m !! id = Some (a, Routing) -> serves a.(CallArgs.service) c -> unawaited m c k ->
    router_step serves m EvOther (<[id := (a, AtRemote c k)]> m)
| rs_fail id a ph e : m !! id = Some (a, ph) -> sending_phase ph = true -> routing_error a e ->
    router_step serves m EvOther (<[id := (a, Finished (Err e))]> m)
| rs_take id a c resp : m !! id = Some (a, AtRemote c resp.(Response.req_id)) ->
    router_step serves m (EvResponse c resp) (<[id := (a, Answered resp.(Response.result))]> m)
| rs_ignore c resp : unawaited m c resp.(Response.req_id) -> router_step serves m (EvResponse c resp) m
| rs_return id a r : m !! id = Some (a, Answered r) ->
    router_step serves m EvOther (<[id := (a, Finished r)]> m)
| rs_handled id a h r : m !! id = Some (a, AtLocal h) ->
    router_step serves m (EvLocal id r) (<[id := (a, Finished r)]> m)
| rs_timeout id a ph : m !! id = Some (a, ph) -> waiting_phase ph = true -> a.(CallArgs.timeout) <> 0%N ->
    router_step serves m (EvTimer id) (<[id := (a, Finished (Err (timeout_error a)))]> m)
| rs_end id a r : m !! id = Some (a, Finished r) -> router_step serves m (EvEnd id) (delete id m)
| rs_drop id a ph : m !! id = Some (a, ph) -> (forall r, ph <> Finished r) ->
    router_step serves m (EvDrop id) (delete id m)
| rs_no_call id : m !! id = None -> router_step serves m (EvEnd id) m
| rs_idle : router_step serves m EvOther m.

(** * The table of a world *)

Definition phase_of (reply : option Response) (pc : CallPc) : Phase :=
  match pc with
  | CStart | CLocal _ | CRegistry | CSession _ | CRegister _ _ => Routing
  | CAwaitLocal h => AtLocal h
  | CSend _ hd k | CAwaitRemote hd k =>
      match reply with
      | Some resp => Answered resp.(Response.result)
      | None => AtRemote hd.(SessionHandle.pending_out) k
      end
  | CDone r => Finished r
  end.
Definition view (reply : option Response) (t : Task) : option (CallArgs * Phase) :=
  match t with TCall _ a pc => Some (a, phase_of reply pc) | _ => None end.
Definition event_of (l : Label) : RouterEvent :=
  match l with
  | LFrame c (BusFrame.Response resp) => EvResponse c resp
  | LTimer id => EvTimer id
  | LLocal id r => EvLocal id r
  | LContinue id => EvEnd id
  | LDrop id => EvDrop id
  | _ => EvOther
  end.

Section refinement.
Context {Q : Type} `{LawfulMpsc Q BusFrame}.
Context (parse : bytes -> result CapabilityResponse string).
Implicit Types w : World Q.

Definition calls_of w : Table := map_imap (fun id t => view (replies (heap w) !! id) t) (tasks w).
Definition serves w (s : string) (c : conn_id) : Prop :=
  exists hello g, registered w c hello g /\ hello.(HelloRequest.service) = s.

(** Entries of pending tables belong to distinct calls without a reply. *)
Record pending_fresh w : Prop := {
  pf_reply c k id : pending_of (heap w) c !! k = Some id -> replies (heap w) !! id = None;
  pf_inj c c' k k' id : pending_of (heap w) c !! k = Some id -> pending_of (heap w) c' !! k' = Some id ->
    c = c' /\ k = k'
}.

Lemma pending_fresh_init config : pending_fresh (init config).
Proof.
  split; simpl; unfold pending_of; simpl; intros *; rewrite ?lookup_empty; simpl; by rewrite ?lookup_empty.
Qed.

(** Fewer entries and the same replies. *)
Lemma pending_fresh_sub w w' :
  pending_fresh w -> replies (heap w') = replies (heap w) ->
  (forall c k id, pending_of (heap w') c !! k = Some id -> pending_of (heap w) c !! k = Some id) ->
  pending_fresh w'.
Proof.
  intros Hok Hr Hp. split.
  - intros c k id ?%Hp. rewrite Hr. by eapply pf_reply.
  - intros c c' k k' id ?%Hp ?%Hp. by eapply pf_inj.
Qed.

Lemma pending_fresh_exec n w l w' :
  structural n w -> calls_ok n w -> exec parse w l = Some w' -> pending_fresh w -> pending_fresh w'.
Proof.
  intros Hst Hok Hx Hpf.
  destruct (exec_tables parse w l w' Hx)
    as [_ _ Hp _ Hr|c hello g _ _ Hp _ Hr|c hello g resp _ _ Hh|id o a e hd _ Ht Hh|id o a hd rid _ Ht Hh].
  - apply (pending_fresh_sub w); [done..|]. intros c k id. unfold pending_of. by rewrite Hp.
  - apply (pending_fresh_sub w); [done..|]. intros c' k id. unfold pending_of. rewrite Hp.
    destruct (decide (c' = c)) as [->|Hne]; [rewrite lookup_insert_eq; simpl; by rewrite lookup_empty|].
    by rewrite lookup_insert_ne.
  - unfold wake in Hh. destruct (pending_of (heap w) c !! _) as [id0|] eqn:Hid.
    2: { apply (pending_fresh_sub w); [done|by rewrite Hh|]. by rewrite Hh. }
    assert (Hp : forall c' k id, pending_of (heap w') c' !! k = Some id ->
      pending_of (heap w) c' !! k = Some id /\ id <> id0).
    { intros c' k id. rewrite Hh. change (pending_of (set_replies ?r ?h0)) with (pending_of h0).
      rewrite pending_of_set. case_decide as Hc.
      - subst c'. intros [Hne Hk]%lookup_delete_Some. split; [done|]. intros ->. apply Hne.
        by destruct (pf_inj w Hpf _ _ _ _ _ Hid Hk) as [_ ?].
      - intros Hk. split; [done|]. intros ->. by destruct (pf_inj w Hpf _ _ _ _ _ Hid Hk) as [? _]. }
    split.
    + intros c' k id [Hk Hne]%Hp. rewrite Hh. simpl. rewrite lookup_insert_ne by done. by eapply pf_reply.
    + intros c1 c2 k1 k2 id [? _]%Hp [? _]%Hp. by eapply pf_inj.
  - pose proof (co_pending n w Hok) as Hco.
    assert (Hnone : replies (heap w) !! id = None).
    { destruct (replies (heap w) !! id) as [resp|] eqn:Hr; [|done].
      destruct (co_reply n w Hok _ _ Hr) as [_ Hb]. by specialize (Hb _ _ _ Ht). }
    assert (Hnew : forall c k, pending_of (heap w) c !! k <> Some id).
    { intros c k Hk. destruct (Hco _ _ _ Hk) as (_ & _ & Hb). by destruct (Hb _ _ _ Ht). }
    set (c0 := hd.(SessionHandle.pending_out)) in *.
    assert (Hp : exists k0, replies (heap w') = replies (heap w) /\ forall c k i,
      pending_of (heap w') c !! k = Some i ->
      (c = c0 /\ k = k0 /\ i = id) \/ (pending_of (heap w) c !! k = Some i /\ i <> id)).
    { rewrite Hh. unfold call_register, fetch_add1. eexists. split; [reflexivity|]. intros c k i. cbn [fst].
      rewrite pending_of_set. change (pending_of (set_req_counters ?r ?h0)) with (pending_of h0). case_decide as Hc.
      - subst c. intros [[<- <-]|[_ Hk]]%lookup_insert_Some; [by left|right].
        split; [done|]. intros ->. by eapply Hnew.
      - intros Hk. right. split; [done|]. intros ->. by eapply Hnew. }
    destruct Hp as (k0 & Hr & Hp). split.
    + intros c k i Hk. rewrite Hr. destruct (Hp _ _ _ Hk) as [(_ & _ & ->)|[? _]]; [done|by eapply pf_reply].
    + intros c1 c2 k1 k2 i [(-> & -> & ->)|[? ?]]%Hp [(-> & -> & ?)|[? ?]]%Hp; try done; by eapply pf_inj.
  - apply (pending_fresh_sub w); [done|by rewrite Hh|]. intros c k i. rewrite Hh. unfold call_timeout. cbn [fst].
    rewrite pending_of_set. case_decide as Hc; [|done]. subst c. by intros [_ ?]%lookup_delete_Some.
Qed.

Lemma reachable_pending_fresh config n w :
  reachable parse config n w -> (n + 1 < U64_SIZE)%N -> pending_fresh w.
Proof.
  induction 1 as [|n w l w' Hr IH Hx]; intros Hb; [apply pending_fresh_init|].
  apply (pending_fresh_exec n w l w'); [|apply (reachable_calls_ok parse config); [done|lia]|done|apply IH; lia].
  apply (reachable_structural parse config); [done | lia].
Qed.

(** ** Reading the table *)

Lemma calls_lookup w id : calls_of w !! id = tasks w !! id ≫= view (replies (heap w) !! id).
Proof. unfold calls_of. by rewrite map_lookup_imap. Qed.

Lemma calls_same w w' :
  (forall id, calls_of w' !! id = calls_of w !! id) -> calls_of w' = calls_of w.
Proof. intros Hc. by apply map_eq. Qed.

Lemma calls_put w w' id x :
  (forall i, i <> id -> calls_of w' !! i = calls_of w !! i) -> calls_of w' !! id = Some x ->
  calls_of w' = <[id := x]> (calls_of w).
Proof.
  intros Hi Hx. apply map_eq. intros i. destruct (decide (i = id)) as [->|Hne].
  - by rewrite lookup_insert_eq.
  - rewrite lookup_insert_ne by done. by apply Hi.
Qed.

Lemma calls_delete w w' id :
  (forall i, i <> id -> calls_of w' !! i = calls_of w !! i) -> calls_of w' !! id = None ->
  calls_of w' = delete id (calls_of w).
Proof.
  intros Hi Hx. apply map_eq. intros i. destruct (decide (i = id)) as [->|Hne].
  - by rewrite lookup_delete_eq.
  - rewrite lookup_delete_ne by done. by apply Hi.
Qed.

(** A step that changes one task and no reply. *)
Lemma calls_upd w w' id t :
  tasks w' = <[id := t]> (tasks w) -> replies (heap w') = replies (heap w) ->
  (forall i, i <> id -> calls_of w' !! i = calls_of w !! i)
  /\ calls_of w' !! id = view (replies (heap w) !! id) t.
Proof.
  intros Ht Hr. split; [intros i Hne|]; rewrite !calls_lookup, Ht, Hr.
  - by rewrite lookup_insert_ne.
  - by rewrite lookup_insert_eq.
Qed.

Lemma calls_task w id o a pc :
  tasks w !! id = Some (TCall o a pc) ->
  calls_of w !! id = Some (a, phase_of (replies (heap w) !! id) pc).
Proof. intros Ht. by rewrite calls_lookup, Ht. Qed.

(** A number somebody waits for is in the pending table under that call. *)
Lemma awaited_pending n w id a c k :
  calls_ok n w -> calls_of w !! id = Some (a, AtRemote c k) ->
  pending_of (heap w) c !! k = Some id /\ replies (heap w) !! id = None.
Proof.
  intros Hok. rewrite calls_lookup. intros (t & Ht & Hv)%bind_Some.
  destruct t as [o a' pc| | | |]; try done. simpl in Hv. injection Hv as <- Hph.
  assert (Hw : exists hd, pc_wait pc = Some (hd, k) /\ hd.(SessionHandle.pending_out) = c
    /\ replies (heap w) !! id = None).
  { destruct pc as [| | | | |e hd k'| |hd k'|]; simpl in Hph; try done;
      (destruct (replies (heap w) !! id); [done|]); injection Hph as <- <-; eauto. }
  destruct Hw as (hd & Hw & <- & Hn). split; [|done].
  by apply (co_wait n w Hok _ _ _ _ _ _ Ht Hw).
Qed.

(** ** Steps of a call *)

Lemma find_check methods a e : check_method methods a = Err e -> routing_error a e.
Proof.
  unfold check_method. destruct (find_method _ _) as [d|]; simpl; [|intros [= <-]; constructor].
  destruct (_ && _); [intros [= <-]; constructor|done].
Qed.

Context (n : N) (w : World Q) (Hst : structural n w) (Hok : calls_ok n w) (Hpf : pending_fresh w).

(** A task changes, nothing else of the table. *)
Lemma put_step (w' : World Q) id o a pc pc' :
  tasks w !! id = Some (TCall o a pc) ->
  tasks w' = <[id := TCall o a pc']> (tasks w) -> replies (heap w') = replies (heap w) ->
  let ph := phase_of (replies (heap w) !! id) pc in
  let ph' := phase_of (replies (heap w) !! id) pc' in
  calls_of w !! id = Some (a, ph)
  /\ calls_of w' = <[id := (a, ph')]> (calls_of w)
  /\ (ph' = ph -> calls_of w' = calls_of w).
Proof using.
  intros Ht Hts Hr ph ph'. destruct (calls_upd w w' id _ Hts Hr) as [Hi Hid].
  pose proof (calls_task w id o a pc Ht) as Hc. split_and!; [done|by apply calls_put|].
  intros Heq. apply calls_same. intros i. destruct (decide (i = id)) as [->|Hne]; [|by apply Hi].
  rewrite Hid, Hc. simpl. by fold ph ph'; rewrite Heq.
Qed.

Lemma call_step_refines (w' : World Q) id o a pc h pc' :
  tasks w !! id = Some (TCall o a pc) -> call_step (broker w) (heap w) id a pc = Some (h, pc') ->
  heap w' = h -> tasks w' = <[id := TCall o a pc']> (tasks w) -> (n + 1 < U64_SIZE)%N ->
  router_step (serves w) (calls_of w) EvOther (calls_of w').
Proof using Hst Hok Hpf H0.
  intros Ht Hs Hh Hts Hb.
  assert (Hr : replies h = replies (heap w)).
  { destruct pc; simpl in Hs; try done; try (by injection Hs as <- _).
    unfold call_send in Hs. destruct (chan_send _ _ _) as [h1|] eqn:Hsend; injection Hs as <- _; [|done].
    by apply chan_send_Some in Hsend as (_ & [] & _). }
  rewrite <-Hh in Hr. destruct (put_step w' id o a pc pc' Ht Hts Hr) as (Hc & Heq & Hsame).
  assert (Hidle : phase_of (replies (heap w) !! id) pc' = phase_of (replies (heap w) !! id) pc ->
    router_step (serves w) (calls_of w) EvOther (calls_of w')) by (intros Hx; rewrite (Hsame Hx); apply rs_idle).
  assert (Hfail : forall e, pc' = CDone (Err e) -> sending_phase (phase_of (replies (heap w) !! id) pc) = true ->
    routing_error a e -> router_step (serves w) (calls_of w) EvOther (calls_of w'))
    by (intros e -> Hsp He; rewrite Heq; by eapply rs_fail).
  destruct pc as [|hl| |e|e hd|e hd k| | |]; simpl in Hs; simplify_eq.
  - unfold call_local in *. destruct (Broker.local_services _ !! _) as [hl|]; by apply Hidle.
  - unfold call_catalog in *.
    destruct (match Broker.local_service_methods _ !! _ with Some ms => check_method ms a | None => Ok tt end)
      as [[]|e] eqn:Hck; [rewrite Heq; by apply rs_local|].
    eapply Hfail; [done..|]. destruct (Broker.local_service_methods _ !! _); [by eapply find_check|done].
  - unfold call_registry in *. destruct (Registry.get _ _) as [e|]; [|eapply Hfail; [done..|constructor]].
    destruct (check_method _ _) eqn:Hck; [by apply Hidle|]. eapply Hfail; [done..|]. by eapply find_check.
  - unfold call_session in *. destruct (Broker.sessions _ !! _); [by apply Hidle|].
    eapply Hfail; [done..|constructor].
  - unfold call_register, fetch_add1 in Hs. injection Hs as _ <-.
    set (k := default 1%N (req_counters (heap w) !! hd.(SessionHandle.next_req_id))) in *.
    assert (Hn : replies (heap w) !! id = None).
    { destruct (replies (heap w) !! id) eqn:Hrep; [|done].
      destruct (co_reply n w Hok _ _ Hrep) as [_ Hbf]. by specialize (Hbf _ _ _ Ht). }
    rewrite Heq. rewrite Hn in *. simpl. apply rs_send; [done| |].
    + destruct (co_handle n w Hok _ _ _ _ hd Ht eq_refl) as (c & pc & hello & g & -> & Hcn & Hg & _ & Hsv & _).
      simpl. exists hello, g. split; [by exists pc|done].
    + intros id' a' Hc'. destruct (awaited_pending n w _ _ _ _ Hok Hc') as [Hp _].
      destruct (co_pending n w Hok _ _ _ Hp) as (_ & (k' & Hk' & Hlt) & _).
      destruct (co_handle n w Hok _ _ _ _ hd Ht eq_refl) as (c & pc & hello & g & -> & _).
      simpl in *. unfold k in Hlt. rewrite Hk' in Hlt. simpl in Hlt. lia.
  - unfold call_send in Hs. destruct (chan_send _ _ _); simplify_eq; [by apply Hidle|].
    eapply Hfail; [done| |constructor]. simpl. by destruct (replies (heap w) !! id).
Qed.

(** ** A response *)

Lemma wake_refines (w' : World Q) c resp :
  tasks w' = tasks w -> heap w' = wake (heap w) c resp ->
  router_step (serves w) (calls_of w) (EvResponse c resp) (calls_of w').
Proof using Hok Hpf.
  intros Hts Hh. unfold wake in Hh.
  destruct (pending_of (heap w) c !! resp.(Response.req_id)) as [id|] eqn:Hp.
  2: { assert (Hs : calls_of w' = calls_of w)
         by (apply calls_same; intros i; by rewrite !calls_lookup, Hts, Hh).
       rewrite Hs. apply rs_ignore. intros id a Hc.
       destruct (awaited_pending n w _ _ _ _ Hok Hc) as [Hp' _]. congruence. }
  pose proof (pf_reply w Hpf _ _ _ Hp) as Hn.
  assert (Hi : forall i, i <> id -> calls_of w' !! i = calls_of w !! i).
  { intros i Hne. rewrite !calls_lookup, Hts, Hh. simpl. by rewrite lookup_insert_ne. }
  destruct (calls_of w !! id) as [[a ph]|] eqn:Hc.
  2: { assert (Hs : calls_of w' = calls_of w).
       { apply calls_same. intros i. destruct (decide (i = id)) as [->|Hne]; [|by apply Hi].
         rewrite Hc. rewrite calls_lookup in Hc |- *. rewrite Hts.
         destruct (tasks w !! id) as [[]|]; done. }
       rewrite Hs. apply rs_ignore. intros id' a Hc'.
       destruct (awaited_pending n w _ _ _ _ Hok Hc') as [Hp' _]. congruence. }
  pose proof Hc as Ht. rewrite calls_lookup in Ht. apply bind_Some in Ht as (t & Ht & Hv).
  destruct t as [o a' pc| | | |]; try done. simpl in Hv. injection Hv as -> Hph. rewrite Hn in Hph.
  destruct (co_pending n w Hok _ _ _ Hp) as (_ & _ & Hb). destruct (Hb _ _ _ Ht) as [Hbf Hw].
  assert (Hw' : calls_of w' !! id = Some (a, phase_of (Some resp) pc)).
  { rewrite calls_lookup, Hts, Ht, Hh. simpl. by rewrite lookup_insert_eq. }
  assert (Hcase : (exists hd, pc_wait pc = Some (hd, resp.(Response.req_id)) /\ hd.(SessionHandle.pending_out) = c
       /\ ph = AtRemote c resp.(Response.req_id) /\ phase_of (Some resp) pc = Answered resp.(Response.result))
    \/ (phase_of (Some resp) pc = ph /\ forall c k, ph <> AtRemote c k)).
  { destruct pc as [|hl0| | | |e hd k|hl|hd k|r]; simpl in Hph, Hbf; try done; subst ph; [by right|left|by right|left|by right];
      destruct (Hw _ _ eq_refl) as [<- ->]; exists hd; by split_and!. }
  destruct Hcase as [(hd & _ & _ & -> & Heq)|[Heq Hnr]].
  - rewrite (calls_put w w' id _ Hi Hw'), Heq. by apply rs_take.
  - assert (Hs : calls_of w' = calls_of w).
    { apply calls_same. intros i. destruct (decide (i = id)) as [->|Hne]; [|by apply Hi].
      by rewrite Hw', Hc, Heq. }
    rewrite Hs. apply rs_ignore. intros id' a' Hc'.
    destruct (awaited_pending n w _ _ _ _ Hok Hc') as [Hp' _].
    assert (id' = id) as -> by congruence. rewrite Hc in Hc'. injection Hc' as _ ->. by eapply Hnr.
Qed.

(** ** Other steps *)

Lemma same_refines (w' : World Q) : (tasks w' = tasks w) -> replies (heap w') = replies (heap w) -> calls_of w' = calls_of w.
Proof using. intros Ht Hr. apply calls_same. intros i. by rewrite !calls_lookup, Ht, Hr. Qed.

(** A task is spawned: a call at its start, or a reply to send. *)
Lemma spawn_refines (w' : World Q) t :
  tasks w' = <[next_id w := t]> (tasks w) -> replies (heap w') = replies (heap w) ->
  (forall o a pc, t = TCall o a pc -> pc = CStart) ->
  router_step (serves w) (calls_of w) EvOther (calls_of w').
Proof using Hst.
  intros Hts Hr Ht. destruct (calls_upd w w' _ t Hts Hr) as [Hi Hid].
  assert (Hf : calls_of w !! next_id w = None).
  { rewrite calls_lookup. destruct (tasks w !! next_id w) as [t'|] eqn:Hx; [|done].
    apply (str_task_ids n w Hst) in Hx. lia. }
  destruct t as [o a pc| | | |]; simpl in Hid;
    [|rewrite (calls_delete w w' _ Hi Hid), delete_id by done; apply rs_idle..].
  rewrite (Ht _ _ _ eq_refl) in Hid. rewrite (calls_put w w' _ _ Hi Hid). by apply rs_new.
Qed.

(** The task [id] ends, or goes on as something that is not a call. *)
Lemma end_refines (w' : World Q) id t (ot : option Task) :
  tasks w !! id = Some t ->
  (forall o a pc, t = TCall o a pc -> exists r, pc = CDone r) ->
  (forall i, i <> id -> tasks w' !! i = tasks w !! i) -> tasks w' !! id = ot ->
  (forall o a pc, ot <> Some (TCall o a pc)) -> replies (heap w') = replies (heap w) ->
  router_step (serves w) (calls_of w) (EvEnd id) (calls_of w').
Proof using.
  intros Ht Hd Hi Hot Hno Hr.
  assert (Hi' : forall i, i <> id -> calls_of w' !! i = calls_of w !! i)
    by (intros i Hne; by rewrite !calls_lookup, Hr, (Hi i Hne)).
  assert (Hn : calls_of w' !! id = None).
  { rewrite calls_lookup, Hot. destruct ot as [[]|]; simpl; try done. by edestruct Hno. }
  rewrite (calls_delete w w' id Hi' Hn). destruct t as [o a pc| | | |].
  { destruct (Hd _ _ _ eq_refl) as [r ->]. apply (rs_end _ _ id a r). by eapply calls_task in Ht. }
  all: assert (Hc : calls_of w !! id = None) by by rewrite calls_lookup, Ht.
  all: rewrite delete_id by done; by apply rs_no_call.
Qed.

(** The host drops a call that has not finished. *)
Lemma drop_refines id o a pc :
  tasks w !! id = Some (TCall o a pc) -> droppable pc = true ->
  router_step (serves w) (calls_of w) (EvDrop id) (calls_of (drop_task id w)).
Proof using.
  intros Ht Hd. rewrite (calls_delete w (drop_task id w) id).
  - apply (rs_drop _ _ id a (phase_of (replies (heap w) !! id) pc)); [by eapply calls_task in Ht|].
    destruct pc; try done; simpl; by destruct (replies (heap w) !! id).
  - intros i Hne. rewrite !calls_lookup. simpl. by rewrite lookup_delete_ne.
  - rewrite calls_lookup. simpl. by rewrite lookup_delete_eq.
Qed.

Local Ltac writer Hx1 Hsame wr :=
  destruct (channels (heap w) !! _) as [q|]; simpl in Hx1; [|done];
  destruct (mpsc_recv q) as [[f q']|]; [|done]; injection Hx1 as <-; apply Hsame; [done|]; by destruct wr.

Lemma conn_refines (w' : World Q) l :
  exec_conn w l = Some w' -> exec parse w l = Some w' ->
  router_step (serves w) (calls_of w) (event_of l) (calls_of w').
Proof using Hst Hok Hpf H0.
  intros Hx1 Hx.
  assert (Hr : (exists c resp, l = LFrame c (BusFrame.Response resp)) \/ replies (heap w') = replies (heap w)).
  { destruct (exec_tables parse w l w' Hx); subst; eauto; done. }
  assert (Hsame : (forall c resp, l <> LFrame c (BusFrame.Response resp)) -> tasks w' = tasks w ->
    router_step (serves w) (calls_of w) EvOther (calls_of w')).
  { intros Hl Ht. destruct Hr as [(c & resp & ->)|Hr]; [by edestruct Hl|].
    rewrite (same_refines _ Ht Hr). apply rs_idle. }
  destruct l as [|c read wr|c wr|c|c f|c|c|c wr|c| | | | | | | | | | |]; try done;
    [..|apply exec_session in Hx1; destruct Hx1 as [hl Hc|hl i Hc|hl g i Hc|
        hl g pc job b h t job' _ _ _ _ Hsj]; [by apply Hsame..|]];
    [..|destruct Hr as [(? & ? & [=])|Hr];
        destruct (serve_job_frame _ _ _ _ _ _ _ _ _ Hsj) as (_ & _ & _ & _ & _ & _ & _ & _ & _ & Ht & _);
        destruct t as [t|]; [eapply spawn_refines; [reflexivity|done|]|by apply Hsame];
        intros o a p ->; destruct job; simplify_eq; congruence];
    simpl in Hx1; [|destruct (conns w !! c) as [[]|] eqn:Hc; try done..].
  - injection Hx1 as <-. by apply Hsame.
  - destruct (serve_hello _ _) as [[b out] pc]. injection Hx1 as <-. apply Hsame; [done|].
    by destruct read as [[]|], out, wr.
  - destruct wr; simpl in Hx1; injection Hx1 as <-; by apply Hsame.
  - injection Hx1 as <-. by apply Hsame.
  - destruct (busy w !! c); [done|].
    destruct (serve_frame _ _ _ _ _) as [[[b h] t] job] eqn:Hsf. injection Hx1 as <-.
    destruct f; simpl in Hsf; injection Hsf as <- <- <- <-; try (by apply Hsame).
    + destruct Hr as [(? & ? & [=])|Hr]. eapply spawn_refines; [reflexivity|done|].
      intros o a pc. unfold route_invoke. case_match; [case_match|]; congruence.
    + by apply wake_refines.
  - destruct (busy w !! c); [done|]. injection Hx1 as <-. by apply Hsame.
  - destruct (busy w !! c); [done|]. injection Hx1 as <-. by apply Hsame.
  - writer Hx1 Hsame wr.
  - writer Hx1 Hsame wr.
  - writer Hx1 Hsame wr.
Qed.

Local Ltac moved i Ht pc Hc :=
  match goal with |- router_step _ _ _ (calls_of ?w1) =>
    destruct (put_step w1 i _ _ _ pc Ht eq_refl eq_refl) as (Hc & -> & _) end.

Lemma task_refines (w' : World Q) config l :
  reachable parse config n w -> (n + 1 < U64_SIZE)%N ->
  exec_task parse w l = Some w' ->
  router_step (serves w) (calls_of w) (event_of l) (calls_of w').
Proof using Hst Hok Hpf H0.
  intros Hre Hb Hx. destruct l as [| | | | | | | | | |i|i r|i|i|i|i|i| | |]; try done; simpl in Hx;
    destruct (tasks w !! i) as [[o a pc|c resp|svc cr|svc hd|tx]|] eqn:Ht; try done.
  - destruct (call_step _ _ _ _ _) as [[h pc']|] eqn:Hs; [|done]. injection Hx as <-.
    by eapply call_step_refines.
  - destruct pc; try done. injection Hx as <-. simpl event_of.
    moved i Ht (CDone r) Hc. by eapply rs_handled.
  - destruct pc as [| | | | | | |hd k|]; try done. destruct (replies (heap w) !! i) as [resp|] eqn:Hrep; [|done].
    injection Hx as <-. moved i Ht (call_reply resp) Hc.
    rewrite Hrep in *. by apply rs_return.
  - destruct pc as [| | | | | | |hd k|]; try done.
    by rewrite (sender_alive _ _ _ _ _ _ _ _ _ Hre Hb Ht) in Hx.
  - destruct (bool_decide _) eqn:Hz; [done|]. apply bool_decide_eq_false in Hz.
    destruct pc as [| | | | | |hl|hd k|]; try done; injection Hx as <-; simpl event_of;
      moved i Ht (CDone (Err (timeout_error a))) Hc;
      eapply rs_timeout; try done. simpl. by destruct (replies (heap w) !! i).
  - destruct pc as [| | | | | | | |r]; try done. injection Hx as <-. simpl event_of.
    eapply (end_refines _ i _ (call_continue parse (broker w) o r)); [done| | | | |].
    + intros ? ? ? [= <- <- <-]. eauto.
    + intros j Hne. destruct o; simpl; repeat case_match; simpl; by rewrite ?lookup_insert_ne, ?lookup_delete_ne.
    + destruct o; simpl; repeat case_match; simpl; by rewrite ?lookup_insert_eq, ?lookup_delete_eq.
    + intros ? ? ?. destruct o; simpl; repeat case_match; congruence.
    + destruct o; simpl; repeat case_match; done.
  - injection Hx as <-. simpl event_of. eapply (end_refines _ i _ None); try done; simpl.
    + intros j Hne. by rewrite lookup_delete_ne.
    + by rewrite lookup_delete_eq.
    + by destruct (chan_send_spec (heap w) c (BusFrame.Response resp)) as [[] _].
  - injection Hx as <-. simpl event_of. eapply (end_refines _ i _ None); try done; simpl.
    + intros j Hne. by rewrite lookup_delete_ne.
    + by rewrite lookup_delete_eq.
  - injection Hx as <-. simpl event_of. eapply (end_refines _ i _ None); try done; simpl.
    + intros j Hne. by rewrite lookup_delete_ne.
    + by rewrite lookup_delete_eq.
  - injection Hx as <-. simpl event_of. eapply (end_refines _ i _ None); try done; simpl.
    + intros j Hne. by rewrite lookup_delete_ne.
    + by rewrite lookup_delete_eq.
    + unfold shutdown_send. destruct (chan_send _ _ _) eqn:Hs; [|done].
      by destruct (chan_send_Some _ _ _ _ Hs) as (_ & [] & _).
  - destruct o; try done. destruct (droppable pc) eqn:Hd; [|done]. injection Hx as <-. simpl event_of.
    by eapply drop_refines.
Qed.

Local Ltac idle :=
  match goal with |- router_step _ _ _ (calls_of ?w1) =>
    rewrite (same_refines w1); [apply rs_idle | done | try done] end.

Lemma host_refines (w' : World Q) l :
  exec_host w l = Some w' -> exec parse w l = Some w' ->
  router_step (serves w) (calls_of w) (event_of l) (calls_of w').
Proof using Hst H0.
  intros Hx1 Hx. destruct l; try done; simpl in Hx1; injection Hx1 as <-; simpl event_of.
  - eapply spawn_refines; [reflexivity|done|]. by intros ? ? ? [= <- <- <-].
  - idle.
  - by eapply spawn_refines; [reflexivity|done|].
  - destruct (shutdown_target _ _) as [tx|]; simpl; [|apply rs_idle]. by eapply spawn_refines; [reflexivity|done|].
Qed.

End refinement.

Section refines.
Context {Q : Type} `{LawfulMpsc Q BusFrame}.
Context (parse : bytes -> result CapabilityResponse string).

(** C3: the broker implements the router. The table of calls of a fresh broker
    is empty, and every step of the broker process, whatever its connections,
    callers and host do, is a step of the abstract machine: a call is only
    sent to a connection registered for its service, under a number nobody
    else waits for there; a response goes to the one call that waits for its
    number on its connection, if there is one, and changes nothing else; a
    call only ends with its answer, its handler's result, its timeout or a
    refusal of the routing, and disappears unfinished only when its caller
    drops it. *)
Theorem broker_refines_router config :
  calls_of (init (Q := Q) config) = ∅
  /\ forall n (w : World Q) l w', reachable parse config n w -> (n + 1 < U64_SIZE)%N ->
       exec parse w l = Some w' ->
       router_step (serves w) (calls_of w) (event_of l) (calls_of w').
Proof.
  split; [done|]. intros n w l w' Hr Hb Hx.
  pose proof (reachable_structural parse config n w Hr ltac:(lia)) as Hst.
  pose proof (reachable_calls_ok parse config n w Hr Hb) as Hok.
  pose proof (reachable_pending_fresh parse config n w Hr Hb) as Hpf.
  pose proof Hx as Hx'. unfold exec in Hx'.
  destruct (exec_conn w l) as [w1|] eqn:Hx1; [simplify_eq; by eapply conn_refines|].
  destruct (exec_task parse w l) as [w1|] eqn:Hx2; [simplify_eq; by eapply task_refines|].
  by eapply host_refines.
Qed.
End refines.

(** A response is taken by the call that waits for it. *)
Lemma broker_refines_router_witness :
  exists w', exec no_capabilities waiting (LFrame 0 (BusFrame.Response pong_response)) = Some w'
    /\ router_step (serves waiting) (calls_of waiting) (EvResponse 0 pong_response) (calls_of w')
    /\ calls_of waiting !! 4%N = Some (routed_args, AtRemote 0 1)
    /\ calls_of w' !! 4%N = Some (routed_args, Answered (Ok (bytes_lit "pong"))).
Proof.
  destruct (exec no_capabilities waiting (LFrame 0 (BusFrame.Response pong_response))) as [w'|] eqn:Hx;
    [|vm_compute in Hx; discriminate Hx].
  exists w'. split; [reflexivity|]. split.
  - apply (proj2 (broker_refines_router no_capabilities BrokerConfig.default) (N.of_nat (length script_waiting))
      waiting (LFrame 0 (BusFrame.Response pong_response)) w' (example_reachable script_waiting eq_refl) eq_refl Hx).
  - split; [vm_compute; reflexivity|].
    assert (Hw : calls_of <$> exec no_capabilities waiting (LFrame 0 (BusFrame.Response pong_response))
      = Some (calls_of w')) by (rewrite Hx; reflexivity).
    assert (Hv : (calls_of <$> exec no_capabilities waiting (LFrame 0 (BusFrame.Response pong_response))
      ) ≫= (fun m => m !! 4%N) = Some (routed_args, Answered (Ok (bytes_lit "pong")))) by (vm_compute; reflexivity).
    rewrite Hw in Hv. exact Hv.
Defined.
