(* ===== verification/Hosting.v ===== *)
(** The local services: the handlers and catalogs the broker keeps, and the
    handlers its calls wait for, are ones the host has registered.  Also the
    reasons the broker has for refusing a call. *)

From stdpp Require Import prelude gmap strings.
From S2P Require Import Prelude Frame Runtime Registry Broker Session System Invariant Steps History.

Section hosting.
Context {Q : Type} `{LawfulMpsc Q BusFrame}.
Context (parse : bytes -> result CapabilityResponse string).
Implicit Types w : World Q.

(** * Definitions *)

(** The host has registered [handler] for the service. *)
Definition hosts w (service : string) (handler : LocalServiceHandler) : Prop :=
  exists methods, (service, methods, handler) ∈ hosted w.

(** A catalog of methods that was given for the service, by a connection that
    registered or by the host. *)
Inductive catalog w (service : string) : list MethodDecl -> Prop :=
| cat_app c hello g : registered w c hello g -> hello.(HelloRequest.service) = service ->
    catalog w service hello.(HelloRequest.methods)
| cat_local methods handler : (service, methods, handler) ∈ hosted w -> catalog w service methods.

(** Why the broker refuses a call before it is served. *)
Inductive refused w (a : CallArgs) : BusError -> Prop :=
| rf_service : refused w a (BusError.ServiceNotFound a.(CallArgs.service))
| rf_method methods : catalog w a.(CallArgs.service) methods ->
    find_method methods a.(CallArgs.method) = None ->
    refused w a (BusError.MethodNotFound a.(CallArgs.service) a.(CallArgs.method))
| rf_user methods d : catalog w a.(CallArgs.service) methods ->
    find_method methods a.(CallArgs.method) = Some d -> d.(MethodDecl.requires_auth) = true ->
    a.(CallArgs.caller).(CallerCtx.user_id) = None ->
    refused w a (BusError.Unauthorized a.(CallArgs.service) a.(CallArgs.method)).

(** The handler a call has been given to. *)
Definition pc_local (pc : CallPc) : option LocalServiceHandler :=
  match pc with CLocal h | CAwaitLocal h => Some h | _ => None end.

Record hosting w : Prop := {
  ho_service s h : Broker.local_services (broker w) !! s = Some h -> hosts w s h;
  ho_methods s ms : Broker.local_service_methods (broker w) !! s = Some ms ->
    exists h, (s, ms, h) ∈ hosted w;
  ho_register id s h : tasks w !! id = Some (TLocal s h) -> hosts w s h;
  ho_call id o a pc h : tasks w !! id = Some (TCall o a pc) -> pc_local pc = Some h ->
    hosts w a.(CallArgs.service) h
}.

(** * What a step does to the local services *)

Definition locals_kept w w' : Prop :=
  Broker.local_services (broker w') = Broker.local_services (broker w)
  /\ Broker.local_service_methods (broker w') = Broker.local_service_methods (broker w).

Lemma locals_conn w l w' : exec_conn w l = Some w' -> locals_kept w w'.
Proof.
  intros Hx. destruct l as [|c read wr|c wr|c|c f|c|c|c wr|c| | | | | | | | | | |]; try done;
    [..|apply exec_session in Hx; destruct Hx as [hl Hc|hl i Hc|hl g i Hc|hl g pc job b h t job' Hc _ _ _ Hsj];
      [done..|]]; [..|by destruct (serve_job_frame _ _ _ _ _ _ _ _ _ Hsj) as (_ & _ & _ & _ & _ & ? & ? & _), t];
    simpl in Hx; [|destruct (conns w !! c) as [[]|]; try done..].
  - by injection Hx as <-.
  - destruct (serve_hello _ _) as [[b out] pc] eqn:Hs. injection Hx as <-.
    destruct (serve_hello_cases _ _ _ _ _ Hs) as (tk & -> & _). by destruct read as [[]|], out, wr.
  - destruct wr; by injection Hx as <-.
  - by injection Hx as <-.
  - destruct (busy w !! c); [done|].
    destruct (serve_frame _ _ _ _ _) as [[[b h] t] job] eqn:Hsf. injection Hx as <-.
    destruct (serve_frame_cases _ _ _ _ _ _ _ _ _ Hsf) as (_ & _ & _ & _ & ? & ? & _). by destruct t.
  - destruct (busy w !! c); [done|]. by injection Hx as <-.
  - destruct (busy w !! c); [done|]. by injection Hx as <-.
  - destruct (channels (heap w) !! c) as [q|]; simpl in Hx; [|done].
    destruct (mpsc_recv q) as [[f q']|]; [|done]. injection Hx as <-. by destruct wr.
  - destruct (channels (heap w) !! c) as [q|]; simpl in Hx; [|done].
    destruct (mpsc_recv q) as [[f q']|]; [|done]. injection Hx as <-. by destruct wr.
  - destruct (channels (heap w) !! c) as [q|]; simpl in Hx; [|done].
    destruct (mpsc_recv q) as [[f q']|]; [|done]. injection Hx as <-. by destruct wr.
Qed.

Lemma locals_task w l w' :
  exec_task parse w l = Some w' ->
  locals_kept w w'
  \/ exists id s h, tasks w !! id = Some (TLocal s h)
       /\ Broker.local_services (broker w') = <[s := h]> (Broker.local_services (broker w))
       /\ Broker.local_service_methods (broker w') = Broker.local_service_methods (broker w).
Proof.
  intros Hx. destruct l as [| | | | | | | | | |i|i r|i|i|i|i|i| | |]; try done; simpl in Hx;
    destruct (tasks w !! i) as [[o a pc|c resp|svc cr|svc hd|tx]|] eqn:Ht; try done.
  - destruct (call_step _ _ _ _ _) as [[h pc']|]; [|done]. injection Hx as <-. by left.
  - destruct pc; try done. injection Hx as <-. by left.
  - destruct pc; try done. destruct (replies _ !! i); [|done]. injection Hx as <-. by left.
  - destruct pc; try done. destruct (sender_dropped _ _ _ _); [|done]. injection Hx as <-. by left.
  - destruct (bool_decide _); [done|]. destruct pc; try done; injection Hx as <-; by left.
  - destruct pc; try done. injection Hx as <-. left. by destruct o; simpl; repeat case_match.
  - injection Hx as <-. by left.
  - injection Hx as <-. by left.
  - injection Hx as <-. right. by exists i, svc, hd.
  - injection Hx as <-. by left.
  - destruct o; try done. destruct (droppable pc); [|done]. injection Hx as <-. by left.
Qed.

Section one_step.
Context w l w' (Hx : exec parse w l = Some w') (Hh : hosting w).

Lemma hosted_step s ms h : (s, ms, h) ∈ hosted w -> (s, ms, h) ∈ hosted w'.
Proof.
  destruct (lg_hosted _ _ _ (exec_logs parse w l w' Hx)) as [k ->]. rewrite elem_of_app. by left.
Qed.

Lemma hosts_step s h : hosts w s h -> hosts w' s h.
Proof. intros [ms Hin]. exists ms. by apply hosted_step. Qed.

(** The tables of local services after the step. *)
Lemma locals_step :
  (forall s h, Broker.local_services (broker w') !! s = Some h -> hosts w s h)
  /\ (forall s ms, Broker.local_service_methods (broker w') !! s = Some ms ->
        exists h, (s, ms, h) ∈ hosted w').
Proof.
  assert (Hkept : locals_kept w w' ->
    (forall s h, Broker.local_services (broker w') !! s = Some h -> hosts w s h)
    /\ forall s ms, Broker.local_service_methods (broker w') !! s = Some ms ->
         exists h, (s, ms, h) ∈ hosted w').
  { intros [-> ->]. split; [apply (ho_service w Hh)|]. intros s ms Hm.
    destruct (ho_methods w Hh s ms Hm) as [h Hin]. exists h. by apply hosted_step. }
  pose proof Hx as Hx'. unfold exec in Hx'.
  destruct (exec_conn w l) eqn:Hx1; [simplify_eq; by apply Hkept, (locals_conn w l)|].
  destruct (exec_task parse w l) as [w1|] eqn:Hx2.
  { simplify_eq. apply locals_task in Hx2 as [?|(id & s & h & Ht & Hs & Hm)]; [by apply Hkept|].
    rewrite Hs, Hm. split; [|intros s' ms Hms; destruct (ho_methods w Hh s' ms Hms) as [h' ?]; exists h';
      by apply hosted_step].
    intros s' h' [[<- <-]|[_ Hl]]%lookup_insert_Some; [by eapply ho_register | by apply ho_service]. }
  destruct l as [| | | | | | | | | | | | | | | | | |service methods handler|service]; try done;
    simpl in Hx'; injection Hx' as Hw; subst w'; try (by apply Hkept).
  - split; [apply (ho_service w Hh)|]. intros s ms Hl.
    change (<[service := methods]> (Broker.local_service_methods (broker w)) !! s = Some ms) in Hl.
    apply lookup_insert_Some in Hl as [[<- <-]|[_ Hl]].
    + exists handler. simpl. set_solver.
    + destruct (ho_methods w Hh s ms Hl) as [h' ?]. exists h'. simpl. set_solver.
  - apply Hkept. by destruct (shutdown_target _ _).
Qed.

(** A routed invocation starts at the beginning. *)
Lemma route_start b c originator inv o a pc :
  route_invoke b c originator inv = TCall o a pc -> pc = CStart.
Proof. unfold route_invoke. destruct (split_once _ _) as [[s m]|]; by intros; simplify_eq. Qed.

Lemma call_local_hosts id o a pc h :
  tasks w' !! id = Some (TCall o a pc) -> pc_local pc = Some h -> hosts w a.(CallArgs.service) h.
Proof.
  intros Ht Hp. pose proof (exec_tasks parse w l w' id _ Hx Ht) as Hf.
  inversion Hf as [t Hs|a' Hl Hi|c hello g Hl Hrg Hc Hi|c hello g inv Hl Hc Hi Hrt|o' a' pc0 h' pc' Hl Hs Hst
    |o' a' hd' r Hl Hs|o' a' hd' rid' resp Hl Hs Hrep|o' a' hd' rid' Hl Hs Hd'|o' a' pc0 Hl Hs Hz Hpc
    |o' a' r t Hl Hs Hc|svc ms hd Hl Hi|svc e Hl Hg Hi]; subst; try done.
  - by eapply ho_call.
  - by rewrite (route_start _ _ _ _ _ _ _ Hrt) in Hp.
  - destruct pc0; simpl in Hst; simplify_eq;
      unfold call_local, call_catalog, call_registry, call_session, call_register, call_send in *;
      repeat case_match; simplify_eq/=; first [by eapply ho_service | by eapply ho_call].
  - destruct o'; simpl in Hc; repeat case_match; simplify_eq.
Qed.

Lemma register_hosts id s h : tasks w' !! id = Some (TLocal s h) -> hosts w' s h.
Proof.
  intros Ht. pose proof hosts_step as Hold. pose proof (exec_tasks parse w l w' id _ Hx Ht) as Hf.
  inversion Hf as [t Hs|a' Hl Hi|c hello g Hl Hrg Hc Hi|c hello g inv Hl Hc Hi Hrt|o' a' pc0 h' pc' Hl Hs Hst
    |o' a' hd' r Hl Hs|o' a' hd' rid' resp Hl Hs Hrep|o' a' hd' rid' Hl Hs Hd'|o' a' pc0 Hl Hs Hz Hpc
    |o' a' r t Hl Hs Hc|svc ms hd Hl Hi|svc e Hl Hg Hi]; subst; try done.
  - by eapply Hold, ho_register.
  - unfold route_invoke in Hrt. by destruct (split_once _ _) as [[]|].
  - destruct o'; simpl in Hc; repeat case_match; simplify_eq.
  - exists ms. unfold exec in Hx. simpl in Hx. injection Hx as <-. simpl. set_solver.
Qed.

Lemma hosting_exec : hosting w'.
Proof.
  pose proof locals_step as [Hs Hm]. split.
  - intros s h Hl. by apply hosts_step, Hs.
  - exact Hm.
  - exact register_hosts.
  - intros id o a pc h Ht Hp. apply hosts_step. by eapply call_local_hosts.
Qed.

End one_step.

Lemma reachable_hosting config n w : reachable parse config n w -> hosting w.
Proof.
  induction 1 as [|n w l w' _ IH Hx]; [|by eapply hosting_exec].
  split; simpl; intros *; by rewrite lookup_empty.
Qed.

(** * Refusals *)

Lemma catalog_exec n w l w' s ms :
  structural n w -> exec parse w l = Some w' -> catalog w s ms -> catalog w' s ms.
Proof.
  intros Hst Hx [c hello g Hr Hs|methods handler Hin].
  - apply (cat_app w' s c hello g); [by eapply registered_exec | done].
  - eapply cat_local. by eapply hosted_step.
Qed.

Lemma refused_exec n w l w' a e :
  structural n w -> exec parse w l = Some w' -> refused w a e -> refused w' a e.
Proof.
  intros Hst Hx []; [apply rf_service | eapply rf_method | eapply rf_user]; try done; by eapply catalog_exec.
Qed.

(** A check against a catalog of the service fails for a reason. *)
Lemma check_method_refused w ms (a : CallArgs) e :
  catalog w a.(CallArgs.service) ms -> check_method ms a = Err e -> refused w a e.
Proof.
  intros Hc. unfold check_method. destruct (find_method _ _) as [d|] eqn:Hf; simpl.
  - destruct (d.(MethodDecl.requires_auth)) eqn:Hra; simpl; [|done].
    case_bool_decide; [|done]. intros [= <-]. by eapply rf_user.
  - intros [= <-]. by eapply rf_method.
Qed.

Lemma call_step_refused n w (h' : Heap Q) id (a : CallArgs) pc r :
  structural n w -> hosting w -> call_step (broker w) (heap w) id a pc = Some (h', CDone r) ->
  exists e, r = Err e /\ refused w a e.
Proof.
  intros Hst Hh Hs. destruct pc as [|hl| |e|e hd|e hd rid| | |]; simpl in Hs; simplify_eq.
  - unfold call_local in *. by case_match.
  - unfold call_catalog in *.
    destruct (Broker.local_service_methods _ !! _) as [ms|] eqn:Hm; [|done].
    destruct (ho_methods w Hh _ _ Hm) as [h Hin].
    destruct (check_method ms a) eqn:Hck; simplify_eq. eexists. split; [done|].
    eapply check_method_refused; [by eapply cat_local | done].
  - unfold call_registry in *.
    destruct (Registry.get _ _) as [e|] eqn:He; [|simplify_eq; eauto using rf_service].
    destruct (check_method _ a) eqn:Hck; simplify_eq. eexists. split; [done|].
    destruct (str_entry n w Hst _ _ He) as (Hsv & (hello & Hrg & Hs1 & Hms) & _).
    eapply check_method_refused; [|done]. rewrite Hms. apply (cat_app w _ _ hello _ Hrg). congruence.
  - unfold call_session in *. destruct (Broker.sessions _ !! _); simplify_eq. eauto using rf_service.
  - unfold call_send in *. destruct (chan_send _ _ _); simplify_eq. eauto using rf_service.
Qed.

End hosting.
