(* ===== verification/Origins.v ===== *)
(** Where the answers of the broker come from: every call an app makes comes
    from an [Invoke] read from its connection, every result of a call is
    explained by the routing, a timer, a local service or a response read from
    the service, and every [Response] sent to an app answers one of its own
    [Invoke]s. *)

From stdpp Require Import prelude gmap strings.
From Stdlib Require Import Ascii.
From S2P Require Import Prelude Frame Runtime Registry Broker Session System Invariant Steps History Calls Guarantees Hosting.

(** [echo]'s answer has been sent back to [app]. *)
Definition script_returned : list Label :=
  script_answered ++ [LReply 4; LContinue 4; LContinue 4; LWriter 2 true].
Definition returned : World (Fifo BusFrame) := run_example script_returned.

Section origins.
Context {Q : Type} `{LawfulMpsc Q BusFrame}.
Context (parse : bytes -> result CapabilityResponse string).
Implicit Types w : World Q.

(** * Definitions *)

(** The number [rid] was drawn at connection [c] for the call with arguments
    [a]: an [Invoke] sent to [c] under that number can only be its own. *)
Record sole_invoke w (c : conn_id) (rid : N) (a : CallArgs) : Prop := {
  si_drawn : drawn w c rid;
  si_sent id o a' e hd : tasks w !! id = Some (TCall o a' (CSend e hd rid)) ->
    hd.(SessionHandle.pending_out) <> c;
  si_only inv : BusFrame.Invoke inv ∈ frames_to w c -> inv.(Invoke.req_id) = rid ->
    BusFrame.Invoke inv = invoke_frame a rid
}.

(** Why a call may have returned [r]. *)
Inductive explained w (a : CallArgs) : result bytes BusError -> Prop :=
| ex_refused e : refused w a e -> explained w a (Err e)
| ex_timeout : a.(CallArgs.timeout) <> 0%N -> explained w a (Err (timeout_error a))
| ex_local h r : hosts w a.(CallArgs.service) h -> (h, a, r) ∈ resolved w -> explained w a r
| ex_remote c hello g resp : registered w c hello g ->
    hello.(HelloRequest.service) = a.(CallArgs.service) ->
    BusFrame.Response resp ∈ inbox_of w c -> sole_invoke w c resp.(Response.req_id) a ->
    explained w a resp.(Response.result).

(** The [Invoke] read from [c] that became the call [a]. *)
Definition routed w (c : conn_id) (inv : Invoke) (a : CallArgs) : Prop :=
  BusFrame.Invoke inv ∈ inbox_of w c
  /\ exists hello g, registered w c hello g
       /\ route_invoke (broker w) c hello.(HelloRequest.service) inv
          = TCall (OApp c inv.(Invoke.req_id)) a CStart.

(** What a [Response] sent to [c] answers. *)
Inductive reply_ok w (c : conn_id) (resp : Response) : Prop :=
| reply_call inv a : routed w c inv a -> resp.(Response.req_id) = inv.(Invoke.req_id) ->
    explained w a resp.(Response.result) -> reply_ok w c resp
| reply_bad inv : BusFrame.Invoke inv ∈ inbox_of w c -> resp.(Response.req_id) = inv.(Invoke.req_id) ->
    split_once inv.(Invoke.method) "."%char = None ->
    resp.(Response.result) = Err (bad_invoke inv.(Invoke.method)) -> reply_ok w c resp.

Record origins w : Prop := {
  or_entry id o a pc e hd : tasks w !! id = Some (TCall o a pc) -> pc_entry pc = Some e ->
    pc_handle pc = Some hd -> hd.(SessionHandle.pending_out) = e.(ServiceEntry.tx);
  or_bound c inv : BusFrame.Invoke inv ∈ frames_to w c -> drawn w c inv.(Invoke.req_id);
  or_send id o a e hd rid inv : tasks w !! id = Some (TCall o a (CSend e hd rid)) ->
    BusFrame.Invoke inv ∈ frames_to w hd.(SessionHandle.pending_out) -> inv.(Invoke.req_id) <> rid;
  or_await id o a hd rid : tasks w !! id = Some (TCall o a (CAwaitRemote hd rid)) ->
    sole_invoke w hd.(SessionHandle.pending_out) rid a;
  or_done id o a r : tasks w !! id = Some (TCall o a (CDone r)) -> explained w a r;
  or_app id c rid a pc : tasks w !! id = Some (TCall (OApp c rid) a pc) ->
    exists inv, routed w c inv a /\ inv.(Invoke.req_id) = rid;
  or_reply id c resp : tasks w !! id = Some (TReply c resp) -> reply_ok w c resp;
  or_resp c resp : BusFrame.Response resp ∈ frames_to w c ->
    (exists e, BusFrame.Response resp = error_frame e) \/ reply_ok w c resp
}.

(** * Preservation *)

(** Routing only looks at the configuration. *)
Lemma route_invoke_config b b' c originator inv :
  Broker.config b = Broker.config b' ->
  route_invoke b c originator inv = route_invoke b' c originator inv.
Proof. intros Hc. unfold route_invoke, Broker.call. by rewrite Hc. Qed.

(** A routed invocation is either a call at its start or a refusal. *)
Lemma route_invoke_cases b c originator inv :
  (exists a, route_invoke b c originator inv = TCall (OApp c inv.(Invoke.req_id)) a CStart)
  \/ (split_once inv.(Invoke.method) "."%char = None
      /\ route_invoke b c originator inv
         = TReply c {| Response.req_id := inv.(Invoke.req_id);
                       Response.result := Err (bad_invoke inv.(Invoke.method)) |}).
Proof. unfold route_invoke. destruct (split_once _ _) as [[s m]|]; eauto. Qed.

Section one_step.
Context config n w l w' (Hr : reachable parse config n w) (Hb : (n + 2 < U64_SIZE)%N)
  (Hx : exec parse w l = Some w').
Context (Hor : origins w).

Lemma step_structural : structural n w.
Proof. eapply reachable_structural; [done | lia]. Qed.
Lemma step_hosting : hosting w.
Proof. by eapply reachable_hosting. Qed.
Lemma step_calls : calls_ok n w.
Proof. eapply reachable_calls_ok; [done | lia]. Qed.

(** A frame for [c] is old or has a known origin. *)
Lemma step_frame c f : f ∈ frames_to w' c -> f ∈ frames_to w c \/ new_frame w l c f.
Proof.
  apply adds_elem. by eapply exec_frames.
Qed.

(** A new request comes from the call that steps. *)
Lemma step_invoke c inv :
  BusFrame.Invoke inv ∈ frames_to w' c -> BusFrame.Invoke inv ∈ frames_to w c
  \/ exists id o a e hd, l = LStep id
       /\ tasks w !! id = Some (TCall o a (CSend e hd inv.(Invoke.req_id)))
       /\ hd.(SessionHandle.pending_out) = c
       /\ BusFrame.Invoke inv = invoke_frame a inv.(Invoke.req_id).
Proof.
  intros [?|Hf]%step_frame; [by left|right]. inversion Hf as [| | | | |id o a e hd rid Hl Ht Hc]; subst.
  exists id, o, a, e, hd. simpl. split_and!; try done. by eapply or_entry.
Qed.

Lemma drawn_step c rid : drawn w c rid -> drawn w' c rid.
Proof. eapply drawn_exec; [apply step_structural | apply step_calls | done | done]. Qed.

(** Who is about to send was so before, or has just drawn its number. *)
Lemma step_send id o a e hd rid :
  tasks w' !! id = Some (TCall o a (CSend e hd rid)) -> drawn w hd.(SessionHandle.pending_out) rid ->
  tasks w !! id = Some (TCall o a (CSend e hd rid)).
Proof.
  intros Ht Hd. pose proof (exec_tasks parse w l w' id _ Hx Ht) as Hf.
  inversion Hf as [t Hs|a' Hl Hi|c hello g Hl Hrg Hc Hi|c hello g inv Hl Hc Hi Hrt|o' a' pc0 h pc' Hl Hs Hst
    |o' a' hd' r Hl Hs|o' a' hd' rid' resp Hl Hs Hrep|o' a' hd' rid' Hl Hs Hd'|o' a' pc0 Hl Hs Hz Hpc
    |o' a' r t Hl Hs Hc|svc ms hd' Hl Hi|svc e' Hl Hg Hi]; subst; try done.
  - destruct (route_invoke_cases (broker w) c hello.(HelloRequest.service) inv) as [[a1 Ha]|[_ Ha]]; congruence.
  - destruct (drawn_fresh parse n w (LStep id) w' id o a _ hd rid _ step_calls Hx Ht eq_refl Hd eq_refl)
      as (pc1 & Hs1 & Hw1).
    destruct pc0; simpl in *; simplify_eq/=; unfold call_local, call_catalog, call_registry, call_session, call_send in *;
      repeat case_match; simplify_eq.
  - destruct o'; simpl in Hc; repeat case_match; simplify_eq.
Qed.

Lemma sole_step c rid a : sole_invoke w c rid a -> sole_invoke w' c rid a.
Proof.
  intros [Hd Hs Ho]. split; [by apply drawn_step| |].
  - intros id o a' e hd Ht Heq. subst c. by apply (Hs id o a' e hd (step_send _ _ _ _ _ _ Ht Hd)).
  - intros inv [Hin|(id & o & a' & e & hd & _ & Ht & Hc & _)]%step_invoke Hrid; [by apply Ho|].
    rewrite Hrid in Ht. by destruct (Hs _ _ _ _ _ Ht).
Qed.

Lemma resolved_step x : x ∈ resolved w -> x ∈ resolved w'.
Proof.
  destruct (lg_resolved _ _ _ (exec_logs parse w l w' Hx)) as [k ->]. rewrite elem_of_app. by left.
Qed.

Lemma explained_step a r : explained w a r -> explained w' a r.
Proof.
  destruct 1 as [e He| |h r Hl Hin|c hello g resp Hrg Hsv Hin Hso].
  - apply ex_refused. eapply refused_exec; [apply step_structural | done | done].
  - by apply ex_timeout.
  - apply (ex_local _ _ h); [by eapply hosts_step|]. by apply resolved_step.
  - apply (ex_remote w' a c hello g resp); try done.
    + eapply registered_exec; [apply step_structural | done | done].
    + destruct (exec_inbox parse w l w' Hx) as (_ & Hi & _). auto.
    + by apply sole_step.
Qed.

Lemma routed_step c inv a : routed w c inv a -> routed w' c inv a.
Proof.
  intros (Hin & hello & g & Hrg & Hrt). destruct (exec_inbox parse w l w' Hx) as (_ & Hi & _).
  split; [auto|]. exists hello, g. split; [eapply registered_exec; [apply step_structural | done | done]|].
  rewrite <-Hrt. apply route_invoke_config. by eapply lg_config, exec_logs.
Qed.

Lemma reply_ok_step c resp : reply_ok w c resp -> reply_ok w' c resp.
Proof.
  destruct 1 as [inv a Hrt Hid He|inv Hin Hid Hsp Hres].
  - eapply reply_call; [by apply routed_step | done | by apply explained_step].
  - eapply reply_bad; try done. destruct (exec_inbox parse w l w' Hx) as (_ & Hi & _). auto.
Qed.

(** ** The fields of [origins] *)

(** The steps of a task, with what each can lead to. *)
Local Ltac task_cases Ht Hf :=
  pose proof (exec_tasks parse w l w' _ _ Hx Ht) as Hf;
  inversion Hf as [t Hs|a' Hl Hi|c0 hello g Hl Hrg0 Hc Hi|c0 hello g inv Hl Hc Hi Hrt|o' a' pc0 h pc' Hl Hs Hst
    |o' a' hd' r' Hl Hs|o' a' hd' rid' resp' Hl Hs Hrep|o' a' hd' rid' Hl Hs Hd'|o' a' pc0 Hl Hs Hz Hpc
    |o' a' r' t Hl Hs Hc|svc ms hd' Hl Hi|svc e' Hl Hg Hi]; subst; try done.
Local Ltac no_route Hrt c hello inv :=
  destruct (route_invoke_cases (broker w) c hello.(HelloRequest.service) inv) as [[? Ha]|[_ Ha]]; congruence.
Local Ltac no_continue o Hc := destruct o; simpl in Hc; repeat case_match; simplify_eq.

Lemma entry_step id o a pc e hd :
  tasks w' !! id = Some (TCall o a pc) -> pc_entry pc = Some e -> pc_handle pc = Some hd ->
  hd.(SessionHandle.pending_out) = e.(ServiceEntry.tx).
Proof.
  intros Ht He Hh. task_cases Ht Hf.
  - by eapply or_entry.
  - destruct (route_invoke_cases (broker w) c0 hello.(HelloRequest.service) inv) as [[? Ha]|[_ Ha]];
      rewrite Ha in Hrt; by simplify_eq.
  - destruct pc0 as [|hl| |e0|e0 hd0| | | |]; simpl in Hst; simplify_eq; simpl in *.
    + unfold call_local in He. by repeat case_match.
    + unfold call_catalog in He. by repeat case_match.
    + unfold call_registry in Hh. by repeat case_match.
    + unfold call_session in *. destruct (Broker.sessions (broker w) !! _) as [h0|] eqn:Hse; [|done].
      simplify_eq/=. destruct (str_session n w step_structural _ _ _ Hse) as (c & hello & Hc & _ & ->).
      destruct (str_task n w step_structural _ _ _ _ _ Hs eq_refl) as (hello' & Hrg & _).
      eapply (str_gen_inj n w step_structural); [by exists (SRunning hello (ServiceEntry.generation e))|done].
    + unfold call_register in Hst. simplify_eq/=. by apply (or_entry w Hor _ _ _ _ _ _ Hs).
    + unfold call_send in Hst. destruct (chan_send _ _ _); by simplify_eq.
  - no_continue o' Hc.
Qed.

Lemma bound_step c inv : BusFrame.Invoke inv ∈ frames_to w' c -> drawn w' c inv.(Invoke.req_id).
Proof.
  intros [Hin|(id & o & a & e & hd & _ & Ht & <- & _)]%step_invoke; apply drawn_step; [by eapply or_bound|].
  by eapply drawn_wait; [apply step_calls | done |].
Qed.

Lemma send_step id o a e hd rid inv :
  tasks w' !! id = Some (TCall o a (CSend e hd rid)) ->
  BusFrame.Invoke inv ∈ frames_to w' hd.(SessionHandle.pending_out) -> inv.(Invoke.req_id) <> rid.
Proof.
  intros Ht Hin <-.
  assert (Hd : drawn w hd.(SessionHandle.pending_out) inv.(Invoke.req_id)).
  { apply step_invoke in Hin as [Hin|(i & o' & a' & e' & hd' & _ & Hs & <- & _)]; [by eapply or_bound|].
    by eapply drawn_wait; [apply step_calls | done |]. }
  pose proof (step_send _ _ _ _ _ _ Ht Hd) as Hs. apply step_invoke in Hin as [Hin|Hnew].
  - by apply (or_send w Hor _ _ _ _ _ _ _ Hs Hin).
  - destruct Hnew as (i & o' & a' & e' & hd' & Hl & Hs' & Hc & _).
    assert (i = id) as -> by exact (co_unique n w step_calls _ _ _ _ _ _ _ _ _ _ _ Hs' Hs eq_refl eq_refl Hc).
    pose proof Hx as Hx'. rewrite Hl in Hx'. unfold exec in Hx'. simpl in Hx'. rewrite Hs in Hx'. simpl in Hx'.
    destruct (call_send _ _ _ _ _) as [h1 pc1] eqn:Hcs. injection Hx' as <-. simpl in Ht.
    rewrite lookup_insert_eq in Ht. unfold call_send in Hcs. destruct (chan_send _ _ _); by simplify_eq.
Qed.

(** The call that has just sent its request is its only owner. *)
Lemma sent_sole id o a e hd rid :
  l = LStep id -> tasks w !! id = Some (TCall o a (CSend e hd rid)) ->
  tasks w' !! id = Some (TCall o a (CAwaitRemote hd rid)) ->
  sole_invoke w' hd.(SessionHandle.pending_out) rid a.
Proof.
  intros Hl Hs Ht. pose proof (drawn_wait n w id _ _ _ _ _ step_calls Hs eq_refl) as Hd. split.
  - by apply drawn_step.
  - intros i o' a' e' hd' Hi Hc. rewrite <-Hc in Hd. pose proof (step_send _ _ _ _ _ _ Hi Hd) as Hi0.
    assert (i = id) as -> by exact (co_unique n w step_calls _ _ _ _ _ _ _ _ _ _ _ Hi0 Hs eq_refl eq_refl Hc).
    congruence.
  - intros inv [Hin|(i & o' & a' & e' & hd' & Hl' & Hs' & Hc & Hf)]%step_invoke Hrid.
    + by destruct (or_send w Hor _ _ _ _ _ _ _ Hs Hin).
    + rewrite Hl in Hl'. injection Hl' as <-. rewrite Hs in Hs'. injection Hs' as <- <- <- <- Hrd.
      by rewrite Hf, <-Hrd.
Qed.

Lemma await_step id o a hd rid :
  tasks w' !! id = Some (TCall o a (CAwaitRemote hd rid)) ->
  sole_invoke w' hd.(SessionHandle.pending_out) rid a.
Proof.
  intros Ht. pose proof sent_sole as Hsent. pose proof sole_step as Hsole. task_cases Ht Hf.
  - apply Hsole. by eapply or_await.
  - no_route Hrt c0 hello inv.
  - destruct pc0; simpl in Hst; simplify_eq; unfold call_local, call_catalog, call_registry, call_session, call_register in *;
      repeat case_match; simplify_eq/=.
    unfold call_send in Hst. destruct (chan_send _ _ _); simplify_eq/=. by eapply Hsent.
  - no_continue o' Hc.
Qed.

(** What a local handler returns is on record. *)
Lemma resolved_local id o a h r :
  l = LLocal id r -> tasks w !! id = Some (TCall o a (CAwaitLocal h)) -> explained w' a r.
Proof.
  intros Hl Ht. apply (ex_local _ _ h).
  - eapply hosts_step; [done|]. by eapply ho_call; [apply step_hosting | done |].
  - subst l. unfold exec in Hx. simpl in Hx. rewrite Ht in Hx. injection Hx as <-. simpl. set_solver.
Qed.

Lemma done_step id o a r : tasks w' !! id = Some (TCall o a (CDone r)) -> explained w' a r.
Proof.
  intros Ht. pose proof resolved_local as Hres. pose proof explained_step as Hold.
  assert (Hnow : explained w a r -> explained w' a r) by apply Hold. task_cases Ht Hf.
  - by eapply Hnow, or_done.
  - no_route Hrt c0 hello inv.
  - destruct (call_step_refused n w _ _ _ _ _ step_structural step_hosting Hst) as (e & -> & He).
    by apply Hnow, ex_refused.
  - by eapply Hres.
  - apply Hnow. destruct (co_wait n w step_calls _ _ _ _ _ _ Hs eq_refl) as (_ & Hz & _).
    destruct (Hz _ Hrep) as [Hid Hin].
    destruct (co_handle n w step_calls _ _ _ _ _ Hs eq_refl) as (c & pc & hello & g & -> & Hc & Hg & _ & Hsv & _).
    simpl in *. apply (ex_remote w a c hello g resp'); try done; [by exists pc|]. rewrite Hid.
    exact (or_await w Hor _ _ _ _ _ Hs).
  - by rewrite (sender_alive parse config n w _ _ _ _ _ Hr ltac:(lia) Hs) in Hd'.
  - by apply Hnow, ex_timeout.
  - no_continue o' Hc.
Qed.

Lemma app_step id c rid a pc :
  tasks w' !! id = Some (TCall (OApp c rid) a pc) ->
  exists inv, routed w' c inv a /\ inv.(Invoke.req_id) = rid.
Proof.
  intros Ht.
  assert (Hold : forall pc0, tasks w !! id = Some (TCall (OApp c rid) a pc0) ->
    exists inv, routed w' c inv a /\ inv.(Invoke.req_id) = rid).
  { intros pc0 Hs. destruct (or_app w Hor _ _ _ _ _ Hs) as (inv & Hrt & Hid). eauto using routed_step. }
  task_cases Ht Hf; eauto.
  - destruct (route_invoke_cases (broker w) c0 hello.(HelloRequest.service) inv) as [[a1 Ha]|[_ Ha]]; [|congruence].
    rewrite Ha in Hrt. injection Hrt as <- <- <- <-. exists inv. split; [|done].
    destruct (exec_inbox parse w _ w' Hx) as (_ & _ & Hlog). split; [by apply Hlog|].
    assert (Hrg : registered w c0 hello g) by by exists (SRunning hello g).
    exists hello, g. split; [eapply registered_exec; [apply step_structural | done | done]|].
    rewrite <-Ha. apply route_invoke_config. by eapply lg_config, exec_logs.
  - no_continue o' Hc.
Qed.

Lemma reply_step id c resp : tasks w' !! id = Some (TReply c resp) -> reply_ok w' c resp.
Proof.
  intros Ht. pose proof reply_ok_step as Hold. task_cases Ht Hf.
  - apply Hold. by eapply or_reply.
  - destruct (route_invoke_cases (broker w) c0 hello.(HelloRequest.service) inv) as [[a1 Ha]|[Hsp Ha]]; [congruence|].
    rewrite Ha in Hrt. injection Hrt as <- <-.
    destruct (exec_inbox parse w _ w' Hx) as (_ & _ & Hlog). by apply (reply_bad _ _ _ inv); [apply Hlog| | |].
  - apply Hold. destruct o'; simpl in Hc; repeat case_match; simplify_eq.
    destruct (or_app w Hor _ _ _ _ _ Hs) as (inv & Hrt & <-).
    eapply reply_call; [done | done|]. simpl. by eapply or_done.
Qed.

Lemma resp_step c resp :
  BusFrame.Response resp ∈ frames_to w' c ->
  (exists e, BusFrame.Response resp = error_frame e) \/ reply_ok w' c resp.
Proof.
  intros [Hin|Hf]%step_frame.
  - destruct (or_resp w Hor _ _ Hin) as [|?]; [by left | right; by apply reply_ok_step].
  - inversion Hf; subst; [left; by eexists|]. right. apply reply_ok_step. by eapply or_reply.
Qed.

Lemma origins_exec : origins w'.
Proof.
  split; [exact entry_step | exact bound_step | exact send_step | exact await_step | exact done_step
    | exact app_step | exact reply_step | exact resp_step].
Qed.

End one_step.
Lemma origins_init config : origins (init (Q := Q) config).
Proof.
  split; simpl; intros *; rewrite ?lookup_empty; try done;
    unfold frames_to, wire_of, chan_queue; simpl; rewrite ?lookup_empty; simpl; by intros ?%elem_of_nil.
Qed.

Lemma reachable_origins config n w :
  reachable parse config n w -> (n + 1 < U64_SIZE)%N -> origins w.
Proof.
  induction 1 as [|n w l w' Hr IH Hx]; intros Hb; [apply origins_init|].
  eapply origins_exec; [exact Hr | lia | exact Hx | apply IH; lia].
Qed.

(** C7: the provenance of responses. Every [Response] ever sent to a connection
    is the refusal of its handshake or answers an [Invoke] that was read from
    this very connection, under its number: with [BadRequest] if the method
    name has no dot, and otherwise with a result of the call it was routed to,
    which is a refusal of the routing ([ServiceNotFound], or [MethodNotFound] or
    [Unauthorized] by a catalog that was given for the called service), the
    timeout of that call, the result that a handler the host registered for
    that service returned for this call, or the result carried by a response that was
    read from a connection registered for the called service under a number
    that only this call ever had there. *)
Theorem response_provenance config n w (c : conn_id) (resp : Response) :
  reachable parse config n w -> (n + 1 < U64_SIZE)%N ->
  BusFrame.Response resp ∈ frames_to w c ->
  (exists e, BusFrame.Response resp = error_frame e) \/ reply_ok w c resp.
Proof. intros Hr Hb. by apply or_resp, (reachable_origins config n). Qed.

End origins.

Lemma response_provenance_witness :
  reply_ok returned 2 {| Response.req_id := 9; Response.result := Ok (bytes_lit "pong") |}.
Proof.
  destruct (response_provenance no_capabilities BrokerConfig.default (N.of_nat (length script_returned))
    returned 2 {| Response.req_id := 9; Response.result := Ok (bytes_lit "pong") |}
    (example_reachable script_returned eq_refl) eq_refl) as [[e He]|Hok]; [|discriminate He|exact Hok].
  apply (bool_decide_unpack _). vm_compute. exact I.
Defined.
