(* ===== verification/Capabilities.v ===== *)
(** The cached capabilities (crates/broker/src/broker.rs, [probe_capabilities]):
    where a cached entry comes from, and how long it stays. *)

From stdpp Require Import prelude gmap strings.
From S2P Require Import Prelude Frame Runtime Registry Broker Session System Invariant Steps History Calls Guarantees Hosting Origins.

(** What [store_capabilities] makes of a response. *)
Definition advertised (r : CapabilityResponse) : ServiceCapabilities := {|
  ServiceCapabilities.version := r.(CapabilityResponse.version);
  ServiceCapabilities.methods := list_to_set r.(CapabilityResponse.methods) |}.

Section capabilities.
Context {Q : Type} `{LawfulMpsc Q BusFrame}.
Context (parse : bytes -> result CapabilityResponse string).
Implicit Types w : World Q.

Definition caps w : gmap string ServiceCapabilities := Broker.capabilities (broker w).

(** A probe of [s] has returned bytes that parse to [r]. *)
Definition probed w (s : string) (r : CapabilityResponse) : Prop :=
  exists l, parse l = Ok r /\ explained w (probe_args (broker w) s) (Ok l).

Record caps_ok w : Prop := {
  cp_probe id s g a pc : tasks w !! id = Some (TCall (OProbe s g) a pc) -> a = probe_args (broker w) s;
  cp_store id s r : tasks w !! id = Some (TStore s r) -> probed w s r;
  cp_cached s cap : caps w !! s = Some cap -> exists r, probed w s r /\ cap = advertised r
}.

(** A cached entry was there, or is stored by the task that ends a probe. *)
Lemma exec_caps w l w' s cap :
  exec parse w l = Some w' -> caps w' !! s = Some cap ->
  caps w !! s = Some cap
  \/ exists id r, l = LContinue id /\ tasks w !! id = Some (TStore s r) /\ cap = advertised r.
Proof.
  unfold exec, caps. intros Hx Hc. destruct (exec_conn w l) as [w1|] eqn:Hx1; simplify_eq.
  { left. destruct l as [|c0 read wr|c0 wr|c0|c0 f|c0|c0|c0 wr|c0| | | | | | | | | | |];
      try done; [..|apply exec_session in Hx1;
        destruct Hx1 as [hl Hc0|hl i Hc0|hl g i Hc0|hl g pc job b h t job' Hc0 _ _ _ Hsj]; [done..|]];
      [..|destruct job as [|ev fp| |]; simpl in Hsj;
        [|destruct (fan_step _ _ _ _)|destruct (Broker.should_remove _ _ _)|];
        injection Hsj as <- <- <- <-; try done;
        simpl in Hc; by apply lookup_delete_Some in Hc as [_ ?]];
      simpl in Hx1; [|destruct (conns w !! c0) as [[]|] eqn:Hc0; try done..].
    - by injection Hx1 as <-.
    - destruct (serve_hello _ _) as [[b out] pc] eqn:Hsh. injection Hx1 as <-.
      destruct (serve_hello_cases _ _ _ _ _ Hsh) as (tk & -> & _). by destruct read as [[]|], out, wr.
    - destruct wr; simpl in Hx1; by injection Hx1 as <-.
    - by injection Hx1 as <-.
    - destruct (busy w !! c0); [done|].
      destruct (serve_frame _ _ _ _ _) as [[[b h] t] job] eqn:Hsf. injection Hx1 as <-.
      assert (Hb : Broker.capabilities b = Broker.capabilities (broker w)).
      { destruct f; simpl in Hsf; simplify_eq; try done. unfold Broker.unsubscribe. by case_match. }
      rewrite <-Hb. by destruct t.
    - destruct (busy w !! c0); [done|]. by injection Hx1 as <-.
    - destruct (busy w !! c0); [done|]. by injection Hx1 as <-.
    - destruct (channels (heap w) !! c0) as [q|]; simpl in Hx1; [|done].
      destruct (mpsc_recv q) as [[f q']|]; [|done]. injection Hx1 as <-. by destruct wr.
    - destruct (channels (heap w) !! c0) as [q|]; simpl in Hx1; [|done].
      destruct (mpsc_recv q) as [[f q']|]; [|done]. injection Hx1 as <-. by destruct wr.
    - destruct (channels (heap w) !! c0) as [q|]; simpl in Hx1; [|done].
      destruct (mpsc_recv q) as [[f q']|]; [|done]. injection Hx1 as <-. by destruct wr. }
  destruct (exec_task parse w l) as [w1|] eqn:Hx2; simplify_eq.
  { destruct l as [| | | | | | | | | |i|i r|i|i|i|i|i| | |]; try done; simpl in Hx2;
      destruct (tasks w !! i) as [[o a pc0|c0 resp|svc cr|svc hd|tx]|] eqn:Ht; try done.
    - destruct (call_step _ _ _ _ _) as [[h pc']|]; [|done]. injection Hx2 as <-. by left.
    - destruct pc0; try done. injection Hx2 as <-. by left.
    - destruct pc0; try done. destruct (replies _ !! i); [|done]. injection Hx2 as <-. by left.
    - destruct pc0; try done. destruct (sender_dropped _ _ _ _); [|done]. injection Hx2 as <-. by left.
    - destruct (bool_decide _); [done|]. destruct pc0; try done; injection Hx2 as <-; by left.
    - destruct pc0; try done. injection Hx2 as <-. left. destruct o; simpl in *; repeat case_match; done.
    - injection Hx2 as <-. by left.
    - injection Hx2 as <-. simpl in Hc.
      apply lookup_insert_Some in Hc as [[-> <-]|[_ ?]]; [|by left]. right. by exists i, cr.
    - injection Hx2 as <-. by left.
    - injection Hx2 as <-. by left.
    - destruct o; try done. destruct (droppable pc0); [|done]. injection Hx2 as <-. by left. }
  left. destruct l; try done; simpl in Hx; injection Hx as <-; try done. by destruct (shutdown_target _ _).
Qed.

Lemma caps_ok_exec config n w l w' :
  reachable parse config n w -> (n + 2 < U64_SIZE)%N -> exec parse w l = Some w' -> caps_ok w -> caps_ok w'.
Proof.
  intros Hr Hb Hx Hok. pose proof (reachable_origins parse config n w Hr ltac:(lia)) as Hor.
  assert (Hcfg : forall s, probe_args (broker w') s = probe_args (broker w) s).
  { intros s. unfold probe_args. by rewrite (lg_config w l w' (exec_logs parse w l w' Hx)). }
  assert (Hstep : forall s r, probed w s r -> probed w' s r).
  { intros s r (by_ & Hp & He). exists by_. split; [done|]. rewrite Hcfg.
    by eapply (explained_step parse config n w l w' Hr). }
  split.
  - intros id s g a pc Ht. rewrite Hcfg. pose proof (exec_tasks parse w l w' id _ Hx Ht) as Hf.
    assert (Hroute : forall c o inv, TCall (OProbe s g) a pc <> route_invoke (broker w) c o inv).
    { intros c o inv. destruct (route_invoke_cases (broker w) c o inv) as [[? ->]|[_ ->]]; done. }
    inversion Hf as [t Hs|a' Hl Hi|c hello g' Hl Hrg Hc Hi|c hello g' inv Hl Hc Hi Hrt|o' a' pc0 h pc' Hl Hs Hst
      |o' a' hd' r Hl Hs|o' a' hd' rid' resp Hl Hs Hrep|o' a' hd' rid' Hl Hs Hd'|o' a' pc0 Hl Hs Hz Hpc
      |o' a' r t Hl Hs Hc|svc ms hd' Hl Hi|svc e' Hl Hg Hi]; subst; try (by eapply cp_probe); try done.
    + by destruct (Hroute _ _ _ (eq_sym Hrt)).
    + destruct o'; simpl in Hc; repeat case_match; simplify_eq.
  - intros id s r Ht. apply Hstep. pose proof (exec_tasks parse w l w' id _ Hx Ht) as Hf.
    inversion Hf as [t Hs|a' Hl Hi|c hello g' Hl Hrg Hc Hi|c hello g' inv Hl Hc Hi Hrt|o' a' pc0 h pc' Hl Hs Hst
      |o' a' hd' r' Hl Hs|o' a' hd' rid' resp Hl Hs Hrep|o' a' hd' rid' Hl Hs Hd'|o' a' pc0 Hl Hs Hz Hpc
      |o' a' r' t Hl Hs Hc|svc ms hd' Hl Hi|svc e' Hl Hg Hi]; subst; try done.
    + by eapply cp_store.
    + destruct (route_invoke_cases (broker w) c (HelloRequest.service hello) inv) as [[? Ha]|[_ Ha]]; congruence.
    + destruct o' as [|c k|s' g]; simpl in Hc; try done. destruct r' as [by_|e]; [|done].
      destruct (parse by_) as [cr|] eqn:Hp; [|done]. destruct (Broker.still_current _ _ _); [|done].
      injection Hc as -> ->. exists by_. split; [done|].
      rewrite <-(cp_probe w Hok _ _ _ _ _ Hs). by eapply or_done.
  - intros s cap [Hc|(id & r & -> & Ht & ->)]%(exec_caps w l w' s cap Hx).
    + destruct (cp_cached w Hok _ _ Hc) as (r & Hp & ->). eauto.
    + exists r. split; [|done]. eapply Hstep, cp_store; [exact Hok|exact Ht].
Qed.

Lemma reachable_caps config n w : reachable parse config n w -> (n + 1 < U64_SIZE)%N -> caps_ok w.
Proof.
  induction 1 as [|n w l w' Hr IH Hx]; intros Hb.
  - split; simpl; try done.
  - eapply (caps_ok_exec config n w l w'); [done|lia|done|apply IH; lia].
Qed.

(** C20: cached capabilities are what the service said. What
    [get_capabilities] returns for a service is the version and the set of
    methods that some answer to a capability probe of that very service parses
    to: the answer was read from a connection registered for the service, to
    the one [Invoke] that carried the probe (method [capabilities], payload
    [{}], no identity), or a handler the host registered for that service gave
    it as its answer to the probe. *)
Theorem capabilities_from_probe config n w (s : string) cap :
  reachable parse config n w -> (n + 1 < U64_SIZE)%N -> Broker.get_capabilities (broker w) s = Some cap ->
  exists l r, parse l = Ok r /\ cap = advertised r
    /\ ((exists h, hosts w s h /\ (h, probe_args (broker w) s, Ok l) ∈ resolved w)
        \/ exists c hello g resp, registered w c hello g /\ hello.(HelloRequest.service) = s
             /\ BusFrame.Response resp ∈ inbox_of w c /\ resp.(Response.result) = Ok l
             /\ forall inv, BusFrame.Invoke inv ∈ frames_to w c -> inv.(Invoke.req_id) = resp.(Response.req_id) ->
                  inv.(Invoke.method) = "capabilities" /\ inv.(Invoke.payload) = bytes_lit "{}"
                  /\ inv.(Invoke.caller) = CallerCtx.default).
Proof.
  intros Hr Hb Hc. pose proof (reachable_caps config n w Hr Hb) as Hok.
  destruct (cp_cached w Hok s cap Hc) as (r & (l & Hp & He) & ->).
  exists l, r. split; [done|]. split; [done|].
  inversion He as [| |h r0 Hl Hres Heq|c hello g resp Hrg Hsv Hin Hso Heq]; subst.
  - left. by exists h.
  - right. exists c, hello, g, resp. split_and!; try done. intros inv Hinv Hid.
    pose proof (si_only _ _ _ _ Hso inv Hinv Hid) as Hf. injection Hf as ->. done.
Qed.

(** The task that stores only takes the step that stores. *)
Lemma store_stays n w l w' id s r :
  structural n w -> exec parse w l = Some w' -> tasks w !! id = Some (TStore s r) -> l <> LContinue id ->
  tasks w' !! id = Some (TStore s r).
Proof.
  intros Hst Hx Ht Hl. destruct (exec_task_stays parse n w l w' id _ Hst Hx Ht) as [|Hm]; [done|]. exfalso.
  destruct Hm as [->|[[rr ->]|[->|[->|[->|[->| ->]]]]]]; try done;
    unfold exec in Hx; simpl in Hx; rewrite Ht in Hx; done.
Qed.

(** C27: a probe stores what it has learned, whatever has happened since it
    checked. Once the task of [probe_capabilities] has seen its registration
    current, nothing calls it back: in any continuation, also when the
    connection has ended and its entry and its cached capabilities are gone, or
    another instance has taken the service over and cleared the cache, the
    insertion is still to come, and makes [get_capabilities] answer with the
    response of the old instance. *)
Theorem stale_probe_stores config n w w' (id : call_id) (s : string) r ls :
  reachable parse config n w -> (n + N.of_nat (length ls) < U64_SIZE)%N ->
  tasks w !! id = Some (TStore s r) -> LContinue id ∉ ls -> run parse w ls = Some w' ->
  exists w'', exec parse w' (LContinue id) = Some w''
    /\ Broker.get_capabilities (broker w'') s = Some (advertised r) /\ reg w'' = reg w'.
Proof.
  intros Hr Hb Ht Hl Hrun.
  assert (Ht' : tasks w' !! id = Some (TStore s r)).
  { revert n w Hr Hb Ht Hrun. induction ls as [|l ls IH]; intros n w Hr Hb Ht Hrun; simpl in Hrun.
    - by injection Hrun as <-.
    - apply bind_Some in Hrun as (w1 & Hx & Hrun). simpl length in Hb.
      apply (IH ltac:(intros Hin; apply Hl; by right) (n + 1)%N w1); [by eapply reachable_step|lia| |done].
      eapply store_stays; [eapply (reachable_structural parse config n w Hr); lia|exact Hx|done|].
      intros ->. apply Hl. by left. }
  eexists. split; [unfold exec; cbn [exec_conn exec_task]; by rewrite Ht'|].
  split; [apply lookup_insert_eq|done].
Qed.
End capabilities.

(** * A concrete run *)

(** [echo] answers the probe with its method; the answer is stored after the
    connection has ended. *)
Definition probe_decl : MethodDecl := {|
  MethodDecl.name := "capabilities"; MethodDecl.requires_auth := false; MethodDecl.streaming := false;
  MethodDecl.http_method := HttpMethod.Get; MethodDecl.path := None; MethodDecl.description := None |}.
Definition probed_hello : HelloRequest :=
  example_hello "echo" (Broker.random_token (Some 5%N) 7 0) [ping_decl; probe_decl].
Definition some_capabilities (l : bytes) : result CapabilityResponse string :=
  Ok {| CapabilityResponse.version := "0.1.0"; CapabilityResponse.methods := ["ping"] |}.
Definition script_checked : list Label :=
  [LIssueToken (Some 5%N) 7 "echo"; LAccept; LHello 0 (Ok (Some (BusFrame.Hello probed_hello))) true;
   LSession 0; LSession 0; LSession 0; LAck 0 true; LAttach 0; LSession 0] ++ replicate 5 (LStep 1)
  ++ [LWriter 0 true; LFrame 0 (BusFrame.Response {| Response.req_id := 1; Response.result := Ok (bytes_lit "{}") |});
      LReply 1; LContinue 1].
Definition probe_run (ls : list Label) : World (Fifo BusFrame) :=
  default (init BrokerConfig.default) (run some_capabilities (init BrokerConfig.default) ls).

Lemma probe_reachable ls :
  bool_decide (is_Some (run some_capabilities (init (Q := Fifo BusFrame) BrokerConfig.default) ls)) = true ->
  reachable some_capabilities BrokerConfig.default (N.of_nat (length ls)) (probe_run ls).
Proof.
  intros [w Hw]%bool_decide_eq_true_1. unfold probe_run. rewrite Hw. simpl.
  apply (run_reachable some_capabilities _ ls 0 (init BrokerConfig.default) w); [apply reachable_init|done].
Qed.

Lemma capabilities_from_probe_witness :
  exists cap r, Broker.get_capabilities (broker (probe_run (script_checked ++ [LContinue 1]))) "echo" = Some cap
    /\ some_capabilities (bytes_lit "{}") = Ok r /\ cap = advertised r.
Proof.
  destruct (Broker.get_capabilities (broker (probe_run (script_checked ++ [LContinue 1]))) "echo") as [cap|] eqn:Hc;
    [|vm_compute in Hc; discriminate Hc].
  destruct (capabilities_from_probe some_capabilities BrokerConfig.default
    (N.of_nat (length (script_checked ++ [LContinue 1]))) (probe_run (script_checked ++ [LContinue 1])) "echo" cap)
    as (l & r & Hp & Hcap & _).
  - apply probe_reachable. vm_compute. reflexivity.
  - reflexivity.
  - exact Hc.
  - exists cap, r. split; [reflexivity|]. split; [exact Hp|exact Hcap].
Defined.

(** The service is gone, and its capabilities are stored. *)
Lemma stale_probe_stores_witness :
  exists w' w'', run some_capabilities (probe_run script_checked) [LClose 0; LSession 0; LSession 0; LRemove 0] = Some w'
    /\ exec some_capabilities w' (LContinue 1) = Some w''
    /\ Registry.get (reg w'') "echo" = None
    /\ Broker.get_capabilities (broker w'') "echo" = Some
         {| ServiceCapabilities.version := "0.1.0"; ServiceCapabilities.methods := {["ping"]} |}.
Proof.
  destruct (run some_capabilities (probe_run script_checked) [LClose 0; LSession 0; LSession 0; LRemove 0]) as [w'|] eqn:Hrun;
    [|vm_compute in Hrun; discriminate Hrun].
  destruct (stale_probe_stores some_capabilities BrokerConfig.default (N.of_nat (length script_checked))
    (probe_run script_checked) w' 1 "echo" {| CapabilityResponse.version := "0.1.0"; CapabilityResponse.methods := ["ping"] |}
    [LClose 0; LSession 0; LSession 0; LRemove 0]) as (w'' & Hx & Hc & Hreg).
  - apply probe_reachable. vm_compute. reflexivity.
  - vm_compute. reflexivity.
  - vm_compute. reflexivity.
  - intros Hin. repeat (apply elem_of_cons in Hin as [Heq|Hin]; [discriminate Heq|]). exact (not_elem_of_nil _ Hin).
  - exact Hrun.
  - exists w', w''. split; [reflexivity|]. split; [exact Hx|]. split.
    + assert (Hr : (fun w => Registry.get (reg w) "echo")
        <$> run some_capabilities (probe_run script_checked) [LClose 0; LSession 0; LSession 0; LRemove 0] = Some None)
        by (vm_compute; reflexivity).
      rewrite Hrun in Hr. apply Some_inj in Hr. rewrite Hreg. exact Hr.
    + rewrite Hc. vm_compute. reflexivity.
Defined.
