(* ===== verification/Transport.v ===== *)
(** The transport (crates/protocol/src/transport.rs and the listening half of
    crates/broker/src/broker.rs): binding, accepting and connecting on both
    platforms, polling a stream, and the conventional socket of an app.

    The sockets, pipes, files and clock of the operating system are the class
    [Os] over an abstract state; [Clock] states what the code relies on.
    [Platform] is the [cfg] the crate is compiled for. *)

From stdpp Require Import prelude strings.
From Stdlib Require Import Ascii.
From S2P Require Import Prelude Frame.

Module Platform.
Inductive Platform := Unix | Windows.
End Platform.
Abbreviation Platform := Platform.Platform.

(** * std::path on Unix *)

(** A path is a byte string; [l] is the list of its characters from the end.
    Trailing separators and trailing [.] components are not significant. *)
Fixpoint trim_end_rev (l : list ascii) : list ascii :=
  match l with
  | "/"%char :: ((_ :: _) as r) => trim_end_rev r
  | "."%char :: (("/"%char :: _) as r) => trim_end_rev r
  | _ => l
  end.

Fixpoint drop_component_rev (l : list ascii) : list ascii :=
  match l with
  | [] => []
  | "/"%char :: _ => l
  | _ :: r => drop_component_rev r
  end.

Definition string_of_rev (l : list ascii) : string := String.string_of_list_ascii (reverse l).

(** [Path::parent]. *)
Definition path_parent (p : string) : option string :=
  let l := trim_end_rev (reverse (String.list_ascii_of_string p)) in
  if bool_decide (l = [] \/ l = ["/"%char]) then None
  else Some (string_of_rev (trim_end_rev (drop_component_rev l))).

Definition last_is_sep (p : string) : bool :=
  match reverse (String.list_ascii_of_string p) with "/"%char :: _ => true | _ => false end.

(** [Path::join]. *)
Definition path_join (base p : string) : string :=
  if starts_with p "/" then p
  else if bool_decide (base = EmptyString) || last_is_sep base then base +:+ p
  else base +:+ "/" +:+ p.

(** * The operating system *)

(** [L], [T]: Unix listeners and streams; [P]: pipe instances. *)
Class Os (St L T P : Type) : Type := {
  unix_bind : St -> string -> result L IoError * St;
  unix_accept : St -> L -> result T IoError * St;
  unix_connect : St -> string -> result T IoError * St;
  (** [ServerOptions::new().first_pipe_instance(first).create(name)]. *)
  pipe_create : St -> bool -> string -> result P IoError * St;
  pipe_connect : St -> P -> result unit IoError * St;
  (** [ClientOptions::new().open(name)], with [raw_os_error]. *)
  pipe_open : St -> string -> result P (IoError * option N) * St;
  path_exists : St -> string -> bool;
  remove_file : St -> string -> result unit IoError * St;
  create_dir_all : St -> string -> result unit IoError * St;
  now : St -> N;
  sleep : St -> Duration -> St
}.

(** The monotonic clock: connecting does not turn it back, and [sleep] takes
    at least the time asked for. *)
Class Clock (St L T P : Type) `{Os St L T P} : Prop := {
  connect_now st p : (now st <= now (unix_connect st p).2)%N;
  open_now st name : (now st <= now (pipe_open st name).2)%N;
  sleep_now st d : (now st + d <= now (sleep st d))%N
}.

(** tokio's [AsyncRead] and [AsyncWrite] of one stream type: one poll each. *)
Inductive Poll (A : Type) := Pending | Ready (a : A).
Arguments Pending {A}.
Arguments Ready {A} _.
Class PollIo (S : Type) : Type := {
  poll_read : S -> N -> Poll (result bytes IoError) * S;
  poll_write : S -> bytes -> Poll (result N IoError) * S;
  poll_flush : S -> Poll (result unit IoError) * S;
  poll_shutdown : S -> Poll (result unit IoError) * S
}.

Section transport.
Context {St L T P : Type} `{Os St L T P}.

Inductive BusListener :=
| UnixListener (inner : L)
| PipeListener (current : P) (name : string).

Inductive BusStream :=
| UnixStream (s : T)
| PipeServer (p : P)
| PipeClient (p : P).

Definition unsupported (msg : string) : IoError :=
  {| IoError.kind := IoError.Unsupported; IoError.msg := msg |}.
Definition no_unix : IoError := unsupported "Unix sockets not supported on this platform".
Definition no_pipes : IoError := unsupported "Named Pipes not supported on this platform".

(** The prefix of pipe names: two backslashes, a dot, [pipe]. *)
Definition pipe_prefix : string := "\\.\pipe\".
Definition full_pipe_name (name : string) : string :=
  if starts_with name pipe_prefix then name else pipe_prefix +:+ name.

Definition map_ok {A B E} (f : A -> B) (r : result A E) : result B E :=
  match r with Ok a => Ok (f a) | Err e => Err e end.

(** [BusListener::bind]. *)
Definition bind (pf : Platform) (st : St) (socket : DataPlaneSocket)
    : result BusListener IoError * St :=
  match socket, pf with
  | DataPlaneSocket.Unix path, Platform.Unix =>
      let '(r, st) := unix_bind st path in (map_ok UnixListener r, st)
  | DataPlaneSocket.Unix _, Platform.Windows => (Err no_unix, st)
  | DataPlaneSocket.NamedPipe name, Platform.Windows =>
      let full_name := full_pipe_name name in
      let '(r, st) := pipe_create st true full_name in
      (map_ok (fun server => PipeListener server full_name) r, st)
  | DataPlaneSocket.NamedPipe _, Platform.Unix => (Err no_pipes, st)
  end.

(** [BusListener::accept]: on Windows the connected instance is swapped for a
    new one. *)
Definition accept (st : St) (l : BusListener) : result BusStream IoError * BusListener * St :=
  match l with
  | UnixListener inner =>
      let '(r, st) := unix_accept st inner in (map_ok UnixStream r, l, st)
  | PipeListener current name =>
      match pipe_connect st current with
      | (Err e, st) => (Err e, l, st)
      | (Ok _, st) =>
          match pipe_create st false name with
          | (Err e, st) => (Err e, l, st)
          | (Ok next, st) => (Ok (PipeServer current), PipeListener next name, st)
          end
      end
  end.

Definition retryable (e : IoError) : bool :=
  match e.(IoError.kind) with
  | IoError.ConnectionRefused | IoError.NotFound => true
  | _ => false
  end.
Definition ERROR_PIPE_BUSY : N := 231.
Definition retry_delay : Duration := duration_from_millis 50.
Definition connect_window : Duration := duration_from_secs 5.

(** The loop of [BusStream::connect]; [None] when [fuel] attempts were not
    enough. *)
Fixpoint connect_unix (fuel : nat) (st : St) (path : string) (deadline : N)
    : option (result BusStream IoError) * St :=
  match fuel with
  | O => (None, st)
  | S fuel =>
      match unix_connect st path with
      | (Ok s, st) => (Some (Ok (UnixStream s)), st)
      | (Err e, st) =>
          if retryable e && (now st <? deadline)%N
          then connect_unix fuel (sleep st retry_delay) path deadline
          else (Some (Err e), st)
      end
  end.

Fixpoint connect_pipe (fuel : nat) (st : St) (full_name : string) (deadline : N)
    : option (result BusStream IoError) * St :=
  match fuel with
  | O => (None, st)
  | S fuel =>
      match pipe_open st full_name with
      | (Ok p, st) => (Some (Ok (PipeClient p)), st)
      | (Err (e, os), st) =>
          if bool_decide (os = Some ERROR_PIPE_BUSY) && (now st <? deadline)%N
          then connect_pipe fuel (sleep st retry_delay) full_name deadline
          else (Some (Err e), st)
      end
  end.

(** [BusStream::connect]. *)
Definition connect (fuel : nat) (pf : Platform) (st : St) (socket : DataPlaneSocket)
    : option (result BusStream IoError) * St :=
  match socket, pf with
  | DataPlaneSocket.Unix path, Platform.Unix => connect_unix fuel st path (now st + connect_window)%N
  | DataPlaneSocket.Unix _, Platform.Windows => (Some (Err no_unix), st)
  | DataPlaneSocket.NamedPipe name, Platform.Windows =>
      connect_pipe fuel st (full_pipe_name name) (now st + connect_window)%N
  | DataPlaneSocket.NamedPipe _, Platform.Unix => (Some (Err no_pipes), st)
  end.

(** [cleanup]. *)
Definition cleanup (st : St) (socket : DataPlaneSocket) : St :=
  match socket with
  | DataPlaneSocket.Unix path => (remove_file st path).2
  | DataPlaneSocket.NamedPipe _ => st
  end.

(** [app_socket]: [bus] is the environment variable [TOKIMO_BUS_SOCKET]. *)
Definition app_socket (pf : Platform) (st : St) (bus : option string) (pid : N) (service : string)
    : result DataPlaneSocket IoError * St :=
  match pf with
  | Platform.Unix =>
      match bus with
      | None => (Err {| IoError.kind := IoError.NotFound; IoError.msg := "TOKIMO_BUS_SOCKET not set" |}, st)
      | Some bus =>
          match path_parent bus with
          | None => (Err {| IoError.kind := IoError.InvalidInput;
                            IoError.msg := "TOKIMO_BUS_SOCKET has no parent" |}, st)
          | Some parent =>
              let apps_dir := path_join parent "apps" in
              match create_dir_all st apps_dir with
              | (Err e, st) => (Err e, st)
              | (Ok _, st) =>
                  let path := path_join apps_dir (service +:+ ".sock") in
                  (Ok (DataPlaneSocket.Unix path), (remove_file st path).2)
              end
          end
      end
  | Platform.Windows =>
      (Ok (DataPlaneSocket.NamedPipe ("tokimo-app-" +:+ service +:+ "-" +:+ show_N pid)), st)
  end.

(** [BusListener::bind_for_app]. *)
Definition bind_for_app (pf : Platform) (st : St) (bus : option string) (pid : N) (service : string)
    : result (BusListener * DataPlaneSocket) IoError * St :=
  match app_socket pf st bus pid service with
  | (Err e, st) => (Err e, st)
  | (Ok socket, st) =>
      let '(r, st) := bind pf st socket in (map_ok (fun l => (l, socket)) r, st)
  end.

(** ** The broker's listener *)

(** [check_and_cleanup_unix_socket]. *)
Definition check_and_cleanup_unix_socket (pf : Platform) (st : St) (path : string)
    : result unit BusError * St :=
  match pf with
  | Platform.Windows => (Ok tt, st)
  | Platform.Unix =>
      match unix_connect st path with
      | (Ok _, st) =>
          (Err (BusError.Io ("Unix socket " +:+ path +:+ " is already bound by an active listener")), st)
      | (Err e, st) =>
          match e.(IoError.kind) with
          | IoError.ConnectionRefused => (Ok tt, (remove_file st path).2)
          | IoError.NotFound => (Ok tt, st)
          | _ => (Err (BusError.Io ("Failed to check Unix socket " +:+ path +:+ ": " +:+ e.(IoError.msg))), st)
          end
      end
  end.

(** [Broker::listen] up to the spawn of the accept loop. *)
Definition prepare (pf : Platform) (st : St) (socket : DataPlaneSocket) : result unit BusError * St :=
  match socket with
  | DataPlaneSocket.NamedPipe _ => (Ok tt, st)
  | DataPlaneSocket.Unix path =>
      let '(r, st) := if path_exists st path then check_and_cleanup_unix_socket pf st path
                      else (Ok tt, st) in
      match r with
      | Err e => (Err e, st)
      | Ok _ =>
          match path_parent path with
          | Some parent => (Ok tt, (create_dir_all st parent).2)
          | None => (Ok tt, st)
          end
      end
  end.
Definition listen (pf : Platform) (st : St) (socket : DataPlaneSocket)
    : result BusListener BusError * St :=
  match prepare pf st socket with
  | (Err e, st) => (Err e, st)
  | (Ok _, st) => let '(r, st) := bind pf st socket in (map_err from_io_error r, st)
  end.

(** [Broker::listen_unix]. *)
Definition listen_unix (pf : Platform) (st : St) (path : string) : result BusListener BusError * St :=
  listen pf st (DataPlaneSocket.Unix path).

(** [n] turns of [Broker::accept_loop]: the streams handed to [serve], in
    order. *)
Fixpoint accept_loop (n : nat) (st : St) (l : BusListener) : list BusStream * BusListener * St :=
  match n with
  | O => ([], l, st)
  | S n =>
      match accept st l with
      | (Ok stream, l, st) =>
          let '(streams, l, st) := accept_loop n st l in (stream :: streams, l, st)
      | (Err _, l, st) => accept_loop n (sleep st (duration_from_millis 100)) l
      end
  end.

(** [axum::serve::Listener::accept]: until a connection is there; [None] when
    [fuel] turns were not enough. *)
Fixpoint listener_accept (fuel : nat) (st : St) (l : BusListener) : option BusStream * BusListener * St :=
  match fuel with
  | O => (None, l, st)
  | S fuel =>
      match accept st l with
      | (Ok stream, l, st) => (Some stream, l, st)
      | (Err _, l, st) => listener_accept fuel (sleep st (duration_from_secs 1)) l
      end
  end.

(** ** Polling a stream *)

(** The three streams a [BusStream] may wrap are polled alike. *)
Definition on_stream {A} `{PollIo T, PollIo P}
    (op : forall S, PollIo S -> S -> Poll A * S) (s : BusStream) : Poll A * BusStream :=
  match s with
  | UnixStream s => let '(r, s) := op T _ s in (r, UnixStream s)
  | PipeServer p => let '(r, p) := op P _ p in (r, PipeServer p)
  | PipeClient p => let '(r, p) := op P _ p in (r, PipeClient p)
  end.

(** A directory path without insignificant characters at its end. *)
Definition clean_dir (dir : string) : Prop :=
  dir <> EmptyString /\ last_is_sep dir = false
  /\ trim_end_rev (reverse (String.list_ascii_of_string dir))
     = reverse (String.list_ascii_of_string dir).

End transport.
Arguments BusListener L P : clear implicits.
Arguments BusStream T P : clear implicits.

(** [impl AsyncRead for BusStream], [impl AsyncWrite for BusStream]. *)
#[export] Instance BusStream_poll {T P} `{PollIo T, PollIo P} : PollIo (BusStream T P) := {|
  poll_read s n := on_stream (fun S _ s => poll_read s n) s;
  poll_write s buf := on_stream (fun S _ s => poll_write s buf) s;
  poll_flush s := on_stream (fun S _ s => poll_flush s) s;
  poll_shutdown s := on_stream (fun S _ s => poll_shutdown s) s
|}.

(** A sequence of polls and what each returned. *)
Inductive PollOp := OpRead (n : N) | OpWrite (buf : bytes) | OpFlush | OpShutdown.
Inductive PollResult :=
| PRead (r : Poll (result bytes IoError))
| PWrite (r : Poll (result N IoError))
| PDone (r : Poll (result unit IoError)).
Definition poll_op {S} `{PollIo S} (s : S) (op : PollOp) : PollResult * S :=
  match op with
  | OpRead n => let '(r, s) := poll_read s n in (PRead r, s)
  | OpWrite buf => let '(r, s) := poll_write s buf in (PWrite r, s)
  | OpFlush => let '(r, s) := poll_flush s in (PDone r, s)
  | OpShutdown => let '(r, s) := poll_shutdown s in (PDone r, s)
  end.
Fixpoint polls {S} `{PollIo S} (s : S) (ops : list PollOp) : list PollResult * S :=
  match ops with
  | [] => ([], s)
  | op :: ops =>
      let '(r, s) := poll_op s op in
      let '(rs, s) := polls s ops in (r :: rs, s)
  end.

(** * A machine to run on *)

(** Active and stale sockets of a Unix machine, its clock in nanoseconds, and
    the time at which the active ones start to listen. *)
Record Machine := mkMachine {
  active : list string; stale : list string; clock : N; ready_at : N
}.
Definition io_error (k : IoError.ErrorKind) (msg : string) : IoError :=
  {| IoError.kind := k; IoError.msg := msg |}.
#[export] Instance Machine_os : Os Machine string string unit := {|
  unix_bind m p :=
    if decide (p ∈ active m ++ stale m) then (Err (io_error IoError.Other "Address in use"), m)
    else (Ok p, mkMachine (p :: active m) (stale m) (clock m) (ready_at m));
  unix_accept m l := (Ok l, m);
  unix_connect m p :=
    if decide (p ∈ active m) then
      if (ready_at m <=? clock m)%N then (Ok p, m)
      else (Err (io_error IoError.ConnectionRefused "Connection refused"), m)
    else if decide (p ∈ stale m) then (Err (io_error IoError.ConnectionRefused "Connection refused"), m)
    else (Err (io_error IoError.NotFound "No such file or directory"), m);
  pipe_create m _ _ := (Ok tt, m);
  pipe_connect m _ := (Ok tt, m);
  pipe_open m _ := (Ok tt, m);
  path_exists m p := bool_decide (p ∈ active m ++ stale m);
  remove_file m p :=
    (Ok tt, mkMachine (filter (fun q => q <> p) (active m)) (filter (fun q => q <> p) (stale m))
              (clock m) (ready_at m));
  create_dir_all m _ := (Ok tt, m);
  now m := clock m;
  sleep m d := mkMachine (active m) (stale m) (clock m + d) (ready_at m)
|}.
#[export] Instance Machine_clock : Clock Machine string string unit.
Proof.
  split; intros m *; simpl; [|lia|lia]. repeat case_decide; try case_match; simpl; lia.
Qed.

(** * Properties *)

(** A file name: one component, not the current directory. *)
Definition file_name (f : string) : Prop :=
  f <> EmptyString /\ f <> "." /\ string_mem "/"%char f = false.

Definition broker_socket : string := "/run/tokimo/bus.sock".

(** A [BusStream] is its stream: every sequence of polls returns what the
    wrapped stream returns, and leaves the wrapping of the same stream. *)
Lemma polls_transparent {S S'} `{PollIo S, PollIo S'} (f : S -> S') :
  (forall s op, poll_op (f s) op = ((poll_op s op).1, f (poll_op s op).2)) ->
  forall ops s, polls (f s) ops = ((polls s ops).1, f (polls s ops).2).
Proof.
  intros Hf. induction ops as [|op ops IH]; intros s; [done|]. cbn [polls]. rewrite Hf.
  destruct (poll_op s op) as [r s']. simpl. rewrite IH. by destruct (polls s' ops).
Qed.

Lemma bus_stream_transparent {T P} `{PollIo T, PollIo P} ops :
  (forall s : T, polls (UnixStream s : BusStream T P) ops
     = ((polls s ops).1, UnixStream (polls s ops).2))
  /\ (forall p : P, polls (PipeServer p : BusStream T P) ops
     = ((polls p ops).1, PipeServer (polls p ops).2))
  /\ (forall p : P, polls (PipeClient p : BusStream T P) ops
     = ((polls p ops).1, PipeClient (polls p ops).2)).
Proof.
  split_and!; apply polls_transparent; (intros s [n|buf| |]; simpl;
    [destruct (poll_read s n)|destruct (poll_write s buf)|destruct (poll_flush s)|destruct (poll_shutdown s)]; done).
Qed.

Section properties.
Context {St L T P : Type} `{Clock St L T P}.

(** At time [now st] at most [k] more delays fit before the deadline. *)
Lemma connect_unix_some path deadline : forall k st,
  (deadline <= now st + N.of_nat k * retry_delay)%N ->
  exists r st', connect_unix (S k) st path deadline = (Some r, st')
    /\ (forall e, r = Err e -> retryable e = false \/ (deadline <= now st')%N).
Proof.
  induction k as [|k IH]; intros st Hk; cbn [connect_unix];
    pose proof (connect_now st path) as Hc;
    destruct (unix_connect st path) as [[s|e] st1]; simpl in Hc; try (eexists _, _; split; [reflexivity | by intros ? ?]).
  - destruct (retryable e) eqn:He; simpl; [|eexists _, _; split; [done|]; intros ? [= <-]; auto].
    destruct (N.ltb_spec (now st1) deadline); [lia|].
    eexists _, _. split; [done|]. auto.
  - destruct (retryable e) eqn:He; simpl; [|eexists _, _; split; [done|]; intros ? [= <-]; auto].
    destruct (N.ltb_spec (now st1) deadline); [|eexists _, _; split; [done|]; auto].
    apply IH. pose proof (sleep_now st1 retry_delay). lia.
Qed.

Lemma connect_pipe_some name deadline : forall k st,
  (deadline <= now st + N.of_nat k * retry_delay)%N ->
  exists r st', connect_pipe (S k) st name deadline = (Some r, st').
Proof.
  induction k as [|k IH]; intros st Hk; cbn [connect_pipe];
    pose proof (open_now st name) as Hc;
    destruct (pipe_open st name) as [[s|[e os]] st1]; simpl in Hc; try (by do 2 eexists).
  - case_bool_decide; simpl; [|by do 2 eexists].
    destruct (N.ltb_spec (now st1) deadline); [lia|]. by do 2 eexists.
  - case_bool_decide; simpl; [|by do 2 eexists].
    destruct (N.ltb_spec (now st1) deadline); [|by do 2 eexists].
    apply IH. pose proof (sleep_now st1 retry_delay). lia.
Qed.

(** Connecting always ends. Whatever the operating system answers, both
    connect loops return within 101 attempts, 50 ms apart for at most 5 s; on
    Unix an error is given up on at once when it is not a missing or refusing
    socket, and otherwise only once the 5 s have passed; and a socket kind the
    platform lacks is refused without an attempt. *)
Lemma connect_bounded pf st (socket : DataPlaneSocket) :
  exists r st', connect 101 pf st socket = (Some r, st')
    /\ (forall path e, socket = DataPlaneSocket.Unix path -> pf = Platform.Unix -> r = Err e ->
          retryable e = false \/ (now st + connect_window <= now st')%N)
    /\ ((pf = Platform.Unix <-> exists name, socket = DataPlaneSocket.NamedPipe name) ->
          is_ok r = false /\ st' = st).
Proof.
  assert (Hw : forall t, (t + connect_window <= t + N.of_nat 100 * retry_delay)%N)
    by (intros t; unfold connect_window, retry_delay, duration_from_secs, duration_from_millis; lia).
  destruct socket as [path|name], pf; unfold connect.
  - destruct (connect_unix_some path _ 100 st (Hw (now st))) as (r & st' & -> & He).
    exists r, st'. split_and!; [done | intros p e [= <-] _; apply He | intros [Hx _]; by destruct (Hx eq_refl)].
  - eexists _, _. split_and!; [done | intros ? ? ? [=] | done].
  - eexists _, _. split_and!; [done | intros ? ? [=] | done].
  - destruct (connect_pipe_some (full_pipe_name name) _ 100 st (Hw (now st))) as (r & st' & ->).
    exists r, st'. split_and!; [done | intros ? ? [=] |]. intros [_ Hx]. discriminate Hx. eauto.
Qed.

(** Listening never takes a socket from a live broker. On an existing
    socket file the code first connects: if someone answers, listening fails
    and nothing is removed, created or bound; if the connection is refused the
    file is stale, is removed, and the path is bound; if the file has vanished
    it is bound; any other error is reported with the path and nothing is
    removed. Without a file no connection is tried. *)
Lemma listen_outcomes st (path : string) :
  let listen := listen Platform.Unix st (DataPlaneSocket.Unix path) in
  let st1 := (unix_connect st path).2 in
  let bind_in (st : St) :=
    let st := match path_parent path with Some d => (create_dir_all st d).2 | None => st end in
    let '(r, st) := unix_bind st path in
    (map_err from_io_error (map_ok UnixListener r), st) in
  (path_exists st path = false -> listen = bind_in st)
  /\ (path_exists st path = true ->
      (forall s, (unix_connect st path).1 = Ok s -> listen =
         (Err (BusError.Io ("Unix socket " +:+ path +:+ " is already bound by an active listener")), st1))
      /\ (forall e, (unix_connect st path).1 = Err e ->
          (e.(IoError.kind) = IoError.ConnectionRefused -> listen = bind_in (remove_file st1 path).2)
          /\ (e.(IoError.kind) = IoError.NotFound -> listen = bind_in st1)
          /\ (retryable e = false -> listen =
              (Err (BusError.Io ("Failed to check Unix socket " +:+ path +:+ ": " +:+ e.(IoError.msg))), st1)))).
Proof.
  cbv zeta. unfold listen, prepare, check_and_cleanup_unix_socket, bind, retryable.
  destruct (path_exists st path); (split; [try done|try done]); intros _.
  - destruct (unix_connect st path) as [[s|e] st1]; simpl.
    + split; [done | by intros e ?].
    + split; [by intros s ?|]. intros e' [= <-].
      destruct (IoError.kind e); split_and!; try done; intros _;
        destruct (path_parent path); simpl; by destruct (unix_bind _ _).
  - destruct (path_parent path); simpl; by destruct (unix_bind _ _).
Qed.

(** ** Accepting *)

Lemma accept_loop_app n m : forall st (l : BusListener L P),
  accept_loop (T := T) (n + m) st l
  = let '(s1, l, st) := accept_loop n st l in
    let '(s2, l, st) := accept_loop m st l in (s1 ++ s2, l, st).
Proof.
  induction n as [|n IH]; intros st l; simpl; [by destruct (accept_loop m st l) as [[? ?] ?]|].
  destruct (accept st l) as [[[s|e] l1] st1].
  - rewrite IH. destruct (accept_loop n st1 l1) as [[? l2] st2].
    by destruct (accept_loop m st2 l2) as [[? ?] ?].
  - apply IH.
Qed.

(** ** The socket of an app *)

Lemma rev_string_app s t :
  reverse (String.list_ascii_of_string (s +:+ t))
  = reverse (String.list_ascii_of_string t) ++ reverse (String.list_ascii_of_string s).
Proof.
  assert (Ha : String.list_ascii_of_string (s +:+ t)
    = String.list_ascii_of_string s ++ String.list_ascii_of_string t)
    by (induction s; simpl; congruence).
  by rewrite Ha, reverse_app.
Qed.

Lemma drop_component_app l r :
  Forall (fun c => c <> "/"%char) l -> drop_component_rev (l ++ "/"%char :: r) = "/"%char :: r.
Proof.
  induction 1 as [|c l Hc Hl IH]; [done|]. simpl.
  by destruct c as [[] [] [] [] [] [] [] []].
Qed.

Lemma file_name_chars f :
  string_mem "/"%char f = false ->
  Forall (fun c => c <> "/"%char) (reverse (String.list_ascii_of_string f)).
Proof.
  intros Hf. apply Forall_reverse. induction f as [|c f IH]; [done|]. cbn [string_mem] in Hf.
  destruct (ascii_dec _ _) as [|Hne]; [done|]. constructor; auto.
Qed.

Lemma trim_end_file f r :
  file_name f ->
  trim_end_rev (reverse (String.list_ascii_of_string f) ++ r)
  = reverse (String.list_ascii_of_string f) ++ r.
Proof.
  intros (Hne & Hdot & Hs). pose proof (file_name_chars f Hs) as Hc.
  assert (Hd : reverse (String.list_ascii_of_string f) <> ["."%char]).
  { intros Heq. apply Hdot. apply (f_equal reverse) in Heq. rewrite reverse_involutive in Heq.
    by rewrite <-(String.string_of_list_ascii_of_string f), Heq. }
  assert (Hn : reverse (String.list_ascii_of_string f) <> []).
  { intros Heq. apply Hne. apply (f_equal reverse) in Heq. rewrite reverse_involutive in Heq.
    by rewrite <-(String.string_of_list_ascii_of_string f), Heq. }
  destruct (reverse (String.list_ascii_of_string f)) as [|c l]; [done|].
  inversion Hc as [|? ? Hcc Hl]; subst. simpl.
  destruct (decide (c = "."%char)) as [->|Hcd].
  - destruct l as [|d l]; [done|]. inversion Hl; subst. simpl.
    by destruct d as [[] [] [] [] [] [] [] []].
  - by destruct c as [[] [] [] [] [] [] [] []].
Qed.

(** [Path::parent] of a file in a directory. *)
Lemma path_parent_file dir f :
  clean_dir dir -> file_name f -> path_parent (dir +:+ "/" +:+ f) = Some dir.
Proof.
  intros (Hne & Hsep & Hclean) Hf. unfold path_parent. rewrite !rev_string_app.
  change (reverse (String.list_ascii_of_string "/")) with ["/"%char].
  rewrite <-app_assoc. rewrite trim_end_file by done.
  pose proof (file_name_chars f (proj2 (proj2 Hf))) as Hc.
  assert (Hd : reverse (String.list_ascii_of_string dir) <> []).
  { intros Hd. apply Hne. apply (f_equal reverse) in Hd. rewrite reverse_involutive in Hd.
    by rewrite <-(String.string_of_list_ascii_of_string dir), Hd. }
  cbv zeta. rewrite bool_decide_eq_false_2.
  2: { intros [[_ ?]%app_nil|Hx]; [done|]. apply (f_equal length) in Hx.
       rewrite !length_app in Hx. simpl in Hx.
       destruct (reverse (String.list_ascii_of_string dir)); [done|simpl in Hx; lia]. }
  cbn [app]. rewrite drop_component_app by done.
  destruct (reverse (String.list_ascii_of_string dir)) as [|d l] eqn:Hr; [done|].
  change (trim_end_rev ("/"%char :: d :: l)) with (trim_end_rev (d :: l)).
  rewrite Hclean. unfold string_of_rev.
  by rewrite <-Hr, reverse_involutive, String.string_of_list_ascii_of_string.
Qed.

(** An app listens where its broker's socket lives. For a broker socket
    [dir/file], the conventional socket of a service is
    [dir/apps/<service>.sock], created with its directory; the listener
    [bind_for_app] returns is bound to exactly the path it reports. *)
Lemma app_socket_path st (dir f service : string) pid :
  clean_dir dir -> file_name f -> starts_with service "/" = false ->
  let bus := Some (dir +:+ "/" +:+ f) in
  let path := dir +:+ "/apps/" +:+ service +:+ ".sock" in
  let dir_made := create_dir_all st (dir +:+ "/apps") in
  (forall e, dir_made.1 = Err e -> (app_socket Platform.Unix st bus pid service).1 = Err e)
  /\ (dir_made.1 = Ok tt ->
      app_socket Platform.Unix st bus pid service
        = (Ok (DataPlaneSocket.Unix path), (remove_file dir_made.2 path).2)
      /\ forall l socket st', bind_for_app Platform.Unix st bus pid service = (Ok (l, socket), st') ->
          socket = DataPlaneSocket.Unix path
          /\ exists l', l = UnixListener l'
             /\ unix_bind (remove_file dir_made.2 path).2 path = (Ok l', st')).
Proof.
  intros Hdir Hf Hs. cbv zeta. unfold bind_for_app, app_socket.
  rewrite path_parent_file by done. destruct Hdir as (Hne & Hsep & _).
  assert (Hj : path_join dir "apps" = dir +:+ "/apps").
  { unfold path_join. by rewrite Hsep, bool_decide_eq_false_2. }
  assert (Hj2 : path_join (dir +:+ "/apps") (service +:+ ".sock") = dir +:+ "/apps/" +:+ service +:+ ".sock").
  { unfold path_join. assert (Hs2 : starts_with (service +:+ ".sock") "/" = false)
      by by destruct service as [|[[] [] [] [] [] [] [] []] service].
    rewrite Hs2. unfold last_is_sep. rewrite rev_string_app. simpl.
    rewrite bool_decide_eq_false_2; [|by destruct dir]. simpl.
    clear. induction dir; simpl; [done|]. by f_equal. }
  rewrite Hj. destruct (create_dir_all st (dir +:+ "/apps")) as [[[]|e] st1]; simpl.
  - split; [by intros ? ?|]. intros _. rewrite Hj2. split; [done|].
    intros l socket st'. destruct (unix_bind _ _) as [[l'|e'] st2]; simpl; intros [= <- <- <-]. eauto.
  - split; [by intros ? [= <-]|done].
Qed.

End properties.

(** ** The theorems on a machine *)

Lemma connect_bounded_witness :
  exists r, (connect 101 Platform.Unix (mkMachine [broker_socket] [] 0 (duration_from_millis 120))
     (DataPlaneSocket.Unix broker_socket)).1 = Some r.
Proof.
  destruct (connect_bounded Platform.Unix (mkMachine [broker_socket] [] 0 (duration_from_millis 120))
    (DataPlaneSocket.Unix broker_socket)) as (r & st' & Heq & _).
  exists r. rewrite Heq. reflexivity.
Defined.

Lemma app_socket_path_witness :
  (app_socket Platform.Unix (mkMachine [broker_socket] [] 0 0) (Some broker_socket) 7 "notes").1
  = Ok (DataPlaneSocket.Unix "/run/tokimo/apps/notes.sock").
Proof.
  exact (f_equal fst (proj1 (proj2 (app_socket_path (mkMachine [broker_socket] [] 0 0) "/run/tokimo"
    "bus.sock" "notes" 7 ltac:(by split_and!) ltac:(by split_and!) eq_refl) eq_refl))).
Defined.

(** A live socket is refused, a stale one is taken over. *)
Example listen_live :
  (listen Platform.Unix (mkMachine [broker_socket] [] 0 0) (DataPlaneSocket.Unix broker_socket)).2
  = mkMachine [broker_socket] [] 0 0.
Proof. reflexivity. Qed.
Example listen_stale :
  (listen Platform.Unix (mkMachine [] [broker_socket] 0 0) (DataPlaneSocket.Unix broker_socket))
  = (Ok (UnixListener broker_socket), mkMachine [broker_socket] [] 0 0).
Proof. reflexivity. Qed.
