(* ===== verification/ClientConfig.v ===== *)
(** Configuration of an app (crates/client/src/config.rs, transport.rs): the
    environment the supervisor hands it, and the endpoint it connects to.

    [env] is [std::env::var]: [None] when a variable is unset or not Unicode.
    A path is its UTF-8 string, on which [to_string_lossy] is the identity. *)

From stdpp Require Import prelude strings.
From S2P Require Import Prelude Frame Transport.

Module Endpoint.
(** [NamedPipe] only exists when compiled for Windows. *)
Inductive Endpoint :=
| UnixSocket (path : string)
| NamedPipe (name : string).
End Endpoint.
Abbreviation Endpoint := Endpoint.Endpoint.

Module ClientConfig.
Record ClientConfig := mk {
  endpoint : Endpoint;
  auth_token : string;
  reconnect_max_backoff : option Duration;
  idle_exit : option Duration
}.
End ClientConfig.
Abbreviation ClientConfig := ClientConfig.ClientConfig.

(** [parse_endpoint]. *)
Definition parse_endpoint (pf : Platform) (raw : string) : Endpoint :=
  match pf with
  | Platform.Windows =>
      match strip_prefix raw "pipe://" with
      | Some pipe => Endpoint.NamedPipe (pipe_prefix +:+ pipe)
      | None =>
          if starts_with raw pipe_prefix then Endpoint.NamedPipe raw
          else Endpoint.UnixSocket raw
      end
  | Platform.Unix => Endpoint.UnixSocket raw
  end.

Definition missing (var : string) : BusError :=
  BusError.BadRequest ("env " +:+ var +:+ " is required").

(** [ClientConfig::from_env]. *)
Definition from_env (pf : Platform) (env : string -> option string) : result ClientConfig BusError :=
  (let? endpoint_raw := ok_or (env "TOKIMO_BUS_SOCKET") (missing "TOKIMO_BUS_SOCKET") in
   let? auth_token := ok_or (env "TOKIMO_BUS_TOKEN") (missing "TOKIMO_BUS_TOKEN") in
   let idle_ms := default 0%N (env "TOKIMO_BUS_IDLE_MS" ≫= parse_u64) in
   Ok {| ClientConfig.endpoint := parse_endpoint pf endpoint_raw;
         ClientConfig.auth_token := auth_token;
         ClientConfig.reconnect_max_backoff := Some (duration_from_secs 30);
         ClientConfig.idle_exit :=
           if decide (idle_ms = 0%N) then None else Some (duration_from_millis idle_ms) |})%res.

(** [ClientConfig::unix], [ClientConfig::named_pipe]. *)
Definition config_unix (path token : string) : ClientConfig := {|
  ClientConfig.endpoint := Endpoint.UnixSocket path; ClientConfig.auth_token := token;
  ClientConfig.reconnect_max_backoff := None; ClientConfig.idle_exit := None |}.
Definition config_named_pipe (name token : string) : ClientConfig := {|
  ClientConfig.endpoint := Endpoint.NamedPipe (pipe_prefix +:+ name);
  ClientConfig.auth_token := token;
  ClientConfig.reconnect_max_backoff := None; ClientConfig.idle_exit := None |}.

(** [endpoint_to_socket]. *)
Definition endpoint_to_socket (e : Endpoint) : DataPlaneSocket :=
  match e with
  | Endpoint.UnixSocket path => DataPlaneSocket.Unix path
  | Endpoint.NamedPipe name =>
      DataPlaneSocket.NamedPipe (default name (strip_prefix name pipe_prefix))
  end.

(** [transport::connect]. *)
Definition connect_endpoint {St L T P} `{Os St L T P} (fuel : nat) (pf : Platform) (st : St)
    (e : Endpoint) : option (result (BusStream T P) BusError) * St :=
  let '(r, st) := connect fuel pf st (endpoint_to_socket e) in (map_err from_io_error <$> r, st).

(** The socket the listener of a platform can bind. *)
Definition bindable (pf : Platform) (s : DataPlaneSocket) : Prop :=
  match pf, s with
  | Platform.Unix, DataPlaneSocket.Unix _ => True
  | Platform.Windows, DataPlaneSocket.NamedPipe _ => True
  | _, _ => False
  end.

(** * Properties *)

Lemma strip_prefix_app p r : strip_prefix (p +:+ r) p = Some r.
Proof. by apply strip_prefix_spec. Qed.

(** The endpoint of the environment is the socket of the broker. What a
    host writes with [display_name] for a socket it can listen on, an app of
    the same platform reads back as a socket whose pipe or path is the one
    listened on, and a Windows app also accepts the full pipe name; an app on
    Unix takes any string as a path, a [pipe://] one too. *)
Lemma endpoint_round_trip pf (s : DataPlaneSocket) (raw name : string) :
  (bindable pf s ->
     endpoint_to_socket (parse_endpoint pf (DataPlaneSocket.display_name s)) = s)
  /\ endpoint_to_socket (parse_endpoint Platform.Windows (pipe_prefix +:+ name))
     = DataPlaneSocket.NamedPipe name
  /\ endpoint_to_socket (ClientConfig.endpoint (config_named_pipe name raw))
     = DataPlaneSocket.NamedPipe name
  /\ endpoint_to_socket (parse_endpoint Platform.Unix raw) = DataPlaneSocket.Unix raw.
Proof.
  split_and!; [|done..]. by destruct pf, s.
Qed.

Lemma endpoint_round_trip_witness :
  endpoint_to_socket (parse_endpoint Platform.Windows
    (DataPlaneSocket.display_name (DataPlaneSocket.NamedPipe "tokimo-bus")))
  = DataPlaneSocket.NamedPipe "tokimo-bus".
Proof.
  exact (proj1 (endpoint_round_trip Platform.Windows (DataPlaneSocket.NamedPipe "tokimo-bus")
    EmptyString EmptyString) I).
Defined.

(** What an app reads from its environment. A missing socket is reported
    before a missing token, each by name; otherwise the token is taken as it
    is, the initial connection is retried for at most 30 s, and the idle
    threshold is set exactly when the variable is a positive number of
    milliseconds of at most 64 bits: unset, zero, malformed and overflowing
    values all disable it. *)
Lemma from_env_outcomes pf (env : string -> option string) :
  (env "TOKIMO_BUS_SOCKET" = None -> from_env pf env = Err (missing "TOKIMO_BUS_SOCKET"))
  /\ (forall sock, env "TOKIMO_BUS_SOCKET" = Some sock -> env "TOKIMO_BUS_TOKEN" = None ->
      from_env pf env = Err (missing "TOKIMO_BUS_TOKEN"))
  /\ (forall sock token, env "TOKIMO_BUS_SOCKET" = Some sock -> env "TOKIMO_BUS_TOKEN" = Some token ->
      exists cfg, from_env pf env = Ok cfg
      /\ cfg.(ClientConfig.endpoint) = parse_endpoint pf sock
      /\ cfg.(ClientConfig.auth_token) = token
      /\ cfg.(ClientConfig.reconnect_max_backoff) = Some 30000000000%N
      /\ (forall ms, (0 < ms < U64_SIZE)%N -> env "TOKIMO_BUS_IDLE_MS" = Some (show_N ms) ->
            cfg.(ClientConfig.idle_exit) = Some (ms * 1000000)%N)
      /\ (forall d, cfg.(ClientConfig.idle_exit) = Some d -> exists v ms,
            env "TOKIMO_BUS_IDLE_MS" = Some v /\ parse_u64 v = Some ms /\ (0 < ms < U64_SIZE)%N
            /\ d = duration_from_millis ms)).
Proof.
  unfold from_env. split_and!.
  - by intros ->.
  - by intros sock -> ->.
  - intros sock token -> ->. simpl. eexists. split; [done|]. simpl. split_and!; try done.
    + intros ms Hms ->. simpl. rewrite parse_show by lia. simpl. by rewrite decide_False by lia.
    + intros d. destruct (env "TOKIMO_BUS_IDLE_MS") as [v|]; simpl; [|done].
      destruct (parse_u64 v) as [ms|] eqn:Hv; simpl; [|done].
      destruct (decide (ms = 0%N)) as [|Hne]; [done|]. intros [= <-].
      exists v, ms. split_and!; try done; [lia|]. by eapply parse_u64_lt.
Qed.
