(* ===== verification/Client.v ===== *)
(** The app-side SDK (crates/client/src/client.rs, builder.rs): building and
    connecting a client, and the process of a connected client.

    A [Proc] is the client with the program counters of its tasks: the reader
    (the rest of [run_connection]), the writer, the callers of [invoke], the
    spawned [dispatch_invoke]s and the callers of [run_until_shutdown].
    [pexec] performs one labelled step.  As in Broker.v the oneshot channel of
    a call is a cell of [p_replies]. *)

From stdpp Require Import prelude gmap strings.
From S2P Require Import Prelude Frame Runtime Transport ClientConfig.

(** A registered handler, by identity: the app's code is not in src/. *)
Abbreviation InvokeHandler := N.

(** The number of a task of the process. *)
Abbreviation task_id := N.

(** * Builder *)

Module BusClientBuilder.
Record BusClientBuilder := mk {
  cfg : ClientConfig;
  service : option (string * string);
  methods : list MethodDecl;
  handlers : gmap string InvokeHandler;
  events : list string;
  data_plane : option DataPlaneSocket
}.
Definition new (cfg : ClientConfig) : BusClientBuilder := mk cfg None [] ∅ [] None.
Definition set_service (name version : string) (b : BusClientBuilder) : BusClientBuilder :=
  mk b.(cfg) (Some (name, version)) b.(methods) b.(handlers) b.(events) b.(data_plane).
Definition method (decl : MethodDecl) (b : BusClientBuilder) : BusClientBuilder :=
  mk b.(cfg) b.(service) (b.(methods) ++ [decl]) b.(handlers) b.(events) b.(data_plane).
Definition on_invoke (name : string) (h : InvokeHandler) (b : BusClientBuilder) : BusClientBuilder :=
  mk b.(cfg) b.(service) b.(methods) (<[name := h]> b.(handlers)) b.(events) b.(data_plane).
Definition publishes (topic : string) (b : BusClientBuilder) : BusClientBuilder :=
  mk b.(cfg) b.(service) b.(methods) b.(handlers) (b.(events) ++ [topic]) b.(data_plane).
Definition set_data_plane (socket : DataPlaneSocket) (b : BusClientBuilder) : BusClientBuilder :=
  mk b.(cfg) b.(service) b.(methods) b.(handlers) b.(events) (Some socket).
End BusClientBuilder.
Abbreviation BusClientBuilder := BusClientBuilder.BusClientBuilder.

Definition no_service : BusError := BusError.BadRequest "service() was not called".
Definition undeclared (name : string) : BusError :=
  BusError.BadRequest ("handler registered for `" +:+ name +:+ "` but no MethodDecl declared it").
Definition declared (methods : list MethodDecl) (name : string) : bool :=
  existsb (fun m => bool_decide (m.(MethodDecl.name) = name)) methods.

(** [connect_with_builder] before [establish]: the checks and the [Hello]. *)
Definition hello_of (pid : N) (b : BusClientBuilder) : result HelloRequest BusError :=
  (let? sv := ok_or b.(BusClientBuilder.service) no_service in
   match find (fun name => negb (declared b.(BusClientBuilder.methods) name))
           (map_to_list b.(BusClientBuilder.handlers)).*1 with
   | Some name => Err (undeclared name)
   | None =>
       Ok {| HelloRequest.protocol := ProtocolVersion.CURRENT;
             HelloRequest.service := sv.1;
             HelloRequest.version := sv.2;
             HelloRequest.pid := pid;
             HelloRequest.auth_token := (b.(BusClientBuilder.cfg)).(ClientConfig.auth_token);
             HelloRequest.methods := b.(BusClientBuilder.methods);
             HelloRequest.events := b.(BusClientBuilder.events);
             HelloRequest.data_plane := b.(BusClientBuilder.data_plane) |}
   end)%res.

(** * Establishing the connection *)

(** [is_transient_connect_msg]. *)
Definition is_transient_connect_msg (msg : string) : bool :=
  contains msg "Connection refused" || contains msg "No such file or directory".

Definition next_backoff (backoff_ms : N) : N := (backoff_ms * 2) `min` 1000.

Section establish.
Context {St L T P : Type} `{Os St L T P}.

(** The retry loop of [establish]; [None] when [fuel] attempts were not
    enough, the inner loop of each attempt has the fuel of
    [connect_bounded]. *)
Fixpoint connect_retry (fuel : nat) (pf : Platform) (st : St) (e : Endpoint) (deadline backoff_ms : N)
    : option (result (BusStream T P) BusError) * St :=
  match fuel with
  | O => (None, st)
  | S fuel =>
      match connect_endpoint 101 pf st e with
      | (None, st) => (None, st)
      | (Some (Ok s), st) => (Some (Ok s), st)
      | (Some (Err err), st) =>
          let transient := match err with BusError.Io msg => is_transient_connect_msg msg | _ => false end in
          if transient && (now st <? deadline)%N
          then connect_retry fuel pf (sleep st (duration_from_millis backoff_ms)) e deadline
                 (next_backoff backoff_ms)
          else (Some (Err err), st)
      end
  end.

Definition establish_connect (fuel : nat) (pf : Platform) (st : St) (cfg : ClientConfig)
    : option (result (BusStream T P) BusError) * St :=
  match cfg.(ClientConfig.reconnect_max_backoff) with
  | Some max_backoff =>
      connect_retry fuel pf st cfg.(ClientConfig.endpoint) (now st + max_backoff)%N 50
  | None => connect_endpoint 101 pf st cfg.(ClientConfig.endpoint)
  end.
End establish.

(** The reply to [Hello], after its frame was written. *)
Definition handshake_reply (dbg : BusFrame -> string) (read : result (option BusFrame) BusError)
    : result HelloAck BusError :=
  (let? f := read in
   match f with
   | Some (BusFrame.HelloAck a) => Ok a
   | Some (BusFrame.Response r) =>
       match r.(Response.result) with
       | Err e => Err e
       | Ok _ => Err (BusError.Internal "broker rejected Hello without explaining")
       end
   | Some other => Err (BusError.Internal ("expected HelloAck, got " +:+ dbg other))
   | None => Err BusError.ConnectionClosed
   end)%res.

(** * The client *)

Section client.
Context {Q Nt : Type} `{Mpsc Q BusFrame, Notify Nt}.

Record Client := mkClient {
  c_service : string;
  c_handlers : gmap string InvokeHandler;
  c_idle_exit : option Duration;
  c_next_req_id : N;
  c_tx : Q;
  c_pending : gmap N task_id;
  c_shutdown : Nt;
  c_shutdown_fired : bool;
  c_last_activity : N
}.

Definition set_tx v c := mkClient (c_service c) (c_handlers c) (c_idle_exit c) (c_next_req_id c) v (c_pending c) (c_shutdown c) (c_shutdown_fired c) (c_last_activity c).
Definition set_calls k v c := mkClient (c_service c) (c_handlers c) (c_idle_exit c) k (c_tx c) v (c_shutdown c) (c_shutdown_fired c) (c_last_activity c).
Definition set_notify v f c := mkClient (c_service c) (c_handlers c) (c_idle_exit c) (c_next_req_id c) (c_tx c) (c_pending c) v f (c_last_activity c).
Definition record_activity v c := mkClient (c_service c) (c_handlers c) (c_idle_exit c) (c_next_req_id c) (c_tx c) (c_pending c) (c_shutdown c) (c_shutdown_fired c) v.

(** The client [establish] builds once the handshake is done. *)
Definition new_client (service : string) (handlers : gmap string InvokeHandler)
    (idle_exit : option Duration) (now : N) : Client :=
  mkClient service handlers idle_exit 1 mpsc_new ∅ notify_new false now.

(** [self.tx.send(frame)]. *)
Definition send (c : Client) (f : BusFrame) : option Client :=
  q ← mpsc_send (c_tx c) f; Some (set_tx q c).
Definition send_ (c : Client) (f : BusFrame) : Client := default c (send c f).

(** [publish], [client_subscribe]: one frame, or [ConnectionClosed]. *)
Definition send_or_closed (c : Client) (f : BusFrame) : Client * result unit BusError :=
  match send c f with
  | Some c => (c, Ok tt)
  | None => (c, Err BusError.ConnectionClosed)
  end.
Definition publish (c : Client) (topic : string) (payload : bytes) : Client * result unit BusError :=
  send_or_closed c
    (BusFrame.Publish {| Event.topic := topic; Event.payload := payload; Event.from := None |}).
Definition client_subscribe (c : Client) (topic_prefix : string) : Client * result unit BusError :=
  send_or_closed c (BusFrame.Subscribe topic_prefix).

(** [shutdown]: [swap], then [notify_waiters] the first time. *)
Definition shutdown (c : Client) : Client :=
  if c_shutdown_fired c then c
  else set_notify (notify_waiters (c_shutdown c)) true c.

(** [auto_caller]: the user id comes from the task-local of the task. *)
Definition auto_caller (current_user_id : option string) (uuid app_id : string) : CallerCtx := {|
  CallerCtx.user_id := current_user_id; CallerCtx.request_id := uuid;
  CallerCtx.workspace := None; CallerCtx.caller_app_id := Some app_id |}.

(** ** invoke *)

Record InvokeArgs := mkInvokeArgs {
  i_service : string; i_method : string; i_payload : bytes; i_caller : CallerCtx
}.
Inductive InvokePc :=
| IStart
| ISend (req_id : N)
| IAwait (req_id : N)
| IDone (r : result bytes BusError).

Definition outbound_frame (a : InvokeArgs) (req_id : N) : BusFrame :=
  BusFrame.Invoke {| Invoke.req_id := req_id; Invoke.method := i_service a +:+ "." +:+ i_method a;
                     Invoke.payload := i_payload a; Invoke.caller := i_caller a |}.

Definition invoke_register (c : Client) (id : task_id) : Client * InvokePc :=
  let '(req_id, next) := fetch_add1 (c_next_req_id c) in
  (set_calls next (<[req_id := id]> (c_pending c)) c, ISend req_id).
Definition invoke_send (c : Client) (a : InvokeArgs) (req_id : N) : Client * InvokePc :=
  match send c (outbound_frame a req_id) with
  | None => (c, IDone (Err BusError.ConnectionClosed))
  | Some c => (c, IAwait req_id)
  end.

(** ** Inbound frames *)

(** What [handle_inbound] leaves to other tasks. *)
Inductive Effect :=
| ENone
| EDispatch (inv : Invoke)
| EWake (id : task_id) (resp : Response).

Definition handle_inbound (now : N) (c : Client) (f : BusFrame) : Client * Effect :=
  match f with
  | BusFrame.Ping => (send_ c BusFrame.Pong, ENone)
  | BusFrame.Shutdown => (shutdown c, ENone)
  | BusFrame.Invoke inv => (record_activity now c, EDispatch inv)
  | BusFrame.Response resp =>
      match c_pending c !! resp.(Response.req_id) with
      | Some id =>
          (set_calls (c_next_req_id c) (delete resp.(Response.req_id) (c_pending c)) c, EWake id resp)
      | None => (c, ENone)
      end
  | _ => (c, ENone)
  end.

(** [dispatch_invoke]: the handler runs, with the caller's identity as the
    task-local user id, or the method is refused. *)
Inductive DispatchPc :=
| DStart
| DRun (h : InvokeHandler) (user_id : option string)
| DReply (r : result bytes BusError).

Definition dispatch_lookup (c : Client) (inv : Invoke) : DispatchPc :=
  match c_handlers c !! inv.(Invoke.method) with
  | Some h => DRun h inv.(Invoke.caller).(CallerCtx.user_id)
  | None => DReply (Err (BusError.MethodNotFound (c_service c) inv.(Invoke.method)))
  end.
Definition dispatch_response (inv : Invoke) (r : result bytes BusError) : Response :=
  {| Response.req_id := inv.(Invoke.req_id); Response.result := r |}.

(** The test of the idle loop of [run_until_shutdown]. *)
Definition idle_expired (c : Client) (now : N) : bool :=
  match c_idle_exit c with
  | Some thresh => (thresh <=? now - c_last_activity c)%N
  | None => false
  end.

(** * The process *)

Inductive ReaderPc := RReading | RShutdown | RDone.

Inductive PTask :=
| PInvoke (a : InvokeArgs) (pc : InvokePc)
| PDispatch (inv : Invoke) (pc : DispatchPc)
| PWaiter (future : N)
| PReturned.

(** [p_inbox] and [p_wire] record the frames read and written, [p_answered]
    the responses handed to the writer. *)
Record Proc := mkProc {
  p_client : Client;
  p_reader : ReaderPc;
  p_tasks : gmap task_id PTask;
  p_replies : gmap task_id Response;
  p_inbox : list BusFrame;
  p_wire : list BusFrame;
  p_answered : list Response;
  p_next_id : N
}.

Definition set_client v p := mkProc v (p_reader p) (p_tasks p) (p_replies p) (p_inbox p) (p_wire p) (p_answered p) (p_next_id p).
Definition set_reader v p := mkProc (p_client p) v (p_tasks p) (p_replies p) (p_inbox p) (p_wire p) (p_answered p) (p_next_id p).
Definition set_task id t p := mkProc (p_client p) (p_reader p) (<[id := t]> (p_tasks p)) (p_replies p) (p_inbox p) (p_wire p) (p_answered p) (p_next_id p).
Definition end_task id p := mkProc (p_client p) (p_reader p) (delete id (p_tasks p)) (p_replies p) (p_inbox p) (p_wire p) (p_answered p) (p_next_id p).
Definition put_reply id r p := mkProc (p_client p) (p_reader p) (p_tasks p) (<[id := r]> (p_replies p)) (p_inbox p) (p_wire p) (p_answered p) (p_next_id p).
Definition log_inbox f p := mkProc (p_client p) (p_reader p) (p_tasks p) (p_replies p) (p_inbox p ++ [f]) (p_wire p) (p_answered p) (p_next_id p).
Definition log_wire f p := mkProc (p_client p) (p_reader p) (p_tasks p) (p_replies p) (p_inbox p) (p_wire p ++ [f]) (p_answered p) (p_next_id p).
Definition log_answer r p := mkProc (p_client p) (p_reader p) (p_tasks p) (p_replies p) (p_inbox p) (p_wire p) (p_answered p ++ [r]) (p_next_id p).
Definition new_task t p := mkProc (p_client p) (p_reader p) (<[p_next_id p := t]> (p_tasks p)) (p_replies p) (p_inbox p) (p_wire p) (p_answered p) (p_next_id p + 1)%N.

Definition new_proc (c : Client) : Proc := mkProc c RReading ∅ ∅ [] [] [] 0.

Inductive PLabel :=
(** The app calls the client. *)
| PCall (a : InvokeArgs)
| PPublish (topic : string) (payload : bytes)
| PSubscribe (topic_prefix : string)
| PShutdown
| PRunUntilShutdown
(** A task takes its next step; a handler returns; a waiting task is woken by
    its reply, by the loss of its sender, by the notification, by the idle
    loop at a time. *)
| PStep (id : task_id)
| PHandled (id : task_id) (r : result bytes BusError)
| PReply (id : task_id)
| PRxClosed (id : task_id)
| PWoken (id : task_id)
| PIdle (id : task_id) (now : N)
(** The app drops the future of its [invoke] or [run_until_shutdown]. *)
| PDrop (id : task_id)
(** The reader gets a frame, or the end of the stream or an error, and then
    aborts the writer; the writer takes a frame, which is written or not. *)
| PFrame (now : N) (f : BusFrame)
| PEnd
| PAbort
| PWriter (written : bool).

(** The sender of a call is gone without a response: only the table holds it. *)
Definition reply_lost p (id : task_id) (req_id : N) : bool :=
  bool_decide (p_replies p !! id = None)
  && negb (bool_decide (c_pending (p_client p) !! req_id = Some id)).

Definition pstep_task p (id : task_id) (t : PTask) : option Proc :=
  match t with
  | PInvoke a IStart =>
      let '(c, pc) := invoke_register (p_client p) id in
      Some (set_task id (PInvoke a pc) (set_client c p))
  | PInvoke a (ISend req_id) =>
      let '(c, pc) := invoke_send (p_client p) a req_id in
      Some (set_task id (PInvoke a pc) (set_client c p))
  | PDispatch inv DStart => Some (set_task id (PDispatch inv (dispatch_lookup (p_client p) inv)) p)
  | PDispatch inv (DReply r) =>
      let resp := dispatch_response inv r in
      Some (end_task id (log_answer resp
              (set_client (send_ (p_client p) (BusFrame.Response resp)) p)))
  | _ => None
  end.

Definition pexec_reader p (l : PLabel) : option Proc :=
  match l, p_reader p with
  | PFrame now f, RReading =>
      let '(c, e) := handle_inbound now (p_client p) f in
      let p := log_inbox f (set_client c p) in
      Some (match e with
            | ENone => p
            | EDispatch inv => new_task (PDispatch inv DStart) p
            | EWake id resp => put_reply id resp p
            end)
  | PEnd, RReading => Some (set_reader RShutdown (set_client (shutdown (p_client p)) p))
  | PAbort, RShutdown =>
      Some (set_reader RDone (set_client (set_tx (mpsc_drop_rx (c_tx (p_client p))) (p_client p)) p))
  | PWriter written, _ =>
      match mpsc_recv (c_tx (p_client p)) with
      | Some (f, q) =>
          Some (if written then log_wire f (set_client (set_tx q (p_client p)) p)
                else set_client (set_tx (mpsc_drop_rx q) (p_client p)) p)
      | None => None
      end
  | _, _ => None
  end.

Definition pexec_task p (l : PLabel) : option Proc :=
  match l with
  | PStep id => t ← p_tasks p !! id; pstep_task p id t
  | PHandled id r =>
      match p_tasks p !! id with
      | Some (PDispatch inv (DRun _ _)) => Some (set_task id (PDispatch inv (DReply r)) p)
      | _ => None
      end
  | PReply id =>
      match p_tasks p !! id, p_replies p !! id with
      | Some (PInvoke a (IAwait _)), Some resp =>
          Some (set_task id (PInvoke a (IDone resp.(Response.result))) p)
      | _, _ => None
      end
  | PRxClosed id =>
      match p_tasks p !! id with
      | Some (PInvoke a (IAwait req_id)) =>
          if reply_lost p id req_id
          then Some (set_task id (PInvoke a (IDone (Err BusError.ConnectionClosed))) p) else None
      | _ => None
      end
  | PWoken id =>
      match p_tasks p !! id with
      | Some (PWaiter i) =>
          if woken (c_shutdown (p_client p)) i then Some (set_task id PReturned p) else None
      | _ => None
      end
  | PIdle id now =>
      match p_tasks p !! id with
      | Some (PWaiter _) => if idle_expired (p_client p) now then Some (set_task id PReturned p) else None
      | _ => None
      end
  | PDrop id =>
      match p_tasks p !! id with
      | Some (PInvoke _ (IStart | IAwait _) | PWaiter _) => Some (end_task id p)
      | _ => None
      end
  | _ => None
  end.

Definition pexec_app p (l : PLabel) : option Proc :=
  match l with
  | PCall a => Some (new_task (PInvoke a IStart) p)
  | PPublish topic payload => Some (set_client (publish (p_client p) topic payload).1 p)
  | PSubscribe topic_prefix => Some (set_client (client_subscribe (p_client p) topic_prefix).1 p)
  | PShutdown => Some (set_client (shutdown (p_client p)) p)
  | PRunUntilShutdown =>
      let '(n, i) := notified (c_shutdown (p_client p)) in
      Some (new_task (PWaiter i) (set_client (set_notify n (c_shutdown_fired (p_client p)) (p_client p)) p))
  | _ => None
  end.

Definition pexec p (l : PLabel) : option Proc :=
  match pexec_reader p l with
  | Some p' => Some p'
  | None => match pexec_task p l with Some p' => Some p' | None => pexec_app p l end
  end.

Fixpoint prun p (ls : list PLabel) : option Proc :=
  match ls with
  | [] => Some p
  | l :: ls => p' ← pexec p l; prun p' ls
  end.

Inductive preachable (c0 : Client) : N -> Proc -> Prop :=
| preachable_init : preachable c0 0 (new_proc c0)
| preachable_step n p l p' : preachable c0 n p -> pexec p l = Some p' -> preachable c0 (n + 1) p'.

End client.
Arguments Client Q Nt : clear implicits.
Arguments Proc Q Nt : clear implicits.

(** The [Hello] of a built client. *)
Lemma hello_of_ok pid b hello :
  hello_of pid b = Ok hello ->
  hello.(HelloRequest.protocol) = ProtocolVersion.CURRENT
  /\ hello.(HelloRequest.auth_token) = (b.(BusClientBuilder.cfg)).(ClientConfig.auth_token).
Proof.
  unfold hello_of. destruct (BusClientBuilder.service b); simpl; [|done].
  destruct (find _ _); [done|]. by intros [= <-].
Qed.
