(* ===== verification/Streams.v ===== *)
(** What one step does to a stream while both its ends read: the queue of its
    writer grows at the end, and the writer moves its first frame to the wire,
    or ends.  For a connection of the broker (crates/broker/src/session.rs) and
    for a client (crates/client/src/client.rs). *)

From stdpp Require Import prelude gmap strings.
From S2P Require Import Prelude Frame Runtime Registry Broker Session System Invariant Steps Client.

(** A writer: whether its task runs, the frames queued for it and those on the
    wire, before and after a step. *)
Inductive stream_step (open : bool) (queue wire : list BusFrame)
    : bool -> list BusFrame -> list BusFrame -> option bool -> Prop :=
| st_queued k : stream_step open queue wire open (queue ++ k) wire None
| st_written f queue' : open = true -> queue = f :: queue' ->
    stream_step open queue wire true queue' (wire ++ [f]) (Some true)
| st_broken queue' : open = true -> stream_step open queue wire false queue' wire (Some false).

Lemma stream_same open queue wire : stream_step open queue wire open queue wire None.
Proof. rewrite <-(app_nil_r queue) at 2. apply st_queued. Qed.

(** * At the broker *)

Section broker.
Context {Q : Type} `{LawfulMpsc Q BusFrame}.
Context (parse : bytes -> result CapabilityResponse string).
Implicit Types w : World Q.

(** Sending, to whatever connections, appends to their queues. *)
Definition extends (h h' : Heap Q) : Prop := forall c,
  chan_open h' c = chan_open h c /\ chan_queue h c `prefix_of` chan_queue h' c.

(** The stream to a connection, across a step. *)
Definition stream_to w (w' : World Q) (c : conn_id) (written : option bool) : Prop :=
  stream_step (chan_open (heap w) c) (chan_queue (heap w) c) (wire_of w c)
    (chan_open (heap w') c) (chan_queue (heap w') c) (wire_of w' c) written.

(** Whether the step is one of the session task of [c]. *)
Definition drives (l : Label) (c : conn_id) : bool :=
  match l with
  | LHello c' _ _ | LAck c' _ | LAttach c' | LClose c' | LRemove c' | LSession c' => bool_decide (c' = c)
  | _ => false
  end.

(** Whether the step is one of the writer of [c]. *)
Definition writes (l : Label) (c : conn_id) : option bool :=
  match l with LWriter c' written => if decide (c' = c) then Some written else None | _ => None end.

Lemma extends_refl h : extends h h.
Proof. by intros c. Qed.

Lemma extends_trans h1 h2 h3 : extends h1 h2 -> extends h2 h3 -> extends h1 h3.
Proof. intros H12 H23 c. destruct (H12 c), (H23 c). split; [congruence|by etrans]. Qed.

Lemma extends_send_ h c f : extends h (chan_send_ h c f).
Proof.
  intros c'. destruct (chan_send_spec h c f) as [Hs Hq]. split; [apply (same_open _ _ Hs)|].
  rewrite Hq. by apply prefix_app_r.
Qed.

Lemma extends_send h c f h' : chan_send h c f = Some h' -> extends h h'.
Proof. intros Hs. pose proof (extends_send_ h c f) as He. unfold chan_send_ in He. by rewrite Hs in He. Qed.

Lemma extends_fan b h ev pc : extends h (fan_step b h ev pc).1.
Proof. destruct pc as [[|s l]|tx l]; simpl; [apply extends_refl..|apply extends_send_]. Qed.

Lemma extends_job b h hello g job b' h' t job' :
  serve_job b h hello g job = (b', h', t, job') -> extends h h'.
Proof.
  destruct job as [|ev pc| |]; simpl; try (intros [= _ <- _ _]; apply extends_refl).
  pose proof (extends_fan b h ev pc). destruct (fan_step b h ev pc) as [h1 pc1]. by intros [= _ <- _ _].
Qed.

Lemma extends_shutdown h tx : extends h (shutdown_send h tx).1.
Proof.
  unfold shutdown_send. destruct (chan_send _ _ _) as [h'|] eqn:Hs; [by eapply extends_send|apply extends_refl].
Qed.

Lemma extends_call b h id a pc h' pc' : call_step b h id a pc = Some (h', pc') -> extends h h'.
Proof.
  destruct pc; simpl; try done; try (intros Hs; injection Hs as <- _; by intros c).
  unfold call_send. destruct (chan_send h _ _) as [h1|] eqn:Hc; intros [= <- _]; [by eapply extends_send|apply extends_refl].
Qed.

Lemma extends_wake h c resp : extends h (wake h c resp).
Proof. unfold wake. case_match; by intros c'. Qed.

Lemma stream_extends w w' c :
  extends (heap w) (heap w') -> wire_of w' c = wire_of w c -> stream_to w w' c None.
Proof.
  intros He Hw. destruct (He c) as [Ho [k Hq]]. unfold stream_to. rewrite Ho, Hq, Hw. apply st_queued.
Qed.

Lemma stream_elsewhere w w' c :
  channels (heap w') !! c = channels (heap w) !! c -> wire_of w' c = wire_of w c -> stream_to w w' c None.
Proof. intros Hc Hw. unfold stream_to, chan_open, chan_queue. rewrite Hc, Hw. apply stream_same. Qed.

Lemma writer_stream w c0 wr w' c :
  match (q ← channels (heap w) !! c0; mpsc_recv q) with
  | Some (f, q) =>
      let h := set_channels (<[c0 := q]> (channels (heap w))) (heap w) in
      Some (if wr : bool then log_out c0 f (set_heap h w) else set_heap (chan_drop_rx h c0) w)
  | None => None
  end = Some w' ->
  conns w' = conns w /\ stream_to w w' c (writes (LWriter c0 wr) c).
Proof.
  destruct (channels (heap w) !! c0) as [q|] eqn:Hq; simpl; [|done].
  destruct (mpsc_recv q) as [[f q']|] eqn:Hr; [|done]. intros [= <-].
  destruct (recv_Some q f q' Hr) as [Hqu Ha'].
  assert (Ha : rx_alive q = true) by (destruct (rx_alive q) eqn:Ha; [done|by rewrite recv_dead in Hr]).
  split; [by destruct wr|]. destruct (decide (c0 = c)) as [->|Hne].
  - unfold stream_to. destruct wr; simpl.
    + replace (wire_of (log_out c f _) c) with (wire_of w c ++ [f]).
      2: { unfold wire_of, log_out. simpl. by rewrite lookup_insert_eq. }
      unfold chan_open, chan_queue. simpl. rewrite lookup_insert_eq, Hq. simpl. rewrite Ha'. by apply st_written.
    + rewrite chan_drop_rx_open, decide_True by done. change (wire_of (set_heap ?h w) c) with (wire_of w c).
      apply st_broken. unfold chan_open. rewrite Hq. exact Ha.
  - destruct wr; (apply stream_elsewhere; simpl; [|done || (unfold wire_of, log_out; simpl; by rewrite lookup_insert_ne)]).
    + by rewrite lookup_insert_ne.
    + by rewrite lookup_alter_ne, lookup_insert_ne.
Qed.

(** A step of a session task that is between two awaits. *)
Lemma job_stream w c0 hello g job b h t job' c :
  serve_job (broker w) (heap w) hello g job = (b, h, t, job') ->
  let w' := spawn_opt t (set_job c0 job' (set_heap h (set_broker b w))) in
  conns w' = conns w /\ stream_to w w' c None.
Proof.
  intros Hj. split; [by destruct t|]. apply stream_extends; [|by destruct t].
  apply extends_job in Hj. by destruct t.
Qed.

(** A step that is not one of the session task of [c]. *)
Lemma exec_stream_at w l w' c pc :
  exec parse w l = Some w' -> conns w !! c = Some pc -> drives l c = false -> (c < next_id w)%N ->
  conns w' !! c = Some pc /\ stream_to w w' c (writes l c).
Proof.
  intros Hx Hc Hl Hlt. unfold exec in Hx. destruct (exec_conn w l) as [w1|] eqn:Hx1; simplify_eq.
  { assert (Hne : forall c0, bool_decide (c0 = c) = false -> c <> c0) by (intros c0 ?%bool_decide_eq_false; congruence).
    destruct l as [|c0 read wr|c0 wr|c0|c0 f|c0|c0|c0 wr|c0| | | | | | | | | | |]; try done; simpl in Hl;
      try (apply Hne in Hl); [..|apply exec_session in Hx1;
        destruct Hx1 as [hl Hc0|hl i Hc0|hl g i Hc0|hl g pc1 job b h t job' Hc0 _ _ _ Hsj];
        [split; [simpl; by rewrite lookup_insert_ne|by apply stream_elsewhere]..| |];
        [|destruct (job_stream w c0 _ _ _ _ _ _ _ c Hsj) as [-> ?]; done];
        (split; [simpl; by rewrite lookup_insert_ne|]); apply stream_elsewhere; [simpl; by rewrite lookup_insert_ne|done]];
      simpl in Hx1; [|destruct (conns w !! c0) as [[]|] eqn:Hc0; try done..].
    - injection Hx1 as <-. split; [|by apply stream_elsewhere]. simpl. rewrite lookup_insert_ne; [done|lia].
    - destruct (serve_hello _ _) as [[b out] pc1] eqn:Hsh. injection Hx1 as <-.
      split; [destruct read as [[]|], out, wr; simpl; by rewrite lookup_insert_ne|].
      apply stream_elsewhere; [by destruct read as [[f|]|], out, wr|].
      destruct read as [[f|]|], out, wr; unfold wire_of; simpl; by rewrite ?lookup_insert_ne by done.
    - destruct wr; simpl in Hx1; injection Hx1 as <-; (split; [simpl; by rewrite lookup_insert_ne|]); apply stream_elsewhere; simpl; try done.
      + unfold wire_of. simpl. by rewrite lookup_insert_ne.
      + by rewrite lookup_alter_ne.
    - injection Hx1 as <-. split; [simpl; by rewrite lookup_insert_ne|]. by apply stream_elsewhere.
    - destruct (busy w !! c0); [done|].
      destruct (serve_frame _ _ _ _ _) as [[[b h] t] job] eqn:Hsf. injection Hx1 as <-.
      split; [by destruct t|]. apply stream_extends; [|by destruct t].
      destruct (serve_frame_cases _ _ _ _ _ _ _ _ _ Hsf) as (_ & _ & _ & _ & _ & _ & _ & Hh & _).
      assert (Hex : extends (heap w) h) by (destruct Hh as [->|(resp & _ & ->)]; [apply extends_refl|apply extends_wake]).
      by destruct t.
    - destruct (busy w !! c0); [done|]. injection Hx1 as <-. split; [simpl; by rewrite lookup_insert_ne|]. by apply stream_elsewhere.
    - destruct (busy w !! c0); [done|]. injection Hx1 as <-. split; [simpl; by rewrite lookup_insert_ne|]. apply stream_elsewhere; [|done].
      simpl. by rewrite lookup_alter_ne.
    - destruct (writer_stream w c0 wr w' c Hx1) as [-> ?]. done.
    - destruct (writer_stream w c0 wr w' c Hx1) as [-> ?]. done.
    - destruct (writer_stream w c0 wr w' c Hx1) as [-> ?]. done. }
  destruct (exec_task parse w l) as [w1|] eqn:Hx2; simplify_eq.
  { destruct l as [| | | | | | | | | |i|i r|i|i|i|i|i| | |]; try done; simpl in Hx2;
      destruct (tasks w !! i) as [[o a pc0|c0 resp|svc cr|svc hd|tx]|] eqn:Ht; try done.
    - destruct (call_step _ _ _ _ _) as [[h pc']|] eqn:Hs; [|done]. injection Hx2 as <-.
      split; [done|]. apply stream_extends; [by eapply extends_call|done].
    - destruct pc0; try done. injection Hx2 as <-. split; [done|by apply stream_elsewhere].
    - destruct pc0; try done. destruct (replies _ !! i); [|done]. injection Hx2 as <-. split; [done|by apply stream_elsewhere].
    - destruct pc0; try done. destruct (sender_dropped _ _ _ _); [|done]. injection Hx2 as <-. split; [done|by apply stream_elsewhere].
    - destruct (bool_decide _); [done|]. destruct pc0; try done; injection Hx2 as <-; (split; [done|by apply stream_elsewhere]).
    - destruct pc0; try done. injection Hx2 as <-. split; [destruct o; simpl; repeat case_match; done|].
      apply stream_elsewhere; destruct o; simpl; repeat case_match; done.
    - injection Hx2 as <-. split; [done|]. apply stream_extends; [apply extends_send_|done].
    - injection Hx2 as <-. split; [done|by apply stream_elsewhere].
    - injection Hx2 as <-. split; [done|by apply stream_elsewhere].
    - injection Hx2 as <-. split; [done|]. apply stream_extends; [apply extends_shutdown|done].
    - destruct o; try done. destruct (droppable pc0); [|done]. injection Hx2 as <-. split; [done|by apply stream_elsewhere]. }
  destruct l; try done; simpl in Hx; injection Hx as <-; try (split; [done|by apply stream_elsewhere]).
  destruct (shutdown_target _ _); (split; [done|by apply stream_elsewhere]).
Qed.

Lemma exec_stream w l w' c hello g :
  exec parse w l = Some w' -> conns w !! c = Some (SRunning hello g) -> l <> LClose c -> (c < next_id w)%N ->
  conns w' !! c = Some (SRunning hello g) /\ stream_to w w' c (writes l c).
Proof.
  intros Hx Hc Hl Hlt. destruct (drives l c) eqn:Hd; [|by apply exec_stream_at].
  unfold exec in Hx. destruct l; simpl in Hd, Hx; try done; apply bool_decide_eq_true in Hd as ->; rewrite Hc in Hx; try done.
  destruct (busy w !! c) as [job|]; [|done].
  destruct (serve_job _ _ _ _ _) as [[[b h] t] job'] eqn:Hsj. injection Hx as <-.
  destruct (job_stream w c _ _ _ _ _ _ _ c Hsj) as [-> ?]. done.
Qed.
End broker.

(** * At a client *)

Section client.
Context {Q Nt : Type} `{LawfulMpsc Q BusFrame, Notify Nt}.
Implicit Types p : Proc Q Nt.

(** The writer of a client, across a step. *)
Definition stream_from p p' (written : option bool) : Prop :=
  stream_step (rx_alive (c_tx (p_client p))) (queued (c_tx (p_client p))) (p_wire p)
    (rx_alive (c_tx (p_client p'))) (queued (c_tx (p_client p'))) (p_wire p') written.

Definition p_writes (l : PLabel) : option bool :=
  match l with PWriter written => Some written | _ => None end.

Lemma stream_kept p p' : c_tx (p_client p') = c_tx (p_client p) -> p_wire p' = p_wire p -> stream_from p p' None.
Proof. intros Hc Hw. unfold stream_from. rewrite Hc, Hw. apply stream_same. Qed.

Lemma stream_send p p' f :
  c_tx (p_client p') = c_tx (send_ (p_client p) f) -> p_wire p' = p_wire p -> stream_from p p' None.
Proof.
  intros Hc Hw. unfold send_, send in Hc. destruct (mpsc_send (c_tx (p_client p)) f) as [q|] eqn:Hs; simpl in Hc.
  - destruct (send_Some _ _ _ Hs) as (Ha & Hq & Ha'). unfold stream_from. rewrite Hc, Hw, Hq, Ha, Ha'. apply st_queued.
  - by apply stream_kept.
Qed.

Lemma send_or_closed_spec (c : Client Q Nt) f : (send_or_closed c f).1 = send_ c f.
Proof. unfold send_or_closed, send_. by destruct (send c f). Qed.

Lemma shutdown_tx (c : Client Q Nt) : c_tx (shutdown c) = c_tx c.
Proof. unfold shutdown. by destruct (c_shutdown_fired c). Qed.

(** While its reader runs. *)
Lemma pexec_stream p l p' :
  pexec p l = Some p' -> p_reader p = RReading -> l <> PEnd ->
  p_reader p' = RReading /\ stream_from p p' (p_writes l).
Proof.
  intros Hx Hr Hl. unfold pexec in Hx. destruct (pexec_reader p l) as [p1|] eqn:H1x; simplify_eq.
  { destruct l; simpl in H1x; rewrite ?Hr in H1x; try done.
    - assert (Hh : p_reader p' = RReading /\ p_wire p' = p_wire p
        /\ p_client p' = (handle_inbound now (p_client p) f).1).
      { destruct (handle_inbound now (p_client p) f) as [c [|inv|id resp]]; by injection H1x as <-. }
      destruct Hh as (Hr' & Hw & Hc). split; [done|].
      destruct f; simpl in Hc;
        try (apply stream_kept; [rewrite Hc; first [done|apply shutdown_tx|by case_match]|done]).
      eapply stream_send; [by rewrite Hc|done].
    - destruct (mpsc_recv (c_tx (p_client p))) as [[f q]|] eqn:Hrc; [|done]. injection H1x as <-.
      destruct (recv_Some _ _ _ Hrc) as [Hqu Ha'].
      assert (Ha : rx_alive (c_tx (p_client p)) = true)
        by (destruct (rx_alive (c_tx (p_client p))) eqn:Ha; [done|by rewrite recv_dead in Hrc]).
      split; [by destruct written|]. unfold stream_from. destruct written; simpl.
      + rewrite Ha'. by apply st_written.
      + rewrite drop_alive. by apply st_broken. }
  destruct (pexec_task p l) as [p1|] eqn:H2x; simplify_eq.
  { destruct l; simpl in H2x; try done.
    - apply bind_Some in H2x as (t & Ht & Hs). destruct t as [a []|inv []|f|]; simpl in Hs; try done.
      + injection Hs as <-. split; [done|by apply stream_kept].
      + unfold invoke_send in Hs. destruct (send (p_client p) _) as [c|] eqn:Hsd; injection Hs as <-; (split; [done|]).
        * eapply stream_send; [|done]. unfold send_. by rewrite Hsd.
        * by apply stream_kept.
      + injection Hs as <-. split; [done|by apply stream_kept].
      + injection Hs as <-. split; [done|by eapply stream_send].
    - destruct (p_tasks p !! id) as [[|inv []| |]|]; try done. injection H2x as <-. split; [done|by apply stream_kept].
    - destruct (p_tasks p !! id) as [[a []| | |]|], (p_replies p !! id); try done. injection H2x as <-. split; [done|by apply stream_kept].
    - destruct (p_tasks p !! id) as [[a []| | |]|]; try done. destruct (reply_lost _ _ _); [|done]. injection H2x as <-. split; [done|by apply stream_kept].
    - destruct (p_tasks p !! id) as [[| | |]|]; try done. destruct (woken _ _); [|done]. injection H2x as <-. split; [done|by apply stream_kept].
    - destruct (p_tasks p !! id) as [[| | |]|]; try done. destruct (idle_expired _ _); [|done]. injection H2x as <-. split; [done|by apply stream_kept].
    - destruct (p_tasks p !! id) as [[a []| | |]|]; try done; injection H2x as <-; (split; [done|by apply stream_kept]). }
  destruct l; simpl in Hx; try done.
  - injection Hx as <-. split; [done|by apply stream_kept].
  - injection Hx as <-. split; [done|]. eapply stream_send; [|done]. unfold publish. simpl. by rewrite send_or_closed_spec.
  - injection Hx as <-. split; [done|]. eapply stream_send; [|done]. unfold client_subscribe. simpl. by rewrite send_or_closed_spec.
  - injection Hx as <-. split; [done|]. apply stream_kept; [apply shutdown_tx|done].
  - destruct (notified (c_shutdown (p_client p))) as [nt i]. injection Hx as <-. split; [done|by apply stream_kept].
Qed.

(** A writer that has ended does not come back. *)
Lemma send_ended (c : Client Q Nt) f : rx_alive (c_tx c) = false -> rx_alive (c_tx (send_ c f)) = false.
Proof. intros Hd. unfold send_, send. by rewrite send_dead. Qed.

Lemma writer_ended p l p' :
  pexec p l = Some p' -> rx_alive (c_tx (p_client p)) = false -> rx_alive (c_tx (p_client p')) = false.
Proof.
  intros Hx Hd. unfold pexec in Hx. destruct (pexec_reader p l) as [p1|] eqn:H1x; simplify_eq.
  { destruct l; simpl in H1x; try done; destruct (p_reader p); try done;
      try (rewrite recv_dead in H1x by done; done);
      try (injection H1x as <-; simpl; rewrite ?shutdown_tx, ?drop_alive; done).
    destruct f; simpl in H1x; try (injection H1x as <-; simpl; rewrite ?shutdown_tx; by try apply send_ended).
    destruct (c_pending (p_client p) !! _); by injection H1x as <-. }
  destruct (pexec_task p l) as [p1|] eqn:H2x; simplify_eq.
  { destruct l; simpl in H2x; try done.
    - apply bind_Some in H2x as (t & _ & Hs). destruct t as [a []|inv []|f|]; simpl in Hs; try done;
        try (injection Hs as <-; simpl; by try apply send_ended).
      unfold invoke_send, send in Hs. rewrite send_dead in Hs by done. by injection Hs as <-.
    - destruct (p_tasks p !! id) as [[|inv []| |]|]; try done. by injection H2x as <-.
    - destruct (p_tasks p !! id) as [[a []| | |]|], (p_replies p !! id); try done. by injection H2x as <-.
    - destruct (p_tasks p !! id) as [[a []| | |]|]; try done. destruct (reply_lost _ _ _); [|done]. by injection H2x as <-.
    - destruct (p_tasks p !! id) as [[| | |]|]; try done. destruct (woken _ _); [|done]. by injection H2x as <-.
    - destruct (p_tasks p !! id) as [[| | |]|]; try done. destruct (idle_expired _ _); [|done]. by injection H2x as <-.
    - destruct (p_tasks p !! id) as [[a []| | |]|]; try done; by injection H2x as <-. }
  destruct l; simpl in Hx; try done; [| | | |destruct (notified _) as [nt i]]; injection Hx as <-; simpl;
    rewrite ?shutdown_tx; unfold publish, client_subscribe; rewrite ?send_or_closed_spec; by try apply send_ended.
Qed.
End client.
