(* ===== verification/ClientSafety.v ===== *)
(** The process of a connected client, in every world it can reach: the
    replies its calls get, the answers its handlers give, and how it shuts
    down. *)

From stdpp Require Import prelude gmap strings.
From S2P Require Import Prelude Frame Runtime Client.

Definition inv_wait (pc : InvokePc) : option N :=
  match pc with ISend rid | IAwait rid => Some rid | _ => None end.

Section safety.
Context {Q Nt : Type} `{LawfulMpsc Q BusFrame, LawfulNotify Nt}.
Implicit Types p : Proc Q Nt.

Definition pending p : gmap N task_id := c_pending (p_client p).
Definition next_req p : N := c_next_req_id (p_client p).

Record client_ok (n : N) p : Prop := {
  ck_counter : (1 <= next_req p <= n + 1)%N;
  ck_ids id t : p_tasks p !! id = Some t -> (id < p_next_id p)%N;
  ck_pending rid id : pending p !! rid = Some id -> (rid < next_req p)%N /\ (id < p_next_id p)%N
    /\ forall a pc, p_tasks p !! id = Some (PInvoke a pc) ->
         pc <> IStart /\ forall rid', inv_wait pc = Some rid' -> rid' = rid;
  ck_wait id a pc rid : p_tasks p !! id = Some (PInvoke a pc) -> inv_wait pc = Some rid ->
    (rid < next_req p)%N
    /\ (p_replies p !! id = None -> pending p !! rid = Some id)
    /\ forall resp, p_replies p !! id = Some resp ->
         resp.(Response.req_id) = rid /\ BusFrame.Response resp ∈ p_inbox p;
  ck_unique id1 id2 a1 a2 pc1 pc2 rid :
    p_tasks p !! id1 = Some (PInvoke a1 pc1) -> p_tasks p !! id2 = Some (PInvoke a2 pc2) ->
    inv_wait pc1 = Some rid -> inv_wait pc2 = Some rid -> id1 = id2;
  ck_reply id resp : p_replies p !! id = Some resp -> (id < p_next_id p)%N
    /\ forall a, p_tasks p !! id <> Some (PInvoke a IStart)
}.

(** How a task may change without touching the table of calls. *)
Definition quiet p (id : task_id) (t : PTask) : Prop :=
  forall a pc, t = PInvoke a pc ->
    p_tasks p !! id = Some t \/ (id = p_next_id p /\ pc = IStart)
    \/ exists pc0, p_tasks p !! id = Some (PInvoke a pc0) /\ pc0 <> IStart /\ pc <> IStart
         /\ (inv_wait pc = inv_wait pc0 \/ inv_wait pc = None).

(** The request ids of the frames read, of the dispatches under way, and of the
    responses given. *)
Definition frame_invoke (f : BusFrame) : option N :=
  match f with BusFrame.Invoke inv => Some inv.(Invoke.req_id) | _ => None end.
Definition task_invoke (it : task_id * PTask) : option N :=
  match it.2 with PDispatch inv _ => Some inv.(Invoke.req_id) | _ => None end.
Definition asked p : list N := omap frame_invoke (p_inbox p).
Definition running_ids (m : gmap task_id PTask) : list N := omap task_invoke (map_to_list m).
Definition running p : list N := running_ids (p_tasks p).
Definition given p : list N := Response.req_id <$> p_answered p.

(** What a response says when the method has no handler. *)
Definition refusal_ok p (inv : Invoke) (r : result bytes BusError) : Prop :=
  c_handlers (p_client p) !! inv.(Invoke.method) = None ->
  r = Err (BusError.MethodNotFound (c_service (p_client p)) inv.(Invoke.method)).

Definition dispatch_ok p (inv : Invoke) (pc : DispatchPc) : Prop :=
  match pc with
  | DStart => True
  | DRun h u => c_handlers (p_client p) !! inv.(Invoke.method) = Some h
      /\ u = inv.(Invoke.caller).(CallerCtx.user_id)
  | DReply r => refusal_ok p inv r
  end.

Record answers_ok p : Prop := {
  an_ids : asked p ≡ₚ running p ++ given p;
  an_task id inv pc : p_tasks p !! id = Some (PDispatch inv pc) ->
    BusFrame.Invoke inv ∈ p_inbox p /\ dispatch_ok p inv pc;
  an_given resp : resp ∈ p_answered p -> exists inv, BusFrame.Invoke inv ∈ p_inbox p
    /\ resp.(Response.req_id) = inv.(Invoke.req_id) /\ refusal_ok p inv resp.(Response.result)
}.

(** The handlers and the name of a client never change. *)
Definition same_service p p' : Prop :=
  c_handlers (p_client p') = c_handlers (p_client p) /\ c_service (p_client p') = c_service (p_client p).

(** A client [establish] has just built. *)
Definition fresh (c : Client Q Nt) : Prop :=
  c_pending c = ∅ /\ c_next_req_id c = 1%N /\ c_shutdown_fired c = false.

Lemma quiet_waiting p id a pc rid :
  quiet p id (PInvoke a pc) -> inv_wait pc = Some rid ->
  exists pc0, p_tasks p !! id = Some (PInvoke a pc0) /\ inv_wait pc0 = Some rid.
Proof.
  intros Hq Hw. destruct (Hq a pc eq_refl) as [?|[[_ ->]|(pc0 & ? & _ & _ & [?|?])]];
    [eauto | done | exists pc0; split; [done|congruence] | congruence].
Qed.

Lemma quiet_started p id a pc :
  quiet p id (PInvoke a pc) -> (id < p_next_id p)%N ->
  (forall a, p_tasks p !! id <> Some (PInvoke a IStart)) -> pc <> IStart.
Proof.
  intros Hq Hid Hs. destruct (Hq a pc eq_refl) as [?|[[-> _]|(pc0 & _ & _ & ? & _)]]; [|lia|done].
  intros ->. by eapply Hs.
Qed.

Lemma client_ok_quiet n p p' :
  client_ok n p -> (p_next_id p <= p_next_id p')%N ->
  (forall id t, p_tasks p' !! id = Some t -> (id < p_next_id p')%N /\ quiet p id t) ->
  next_req p' = next_req p ->
  (forall rid id, pending p' !! rid = Some id -> pending p !! rid = Some id) ->
  (forall f, f ∈ p_inbox p -> f ∈ p_inbox p') ->
  (forall id resp, p_replies p' !! id = Some resp -> p_replies p !! id = Some resp
     \/ (pending p !! resp.(Response.req_id) = Some id /\ BusFrame.Response resp ∈ p_inbox p')) ->
  (forall id rid, p_replies p' !! id = None -> p_replies p !! id = None
     /\ (pending p !! rid = Some id -> pending p' !! rid = Some id)) ->
  client_ok (n + 1) p'.
Proof.
  intros [Kc Ki Kp Kw Ku Kr] Hid Ht Hk Hp Hi Hr Hn.
  assert (Hwait : forall id a pc rid, p_tasks p' !! id = Some (PInvoke a pc) ->
    inv_wait pc = Some rid -> exists pc0, p_tasks p !! id = Some (PInvoke a pc0) /\ inv_wait pc0 = Some rid)
    by (intros id a pc rid [_ Hq]%Ht; by apply quiet_waiting).
  split; rewrite ?Hk.
  - lia.
  - intros id t [? _]%Ht. done.
  - intros rid id Hpi%Hp. destruct (Kp rid id Hpi) as (? & ? & Hx). split_and!; [done|lia|].
    intros a pc Hti. split.
    + eapply quiet_started; [by apply Ht|done|]. intros a' Ha'. by destruct (Hx _ _ Ha').
    + intros rid' Hw. destruct (Hwait _ _ _ _ Hti Hw) as (pc0 & Hs & Hw0). by eapply Hx.
  - intros id a pc rid Hti Hw. destruct (Hwait _ _ _ _ Hti Hw) as (pc0 & Hs & Hw0).
    destruct (Kw _ _ _ _ Hs Hw0) as (? & Hz1 & Hz2). split_and!; [done| |].
    + intros Hno. destruct (Hn id rid Hno) as [? Hz]. auto.
    + intros resp [Ho|[Hpi Hin]]%Hr; [destruct (Hz2 _ Ho); auto|].
      destruct (Kp _ _ Hpi) as (_ & _ & Hx). destruct (Hx _ _ Hs) as [_ Hx']. by rewrite (Hx' _ Hw0).
  - intros id1 id2 a1 a2 pc1 pc2 rid H1' H2' Hw1 Hw2.
    destruct (Hwait _ _ _ _ H1' Hw1) as (pc1' & Hs1 & Hw1').
    destruct (Hwait _ _ _ _ H2' Hw2) as (pc2' & Hs2 & Hw2'). by eapply Ku.
  - intros id resp Hresp.
    assert (Hz : (id < p_next_id p)%N /\ forall a, p_tasks p !! id <> Some (PInvoke a IStart)).
    { destruct (Hr _ _ Hresp) as [Ho|[Hpi _]]; [by eapply Kr|].
      destruct (Kp _ _ Hpi) as (_ & ? & Hx). split; [done|]. intros a Ha. by destruct (Hx _ _ Ha). }
    split; [lia|]. intros a Ha. by eapply (quiet_started p id a IStart); [apply Ht | apply Hz | apply Hz |].
Qed.

(** A call draws its request id. *)
Lemma client_ok_register n p id a p' :
  client_ok n p -> (n + 2 < U64_SIZE)%N ->
  p_tasks p !! id = Some (PInvoke a IStart) -> pstep_task p id (PInvoke a IStart) = Some p' ->
  client_ok (n + 1) p'.
Proof.
  intros [Kc Ki Kp Kw Ku Kr] Hb Ht Hs. simpl in Hs. injection Hs as <-.
  unfold next_req, pending in *. set (k := c_next_req_id (p_client p)) in *.
  assert (Hk : as_u64 (k + 1) = (k + 1)%N) by (apply as_u64_small; lia).
  assert (Hnew : forall id' a' pc', <[id := PInvoke a (ISend k)]> (p_tasks p) !! id' = Some (PInvoke a' pc') ->
      (id' = id /\ a' = a /\ pc' = ISend k) \/ (id' <> id /\ p_tasks p !! id' = Some (PInvoke a' pc')))
    by (intros *; rewrite lookup_insert_Some; naive_solver).
  split; unfold next_req, pending; simpl; fold k; rewrite ?Hk.
  - lia.
  - intros id' t [[<- _]|[_ Hl]]%lookup_insert_Some; by eapply Ki.
  - intros rid id' [[<- <-]|[Hne Hpi]]%lookup_insert_Some.
    + split_and!; [lia|by eapply Ki|]. intros a' pc' [(_ & _ & ->)|[? _]]%Hnew; [|done].
      split; [done|]. by intros rid' [= <-].
    + destruct (Kp _ _ Hpi) as (? & ? & Hx). split_and!; [lia|done|].
      intros a' pc' [(-> & _ & ->)|[_ Hl]]%Hnew; [by destruct (Hx _ _ Ht) | by apply (Hx a')].
  - intros id' a' pc' rid [(-> & -> & ->)|[Hne Hl]]%Hnew Hw.
    + injection Hw as <-. split_and!; [lia | intros _; apply lookup_insert_eq|].
      intros resp Hresp. destruct (Kr _ _ Hresp) as [_ Hx]. by destruct (Hx a).
    + destruct (Kw _ _ _ _ Hl Hw) as (? & Hz1 & Hz2). split_and!; [lia| |done].
      intros Hn. rewrite lookup_insert_ne by lia. auto.
  - intros id1 id2 a1 a2 pc1 pc2 rid [(-> & -> & ->)|[Hn1 Hl1]]%Hnew [(-> & -> & ->)|[Hn2 Hl2]]%Hnew Hw1 Hw2;
      [done| | |by eapply Ku].
    + injection Hw1 as <-. destruct (Kw _ _ _ _ Hl2 Hw2). lia.
    + injection Hw2 as <-. destruct (Kw _ _ _ _ Hl1 Hw1). lia.
  - intros id' resp Hresp. destruct (Kr _ _ Hresp) as [? Hx]. split; [done|].
    intros a' [(_ & _ & ?)|[_ Hl]]%Hnew; [done | by eapply Hx].
Qed.

(** ** The steps *)

Lemma send_calls (c : Client Q Nt) f :
  c_next_req_id (send_ c f) = c_next_req_id c /\ c_pending (send_ c f) = c_pending c
  /\ c_handlers (send_ c f) = c_handlers c /\ c_service (send_ c f) = c_service c
  /\ c_shutdown (send_ c f) = c_shutdown c /\ c_shutdown_fired (send_ c f) = c_shutdown_fired c
  /\ c_idle_exit (send_ c f) = c_idle_exit c.
Proof. unfold send_, send. by destruct (mpsc_send _ _). Qed.

Lemma shutdown_calls (c : Client Q Nt) :
  c_next_req_id (shutdown c) = c_next_req_id c /\ c_pending (shutdown c) = c_pending c
  /\ c_handlers (shutdown c) = c_handlers c /\ c_service (shutdown c) = c_service c
  /\ c_idle_exit (shutdown c) = c_idle_exit c.
Proof. unfold shutdown. by destruct (c_shutdown_fired c). Qed.

Section step.
Context n p (Hok : client_ok n p).

Lemma quiet_same id t : p_tasks p !! id = Some t -> quiet p id t.
Proof. intros Ht a pc ->. auto. Qed.

Lemma put_quiet id t0 t : p_tasks p !! id = Some t0 -> quiet p id t ->
  forall id' t', <[id := t]> (p_tasks p) !! id' = Some t' -> (id' < p_next_id p)%N /\ quiet p id' t'.
Proof.
  intros Hid Hq id' t' [[<- <-]|[_ Hl]]%lookup_insert_Some; (split; [by eapply ck_ids|]);
    [done | by apply quiet_same].
Qed.

Lemma new_quiet t : (forall a pc, t = PInvoke a pc -> pc = IStart) ->
  forall id' t', <[p_next_id p := t]> (p_tasks p) !! id' = Some t' ->
    (id' < p_next_id p + 1)%N /\ quiet p id' t'.
Proof.
  intros Ht id' t' [[<- <-]|[_ Hl]]%lookup_insert_Some.
  - split; [lia|]. intros a pc Heq. right. left. split; [done|]. by eapply Ht.
  - split; [|by apply quiet_same]. apply (ck_ids n p Hok) in Hl. lia.
Qed.

Lemma same_quiet id t : p_tasks p !! id = Some t -> (id < p_next_id p)%N /\ quiet p id t.
Proof. intros Ht. split; [by eapply ck_ids | by apply quiet_same]. Qed.

Lemma done_quiet id a pc0 pc :
  p_tasks p !! id = Some (PInvoke a pc0) -> pc0 <> IStart -> pc <> IStart ->
  inv_wait pc = inv_wait pc0 \/ inv_wait pc = None -> quiet p id (PInvoke a pc).
Proof. intros Ht ? ? ? a' pc' [= <- <-]. right. right. eauto 10. Qed.

Lemma other_quiet id t : (forall a pc, t <> PInvoke a pc) -> quiet p id t.
Proof. intros Ht a pc ->. by edestruct Ht. Qed.

(** Only the client's channel, notification and tasks change. *)
Lemma client_ok_tasks p' :
  (p_next_id p <= p_next_id p')%N ->
  (forall id t, p_tasks p' !! id = Some t -> (id < p_next_id p')%N /\ quiet p id t) ->
  next_req p' = next_req p -> pending p' = pending p ->
  p_replies p' = p_replies p -> (forall f, f ∈ p_inbox p -> f ∈ p_inbox p') ->
  client_ok (n + 1) p'.
Proof.
  intros Hid Ht Hk Hp Hr Hi. apply (client_ok_quiet n p p'); try done.
  - intros *. by rewrite Hp.
  - intros *. rewrite Hr. auto.
  - intros *. rewrite Hr, Hp. auto.
Qed.

Lemma client_ok_frame now f p' :
  pexec_reader p (PFrame now f) = Some p' -> client_ok (n + 1) p'.
Proof.
  simpl. destruct (p_reader p); try done. intros Hx.
  assert (Hin : forall g, g ∈ p_inbox p -> g ∈ p_inbox p ++ [f]) by set_solver.
  destruct f; simpl in Hx; try (injection Hx as <-; apply client_ok_tasks;
    try (destruct (send_calls (p_client p) BusFrame.Pong) as (? & ? & _); done);
    try (destruct (shutdown_calls (p_client p)) as (? & ? & _); done); try done;
    try exact same_quiet; try (simpl; lia); fail).
  - injection Hx as <-. apply client_ok_tasks; try done; [simpl; lia|]. by apply new_quiet.
  - destruct (c_pending (p_client p) !! Response.req_id r) as [id|] eqn:Hp; injection Hx as <-;
      [|apply client_ok_tasks; try done; exact same_quiet].
    apply (client_ok_quiet n p); try done; [exact same_quiet| | |].
    + intros rid id'. unfold pending. simpl. intros [_ ?]%lookup_delete_Some. done.
    + intros id' resp. simpl. intros [[<- <-]|[_ ?]]%lookup_insert_Some; [right; set_solver | auto].
    + intros id' rid Hn. simpl in Hn. apply lookup_insert_None in Hn as [Hn Hne]. split; [done|].
      unfold pending. simpl. intros Hpi. rewrite lookup_delete_ne; [done|]. intros <-. congruence.
Qed.

Lemma client_ok_reader l p' : pexec_reader p l = Some p' -> client_ok (n + 1) p'.
Proof.
  destruct l; try done; [by apply client_ok_frame|simpl..].
  - destruct (p_reader p); try done. intros [= <-].
    destruct (shutdown_calls (p_client p)) as (? & ? & _).
    apply client_ok_tasks; try done. exact same_quiet.
  - destruct (p_reader p); try done. intros [= <-]. apply client_ok_tasks; try done. exact same_quiet.
  - destruct (mpsc_recv _) as [[f q]|]; [|by destruct (p_reader p)].
    intros Hx. assert (Hx' : p' = if written then log_wire f (set_client (set_tx q (p_client p)) p)
      else set_client (set_tx (mpsc_drop_rx q) (p_client p)) p) by (destruct (p_reader p); by injection Hx).
    subst p'. destruct written; apply client_ok_tasks; try done; exact same_quiet.
Qed.

Lemma client_ok_task l p' :
  (n + 2 < U64_SIZE)%N -> pexec_task p l = Some p' -> client_ok (n + 1) p'.
Proof.
  intros Hb. destruct l; try done; simpl.
  - intros (t & Ht & Hs)%bind_Some. destruct t as [a pc|inv pc|i|]; try done.
    + destruct pc as [|rid|rid|r]; try done; [by eapply client_ok_register|].
      simpl in Hs. unfold invoke_send, send in Hs.
      destruct (mpsc_send _ _) as [q|]; simpl in Hs; injection Hs as <-;
        (apply client_ok_tasks; try done; eapply put_quiet; [done|]; eapply done_quiet; [exact Ht|done|done|by auto]).
    + destruct pc; try done; simpl in Hs; injection Hs as <-.
      * apply client_ok_tasks; try done. eapply put_quiet; [done|]. by apply other_quiet.
      * destruct (send_calls (p_client p) (BusFrame.Response (dispatch_response inv r))) as (? & ? & _).
        apply client_ok_tasks; try done.
        intros id' t Hl. simpl in Hl. apply lookup_delete_Some in Hl as [_ Hl]. by apply same_quiet.
  - destruct (p_tasks p !! id) as [[a pc|inv [|h u|r']|i|]|] eqn:Ht; try done.
    intros [= <-]. apply client_ok_tasks; try done. eapply put_quiet; [done|]. by apply other_quiet.
  - destruct (p_tasks p !! id) as [[a [|rid|rid|r]|inv pc|i|]|] eqn:Ht; try done.
    destruct (p_replies p !! id); [|done]. intros [= <-].
    apply client_ok_tasks; try done. eapply put_quiet; [done|]. eapply done_quiet; [exact Ht|done|done|by auto].
  - destruct (p_tasks p !! id) as [[a [|rid|rid|r]|inv pc|i|]|] eqn:Ht; try done.
    destruct (reply_lost p id rid); [|done]. intros [= <-].
    apply client_ok_tasks; try done. eapply put_quiet; [done|]. eapply done_quiet; [exact Ht|done|done|by auto].
  - destruct (p_tasks p !! id) as [[a pc|inv pc|i|]|] eqn:Ht; try done.
    destruct (woken _ _); [|done]. intros [= <-].
    apply client_ok_tasks; try done. eapply put_quiet; [done|]. by apply other_quiet.
  - destruct (p_tasks p !! id) as [[a pc|inv pc|i|]|] eqn:Ht; try done.
    destruct (idle_expired _ _); [|done]. intros [= <-].
    apply client_ok_tasks; try done. eapply put_quiet; [done|]. by apply other_quiet.
  - destruct (p_tasks p !! id) as [[a [|rid|rid|r]|inv pc|i|]|] eqn:Ht; try done; intros [= <-];
      (apply client_ok_tasks; try done; intros id' t Hl; simpl in Hl; apply lookup_delete_Some in Hl as [_ Hl];
       by apply same_quiet).
Qed.

Lemma client_ok_app l p' : pexec_app p l = Some p' -> client_ok (n + 1) p'.
Proof.
  destruct l; try done; simpl; intros Hx.
  - injection Hx as <-. apply client_ok_tasks; try done; [simpl; lia|]. apply new_quiet. naive_solver.
  - injection Hx as <-. unfold publish, send_or_closed, send.
    destruct (mpsc_send _ _); apply client_ok_tasks; try done; exact same_quiet.
  - injection Hx as <-. unfold client_subscribe, send_or_closed, send.
    destruct (mpsc_send _ _); apply client_ok_tasks; try done; exact same_quiet.
  - injection Hx as <-. destruct (shutdown_calls (p_client p)) as (? & ? & _).
    apply client_ok_tasks; try done. exact same_quiet.
  - destruct (notified _) as [nt i]. injection Hx as <-.
    apply client_ok_tasks; try done; [simpl; lia|]. by apply new_quiet.
Qed.

Lemma client_ok_exec l p' : (n + 2 < U64_SIZE)%N -> pexec p l = Some p' -> client_ok (n + 1) p'.
Proof.
  unfold pexec. intros Hb Hx. destruct (pexec_reader p l) eqn:Hx1; [simplify_eq; by eapply client_ok_reader|].
  destruct (pexec_task p l) eqn:Hx2; [simplify_eq; by eapply client_ok_task|]. by eapply client_ok_app.
Qed.
End step.

(** ** Answers *)

Lemma running_new m i t : m !! i = None ->
  running_ids (<[i := t]> m) ≡ₚ option_list (task_invoke (i, t)) ++ running_ids m.
Proof.
  intros Hi. unfold running_ids. rewrite map_to_list_insert by done. simpl.
  by destruct (task_invoke (i, t)).
Qed.

Lemma running_delete m i t : m !! i = Some t ->
  running_ids m ≡ₚ option_list (task_invoke (i, t)) ++ running_ids (delete i m).
Proof.
  intros Hi. unfold running_ids. rewrite <-(map_to_list_delete m i t) by done. simpl.
  by destruct (task_invoke (i, t)).
Qed.

Lemma running_put m i t t' : m !! i = Some t -> task_invoke (i, t') = task_invoke (i, t) ->
  running_ids (<[i := t']> m) ≡ₚ running_ids m.
Proof.
  intros Hi Heq. rewrite <-insert_delete_eq, running_new by apply lookup_delete_eq.
  by rewrite (running_delete m i t Hi), Heq.
Qed.

Lemma dispatch_ok_same p p' inv pc : same_service p p' -> dispatch_ok p inv pc -> dispatch_ok p' inv pc.
Proof. intros [Hh Hs]. unfold dispatch_ok, refusal_ok. by rewrite Hh, Hs. Qed.

Lemma answers_keep p p' :
  answers_ok p -> same_service p p' ->
  running p' ≡ₚ running p -> asked p' = asked p -> p_answered p' = p_answered p ->
  (forall f, f ∈ p_inbox p -> f ∈ p_inbox p') ->
  (forall id inv pc, p_tasks p' !! id = Some (PDispatch inv pc) ->
     p_tasks p !! id = Some (PDispatch inv pc)
     \/ (BusFrame.Invoke inv ∈ p_inbox p /\ dispatch_ok p inv pc)) ->
  answers_ok p'.
Proof.
  intros [Hi Ht Hg] Hs Hr Ha Hgv Hin Htk. split.
  - unfold given. by rewrite Ha, Hr, Hgv.
  - intros id inv pc Hid. assert (Hx : BusFrame.Invoke inv ∈ p_inbox p /\ dispatch_ok p inv pc).
    { destruct (Htk _ _ _ Hid) as [Ho|?]; [by eapply Ht | done]. }
    destruct Hx. split; [auto|]. by eapply dispatch_ok_same.
  - intros resp Hresp. rewrite Hgv in Hresp. destruct (Hg _ Hresp) as (inv & ? & ? & Hx).
    exists inv. split_and!; auto. destruct Hs as [Hh Hsv]. unfold refusal_ok. by rewrite Hh, Hsv.
Qed.

Section answers_step.
Context n p (Hok : client_ok n p) (Ha : answers_ok p).

Lemma fresh_task : p_tasks p !! p_next_id p = None.
Proof.
  destruct (p_tasks p !! p_next_id p) eqn:Ht; [|done]. apply (ck_ids n p Hok) in Ht. lia.
Qed.

Lemma asked_other f : frame_invoke f = None -> omap frame_invoke (p_inbox p ++ [f]) = asked p.
Proof. intros Hf. rewrite omap_app. simpl. rewrite Hf. by rewrite app_nil_r. Qed.

Lemma answers_frame now f p' : pexec_reader p (PFrame now f) = Some p' -> answers_ok p'.
Proof.
  simpl. destruct (p_reader p); try done. intros Hx.
  destruct f; simpl in Hx; try (injection Hx as <-; apply (answers_keep p); try done;
    try (destruct (send_calls (p_client p) BusFrame.Pong) as (? & ? & ? & ? & _); done);
    try (destruct (shutdown_calls (p_client p)) as (? & ? & ? & ? & _); done);
    [by apply asked_other | simpl; set_solver | by auto]; fail).
  - injection Hx as <-. destruct Ha as [Hi Ht Hg]. split.
    + unfold asked, running, given. simpl. rewrite omap_app, running_new by apply fresh_task. simpl.
      unfold asked, running, given in Hi. rewrite Hi. by rewrite Permutation_app_comm.
    + simpl. intros id inv' pc [[<- [= <- <-]]|[_ Hl]]%lookup_insert_Some; [set_solver|].
      destruct (Ht _ _ _ Hl). split; [set_solver | done].
    + simpl. intros resp Hresp. destruct (Hg _ Hresp) as (inv' & ? & ? & ?).
      exists inv'. split_and!; [set_solver | done..].
  - destruct (c_pending (p_client p) !! _) as [id|]; injection Hx as <-; apply (answers_keep p); try done;
      try (by apply asked_other); try (simpl; set_solver); by auto.
Qed.

Lemma answers_reader l p' : pexec_reader p l = Some p' -> answers_ok p'.
Proof.
  destruct l; try done; [by apply answers_frame|simpl..].
  - destruct (p_reader p); try done. intros [= <-].
    destruct (shutdown_calls (p_client p)) as (? & ? & ? & ? & _). apply (answers_keep p); try done. by auto.
  - destruct (p_reader p); try done. intros [= <-]. apply (answers_keep p); try done. by auto.
  - destruct (mpsc_recv _) as [[f q]|]; [|by destruct (p_reader p)].
    intros Hx. assert (Hx' : p' = if written then log_wire f (set_client (set_tx q (p_client p)) p)
      else set_client (set_tx (mpsc_drop_rx q) (p_client p)) p) by (destruct (p_reader p); by injection Hx).
    subst p'. destruct written; apply (answers_keep p); try done; by auto.
Qed.

(** A task that is not a dispatch moves. *)
Lemma answers_put id t t' p' :
  p_tasks p !! id = Some t -> p_tasks p' = <[id := t']> (p_tasks p) -> same_service p p' ->
  task_invoke (id, t') = task_invoke (id, t) ->
  (forall inv pc, t' = PDispatch inv pc -> BusFrame.Invoke inv ∈ p_inbox p /\ dispatch_ok p inv pc) ->
  p_inbox p' = p_inbox p -> p_answered p' = p_answered p -> answers_ok p'.
Proof.
  intros Ht Ht' Hs Heq Hd Hi Hg. apply (answers_keep p); try done.
  - unfold running. rewrite Ht'. by eapply running_put.
  - unfold asked. by rewrite Hi.
  - by rewrite Hi.
  - intros id' inv pc. rewrite Ht'. intros [[<- ->]|[_ ?]]%lookup_insert_Some; auto.
Qed.

Lemma answers_end id t p' :
  p_tasks p !! id = Some t -> task_invoke (id, t) = None -> p_tasks p' = delete id (p_tasks p) ->
  same_service p p' -> p_inbox p' = p_inbox p -> p_answered p' = p_answered p -> answers_ok p'.
Proof.
  intros Ht Hn Ht' Hs Hi Hg. apply (answers_keep p); try done.
  - unfold running. by rewrite Ht', (running_delete _ _ _ Ht), Hn.
  - unfold asked. by rewrite Hi.
  - by rewrite Hi.
  - intros id' inv pc. rewrite Ht'. intros [_ ?]%lookup_delete_Some. auto.
Qed.

Lemma answers_task l p' : pexec_task p l = Some p' -> answers_ok p'.
Proof.
  destruct l; try done; simpl.
  - intros (t & Ht & Hs)%bind_Some. destruct t as [a pc|inv pc|i|]; try done.
    + destruct pc as [|rid|rid|r]; try done; simpl in Hs.
      * injection Hs as <-. by eapply answers_put.
      * unfold invoke_send, send in Hs.
        destruct (mpsc_send _ _) as [q|]; simpl in Hs; injection Hs as <-; by eapply answers_put.
    + destruct (an_task p Ha _ _ _ Ht) as [Hin Hd]. destruct pc as [|h u|r]; try done; simpl in Hs; injection Hs as <-.
      * eapply answers_put; try done. intros ?? [= <- <-]. split; [done|].
        unfold dispatch_lookup. destruct (c_handlers _ !! _) eqn:Hh; simpl; [done|]. by intros _.
      * destruct (send_calls (p_client p) (BusFrame.Response (dispatch_response inv r))) as (_ & _ & Hh & Hsv & _).
        destruct Ha as [Hi Htk Hg]. split.
        -- unfold asked, running, given in *. simpl. rewrite Hi, (running_delete _ _ _ Ht). simpl.
           rewrite fmap_app. simpl. rewrite Permutation_cons_append. by rewrite <-app_assoc.
        -- simpl. intros id' inv' pc [_ Hl]%lookup_delete_Some. destruct (Htk _ _ _ Hl).
           split; [done|]. by eapply dispatch_ok_same.
        -- simpl. intros resp [Hresp|Hresp%list_elem_of_singleton]%elem_of_app.
           ++ destruct (Hg _ Hresp) as (inv' & ? & ? & Hx). exists inv'. split_and!; try done.
              unfold refusal_ok. simpl. by rewrite Hh, Hsv.
           ++ subst resp. exists inv. split_and!; try done. unfold refusal_ok. simpl. by rewrite Hh, Hsv.
  - destruct (p_tasks p !! id) as [[a pc|inv [|h u|r']|i|]|] eqn:Ht; try done.
    intros [= <-]. destruct (an_task p Ha _ _ _ Ht) as [Hin [Hh _]]. eapply answers_put; try done.
    intros ?? [= <- <-]. split; [done|]. unfold dispatch_ok, refusal_ok. congruence.
  - destruct (p_tasks p !! id) as [[a [|rid|rid|r]|inv pc|i|]|] eqn:Ht; try done.
    destruct (p_replies p !! id); [|done]. intros [= <-]. by eapply answers_put.
  - destruct (p_tasks p !! id) as [[a [|rid|rid|r]|inv pc|i|]|] eqn:Ht; try done.
    destruct (reply_lost p id rid); [|done]. intros [= <-]. by eapply answers_put.
  - destruct (p_tasks p !! id) as [[a pc|inv pc|i|]|] eqn:Ht; try done.
    destruct (woken _ _); [|done]. intros [= <-]. by eapply answers_put.
  - destruct (p_tasks p !! id) as [[a pc|inv pc|i|]|] eqn:Ht; try done.
    destruct (idle_expired _ _); [|done]. intros [= <-]. by eapply answers_put.
  - destruct (p_tasks p !! id) as [[a [|rid|rid|r]|inv pc|i|]|] eqn:Ht; try done; intros [= <-];
      by eapply answers_end.
Qed.

Lemma answers_new t p' :
  p_tasks p' = <[p_next_id p := t]> (p_tasks p) -> same_service p p' ->
  (forall inv pc, t <> PDispatch inv pc) ->
  p_inbox p' = p_inbox p -> p_answered p' = p_answered p -> answers_ok p'.
Proof.
  intros Ht Hs Hn Hi Hg. apply (answers_keep p); try done.
  - unfold running. rewrite Ht, running_new by apply fresh_task. by destruct t; try (by edestruct Hn).
  - unfold asked. by rewrite Hi.
  - by rewrite Hi.
  - intros id' inv pc. rewrite Ht. intros [[_ ->]|[_ ?]]%lookup_insert_Some; [by edestruct Hn | auto].
Qed.

Lemma answers_app l p' : pexec_app p l = Some p' -> answers_ok p'.
Proof.
  destruct l; try done; simpl; intros Hx.
  - injection Hx as <-. by eapply answers_new.
  - injection Hx as <-. unfold publish, send_or_closed, send.
    destruct (mpsc_send _ _); apply (answers_keep p); try done; by auto.
  - injection Hx as <-. unfold client_subscribe, send_or_closed, send.
    destruct (mpsc_send _ _); apply (answers_keep p); try done; by auto.
  - injection Hx as <-. destruct (shutdown_calls (p_client p)) as (? & ? & ? & ? & _).
    apply (answers_keep p); try done. by auto.
  - destruct (notified _) as [nt i]. injection Hx as <-. by eapply answers_new.
Qed.

Lemma answers_exec l p' : pexec p l = Some p' -> answers_ok p'.
Proof.
  unfold pexec. intros Hx. destruct (pexec_reader p l) eqn:Hx1; [simplify_eq; by eapply answers_reader|].
  destruct (pexec_task p l) eqn:Hx2; [simplify_eq; by eapply answers_task|]. by eapply answers_app.
Qed.
End answers_step.

Lemma reachable_client_ok c0 n p :
  fresh c0 -> preachable c0 n p -> (n + 1 < U64_SIZE)%N -> client_ok n p.
Proof.
  intros (Hp & Hk & _). induction 1 as [|n p l p' Hr IH Hx]; intros Hb.
  - split; unfold next_req, pending; simpl; rewrite ?Hp, ?Hk; intros *; rewrite ?lookup_empty; try done; lia.
  - eapply client_ok_exec; [apply IH; lia | lia | done].
Qed.

Lemma reachable_answers_ok c0 n p :
  fresh c0 -> preachable c0 n p -> (n + 1 < U64_SIZE)%N -> answers_ok p.
Proof.
  intros Hf. induction 1 as [|n p l p' Hr IH Hx]; intros Hb.
  - split; [done | by intros * | by intros ? ?%elem_of_nil].
  - eapply (answers_exec n); [|apply IH; lia|done]. eapply reachable_client_ok; [done..|lia].
Qed.

End safety.
