(* ===== verification/ClientOrigins.v ===== *)
(** Where the results of [BusClient::invoke] and the responses of a client come
    from, in every world its process can reach when its handlers return what
    the relation [handles] allows. *)

From stdpp Require Import prelude gmap strings.
From S2P Require Import Prelude Frame Runtime Client Streams ClientSafety.

(** The frame a step of the client reads. *)
Definition p_reads (l : PLabel) : list BusFrame := match l with PFrame _ f => [f] | _ => [] end.

Section client_origins.
Context {Q Nt : Type} `{LawfulMpsc Q BusFrame, LawfulNotify Nt}.
(** [handles h payload caller r]: the handler [h] may return [r]. *)
Context (handles : InvokeHandler -> bytes -> CallerCtx -> result bytes BusError -> Prop).
Implicit Types p : Proc Q Nt.

(** The frames written by a client or queued for its writer. *)
Definition frames_out p : list BusFrame := p_wire p ++ queued (c_tx (p_client p)).

(** A step in which a handler returns what it may. *)
Definition obeys p (l : PLabel) : Prop :=
  match l with
  | PHandled id r => forall inv h u, p_tasks p !! id = Some (PDispatch inv (DRun h u)) ->
      handles h inv.(Invoke.payload) inv.(Invoke.caller) r
  | _ => True
  end.

(** The number belongs to the call of [a] alone. *)
Record owned p (rid : N) (a : InvokeArgs) : Prop := {
  ow_number : (1 <= rid < next_req p)%N;
  ow_send id a' : p_tasks p !! id <> Some (PInvoke a' (ISend rid));
  ow_only inv : BusFrame.Invoke inv ∈ frames_out p -> inv.(Invoke.req_id) = rid ->
    BusFrame.Invoke inv = outbound_frame a rid
}.

(** Why an [invoke] may have returned [r]. *)
Definition returned_ok p (a : InvokeArgs) (r : result bytes BusError) : Prop :=
  r = Err BusError.ConnectionClosed /\ rx_alive (c_tx (p_client p)) = false
  \/ exists resp, owned p resp.(Response.req_id) a /\ BusFrame.Response resp ∈ p_inbox p
       /\ resp.(Response.result) = r.

(** What the client answers to an invocation. *)
Definition handled p (inv : Invoke) (r : result bytes BusError) : Prop :=
  match c_handlers (p_client p) !! inv.(Invoke.method) with
  | Some h => handles h inv.(Invoke.payload) inv.(Invoke.caller) r
  | None => r = Err (BusError.MethodNotFound (c_service (p_client p)) inv.(Invoke.method))
  end.

Record client_origins p : Prop := {
  cr_bound inv : BusFrame.Invoke inv ∈ frames_out p -> (1 <= inv.(Invoke.req_id) < next_req p)%N;
  cr_send id a rid : p_tasks p !! id = Some (PInvoke a (ISend rid)) ->
    (1 <= rid)%N /\ forall inv, BusFrame.Invoke inv ∈ frames_out p -> inv.(Invoke.req_id) <> rid;
  cr_await id a rid : p_tasks p !! id = Some (PInvoke a (IAwait rid)) -> owned p rid a;
  cr_done id a r : p_tasks p !! id = Some (PInvoke a (IDone r)) -> returned_ok p a r;
  cr_run id inv h u : p_tasks p !! id = Some (PDispatch inv (DRun h u)) ->
    c_handlers (p_client p) !! inv.(Invoke.method) = Some h;
  cr_reply id inv r : p_tasks p !! id = Some (PDispatch inv (DReply r)) -> handled p inv r;
  cr_task id inv pc : p_tasks p !! id = Some (PDispatch inv pc) -> BusFrame.Invoke inv ∈ p_inbox p;
  cr_resp resp : BusFrame.Response resp ∈ frames_out p -> exists inv,
    BusFrame.Invoke inv ∈ p_inbox p /\ inv.(Invoke.req_id) = resp.(Response.req_id)
    /\ handled p inv resp.(Response.result)
}.

(** * One step *)

(** Where a frame for the broker can come from. *)
Inductive p_new p (l : PLabel) : BusFrame -> Prop :=
| pn_pong : p_new p l BusFrame.Pong
| pn_publish e : p_new p l (BusFrame.Publish e)
| pn_subscribe s : p_new p l (BusFrame.Subscribe s)
| pn_invoke id a rid : l = PStep id -> p_tasks p !! id = Some (PInvoke a (ISend rid)) ->
    p_new p l (outbound_frame a rid)
| pn_response id inv r : l = PStep id -> p_tasks p !! id = Some (PDispatch inv (DReply r)) ->
    p_new p l (BusFrame.Response (dispatch_response inv r)).

(** Where a task can come from. *)
Inductive p_from p (l : PLabel) (id : task_id) : PTask -> Prop :=
| pf_same t : p_tasks p !! id = Some t -> p_from p l id t
| pf_call a : p_from p l id (PInvoke a IStart)
| pf_draw a : l = PStep id -> p_tasks p !! id = Some (PInvoke a IStart) ->
    p_from p l id (PInvoke a (ISend (next_req p)))
| pf_sent a rid : l = PStep id -> p_tasks p !! id = Some (PInvoke a (ISend rid)) ->
    p_from p l id (PInvoke a (IAwait rid))
| pf_closed a : rx_alive (c_tx (p_client p)) = false ->
    p_from p l id (PInvoke a (IDone (Err BusError.ConnectionClosed)))
| pf_lost a rid : p_tasks p !! id = Some (PInvoke a (IAwait rid)) -> reply_lost p id rid = true ->
    p_from p l id (PInvoke a (IDone (Err BusError.ConnectionClosed)))
| pf_reply a rid resp : p_tasks p !! id = Some (PInvoke a (IAwait rid)) ->
    p_replies p !! id = Some resp -> p_from p l id (PInvoke a (IDone resp.(Response.result)))
| pf_dispatch now inv : l = PFrame now (BusFrame.Invoke inv) -> p_from p l id (PDispatch inv DStart)
| pf_lookup inv : p_tasks p !! id = Some (PDispatch inv DStart) ->
    p_from p l id (PDispatch inv (dispatch_lookup (p_client p) inv))
| pf_handled inv h u r : l = PHandled id r -> p_tasks p !! id = Some (PDispatch inv (DRun h u)) ->
    p_from p l id (PDispatch inv (DReply r))
| pf_waiter i : p_from p l id (PWaiter i)
| pf_returned : p_from p l id PReturned.

(** What a step does to the histories and to the fixed parts of the client. *)
Record p_logs p (l : PLabel) p' : Prop := {
  pl_inbox : p_inbox p' = p_inbox p ++ p_reads l;
  pl_wire : p_wire p `prefix_of` p_wire p';
  pl_frames f : f ∈ frames_out p' -> f ∈ frames_out p \/ p_new p l f;
  pl_tasks id t : p_tasks p' !! id = Some t -> p_from p l id t;
  pl_next : next_req p' = next_req p
    \/ (exists id a, l = PStep id /\ p_tasks p !! id = Some (PInvoke a IStart)
          /\ next_req p' = as_u64 (next_req p + 1));
  pl_service : same_service p p'
}.

Lemma queued_send_ (c : Client Q Nt) f g :
  g ∈ queued (c_tx (send_ c f)) -> g ∈ queued (c_tx c) \/ g = f.
Proof.
  unfold send_, send. destruct (mpsc_send (c_tx c) f) as [q|] eqn:Hs; simpl; [|auto].
  destruct (send_Some _ _ _ Hs) as (_ & -> & _). rewrite elem_of_app, list_elem_of_singleton. tauto.
Qed.

(** A step that writes nothing: the tasks and the queue decide. *)
Lemma logs_quiet p l p' :
  p_inbox p' = p_inbox p ++ p_reads l -> p_wire p' = p_wire p ->
  (forall f, f ∈ queued (c_tx (p_client p')) -> f ∈ queued (c_tx (p_client p)) \/ p_new p l f) ->
  (forall id t, p_tasks p' !! id = Some t -> p_from p l id t) ->
  next_req p' = next_req p -> same_service p p' -> p_logs p l p'.
Proof.
  intros Hi Hw Hq Ht Hn Hs. split; [done|by rewrite Hw| |done|by left|done].
  intros f. unfold frames_out. rewrite Hw, !elem_of_app. intros [?|[?|?]%Hq]; auto.
Qed.

Lemma from_put p l id t' id' t :
  <[id := t']> (p_tasks p) !! id' = Some t -> p_from p l id t' -> p_from p l id' t.
Proof. intros [[<- <-]|[_ ?]]%lookup_insert_Some Hf; [done | by apply pf_same]. Qed.

Lemma from_delete p l id id' t : delete id (p_tasks p) !! id' = Some t -> p_from p l id' t.
Proof. intros [_ ?]%lookup_delete_Some. by apply pf_same. Qed.

Local Ltac quiet := apply logs_quiet; simpl; try done; try (by rewrite app_nil_r); auto using pf_same.

Lemma logs_shutdown p l p' :
  p_client p' = shutdown (p_client p) -> p_inbox p' = p_inbox p ++ p_reads l ->
  p_wire p' = p_wire p -> p_tasks p' = p_tasks p -> p_logs p l p'.
Proof.
  intros Hc Hi Hw Ht. apply logs_quiet; unfold next_req, same_service; rewrite ?Hc, ?Ht; try done;
    auto using pf_same; unfold shutdown; case_match; auto.
Qed.

Lemma logs_send p l p' f :
  p_client p' = send_ (p_client p) f -> p_new p l f -> p_inbox p' = p_inbox p ++ p_reads l ->
  p_wire p' = p_wire p -> (forall id t, p_tasks p' !! id = Some t -> p_from p l id t) -> p_logs p l p'.
Proof.
  intros Hc Hn Hi Hw Ht. destruct (send_calls (p_client p) f) as (Hk & _ & Hh & Hs & _).
  apply logs_quiet; unfold next_req, same_service; rewrite ?Hc; try done.
  intros g [?| ->]%queued_send_; auto.
Qed.

Lemma logs_reader p l p' : pexec_reader p l = Some p' -> p_logs p l p'.
Proof.
  destruct l; try done; simpl.
  - destruct (p_reader p); try done. intros Hx.
    destruct f; simpl in Hx; try (injection Hx as <-; quiet; fail).
    + injection Hx as <-. eapply logs_send; try done; [apply pn_pong | auto using pf_same].
    + injection Hx as <-. by apply logs_shutdown.
    + injection Hx as <-. quiet. intros id t Hl. eapply from_put; [exact Hl|]. by eapply pf_dispatch.
    + destruct (c_pending (p_client p) !! _); injection Hx as <-; quiet.
  - destruct (p_reader p); try done. intros [= <-]. apply logs_shutdown; try done. by rewrite app_nil_r.
  - destruct (p_reader p); try done. intros [= <-]. quiet. simpl. rewrite drop_queued. by intros f ?%elem_of_nil.
  - destruct (mpsc_recv _) as [[f q]|] eqn:Hq; [|by destruct (p_reader p)].
    destruct (recv_Some _ _ _ Hq) as [Hqq _].
    intros Hx. assert (Hx' : p' = if written then log_wire f (set_client (set_tx q (p_client p)) p)
      else set_client (set_tx (mpsc_drop_rx q) (p_client p)) p) by (destruct (p_reader p); by injection Hx).
    subst p'. destruct written.
    + split; simpl; [by rewrite app_nil_r|by apply prefix_app_r| |auto using pf_same|by left|done].
      intros g. unfold frames_out. simpl. rewrite Hqq. set_solver.
    + quiet. simpl. rewrite drop_queued. by intros g ?%elem_of_nil.
Qed.

Lemma plogs_task p l p' : pexec_task p l = Some p' -> p_logs p l p'.
Proof.
  destruct l; try done; simpl.
  - intros (t & Ht & Hs)%bind_Some. destruct t as [a pc|inv pc|i|]; try done.
    + destruct pc as [|rid|rid|r]; try done; simpl in Hs.
      * injection Hs as <-. split; simpl; [by rewrite app_nil_r|done|auto| |right; eauto|done].
        intros id' t Hl. eapply from_put; [exact Hl|]. by apply pf_draw.
      * unfold invoke_send in Hs. destruct (send (p_client p) (outbound_frame a rid)) as [c|] eqn:Hc;
          simpl in Hs; injection Hs as <-.
        -- eapply (logs_send _ _ _ (outbound_frame a rid)); simpl; try done.
           ++ unfold send_. by rewrite Hc.
           ++ by eapply pn_invoke.
           ++ by rewrite app_nil_r.
           ++ intros id' t Hl. eapply from_put; [exact Hl|]. by eapply pf_sent.
        -- quiet. intros id' t Hl. eapply from_put; [exact Hl|]. apply pf_closed.
           destruct (rx_alive (c_tx (p_client p))) eqn:Ha; [|done]. unfold send in Hc.
           by destruct (send_alive _ (outbound_frame a rid) Ha) as (q & Hq & _); rewrite Hq in Hc.
    + destruct pc; try done; simpl in Hs; injection Hs as <-.
      * quiet. intros id' t Hl. eapply from_put; [exact Hl|]. by apply pf_lookup.
      * eapply logs_send; simpl; try done; [by eapply pn_response|by rewrite app_nil_r|].
        intros id' t. apply from_delete.
  - destruct (p_tasks p !! id) as [[a pc|inv [|h u|r']|i|]|] eqn:Ht; try done.
    intros [= <-]. quiet. intros id' t Hl. eapply from_put; [exact Hl|]. by eapply pf_handled.
  - destruct (p_tasks p !! id) as [[a [|rid|rid|r]|inv pc|i|]|] eqn:Ht; try done.
    destruct (p_replies p !! id) eqn:Hr; [|done]. intros [= <-]. quiet. intros id' t Hl.
    eapply from_put; [exact Hl|]. by eapply pf_reply.
  - destruct (p_tasks p !! id) as [[a [|rid|rid|r]|inv pc|i|]|] eqn:Ht; try done.
    destruct (reply_lost p id rid) eqn:Hlost; [|done]. intros [= <-]. quiet. intros id' t Hl.
    eapply from_put; [exact Hl|]. by eapply pf_lost.
  - destruct (p_tasks p !! id) as [[a pc|inv pc|i|]|] eqn:Ht; try done.
    destruct (woken _ _); [|done]. intros [= <-]. quiet. intros id' t Hl.
    eapply from_put; [exact Hl|]. apply pf_returned.
  - destruct (p_tasks p !! id) as [[a pc|inv pc|i|]|] eqn:Ht; try done.
    destruct (idle_expired _ _); [|done]. intros [= <-]. quiet. intros id' t Hl.
    eapply from_put; [exact Hl|]. apply pf_returned.
  - destruct (p_tasks p !! id) as [[a [|rid|rid|r]|inv pc|i|]|] eqn:Ht; try done; intros [= <-]; quiet;
      intros id' t; apply from_delete.
Qed.

Lemma logs_app p l p' : pexec_app p l = Some p' -> p_logs p l p'.
Proof.
  destruct l; try done; simpl; intros Hx.
  - injection Hx as <-. quiet. intros id t Hl. eapply from_put; [exact Hl|]. apply pf_call.
  - injection Hx as <-. eapply logs_send; simpl; [by apply send_or_closed_spec|apply pn_publish|
      by rewrite app_nil_r|done|auto using pf_same].
  - injection Hx as <-. eapply logs_send; simpl; [by apply send_or_closed_spec|apply pn_subscribe|
      by rewrite app_nil_r|done|auto using pf_same].
  - injection Hx as <-. apply logs_shutdown; try done. by rewrite app_nil_r.
  - destruct (notified _) as [nt i]. injection Hx as <-. quiet.
    intros id t Hl. eapply from_put; [exact Hl|]. apply pf_waiter.
Qed.

Lemma pexec_logs p l p' : pexec p l = Some p' -> p_logs p l p'.
Proof.
  unfold pexec. intros Hx. destruct (pexec_reader p l) eqn:Hx1; [simplify_eq; by apply logs_reader|].
  destruct (pexec_task p l) eqn:Hx2; [simplify_eq; by apply plogs_task|]. by apply logs_app.
Qed.

(** The sender of a waiting call is in the table. *)
Lemma reply_kept n p (Hok : client_ok n p) id a rid :
  p_tasks p !! id = Some (PInvoke a (IAwait rid)) -> reply_lost p id rid = false.
Proof.
  intros Ht. destruct (ck_wait n p Hok _ _ _ _ Ht eq_refl) as (_ & Hz & _). unfold reply_lost.
  case_bool_decide as Hn; simpl; [|done].
  rewrite bool_decide_eq_true_2; [done|]. by apply Hz.
Qed.

(** * Preservation *)

Section one_step.
Context n p l p' (Hok : client_ok n p) (Hb : (n + 2 < U64_SIZE)%N) (Hx : pexec p l = Some p').
Context (Hob : obeys p l) (Hcr : client_origins p).

Lemma next_grows : (next_req p <= next_req p')%N.
Proof.
  pose proof (ck_counter n p Hok). destruct (pl_next _ _ _ (pexec_logs p l p' Hx)) as [->|(_ & _ & _ & _ & ->)];
    [done|]. rewrite as_u64_small; lia.
Qed.

Lemma inbox_grows f : f ∈ p_inbox p -> f ∈ p_inbox p'.
Proof. rewrite (pl_inbox _ _ _ (pexec_logs p l p' Hx)), elem_of_app. by left. Qed.

Lemma handled_step inv r : handled p inv r -> handled p' inv r.
Proof. destruct (pl_service _ _ _ (pexec_logs p l p' Hx)) as [Hh Hs]. unfold handled. by rewrite Hh, Hs. Qed.

(** Nobody draws a number below the counter. *)
Lemma drawn_send id a rid :
  p_tasks p' !! id = Some (PInvoke a (ISend rid)) -> (rid < next_req p)%N ->
  p_tasks p !! id = Some (PInvoke a (ISend rid)).
Proof.
  intros Ht Hlt. pose proof (pl_tasks _ _ _ (pexec_logs p l p' Hx) id _ Ht) as Hf.
  inversion Hf; subst; [done | lia].
Qed.

(** The call that sends a frame no longer sends it afterwards. *)
Lemma sending_over id a rid :
  l = PStep id -> p_tasks p !! id = Some (PInvoke a (ISend rid)) ->
  p_tasks p' !! id <> Some (PInvoke a (ISend rid)).
Proof.
  intros Hl Ht Ht'. subst l. unfold pexec in Hx. simpl in Hx.
  rewrite Ht in Hx. simpl in Hx. destruct (invoke_send _ _ _) as [c pc] eqn:Hs. simplify_eq/=.
  rewrite lookup_insert_eq in Ht'. unfold invoke_send in Hs. destruct (send _ _); by simplify_eq.
Qed.

Lemma owned_step rid a : owned p rid a -> owned p' rid a.
Proof.
  intros [Hn Hs Ho]. pose proof next_grows. split; [lia| |].
  - intros id a' Ht. apply (Hs id a'), drawn_send; [done | lia].
  - intros inv [Hin|Hnew]%(pl_frames _ _ _ (pexec_logs p l p' Hx)) Hrid; [by apply Ho|].
    inversion Hnew as [| | |id a' rid' Hl Ht|]; simplify_eq/=. by destruct (Hs _ _ Ht).
Qed.

Lemma returned_step a r : returned_ok p a r -> returned_ok p' a r.
Proof.
  intros [[? Hd]|(resp & Ho & Hin & Hr)]; [left; split; [done|by eapply writer_ended]|right]. exists resp.
  split_and!; [by apply owned_step | by apply inbox_grows | done].
Qed.

Lemma out_bound inv : BusFrame.Invoke inv ∈ frames_out p' -> (1 <= inv.(Invoke.req_id) < next_req p')%N.
Proof.
  pose proof next_grows. intros [Hin|Hnew]%(pl_frames _ _ _ (pexec_logs p l p' Hx)).
  - apply cr_bound in Hin; [lia | done].
  - inversion Hnew as [| | |id a rid Hl Ht|]; simplify_eq/=.
    destruct (ck_wait n p Hok _ _ _ _ Ht eq_refl) as [? _].
    destruct (cr_send p Hcr _ _ _ Ht) as [? _]. simpl. lia.
Qed.

Lemma send_unsent id a rid :
  p_tasks p' !! id = Some (PInvoke a (ISend rid)) ->
  (1 <= rid)%N /\ forall inv, BusFrame.Invoke inv ∈ frames_out p' -> inv.(Invoke.req_id) <> rid.
Proof.
  intros Ht. pose proof (ck_counter n p Hok) as Hc. pose proof sending_over as Hover.
  assert (Hbelow : forall inv, BusFrame.Invoke inv ∈ frames_out p' -> (inv.(Invoke.req_id) < next_req p)%N).
  { intros inv [Hin|Hnew]%(pl_frames _ _ _ (pexec_logs p l p' Hx)); [by apply cr_bound|].
    inversion Hnew as [| | |i a' rid' Hl Ht'|]; simplify_eq/=. by eapply ck_wait. }
  destruct (decide (rid < next_req p)%N) as [Hlt|Hge].
  - pose proof (drawn_send _ _ _ Ht Hlt) as Hs. destruct (cr_send p Hcr _ _ _ Hs) as [? Hno].
    split; [done|]. intros inv [Hin|Hnew]%(pl_frames _ _ _ (pexec_logs p l p' Hx)); [by apply Hno|].
    inversion Hnew as [| | |i a' rid' Hl Ht'|]; simplify_eq/=. simpl. intros ->.
    assert (i = id) as -> by exact (ck_unique n p Hok _ _ _ _ _ _ _ Ht' Hs eq_refl eq_refl).
    by apply (Hover id a rid).
  - split; [lia|]. intros inv Hin%Hbelow. lia.
Qed.

Lemma sent_owned id a rid :
  l = PStep id -> p_tasks p !! id = Some (PInvoke a (ISend rid)) ->
  p_tasks p' !! id = Some (PInvoke a (IAwait rid)) -> owned p' rid a.
Proof.
  intros Hl Hs Ht. pose proof next_grows. destruct (ck_wait n p Hok _ _ _ _ Hs eq_refl) as [Hlt _].
  split; [destruct (cr_send p Hcr _ _ _ Hs); lia| |].
  - intros i a' Hi. pose proof (drawn_send _ _ _ Hi Hlt) as Hi0.
    assert (i = id) as -> by exact (ck_unique n p Hok _ _ _ _ _ _ _ Hi0 Hs eq_refl eq_refl). congruence.
  - intros inv [Hin|Hnew]%(pl_frames _ _ _ (pexec_logs p l p' Hx)) Hrid.
    + by destruct (proj2 (cr_send p Hcr _ _ _ Hs) inv Hin).
    + inversion Hnew as [| | |i a' rid' Hl' Ht' Hf|]; by simplify_eq/=.
Qed.

Local Ltac p_cases Hf :=
  inversion Hf as [t Hs|a'|a' Hl Hs|a' rid' Hl Hs|a' Hd|a' rid' Hs Hlost|a' rid' resp Hs Hrep|now inv' Hl|inv' Hs
    |inv' h' u' r' Hl Hs|i|]; subst.

Lemma client_origins_exec : client_origins p'.
Proof.
  pose proof (pexec_logs p l p' Hx) as Hlg. pose proof (pl_tasks _ _ _ Hlg) as Hft.
  destruct (pl_service _ _ _ Hlg) as [Hh Hsv].
  split.
  - exact out_bound.
  - exact send_unsent.
  - intros id a rid Ht. pose proof sent_owned as Hsent. pose proof owned_step as Hold.
    pose proof (Hft id _ Ht) as Hf. p_cases Hf.
    + apply Hold. by eapply cr_await.
    + by eapply Hsent.
  - intros id a r Ht. apply returned_step. pose proof (Hft id _ Ht) as Hf. p_cases Hf.
    + by eapply cr_done.
    + by left.
    + by rewrite (reply_kept n p Hok _ _ _ Hs) in Hlost.
    + destruct (ck_wait n p Hok id _ _ _ Hs eq_refl) as (_ & _ & Hz). destruct (Hz _ Hrep) as [Hid Hin].
      right. exists resp. rewrite Hid. split_and!; [by eapply cr_await | done | done].
  - intros id inv h u Ht. rewrite Hh. pose proof (Hft id _ Ht) as Hf. p_cases Hf.
    + by eapply cr_run.
    + unfold dispatch_lookup in *. case_match; by simplify_eq.
  - intros id inv r Ht. apply handled_step. pose proof (Hft id _ Ht) as Hf. p_cases Hf.
    + by eapply cr_reply.
    + unfold handled, dispatch_lookup in *. case_match; by simplify_eq.
    + unfold handled. rewrite (cr_run p Hcr _ _ _ _ Hs). by eapply Hob.
  - intros id inv pc Ht. pose proof inbox_grows as Hg. pose proof (Hft id _ Ht) as Hf. p_cases Hf.
    + apply Hg. by eapply cr_task.
    + rewrite (pl_inbox _ _ _ Hlg). simpl. set_solver.
    + apply Hg. by eapply cr_task.
    + apply Hg. by eapply cr_task.
  - pose proof inbox_grows as Hg. pose proof handled_step as Hhs.
    intros resp [Hin|Hnew]%(pl_frames _ _ _ Hlg).
    + destruct (cr_resp p Hcr _ Hin) as (inv & ? & ? & ?). exists inv.
      split_and!; [by apply Hg | done | by apply Hhs].
    + inversion Hnew as [| | | |id inv r Hl Ht]; subst. exists inv. split_and!; [|done|].
      * apply Hg. by eapply cr_task.
      * apply Hhs. by eapply cr_reply.
Qed.
End one_step.

Lemma client_origins_init c : fresh c -> queued (c_tx c) = [] -> client_origins (new_proc c).
Proof.
  intros (_ & _ & _) Hq. split; simpl; intros *; rewrite ?lookup_empty; try done;
    unfold frames_out; simpl; rewrite Hq; by intros ?%elem_of_nil.
Qed.

End client_origins.
