(* ===== verification/ClientGuarantees.v ===== *)
(** What the client guarantees: building, connecting and its agreement with
    the broker, the answers of handlers, the replies of calls, the loss of the
    connection, and shutting down. *)

From stdpp Require Import prelude gmap strings.
From S2P Require Import Prelude Frame Runtime Registry Broker Session Transport ClientConfig Client ClientSafety.

(** * A concrete run *)

(** The client of [notes], with one handler and no idle threshold. *)
Definition notes_client : Client (Fifo BusFrame) Tickets := new_client "notes" {["list" := 7%N]} None 0.
Definition call_fs : InvokeArgs := mkInvokeArgs "fs" "read" [] CallerCtx.default.
Definition fs_answer : Response := {| Response.req_id := 1; Response.result := Ok (bytes_lit "data") |}.
Definition list_request : Invoke := {|
  Invoke.req_id := 40; Invoke.method := "list"; Invoke.payload := []; Invoke.caller := CallerCtx.default |}.
Definition drop_request : Invoke := {|
  Invoke.req_id := 41; Invoke.method := "drop"; Invoke.payload := []; Invoke.caller := CallerCtx.default |}.

(** A call is answered while two invocations arrive, one of an unknown
    method. *)
Definition client_script : list PLabel :=
  [PCall call_fs; PStep 0; PStep 0; PWriter true; PFrame 5 (BusFrame.Invoke list_request);
   PFrame 6 (BusFrame.Invoke drop_request); PStep 1; PStep 2; PStep 2; PWriter true;
   PFrame 7 (BusFrame.Response fs_answer)].
(** The connection ends while the call waits. *)
Definition stranded_script : list PLabel :=
  [PCall call_fs; PStep 0; PStep 0; PWriter true; PEnd; PAbort].
(** The app waits for the end, or comes too late. *)
Definition waiting_script : list PLabel := [PRunUntilShutdown].
Definition late_script : list PLabel := [PEnd; PAbort].

Definition client_run (ls : list PLabel) : Proc (Fifo BusFrame) Tickets :=
  default (new_proc notes_client) (prun (new_proc notes_client) ls).

Section steps.
Context {Q Nt : Type} `{LawfulMpsc Q BusFrame, LawfulNotify Nt}.
Implicit Types p : Proc Q Nt.

(** The labels that move the task numbered [id]. *)
Definition p_moves (l : PLabel) (id : task_id) : Prop :=
  l = PStep id \/ (exists r, l = PHandled id r) \/ l = PReply id \/ l = PRxClosed id
  \/ l = PWoken id \/ l = PDrop id \/ exists now, l = PIdle id now.

Definition notify_of p : Nt := c_shutdown (p_client p).
Definition fired p : bool := c_shutdown_fired (p_client p).

(** What a step can do to tasks, replies and the notification. *)
Record effects p (l : PLabel) p' : Prop := {
  ef_stays id t : (id < p_next_id p)%N -> p_tasks p !! id = Some t ->
    p_tasks p' !! id = Some t \/ p_moves l id;
  ef_waiter id i : p_tasks p' !! id = Some (PWaiter i) ->
    p_tasks p !! id = Some (PWaiter i)
    \/ (id = p_next_id p /\ notified (notify_of p) = (notify_of p', i));
  ef_notify : (notify_of p' = notify_of p /\ fired p' = fired p)
    \/ (notify_of p' = notify_waiters (notify_of p) /\ fired p = false /\ fired p' = true)
    \/ (exists i, notified (notify_of p) = (notify_of p', i) /\ fired p' = fired p);
  ef_idle : c_idle_exit (p_client p') = c_idle_exit (p_client p);
  ef_replies : (exists now f, l = PFrame now f) \/ p_replies p' = p_replies p;
  ef_reader : p_reader p = RDone -> p_reader p' = RDone /\ forall now f, l <> PFrame now f;
  ef_next : (p_next_id p <= p_next_id p')%N
}.

(** A call whose connection has ended before its answer was read. *)
Definition stranded p (id : task_id) (a : InvokeArgs) rid : Prop :=
  p_reader p = RDone /\ p_tasks p !! id = Some (PInvoke a (IAwait rid)) /\ p_replies p !! id = None.

Definition waiters_created p : Prop :=
  forall id i, p_tasks p !! id = Some (PWaiter i) -> created (notify_of p) i = true.

(** A caller of [run_until_shutdown] that came too late. *)
Definition late p (id : task_id) (i : N) : Prop :=
  fired p = true /\ c_idle_exit (p_client p) = None /\ (id < p_next_id p)%N
  /\ p_tasks p !! id = Some (PWaiter i) /\ created (notify_of p) i = true
  /\ woken (notify_of p) i = false.

Definition transient (e : BusError) : bool :=
  match e with BusError.Io msg => is_transient_connect_msg msg | _ => false end.

Definition notes_builder : BusClientBuilder :=
  BusClientBuilder.set_service "notes" "1.0" (BusClientBuilder.new (config_unix "/run/bus.sock" "t0")).
Definition notes_broker : Broker :=
  Broker.set_tokens {["notes" := "t0"]} (Broker.new BrokerConfig.default).

(** A step that touches neither the tasks nor the notification. *)
Lemma effects_same p l p' :
  p_tasks p' = p_tasks p -> notify_of p' = notify_of p -> fired p' = fired p ->
  c_idle_exit (p_client p') = c_idle_exit (p_client p) ->
  (exists now f, l = PFrame now f) \/ p_replies p' = p_replies p ->
  (p_reader p = RDone -> p_reader p' = RDone /\ forall now f, l <> PFrame now f) ->
  p_next_id p' = p_next_id p -> effects p l p'.
Proof.
  intros Ht Hn Hf Hi Hr Hrd Hid. split; [|rewrite Ht; auto|auto|done|done|done|by rewrite Hid].
  intros id t _ Htk. rewrite Ht. auto.
Qed.

(** A step that moves one task. *)
Lemma effects_put p l p' id t :
  p_moves l id -> (p_tasks p' = <[id := t]> (p_tasks p) \/ p_tasks p' = delete id (p_tasks p)) ->
  (forall i, t <> PWaiter i) -> notify_of p' = notify_of p -> fired p' = fired p ->
  c_idle_exit (p_client p') = c_idle_exit (p_client p) -> p_replies p' = p_replies p ->
  p_reader p' = p_reader p -> (forall now f, l <> PFrame now f) -> p_next_id p' = p_next_id p ->
  effects p l p'.
Proof.
  intros Hl Ht Hw Hn Hf Hi Hr Hrd Hnf Hid.
  split; [| |auto|done|auto|by rewrite Hrd|by rewrite Hid].
  - intros id' t' _ Htk. destruct (decide (id' = id)) as [->|Hne]; [auto|left].
    destruct Ht as [->| ->]; by rewrite ?lookup_insert_ne, ?lookup_delete_ne.
  - intros id' i Htk. left. destruct Ht as [Ht|Ht]; rewrite Ht in Htk.
    + apply lookup_insert_Some in Htk as [[_ ?]|[_ ?]]; [by edestruct Hw | done].
    + by apply lookup_delete_Some in Htk as [_ ?].
Qed.

(** A step that creates a task. *)
Lemma effects_new p l p' t :
  p_tasks p' = <[p_next_id p := t]> (p_tasks p) ->
  (forall i, t = PWaiter i -> notified (notify_of p) = (notify_of p', i)) ->
  ((notify_of p' = notify_of p /\ fired p' = fired p)
   \/ exists i, notified (notify_of p) = (notify_of p', i) /\ fired p' = fired p) ->
  c_idle_exit (p_client p') = c_idle_exit (p_client p) -> p_replies p' = p_replies p ->
  (p_reader p = RDone -> p_reader p' = RDone /\ forall now f, l <> PFrame now f) ->
  p_next_id p' = (p_next_id p + 1)%N -> effects p l p'.
Proof.
  intros Ht Hw Hn Hi Hr Hrd Hid. split; [| |tauto|done|auto|done|lia].
  - intros id t' Hlt Htk. left. rewrite Ht, lookup_insert_ne by lia. done.
  - intros id i. rewrite Ht. intros [[<- Heq]|[_ ?]]%lookup_insert_Some; auto.
Qed.

Lemma send_notify (c : Client Q Nt) f :
  c_shutdown (send_ c f) = c_shutdown c /\ c_shutdown_fired (send_ c f) = c_shutdown_fired c
  /\ c_idle_exit (send_ c f) = c_idle_exit c.
Proof. destruct (send_calls c f) as (_ & _ & _ & _ & ? & ? & ?). done. Qed.

Lemma effects_shutdown p l p' :
  p_client p' = shutdown (p_client p) -> p_tasks p' = p_tasks p ->
  (exists now f, l = PFrame now f) \/ p_replies p' = p_replies p ->
  (p_reader p = RDone -> p_reader p' = RDone /\ forall now f, l <> PFrame now f) ->
  p_next_id p' = p_next_id p -> effects p l p'.
Proof.
  intros Hc Ht Hr Hrd Hid. destruct (shutdown_calls (p_client p)) as (_ & _ & _ & _ & Hi).
  split; [intros; rewrite Ht; auto|rewrite Ht; auto| |by rewrite Hc|done|done|by rewrite Hid].
  unfold notify_of, fired. rewrite Hc. unfold shutdown.
  destruct (c_shutdown_fired (p_client p)) eqn:Hf; simpl; rewrite ?Hf; auto.
Qed.

Lemma effects_reader p l p' : pexec_reader p l = Some p' -> effects p l p'.
Proof.
  destruct l; try done; simpl.
  - destruct (p_reader p) eqn:Hrd; try done. intros Hx.
    assert (Hrd' : p_reader p = RDone -> False) by congruence.
    destruct f; simpl in Hx; try (injection Hx as <-; apply effects_same; try done; eauto; fail).
    + injection Hx as <-. destruct (send_notify (p_client p) BusFrame.Pong) as (? & ? & ?).
      apply effects_same; try done. eauto.
    + injection Hx as <-. apply effects_shutdown; try done. eauto.
    + injection Hx as <-. eapply effects_new; try done. auto.
    + destruct (c_pending (p_client p) !! _); injection Hx as <-; apply effects_same; try done; eauto.
  - destruct (p_reader p) eqn:Hrd; try done. intros [= <-]. apply effects_shutdown; try done; auto.
    congruence.
  - destruct (p_reader p) eqn:Hrd; try done. intros [= <-]. apply effects_same; try done; auto.
  - destruct (mpsc_recv _) as [[f q]|]; [|by destruct (p_reader p)].
    intros Hx. assert (Hx' : p' = if written then log_wire f (set_client (set_tx q (p_client p)) p)
      else set_client (set_tx (mpsc_drop_rx q) (p_client p)) p) by (destruct (p_reader p); by injection Hx).
    subst p'. destruct written; apply effects_same; try done; auto.
Qed.

Local Ltac put := eapply effects_put; [unfold p_moves; eauto 10 | left; reflexivity | try done ..].

Lemma effects_task p l p' : pexec_task p l = Some p' -> effects p l p'.
Proof.
  assert (Hm : forall id, p_moves (PStep id) id) by (intros; left; done).
  destruct l; try done; simpl.
  - intros (t & Ht & Hs)%bind_Some. destruct t as [a pc|inv pc|i|]; try done.
    + destruct pc as [|rid|rid|r]; try done; simpl in Hs.
      * injection Hs as <-. put.
      * unfold invoke_send, send in Hs.
        destruct (mpsc_send _ _) as [q|]; simpl in Hs; injection Hs as <-; (put).
    + destruct pc as [|h u|r]; try done; simpl in Hs; injection Hs as <-.
      * put.
      * destruct (send_notify (p_client p) (BusFrame.Response (dispatch_response inv r))) as (? & ? & ?).
        eapply (effects_put _ _ _ id PReturned); [apply Hm | by right | try done ..].
  - destruct (p_tasks p !! id) as [[a pc|inv [|h u|r']|i|]|] eqn:Ht; try done.
    intros [= <-]. put.
  - destruct (p_tasks p !! id) as [[a [|rid|rid|r]|inv pc|i|]|] eqn:Ht; try done.
    destruct (p_replies p !! id); [|done]. intros [= <-].
    put.
  - destruct (p_tasks p !! id) as [[a [|rid|rid|r]|inv pc|i|]|] eqn:Ht; try done.
    destruct (reply_lost p id rid); [|done]. intros [= <-].
    put.
  - destruct (p_tasks p !! id) as [[a pc|inv pc|i|]|] eqn:Ht; try done.
    destruct (woken _ _); [|done]. intros [= <-].
    put.
  - destruct (p_tasks p !! id) as [[a pc|inv pc|i|]|] eqn:Ht; try done.
    destruct (idle_expired _ _); [|done]. intros [= <-].
    put.
  - destruct (p_tasks p !! id) as [[a [|rid|rid|r]|inv pc|i|]|] eqn:Ht; try done; intros [= <-];
      (eapply (effects_put _ _ _ id PReturned); [unfold p_moves; eauto 10 | by right | try done ..]).
Qed.

Lemma effects_app p l p' : pexec_app p l = Some p' -> effects p l p'.
Proof.
  destruct l; try done; simpl; intros Hx.
  - injection Hx as <-. eapply effects_new; try done. auto.
  - injection Hx as <-. unfold publish, send_or_closed, send.
    destruct (mpsc_send _ _); apply effects_same; try done; auto.
  - injection Hx as <-. unfold client_subscribe, send_or_closed, send.
    destruct (mpsc_send _ _); apply effects_same; try done; auto.
  - injection Hx as <-. apply effects_shutdown; try done; auto.
  - destruct (notified _) as [nt i] eqn:Hn. injection Hx as <-.
    eapply effects_new; try done; [by intros j [= <-] | right; eauto].
Qed.

Lemma exec_effects p l p' : pexec p l = Some p' -> effects p l p'.
Proof.
  unfold pexec. intros Hx. destruct (pexec_reader p l) eqn:Hx1; [simplify_eq; by apply effects_reader|].
  destruct (pexec_task p l) eqn:Hx2; [simplify_eq; by apply effects_task|]. by apply effects_app.
Qed.

(** ** Replies *)

(** Replies of the client are correlated. When a call of [invoke] is
    answered, the response bears the call's own request id and was read from
    the broker, no other call waits for that id, and the call returns exactly
    the result it carries. *)
Lemma invoke_correlation c0 n p (id : task_id) (a : InvokeArgs) rid (resp : Response) :
  fresh c0 -> preachable c0 n p -> (n + 1 < U64_SIZE)%N ->
  p_tasks p !! id = Some (PInvoke a (IAwait rid)) -> p_replies p !! id = Some resp ->
  resp.(Response.req_id) = rid
  /\ BusFrame.Response resp ∈ p_inbox p
  /\ (forall id' a' pc', p_tasks p !! id' = Some (PInvoke a' pc') -> inv_wait pc' = Some rid -> id' = id)
  /\ exists p', pexec p (PReply id) = Some p'
       /\ p_tasks p' !! id = Some (PInvoke a (IDone resp.(Response.result))).
Proof.
  intros Hf Hr Hb Ht Hrep. pose proof (reachable_client_ok c0 n p Hf Hr Hb) as Hok.
  destruct (ck_wait n p Hok _ _ _ _ Ht eq_refl) as (_ & _ & Hz). destruct (Hz _ Hrep) as [Hid Hin].
  split_and!; [done|done| |].
  - intros id' a' pc' Ht' Hw. by eapply (ck_unique n p Hok _ _ _ _ _ _ _ Ht' Ht).
  - eexists. split; [unfold pexec; simpl; by rewrite Ht, Hrep|]. simpl. by rewrite lookup_insert_eq.
Qed.

(** C18: every invocation is answered once. The request ids of the [Invoke]
    frames a client has read are, with multiplicity, those of its dispatches
    under way and of the responses it has given; and every response given
    answers an invocation that was read, with [MethodNotFound] and the
    client's own service name when no handler is registered. *)
Theorem invocations_answered_once c0 n p :
  fresh c0 -> preachable c0 n p -> (n + 1 < U64_SIZE)%N ->
  asked p ≡ₚ running p ++ given p
  /\ forall resp, resp ∈ p_answered p -> exists inv, BusFrame.Invoke inv ∈ p_inbox p
       /\ resp.(Response.req_id) = inv.(Invoke.req_id)
       /\ (c_handlers (p_client p) !! inv.(Invoke.method) = None ->
           resp.(Response.result)
           = Err (BusError.MethodNotFound (c_service (p_client p)) inv.(Invoke.method))).
Proof.
  intros Hf Hr Hb. destruct (reachable_answers_ok c0 n p Hf Hr Hb) as [Hi _ Hg]. split; [done|].
  intros resp Hresp. destruct (Hg resp Hresp) as (inv & ? & ? & ?). eauto.
Qed.

Lemma stranded_exec n p l p' id a rid :
  client_ok n p -> pexec p l = Some p' -> l <> PDrop id -> stranded p id a rid -> stranded p' id a rid.
Proof.
  intros Hok Hx Hnd (Hrd & Ht & Hrep). pose proof (exec_effects p l p' Hx) as He.
  destruct (ef_reader p l p' He Hrd) as [Hrd' Hnf].
  assert (Hal : reply_lost p id rid = false).
  { destruct (ck_wait n p Hok _ _ _ _ Ht eq_refl) as (_ & Hz & _). unfold reply_lost.
    rewrite (bool_decide_eq_true_2 (c_pending _ !! _ = _)) by (by apply Hz). by rewrite andb_false_r. }
  split_and!; [done| |].
  - destruct (ef_stays p l p' He id _ (ck_ids n p Hok _ _ Ht) Ht) as [|Hm]; [done|exfalso].
    destruct Hm as [->|[[r ->]|[->|[->|[->|[Hm|[now ->]]]]]]]; try done; unfold pexec in Hx; simpl in Hx;
      rewrite Ht in Hx; simpl in Hx; rewrite ?Hrep, ?Hal in Hx; done.
  - destruct (ef_replies p l p' He) as [(now & f & ->)| ->]; [by edestruct Hnf | done].
Qed.

(** C36: a call hangs when its connection ends. Once the reader of a client has
    stopped, a call of [invoke] still waiting for its answer is never moved by
    any run unless its caller drops it: its sender stays in the client's own table, so the call sees
    neither a response nor [ConnectionClosed]. *)
Theorem stranded_invoke_hangs c0 n p p' (id : task_id) (a : InvokeArgs) rid ls :
  fresh c0 -> preachable c0 n p -> (n + N.of_nat (length ls) + 1 < U64_SIZE)%N ->
  stranded p id a rid -> PDrop id ∉ ls -> prun p ls = Some p' ->
  p_tasks p' !! id = Some (PInvoke a (IAwait rid)).
Proof.
  intros Hf. revert n p. induction ls as [|l ls IH]; intros n p Hr Hb Hs Hnd Hrun; simpl in Hrun.
  - simplify_eq. apply Hs.
  - apply bind_Some in Hrun as (p1 & Hx & Hrun). simpl length in Hb.
    apply not_elem_of_cons in Hnd as [Hl Hnd].
    apply (IH (n + 1)%N p1); [by eapply preachable_step | lia | | done..].
    eapply stranded_exec; [|done|done|done]. eapply (reachable_client_ok c0); [done..|lia].
Qed.

(** ** Shutting down *)

Lemma reachable_waiters c0 n p : preachable c0 n p -> waiters_created p.
Proof.
  induction 1 as [|n p l p' Hr IH Hx]; [by intros id i|]. intros id i Hw.
  pose proof (exec_effects p l p' Hx) as He.
  destruct (ef_waiter p l p' He id i Hw) as [Ho|[_ Hn]].
  - pose proof (IH _ _ Ho) as Hc. destruct (ef_notify p l p' He) as [[-> _]|[[-> _]|(j & Hj & _)]].
    + done.
    + by rewrite notify_created.
    + destruct (notified_spec _ _ _ Hj) as (_ & _ & Hj'). by apply Hj'.
  - by destruct (notified_spec _ _ _ Hn) as (? & _).
Qed.

(** Shutting down releases those who wait. The first [shutdown] of a
    reachable client, be it called by the app, asked for by the broker or
    caused by the end of the stream, makes every caller of
    [run_until_shutdown] that is waiting at that moment return. *)
Lemma shutdown_releases_waiters c0 n p p' (id : task_id) (i : N) l :
  preachable c0 n p -> fired p = false ->
  l = PShutdown \/ l = PEnd \/ (exists now, l = PFrame now BusFrame.Shutdown) ->
  p_tasks p !! id = Some (PWaiter i) -> pexec p l = Some p' ->
  exists p'', pexec p' (PWoken id) = Some p'' /\ p_tasks p'' !! id = Some PReturned.
Proof.
  intros Hr Hf Hl Ht Hx. pose proof (reachable_waiters c0 n p Hr id i Ht) as Hc.
  assert (Hs : p_client p' = shutdown (p_client p) /\ p_tasks p' = p_tasks p).
  { unfold pexec in Hx. destruct Hl as [->|[->|[now ->]]]; simpl in Hx.
    - by injection Hx as <-.
    - destruct (p_reader p); try done. by injection Hx as <-.
    - destruct (p_reader p); try done. by injection Hx as <-. }
  destruct Hs as [Hs1 Hs2].
  assert (Hw : woken (c_shutdown (p_client p')) i = true).
  { rewrite Hs1. unfold shutdown. unfold fired in Hf. rewrite Hf. by apply notify_woken. }
  eexists. split; [unfold pexec; simpl; rewrite Hs2, Ht, Hw; done|]. simpl. apply lookup_insert_eq.
Qed.

Lemma late_exec p l p' id i : pexec p l = Some p' -> l <> PDrop id -> late p id i -> late p' id i.
Proof.
  intros Hx Hnd (Hf & Hi & Hid & Ht & Hc & Hw). pose proof (exec_effects p l p' Hx) as He.
  pose proof (ef_next p l p' He).
  assert (Hn : fired p' = true /\ created (notify_of p') i = true /\ woken (notify_of p') i = false).
  { destruct (ef_notify p l p' He) as [[-> ->]|[(_ & ? & _)|(j & Hj & ->)]]; [done|congruence|].
    destruct (notified_spec _ _ _ Hj) as (_ & _ & Hj'). destruct (Hj' i Hc) as (_ & ? & ->). done. }
  destruct Hn as (? & ? & ?). split_and!; [done|by rewrite (ef_idle p l p' He)|lia| |done|done].
  destruct (ef_stays p l p' He id _ Hid Ht) as [|Hm]; [done|exfalso].
  unfold notify_of in Hw. unfold pexec in Hx.
  destruct Hm as [->|[[r ->]|[->|[->|[->|[Hm|[now ->]]]]]]]; try done; simpl in Hx; rewrite Ht in Hx; simpl in Hx;
    rewrite ?Hw in Hx; try done. unfold idle_expired in Hx. by rewrite Hi in Hx.
Qed.

(** C39: a shutdown before the wait is lost. If the shutdown has already fired
    when [run_until_shutdown] is called (for instance because the broker went
    away first) and no idle threshold is set, the caller never returns as long
    as it is not dropped, whatever the app, the broker or the stream do afterwards. *)
Theorem late_waiter_hangs p p1 p' ls :
  fired p = true -> c_idle_exit (p_client p) = None ->
  pexec p PRunUntilShutdown = Some p1 -> PDrop (p_next_id p) ∉ ls -> prun p1 ls = Some p' ->
  exists i, p_tasks p' !! p_next_id p = Some (PWaiter i).
Proof.
  intros Hf Hi Hx Hnd Hrun.
  assert (Hl : exists i, late p1 (p_next_id p) i).
  { unfold pexec in Hx. simpl in Hx. destruct (notified _) as [nt i] eqn:Hn. injection Hx as <-.
    destruct (notified_spec _ _ _ Hn) as (? & ? & _). exists i. unfold late, fired, notify_of. simpl.
    split_and!; try done; [lia|]. apply lookup_insert_eq. }
  destruct Hl as [i Hl]. exists i. clear Hx. revert p1 Hl Hnd Hrun.
  induction ls as [|l ls IH]; intros p1 Hl Hnd Hrun; simpl in Hrun; [simplify_eq; apply Hl|].
  apply not_elem_of_cons in Hnd as [Hnl Hnd]. apply bind_Some in Hrun as (p2 & Hx & Hrun).
  eapply IH; [|done|done]. by eapply late_exec.
Qed.

End steps.

(** * Building and connecting *)

Section connecting.
Context {St L T P : Type} `{Clock St L T P}.

Lemma connect_unix_now path deadline : forall fuel st,
  (now st <= now (connect_unix fuel st path deadline).2)%N.
Proof.
  induction fuel as [|fuel IH]; intros st; simpl; [lia|]. pose proof (connect_now st path) as Hc.
  destruct (unix_connect st path) as [[s|e] st1]; simpl in *; [done|].
  destruct (_ && _); simpl; [|done]. pose proof (sleep_now st1 retry_delay).
  pose proof (IH (sleep st1 retry_delay)). lia.
Qed.

Lemma connect_pipe_now name deadline : forall fuel st,
  (now st <= now (connect_pipe fuel st name deadline).2)%N.
Proof.
  induction fuel as [|fuel IH]; intros st; simpl; [lia|]. pose proof (open_now st name) as Hc.
  destruct (pipe_open st name) as [[s|[e os]] st1]; simpl in *; [done|].
  destruct (_ && _); simpl; [|done]. pose proof (sleep_now st1 retry_delay).
  pose proof (IH (sleep st1 retry_delay)). lia.
Qed.

Lemma connect_endpoint_now pf st e : (now st <= now (connect_endpoint 101 pf st e).2)%N.
Proof.
  unfold connect_endpoint.
  assert (Hc : forall s, (now st <= now (connect 101 pf st s).2)%N).
  { intros [path|name]; destruct pf; unfold connect;
      [apply connect_unix_now | done | done | apply connect_pipe_now]. }
  specialize (Hc (endpoint_to_socket e)). by destruct (connect 101 pf st (endpoint_to_socket e)).
Qed.

Lemma connect_endpoint_some pf st e : exists r st', connect_endpoint 101 pf st e = (Some r, st').
Proof.
  unfold connect_endpoint. destruct (endpoint_to_socket e) as [path|name], pf; unfold connect;
    try (by do 2 eexists).
  - destruct (connect_unix_some path (now st + connect_window) 100 st) as (r & st' & -> & _);
      [unfold connect_window, retry_delay, duration_from_secs, duration_from_millis; lia | by do 2 eexists].
  - destruct (connect_pipe_some (full_pipe_name name) (now st + connect_window) 100 st) as (r & st' & ->);
      [unfold connect_window, retry_delay, duration_from_secs, duration_from_millis; lia | by do 2 eexists].
Qed.

Lemma connect_retry_some pf e deadline : forall k st backoff,
  (50 <= backoff)%N -> (deadline <= now st + N.of_nat k * duration_from_millis 50)%N ->
  exists r st', connect_retry (S k) pf st e deadline backoff = (Some r, st')
    /\ (forall err, r = Err err -> transient err = false \/ (deadline <= now st')%N).
Proof.
  induction k as [|k IH]; intros st backoff Hbo Hk; cbn [connect_retry];
    pose proof (connect_endpoint_now pf st e) as Hn;
    destruct (connect_endpoint_some pf st e) as (r & st1 & Hc); rewrite Hc in *; simpl in Hn;
    (destruct r as [s|err]; [eexists _, _; split; [reflexivity | by intros ? ?]|]);
    change (match err with BusError.Io msg => is_transient_connect_msg msg | _ => false end)
      with (transient err);
    (destruct (transient err) eqn:He; simpl; [|eexists _, _; split; [done|]; intros ? [= <-]; auto]);
    (destruct (N.ltb_spec (now st1) deadline); [|eexists _, _; split; [done|]; auto]).
  - lia.
  - apply IH.
    + unfold next_backoff. lia.
    + pose proof (sleep_now st1 (duration_from_millis backoff)). unfold duration_from_millis in *. lia.
Qed.

(** C37: connecting to the broker ends. With a retry window of [w] milliseconds
    the loop of [establish] returns within [w / 50 + 2] attempts, whatever the
    operating system answers; it gives up at once on an error that is not a
    missing or refusing endpoint and on others only after the window; its
    delays start at 50 ms, double and never exceed one second; without a window
    there is a single attempt. *)
Theorem establish_connect_bounded pf st (cfg : ClientConfig) :
  (forall w, cfg.(ClientConfig.reconnect_max_backoff) = Some w ->
     exists r st', establish_connect (N.to_nat (w / duration_from_millis 50) + 2) pf st cfg = (Some r, st')
       /\ forall err, r = Err err -> transient err = false \/ (now st + w <= now st')%N)
  /\ (cfg.(ClientConfig.reconnect_max_backoff) = None ->
      forall fuel, establish_connect fuel pf st cfg
        = connect_endpoint 101 pf st cfg.(ClientConfig.endpoint))
  /\ (forall k, (Nat.iter k next_backoff 50 <= 1000)%N
       /\ Nat.iter (S k) next_backoff 50%N = ((50 * 2 ^ N.of_nat (S k)) `min` 1000)%N).
Proof.
  unfold establish_connect. split_and!.
  - intros w ->. rewrite Nat.add_comm. change (2 + ?k) with (S (S k)).
    destruct (connect_retry_some pf cfg.(ClientConfig.endpoint) (now st + w)%N
      (S (N.to_nat (w / duration_from_millis 50))) st 50) as (r & st' & -> & Hr); [lia| |eauto].
    pose proof (N.mul_succ_div_gt w (duration_from_millis 50) ltac:(done)).
    rewrite Nat2N.inj_succ, N2Nat.id. lia.
  - by intros -> fuel.
  - intros k. assert (Hb : forall k, Nat.iter (S k) next_backoff 50%N = ((50 * 2 ^ N.of_nat (S k)) `min` 1000)%N).
    { clear. induction k as [|k IH]; [done|]. change (Nat.iter (S (S k)) next_backoff 50%N)
        with (next_backoff (Nat.iter (S k) next_backoff 50%N)).
      rewrite IH. unfold next_backoff. rewrite (Nat2N.inj_succ (S k)), N.pow_succ_r'. lia. }
    split; [|done]. destruct k; [done|]. rewrite Hb. lia.
Qed.

End connecting.

(** What [build] refuses. Without [service()] building fails with
    [BadRequest]; a handler whose method was not declared makes it fail, naming
    such a handler; otherwise the [Hello] carries the current protocol version
    and exactly the declared service, version, methods, events, data plane and
    the configured token. *)
Lemma build_checks pid (b : BusClientBuilder) :
  (b.(BusClientBuilder.service) = None -> hello_of pid b = Err no_service)
  /\ (forall name version, b.(BusClientBuilder.service) = Some (name, version) ->
      ((exists h n, b.(BusClientBuilder.handlers) !! n = Some h
          /\ declared b.(BusClientBuilder.methods) n = false) ->
        exists n, hello_of pid b = Err (undeclared n)
          /\ is_Some (b.(BusClientBuilder.handlers) !! n) /\ declared b.(BusClientBuilder.methods) n = false)
      /\ ((forall n, is_Some (b.(BusClientBuilder.handlers) !! n) ->
            declared b.(BusClientBuilder.methods) n = true) ->
        exists hello, hello_of pid b = Ok hello
          /\ hello.(HelloRequest.protocol) = ProtocolVersion.CURRENT
          /\ hello.(HelloRequest.service) = name /\ hello.(HelloRequest.version) = version
          /\ hello.(HelloRequest.auth_token) = (b.(BusClientBuilder.cfg)).(ClientConfig.auth_token)
          /\ hello.(HelloRequest.methods) = b.(BusClientBuilder.methods)
          /\ hello.(HelloRequest.events) = b.(BusClientBuilder.events)
          /\ hello.(HelloRequest.data_plane) = b.(BusClientBuilder.data_plane)
          /\ hello.(HelloRequest.pid) = pid)).
Proof.
  unfold hello_of. split; [by intros ->|]. intros name version ->. simpl.
  assert (Hk : forall n, n ∈ (map_to_list b.(BusClientBuilder.handlers)).*1
      <-> is_Some (b.(BusClientBuilder.handlers) !! n)).
  { intros n. rewrite list_elem_of_fmap. split.
    - intros ([n' h] & -> & Hin%elem_of_map_to_list). by exists h.
    - intros [h Hh]. exists (n, h). split; [done|]. by apply elem_of_map_to_list. }
  destruct (find _ _) as [n|] eqn:Hf.
  - apply find_some in Hf as [Hin Hn]. apply list_elem_of_In, Hk in Hin.
    apply negb_true_iff in Hn. split; [by exists n|]. intros Hall. by rewrite Hall in Hn.
  - pose proof (find_none _ _ Hf) as Hn. split; [|by eexists].
    intros (h & n & Hh & Hd). assert (Hin : In n (map_to_list b.(BusClientBuilder.handlers)).*1)
      by (apply list_elem_of_In, Hk; eauto).
    apply Hn in Hin. by rewrite Hd in Hin.
Qed.

(** C19: client and broker agree on the handshake. Whatever a broker does with
    the [Hello] of a built client, the client's [establish] concludes the same
    from the frame it gets: an admitted client gets the client id the broker
    took for it and the broker's heartbeat interval, whatever else happens to
    the broker between the steps of the handshake, a client with a bad token
    returns [InvalidAuthToken], and a built client is never refused for its
    version. *)
Theorem handshake_agreement {Q} `{LawfulMpsc Q BusFrame} dbg pid (bd : BusClientBuilder)
    (b : Broker) (c : conn_id) hello b' out pc :
  hello_of pid bd = Ok hello ->
  serve_hello b (Ok (Some (BusFrame.Hello hello))) = (b', out, pc) ->
  (out = None
   /\ forall (b1 b2 b3 b4 b1' b2' b3' : Broker) (h1 h2 h3 h1' h2' h3' : Heap Q) pc1 pc2 pc3,
        serve_register b1 h1 c pc = Some (b1', h1', pc1) ->
        serve_register b2 h2 c pc1 = Some (b2', h2', pc2) ->
        serve_register b3 h3 c pc2 = Some (b3', h3', pc3) ->
        Broker.config b4 = Broker.config b ->
        exists g client_id, pc3 = SAck hello g client_id
          /\ handshake_reply dbg (Ok (Some (ack_frame b4 client_id)))
             = Ok {| HelloAck.client_id := b1.(Broker.next_client_id);
                     HelloAck.heartbeat_interval := b.(Broker.config).(BrokerConfig.heartbeat_interval) |})
  \/ (exists f, out = Some f /\ pc = SClosed None
      /\ b.(Broker.tokens) !! hello.(HelloRequest.service) <> Some hello.(HelloRequest.auth_token)
      /\ handshake_reply dbg (Ok (Some f)) = Err BusError.InvalidAuthToken).
Proof.
  intros [Hp _]%hello_of_ok Hs.
  unfold serve_hello in Hs. rewrite Hp, bool_decide_eq_true_2 in Hs by done. simpl in Hs.
  rewrite consume_token_spec in Hs. case_bool_decide as Hv; simpl in Hs; simplify_eq.
  - left. split; [done|]. intros * Hs1 Hs2 Hs3 Hcfg. simpl in Hs1. simplify_eq/=.
    eexists _, _. split; [reflexivity|]. unfold ack_frame. by rewrite Hcfg.
  - right. eexists. split_and!; [done|done|done|]. reflexivity.
Qed.

(** * The theorems on the run *)

Lemma prun_reachable {Q Nt} `{LawfulMpsc Q BusFrame, LawfulNotify Nt} (c0 : Client Q Nt) :
  forall ls n p p', preachable c0 n p -> prun p ls = Some p' ->
  preachable c0 (n + N.of_nat (length ls)) p'.
Proof.
  induction ls as [|l ls IH]; intros n p p' Hr Hrun; simpl in Hrun.
  - simplify_eq. by rewrite N.add_0_r.
  - apply bind_Some in Hrun as (p1 & Hx & Hrun).
    assert (Hr1 : preachable c0 (n + 1) p1) by by eapply preachable_step.
    pose proof (IH _ _ _ Hr1 Hrun). simpl length.
    by replace (n + N.of_nat (S (length ls)))%N with (n + 1 + N.of_nat (length ls))%N by lia.
Qed.

Lemma client_run_reachable ls :
  bool_decide (is_Some (prun (new_proc notes_client) ls)) = true ->
  preachable notes_client (N.of_nat (length ls)) (client_run ls).
Proof.
  intros [p Hp]%bool_decide_eq_true_1. unfold client_run. rewrite Hp. simpl.
  apply (prun_reachable notes_client ls 0 (new_proc notes_client)); [apply preachable_init | done].
Qed.

Lemma notes_fresh : fresh notes_client.
Proof. by split_and!. Qed.

Lemma invoke_correlation_witness :
  exists p', pexec (client_run client_script) (PReply 0) = Some p'
    /\ p_tasks p' !! 0%N = Some (PInvoke call_fs (IDone (Ok (bytes_lit "data")))).
Proof.
  apply (invoke_correlation notes_client (N.of_nat (length client_script)) (client_run client_script)
    0 call_fs 1 fs_answer notes_fresh (client_run_reachable client_script eq_refl) eq_refl);
    vm_compute; reflexivity.
Defined.

Lemma invocations_answered_once_witness :
  asked (client_run client_script) = [40%N; 41%N]
  /\ asked (client_run client_script) ≡ₚ running (client_run client_script) ++ given (client_run client_script).
Proof.
  split; [vm_compute; reflexivity|].
  apply (invocations_answered_once notes_client (N.of_nat (length client_script)) (client_run client_script)
    notes_fresh (client_run_reachable client_script eq_refl) eq_refl).
Defined.

Lemma stranded_invoke_hangs_witness :
  exists p', prun (client_run stranded_script) [PShutdown; PCall call_fs; PStep 1; PStep 1] = Some p'
    /\ p_tasks p' !! 0%N = Some (PInvoke call_fs (IAwait 1)).
Proof.
  destruct (prun (client_run stranded_script) [PShutdown; PCall call_fs; PStep 1; PStep 1])
    as [p'|] eqn:Hrun; [|vm_compute in Hrun; discriminate Hrun].
  exists p'. split; [reflexivity|].
  apply (stranded_invoke_hangs notes_client (N.of_nat (length stranded_script)) (client_run stranded_script)
    p' 0 call_fs 1 [PShutdown; PCall call_fs; PStep 1; PStep 1] notes_fresh
    (client_run_reachable stranded_script eq_refl) eq_refl); [| |exact Hrun].
  - split_and!; vm_compute; reflexivity.
  - intros Hin. repeat (apply elem_of_cons in Hin as [[=]|Hin]). exact (not_elem_of_nil _ Hin).
Defined.

Lemma shutdown_releases_waiters_witness :
  exists p' p'', pexec (client_run waiting_script) PEnd = Some p' /\ pexec p' (PWoken 0) = Some p''
    /\ p_tasks p'' !! 0%N = Some PReturned.
Proof.
  destruct (pexec (client_run waiting_script) PEnd) as [p'|] eqn:Hx; [|vm_compute in Hx; discriminate Hx].
  destruct (shutdown_releases_waiters notes_client (N.of_nat (length waiting_script))
    (client_run waiting_script) p' 0 0 PEnd (client_run_reachable waiting_script eq_refl)
    ltac:(vm_compute; reflexivity) ltac:(right; left; reflexivity) ltac:(vm_compute; reflexivity) Hx)
    as (p'' & Hw & Ht).
  exists p', p''. split; [reflexivity|]. split; [exact Hw | exact Ht].
Defined.

Lemma late_waiter_hangs_witness :
  exists p1 p' i, pexec (client_run late_script) PRunUntilShutdown = Some p1
    /\ prun p1 [PShutdown] = Some p' /\ p_tasks p' !! 0%N = Some (PWaiter i).
Proof.
  destruct (pexec (client_run late_script) PRunUntilShutdown) as [p1|] eqn:Hx;
    [|vm_compute in Hx; discriminate Hx].
  destruct (prun p1 [PShutdown]) as [p'|] eqn:Hrun; [|discriminate Hrun].
  destruct (late_waiter_hangs (client_run late_script) p1 p' [PShutdown]
    ltac:(vm_compute; reflexivity) ltac:(vm_compute; reflexivity) Hx
    (fun Hin => match proj1 (elem_of_cons _ _ _) Hin with
                | or_introl e => ltac:(discriminate e) | or_intror Hn => not_elem_of_nil _ Hn end)
    Hrun) as [i Hi].
  exists p1, p', i. split; [reflexivity|]. split; [exact Hrun|].
  assert (Hid : p_next_id (client_run late_script) = 0%N) by (vm_compute; reflexivity).
  rewrite <-Hid. exact Hi.
Defined.

Lemma establish_connect_bounded_witness :
  exists r st', establish_connect (N.to_nat (duration_from_millis 200 / duration_from_millis 50) + 2)
    Platform.Unix (mkMachine [] [] 0 0)
    {| ClientConfig.endpoint := Endpoint.UnixSocket "/run/bus.sock"; ClientConfig.auth_token := "t";
       ClientConfig.reconnect_max_backoff := Some (duration_from_millis 200);
       ClientConfig.idle_exit := None |} = (Some r, st').
Proof.
  destruct (proj1 (establish_connect_bounded Platform.Unix (mkMachine [] [] 0 0)
    {| ClientConfig.endpoint := Endpoint.UnixSocket "/run/bus.sock"; ClientConfig.auth_token := "t";
       ClientConfig.reconnect_max_backoff := Some (duration_from_millis 200);
       ClientConfig.idle_exit := None |}) _ eq_refl) as (r & st' & Hr & _).
  exists r, st'. exact Hr.
Defined.

Lemma handshake_agreement_witness :
  exists hello, hello_of 9 notes_builder = Ok hello
  /\ handshake_reply (fun _ => EmptyString) (Ok (Some (ack_frame notes_broker 1)))
     = Ok {| HelloAck.client_id := 1; HelloAck.heartbeat_interval := duration_from_secs 15 |}.
Proof.
  destruct (hello_of 9 notes_builder) as [hello|] eqn:Hh; [|discriminate Hh].
  exists hello. split; [reflexivity|].
  destruct (serve_hello notes_broker (Ok (Some (BusFrame.Hello hello)))) as [[b' out] pc] eqn:Hs.
  destruct (handshake_agreement (Q := Fifo BusFrame) (fun _ => EmptyString) 9 notes_builder notes_broker 0 hello
    b' out pc Hh Hs) as [(_ & Hr)|(f & Hout & _)].
  - injection Hh as <-. vm_compute in Hs. injection Hs as <- <- <-.
    destruct (Hr notes_broker notes_broker notes_broker notes_broker _ _ _ empty_heap empty_heap empty_heap
      _ _ _ _ _ _ eq_refl eq_refl eq_refl eq_refl) as (g & cid & Hpc & Hack).
    injection Hpc as _ <-. exact Hack.
  - injection Hh as <-. vm_compute in Hs. injection Hs as <- <- <-. discriminate Hout.
Defined.
