(* ===== verification/Liveness.v ===== *)
(** What happens eventually, on every fair infinite run: calls with a timeout
    return, and the requests an app reads are answered.  The runs are unbounded;
    nothing here depends on the width of the counters. *)

From stdpp Require Import prelude gmap strings.
From S2P Require Import Prelude Lts Frame Runtime Registry Broker Session System Invariant Steps History Guarantees Transport ClientConfig Client ClientSafety ClientGuarantees.

(** * The broker *)

Section broker.
Context {Q : Type} `{LawfulMpsc Q BusFrame}.
Context (parse : bytes -> result CapabilityResponse string).
Implicit Types w : World Q.

#[local] Instance broker_lts : Lts (World Q) Label := exec parse.

(** Tasks are numbered below the next number. *)
Definition numbered w : Prop := forall id t, tasks w !! id = Some t -> (id < next_id w)%N.

(** How many steps of its own a task has left. *)
Definition task_rank (t : option Task) : nat :=
  match t with
  | None => 0
  | Some (TReply _ _ | TStore _ _ | TLocal _ _ | TShutdown _) => 1
  | Some (TCall _ _ pc) =>
      match pc with
      | CDone _ => 2 | CAwaitLocal _ | CAwaitRemote _ _ => 3
      | CLocal _ | CSend _ _ _ => 4 | CRegister _ _ => 5 | CSession _ => 6 | CRegistry => 7 | CStart => 8
      end
  end.

(** The steps the runtime takes for a task: it is polled, woken by its reply or
    by its timer. *)
Definition runs_task (id : call_id) (l : Label) : Prop :=
  l = LStep id \/ l = LReply id \/ l = LTimer id \/ l = LContinue id.

(** A task of a call with a timeout, from its start to its end. *)
Definition timed (t : Task) : Prop :=
  match t with TCall _ a _ => a.(CallArgs.timeout) <> 0%N | _ => True end.
Definition alive (id : call_id) w : Prop := numbered w /\ exists t, tasks w !! id = Some t /\ timed t.

(** How a task goes on. *)
Inductive task_next : Task -> option Task -> Prop :=
| next_call o a pc pc' : task_rank (Some (TCall o a pc')) < task_rank (Some (TCall o a pc)) ->
    task_next (TCall o a pc) (Some (TCall o a pc'))
| next_reply c rid a r :
    task_next (TCall (OApp c rid) a (CDone r))
      (Some (TReply c {| Response.req_id := rid; Response.result := r |}))
| next_store s g a r r' : task_next (TCall (OProbe s g) a (CDone r)) (Some (TStore s r'))
| next_end t : (forall c rid a pc, t <> TCall (OApp c rid) a pc) -> task_next t None.

(** Whatever ends a call of the host but its being dropped leaves a result. *)
Definition kept_or_done id w : Prop :=
  numbered w /\ ((exists a pc, tasks w !! id = Some (TCall OHost a pc)) \/ is_Some (results w !! id)).

(** The task of a call of an app, until its response is sent. *)
Definition replying id c rid w : bool :=
  match tasks w !! id with
  | Some (TCall (OApp c' rid') _ _) => bool_decide (c' = c /\ rid' = rid)
  | Some (TReply c' resp) => bool_decide (c' = c /\ resp.(Response.req_id) = rid)
  | _ => false
  end.

Lemma numbered_exec w l w' : numbered w -> exec parse w l = Some w' -> numbered w'.
Proof.
  intros Hn Hx id t Ht. pose proof (lg_next _ _ _ (exec_logs parse w l w' Hx)) as Hle.
  pose proof (exec_tasks parse w l w' id _ Hx Ht) as Hf.
  inversion Hf as [t' Hs|a' Hl Hi|c hello g' Hl Hrg Hc Hi|c hello g' inv Hl Hc Hi Hrt|o' a' pc0 h pc' Hl Hs Hst
    |o' a' hd' r' Hl Hs|o' a' hd' rid' resp Hl Hs Hrep|o' a' hd' rid' Hl Hs Hd'|o' a' pc0 Hl Hs Hz Hpc
    |o' a' r' t' Hl Hs Hc|svc ms hd' Hl Hi|svc e' Hl Hg Hi]; subst; try (apply Hn in Hs; lia).
  - unfold exec in Hx. simpl in Hx. injection Hx as <-. simpl. lia.
  - unfold exec in Hx. simpl in Hx. destruct Hrg as (pc1 & Hcc & _). rewrite Hcc, Hc in Hx.
    destruct pc1; try done; injection Hx as <-; simpl; lia.
  - unfold exec in Hx. simpl in Hx. rewrite Hc in Hx. destruct (busy w !! c); [done|]. injection Hx as <-. simpl. lia.
  - unfold exec in Hx. simpl in Hx. injection Hx as <-. simpl. lia.
  - unfold exec in Hx. simpl in Hx. unfold shutdown_target in Hx. unfold reg in Hg. rewrite Hg in Hx. injection Hx as <-. simpl. lia.
Qed.

Lemma reachable_numbered config n w : reachable parse config n w -> numbered w.
Proof.
  induction 1 as [|n w l w' _ IH Hx]; [by intros id t Ht|]. by eapply numbered_exec.
Qed.

Lemma alive_enabled id w : alive id w -> enabled (runs_task id) w.
Proof.
  intros [_ ([o a pc|c resp|s r|s hd|tx] & Ht & Hz)]; simpl in Hz;
    [|exists (LContinue id); (split; [unfold runs_task; auto|]); unfold step, broker_lts, exec; simpl; rewrite Ht; eauto..].
  destruct (decide (steps_left pc = 0)) as [Hs|Hs].
    + destruct pc; simpl in Hs; try lia;
        [exists (LTimer id)|exists (LTimer id)|exists (LContinue id)]; (split; [unfold runs_task; auto|]);
        unfold step, broker_lts, exec; simpl; rewrite Ht, ?bool_decide_eq_false_2 by done; eauto.
    + destruct (call_step_enabled (broker w) (heap w) id a pc) as (h' & pc' & Hst); [lia|].
      exists (LStep id). split; [by left|]. unfold step, broker_lts, exec. simpl. rewrite Ht, Hst. eauto.
Qed.

Lemma own_step w l w' id t :
  exec parse w l = Some w' -> moves_task l id -> tasks w !! id = Some t -> task_next t (tasks w' !! id).
Proof.
  intros Hx Hm Ht.
  destruct Hm as [->|[[rr ->]|[->|[->|[->|[->| ->]]]]]]; unfold exec in Hx; simpl in Hx; rewrite Ht in Hx.
  - destruct t as [o a pc| | | |]; [|done..]. destruct (call_step _ _ _ _ _) as [[h pc']|] eqn:Hst; [|done].
    injection Hx as <-. simpl. rewrite lookup_insert_eq. apply next_call.
    pose proof (call_step_decreases _ _ _ _ _ _ _ Hst). destruct pc, pc'; simpl in *; lia.
  - destruct t as [o a []| | | |]; try done. injection Hx as <-. simpl. rewrite lookup_insert_eq.
    apply next_call. simpl. lia.
  - destruct t as [o a []| | | |], (replies (heap w) !! id); try done. injection Hx as <-. simpl.
    rewrite lookup_insert_eq. apply next_call. simpl. lia.
  - destruct t as [o a []| | | |]; try done. destruct (sender_dropped _ _ _ _); [|done]. injection Hx as <-.
    simpl. rewrite lookup_insert_eq. apply next_call. simpl. lia.
  - destruct t as [o a pc| | | |]; [|done..]. destruct (bool_decide _); [done|].
    destruct pc; try done; injection Hx as <-; simpl; rewrite lookup_insert_eq; apply next_call; simpl; lia.
  - destruct t as [o a pc|c resp|s r|s hd|tx].
    + destruct pc; try done. injection Hx as <-.
      destruct o as [|c rid|s g]; simpl.
      * rewrite lookup_delete_eq. by apply next_end.
      * rewrite lookup_insert_eq. apply next_reply.
      * assert (Hc : forall b, call_continue parse b (OProbe s g) res = None
          \/ exists r', call_continue parse b (OProbe s g) res = Some (TStore s r'))
          by (intros b; simpl; repeat case_match; eauto).
        destruct (Hc (broker w)) as [Hn|[r' Hn]]; simpl in Hn; rewrite Hn; simpl.
        -- rewrite lookup_delete_eq. by apply next_end.
        -- rewrite lookup_insert_eq. apply next_store.
    + injection Hx as <-. simpl. rewrite lookup_delete_eq. by apply next_end.
    + injection Hx as <-. simpl. rewrite lookup_delete_eq. by apply next_end.
    + injection Hx as <-. simpl. rewrite lookup_delete_eq. by apply next_end.
    + injection Hx as <-. simpl. rewrite lookup_delete_eq. by apply next_end.
  - destruct t as [o a pc| | | |]; try done. destruct o; try done. destruct (droppable pc); [|done].
    injection Hx as <-. simpl. rewrite lookup_delete_eq. by apply next_end.
Qed.

Lemma next_lower t t' : task_next t t' -> task_rank t' < task_rank (Some t).
Proof.
  intros Hn. inversion Hn as [o a pc pc' Hlt| | |t0 _]; subst; [done|simpl; lia..|].
  destruct t as [o a []| | | |]; simpl; lia.
Qed.

(** The life of a task of a call with a timeout, towards its end. *)
Lemma task_progress id :
  progress (alive id) (fun w => tasks w !! id = None) (fun w => task_rank (tasks w !! id)) (runs_task id).
Proof.
  assert (Hgen : forall w l w', alive id w -> exec parse w l = Some w' ->
    tasks w' !! id = None \/ (alive id w' /\ (tasks w' !! id = tasks w !! id
      \/ (moves_task l id /\ task_rank (tasks w' !! id) < task_rank (tasks w !! id))))).
  { intros w l w' [Hn (t & Ht & Hz)] Hx. pose proof (numbered_exec w l w' Hn Hx) as Hn'.
    destruct (tasks w' !! id) as [t'|] eqn:Ht'; [right|by left].
    destruct (exec_task_kept parse w l w' id t (Hn _ _ Ht) Hx Ht) as [Hsame|Hm].
    - split; [split; [done|exists t; by split]|]. left. congruence.
    - pose proof (own_step w l w' id t Hx Hm Ht) as Hnext. rewrite Ht' in Hnext. split.
      + split; [done|]. exists t'. split; [done|]. inversion Hnext; by subst.
      + right. split; [done|]. rewrite Ht. by apply next_lower. }
  split.
  - apply alive_enabled.
  - intros w l w' Ha Hx. destruct (Hgen w l w' Ha Hx) as [|[Ha' [->|[_ Hr]]]]; [by left|right..]; (split; [done|lia]).
  - intros w l w' Ha Hp Hx. destruct (Hgen w l w' Ha Hx) as [|[Ha' [Heq|[_ Hr]]]]; [by left| |by right].
    exfalso. destruct Ha as [_ (t & Ht & Hz)].
    assert (Hm : moves_task l id) by (unfold moves_task; destruct Hp as [|[|[|]]]; auto 10).
    pose proof (next_lower _ _ (own_step w l w' id t Hx Hm Ht)). rewrite Heq, Ht in *. lia.
Qed.

Lemma results_grow w l w' id : exec parse w l = Some w' -> is_Some (results w !! id) -> is_Some (results w' !! id).
Proof.
  intros Hx Hs. unfold exec in Hx. destruct (exec_conn w l) as [w1|] eqn:Hx1; simplify_eq.
  { destruct l as [|c0 read wr|c0 wr|c0|c0 f|c0|c0|c0 wr|c0| | | | | | | | | | |]; try done;
      [..|apply exec_session in Hx1;
        destruct Hx1 as [hl Hc0|hl i Hc0|hl g i Hc0|hl g pc job b h t job' Hc0 _ _ _ Hsj]; try done; by destruct t];
      simpl in Hx1; [|destruct (conns w !! c0) as [[]|]; try done..]; repeat (case_match; try done); simplify_eq; try done;
      unfold spawn_opt, log_in, log_out in *; repeat case_match; simplify_eq; done. }
  destruct (exec_task parse w l) as [w1|] eqn:Hx2; simplify_eq.
  { destruct l as [| | | | | | | | | |i|i r|i|i|i|i|i| | |]; try done; simpl in Hx2;
      destruct (tasks w !! i) as [[o a pc0|c0 resp|svc cr|svc hd|tx]|]; try done.
    - destruct (call_step _ _ _ _ _) as [[h pc']|]; [|done]. by injection Hx2 as <-.
    - destruct pc0; try done. by injection Hx2 as <-.
    - destruct pc0; try done. destruct (replies _ !! i); [|done]. by injection Hx2 as <-.
    - destruct pc0; try done. destruct (sender_dropped _ _ _ _); [|done]. by injection Hx2 as <-.
    - destruct (bool_decide _); [done|]. destruct pc0; try done; by injection Hx2 as <-.
    - destruct pc0; try done. injection Hx2 as <-.
      assert (Hr : is_Some (results (match o with OHost => set_results (<[i:=res]> (results w)) w | _ => w end) !! id)).
      { destruct o; try done. simpl. rewrite lookup_insert_is_Some'. by right. }
      by destruct (call_continue _ _ _ _).
    - by injection Hx2 as <-.
    - by injection Hx2 as <-.
    - by injection Hx2 as <-.
    - by injection Hx2 as <-.
    - destruct o; try done. destruct (droppable pc0); [|done]. by injection Hx2 as <-. }
  destruct l; try done; simpl in Hx; injection Hx as <-; try done. by destruct (shutdown_target _ _).
Qed.

Lemma host_kept w l w' id :
  kept_or_done id w -> exec parse w l = Some w' -> l <> LDrop id -> kept_or_done id w'.
Proof.
  intros [Hn Hk] Hx Hl. split; [by eapply numbered_exec|].
  destruct Hk as [(a & pc & Ht)|Hs]; [|right; by eapply results_grow].
  destruct (exec_task_kept parse w l w' id _ (Hn _ _ Ht) Hx Ht) as [Ht'|Hm]; [left; eauto|].
  destruct Hm as [->|[[rr ->]|[->|[->|[->|[->| ->]]]]]]; try done;
    unfold exec in Hx; simpl in Hx; rewrite Ht in Hx.
  - destruct (call_step _ _ _ _ _) as [[h pc']|]; [|done]. injection Hx as <-. left. simpl.
    rewrite lookup_insert_eq. eauto.
  - destruct pc; try done. injection Hx as <-. left. simpl. rewrite lookup_insert_eq. eauto.
  - destruct pc, (replies (heap w) !! id); try done. injection Hx as <-. left. simpl.
    rewrite lookup_insert_eq. eauto.
  - destruct pc; try done. destruct (sender_dropped _ _ _ _); [|done]. injection Hx as <-. left. simpl.
    rewrite lookup_insert_eq. eauto.
  - destruct (bool_decide _); [done|]. destruct pc; try done; injection Hx as <-; left; simpl;
      rewrite lookup_insert_eq; eauto.
  - destruct pc; try done. injection Hx as <-. right. simpl. rewrite lookup_insert_eq. eauto.
Qed.

Lemma ended_disabled id w : tasks w !! id = None -> ~ enabled (runs_task id) w.
Proof.
  intros Ht (l & Hl & Hs). unfold step, broker_lts, exec in Hs.
  destruct Hl as [->|[->|[->| ->]]]; simpl in Hs; rewrite Ht in Hs; by destruct Hs.
Qed.

Lemma replying_leaves id c rid w l w' :
  numbered w -> exec parse w l = Some w' -> replying id c rid w = true -> replying id c rid w' <> true ->
  exists resp, l = LContinue id /\ resp.(Response.req_id) = rid
    /\ chan_queue (heap w') c = chan_queue (heap w) c
         ++ (if chan_open (heap w) c then [BusFrame.Response resp] else []).
Proof.
  unfold replying. intros Hn Hx Hj Hnj. destruct (tasks w !! id) as [t|] eqn:Ht; [|done].
  destruct (exec_task_kept parse w l w' id t (Hn _ _ Ht) Hx Ht) as [Hs|Hm].
  { rewrite Hs in Hnj. by destruct t as [[]| | | |]. }
  destruct t as [o a pc|c' resp| | |]; [| |done..].
  - destruct o as [|c' rid'|]; [done| |done].
    pose proof (own_step w l w' id _ Hx Hm Ht) as Hnext.
    inversion Hnext as [o' a' pc' pc'' Hlt Heq1 Heq2|c0 r0 a0 r1 Heq1 Heq2| |t Hno Heq1 Heq2]; subst.
    + by rewrite <-Heq2 in Hnj.
    + by rewrite <-Heq2 in Hnj.
    + by destruct (Hno c' rid' a pc).
  - apply bool_decide_eq_true in Hj as [-> Hid].
    destruct Hm as [->|[[rr ->]|[->|[->|[->|[->| ->]]]]]]; unfold exec in Hx; simpl in Hx; rewrite Ht in Hx; try done.
    injection Hx as <-. exists resp. split; [done|]. split; [done|]. simpl.
    destruct (chan_send_spec (heap w) c (BusFrame.Response resp)) as [_ Hq]. rewrite Hq. f_equal.
    destruct (chan_open (heap w) c) eqn:Ho; [by rewrite decide_True|by rewrite decide_False by (by intros [_ ?])].
Qed.

Lemma always_numbered config k (e : execution (World Q) Label) m :
  reachable parse config k (at_ e 0) -> numbered (at_ e m).
Proof.
  intros Hr. apply (execution_invariant e numbered 0); [|by eapply reachable_numbered|lia].
  intros i l _ Hi _ Hx. by eapply numbered_exec.
Qed.

(** The task of the call of an app ends, and queues its response once. *)
Lemma app_call_ends config k (e : execution (World Q) Label) n (id : call_id) c rid (a : CallArgs) pc :
  reachable parse config k (at_ e 0) -> fair e (runs_task id) ->
  tasks (at_ e n) !! id = Some (TCall (OApp c rid) a pc) -> a.(CallArgs.timeout) <> 0%N ->
  exists m, n <= m /\ tasks (at_ e m) !! id = None
    /\ exists i r, n <= i < m /\ taken e i = Some (LContinue id)
         /\ chan_queue (heap (at_ e (1 + i))) c = chan_queue (heap (at_ e i)) c
              ++ (if chan_open (heap (at_ e i)) c
                  then [BusFrame.Response {| Response.req_id := rid; Response.result := r |}] else []).
Proof.
  intros Hr Hf Ht Hz.
  pose proof (fun m => always_numbered config k e m Hr) as Hnum.
  assert (Ha : alive id (at_ e n)) by (split; [done|by exists (TCall (OApp c rid) a pc)]).
  destruct (fair_reaches e _ _ _ _ (task_progress id) Hf n Ha) as (m & Hle & Hend).
  exists m. split; [done|]. split; [done|].
  assert (Hn0 : replying id c rid (at_ e n) = true) by (unfold replying; rewrite Ht; by apply bool_decide_eq_true).
  assert (Hm0 : replying id c rid (at_ e m) <> true) by (unfold replying; by rewrite Hend).
  destruct (execution_leaves e (fun w => replying id c rid w = true) n m Hle Hn0 Hm0)
    as (i & l & Hi & Hj & Hnj & Hl & Hx).
  destruct (replying_leaves _ _ _ _ _ _ (Hnum i) Hx Hj Hnj) as (resp & -> & Hid & Hq).
  exists i, resp.(Response.result). split; [done|]. split; [done|]. rewrite Hq. destruct resp. simpl in *. by subst.
Qed.

(** C5: on every fair run every call with a timeout returns. Take any infinite
    run of the broker from a reachable state, of whatever interleaving of
    connections, frames, failures and other calls, in which the runtime goes on
    polling the task of a call and firing its timer. Then the task ends; a call
    of the host has left its result, unless the host has dropped it; and an app
    whose [Invoke] it was has been sent the [Response] with the number of that
    [Invoke], if its connection can still be sent anything. *)
Theorem calls_return config k (e : execution (World Q) Label) n (id : call_id) o (a : CallArgs) pc :
  reachable parse config k (at_ e 0) -> fair e (runs_task id) ->
  tasks (at_ e n) !! id = Some (TCall o a pc) -> a.(CallArgs.timeout) <> 0%N ->
  exists m, n <= m /\ tasks (at_ e m) !! id = None
    /\ match o with
       | OHost => (forall i, taken e i <> Some (LDrop id)) -> is_Some (results (at_ e m) !! id)
       | OApp c rid => exists i r, n <= i < m /\ taken e i = Some (LContinue id)
           /\ chan_queue (heap (at_ e (1 + i))) c = chan_queue (heap (at_ e i)) c
                ++ (if chan_open (heap (at_ e i)) c
                    then [BusFrame.Response {| Response.req_id := rid; Response.result := r |}] else [])
       | OProbe _ _ => True
       end.
Proof.
  intros Hr Hf Ht Hz. destruct o as [|c rid|svc g].
  2: { by eapply app_call_ends. }
  all: pose proof (fun m => always_numbered config k e m Hr) as Hnum;
    assert (Ha : alive id (at_ e n)) by (split; [done|eexists; split; [exact Ht|exact Hz]]);
    destruct (fair_reaches e _ _ _ _ (task_progress id) Hf n Ha) as (m & Hle & Hend);
    exists m; (split; [done|]); (split; [done|]); try done.
  intros Hnd.
  destruct (execution_invariant e (kept_or_done id) n) with (m := m) as [_ [(a' & pc' & Ht')|]]; [| |done| |done].
  - intros i l _ Hi Hl Hx. eapply host_kept; [exact Hi|exact Hx|]. intros ->. by apply (Hnd i).
  - split; [done|left; eauto].
  - congruence.
Qed.
End broker.

(** * The client *)

Section client.
Context {Q Nt : Type} `{LawfulMpsc Q BusFrame, LawfulNotify Nt}.
Implicit Types p : Proc Q Nt.

#[local] Instance client_lts : Lts (Proc Q Nt) PLabel := pexec.

Definition p_numbered p : Prop := forall id t, p_tasks p !! id = Some t -> (id < p_next_id p)%N.

(** A step leaves a task alone, or it is the task's own. *)
Definition own_label (l : PLabel) : option task_id :=
  match l with
  | PStep id | PHandled id _ | PReply id | PRxClosed id | PWoken id | PIdle id _ | PDrop id => Some id
  | _ => None
  end.

Definition dispatch_rank (t : option PTask) : nat :=
  match t with
  | Some (PDispatch _ DStart) => 3
  | Some (PDispatch _ (DRun _ _)) => 2
  | Some (PDispatch _ (DReply _)) => 1
  | _ => 0
  end.

(** The steps the runtime and the handler take for a dispatched request. *)
Definition serves_task (id : task_id) (l : PLabel) : Prop := l = PStep id \/ exists r, l = PHandled id r.

Definition dispatching id inv p : Prop := p_numbered p /\ exists pc, p_tasks p !! id = Some (PDispatch inv pc).

(** The dispatch goes on, or ends with its response handed to the writer. *)
Definition answers (id : task_id) (inv : Invoke) p p' : Prop :=
  exists r, p_tasks p' !! id = None
    /\ p_answered p' = p_answered p ++ [dispatch_response inv r]
    /\ (rx_alive (c_tx (p_client p)) = true ->
        queued (c_tx (p_client p')) = queued (c_tx (p_client p)) ++ [BusFrame.Response (dispatch_response inv r)]).

Lemma pexec_tasks p l p' :
  pexec p l = Some p' -> (p_next_id p <= p_next_id p')%N
  /\ (forall id, own_label l <> Some id -> (id < p_next_id p)%N -> p_tasks p' !! id = p_tasks p !! id)
  /\ (forall id t, p_tasks p' !! id = Some t -> is_Some (p_tasks p !! id) \/ (id < p_next_id p')%N).
Proof.
  intros Hx.
  match goal with |- ?G => assert (Hsame : p_next_id p' = p_next_id p -> p_tasks p' = p_tasks p -> G) end.
  { intros -> ->. split; [lia|]. split; [done|intros; left; eauto]. }
  match goal with |- ?G => assert (Hnew : forall t, p_next_id p' = (p_next_id p + 1)%N ->
    p_tasks p' = <[p_next_id p := t]> (p_tasks p) -> G) end.
  { intros t -> ->. split; [lia|]. split; [intros id _ Hid; rewrite lookup_insert_ne; [done|lia]|].
    intros id t' [[<- _]|[_ ?]]%lookup_insert_Some; [right; lia|left; eauto]. }
  unfold pexec in Hx. destruct (pexec_reader p l) as [p1|] eqn:Hx1; simplify_eq.
  { destruct l; simpl in Hx1; try done; destruct (p_reader p); try done.
    all: try (destruct (mpsc_recv _) as [[f q]|]; [|done]; injection Hx1 as <-; apply Hsame; by destruct written).
    all: try (injection Hx1 as <-; by apply Hsame).
    destruct (handle_inbound now (p_client p) f) as [c e]. injection Hx1 as <-.
    destruct e; [by apply Hsame|by eapply Hnew|by apply Hsame]. }
  destruct (pexec_task p l) as [p1|] eqn:Hx2; simplify_eq.
  { match goal with |- ?G => assert (Hown : forall id t, own_label l = Some id -> is_Some (p_tasks p !! id) ->
      p_next_id p' = p_next_id p -> p_tasks p' = partial_alter (fun _ => t) id (p_tasks p) -> G) end.
    { intros id t Hl Hs -> ->. split; [lia|]. split.
      - intros id' Hne _. rewrite Hl in Hne. rewrite lookup_partial_alter_ne; [done|congruence].
      - intros id' t' Ht'. left. destruct (decide (id' = id)) as [->|Hne]; [done|].
        rewrite lookup_partial_alter_ne in Ht' by done. eauto. }
    destruct l as [| | | | |id|id r|id|id|id|id now|id| | | |]; try done; simpl in Hx2;
      destruct (p_tasks p !! id) as [t|] eqn:Ht; try done; simpl in Hx2.
    - destruct t as [a []|inv []|f|]; simpl in Hx2; try done.
      + injection Hx2 as <-. by eapply (Hown id).
      + destruct (invoke_send _ _ _) as [c pc]. injection Hx2 as <-. by eapply (Hown id).
      + injection Hx2 as <-. by eapply (Hown id).
      + injection Hx2 as <-. by eapply (Hown id None).
    - destruct t as [|inv []| |]; try done. injection Hx2 as <-. by eapply (Hown id).
    - destruct t as [a []| | |], (p_replies p !! id); try done. injection Hx2 as <-. by eapply (Hown id).
    - destruct t as [a []| | |]; try done. destruct (reply_lost _ _ _); [|done]. injection Hx2 as <-. by eapply (Hown id).
    - destruct t; try done. destruct (woken _ _); [|done]. injection Hx2 as <-. by eapply (Hown id).
    - destruct t; try done. destruct (idle_expired _ _); [|done]. injection Hx2 as <-. by eapply (Hown id).
    - destruct t as [a []| | |]; try done; injection Hx2 as <-; by eapply (Hown id None). }
  destruct l; try done; simpl in Hx; try (injection Hx as <-; by eapply Hnew); try (injection Hx as <-; by apply Hsame).
  destruct (notified _) as [nt i]. injection Hx as <-. by eapply Hnew.
Qed.

Lemma p_numbered_exec p l p' : p_numbered p -> pexec p l = Some p' -> p_numbered p'.
Proof.
  intros Hn Hx id t Ht. destruct (pexec_tasks p l p' Hx) as (Hle & _ & Hnew).
  destruct (Hnew _ _ Ht) as [[t' Ht']|]; [|done]. apply Hn in Ht'. lia.
Qed.

Lemma dispatch_step p l p' id inv pc :
  pexec p l = Some p' -> own_label l = Some id -> p_tasks p !! id = Some (PDispatch inv pc) ->
  (exists pc', p_tasks p' !! id = Some (PDispatch inv pc')
     /\ dispatch_rank (p_tasks p' !! id) < dispatch_rank (p_tasks p !! id))
  \/ answers id inv p p'.
Proof.
  intros Hx Hl Ht. rewrite Ht. unfold pexec in Hx.
  destruct l; simpl in Hl; try done; injection Hl as ->; simpl in Hx; rewrite Ht in Hx; simpl in Hx;
    try (destruct (p_replies p !! id); done); try done.
  - destruct pc as [|h u|r]; [| done|].
    + injection Hx as <-. left. simpl. rewrite lookup_insert_eq. eexists. split; [done|].
      unfold dispatch_lookup. case_match; simpl; lia.
    + injection Hx as <-. right. exists r. simpl. split; [apply lookup_delete_eq|]. split; [done|].
      intros Ha. unfold send_, send. destruct (send_alive _ (BusFrame.Response (dispatch_response inv r)) Ha)
        as (q & -> & Hq & _). exact Hq.
  - destruct pc as [|h u|r']; try done. injection Hx as <-. left. simpl. rewrite lookup_insert_eq.
    eexists. split; [done|]. simpl. lia.
Qed.

Lemma dispatch_progress id inv :
  progress (dispatching id inv) (fun p => p_tasks p !! id = None)
    (fun p => dispatch_rank (p_tasks p !! id)) (serves_task id).
Proof.
  assert (Hgen : forall p l p', dispatching id inv p -> pexec p l = Some p' ->
    p_tasks p' !! id = None \/ (dispatching id inv p' /\ ((own_label l <> Some id /\ p_tasks p' !! id = p_tasks p !! id)
      \/ dispatch_rank (p_tasks p' !! id) < dispatch_rank (p_tasks p !! id)))).
  { intros p l p' [Hn (pc & Ht)] Hx. pose proof (p_numbered_exec p l p' Hn Hx) as Hn'.
    destruct (decide (own_label l = Some id)) as [Hl|Hl].
    - destruct (dispatch_step p l p' id inv pc Hx Hl Ht) as [(pc' & Ht' & Hr)|(r & Ht' & _)]; [right|by left].
      split; [split; [done|by exists pc']|by right].
    - destruct (pexec_tasks p l p' Hx) as (_ & Hs & _). right.
      rewrite (Hs id Hl (Hn _ _ Ht)). split; [split; [done|exists pc; by rewrite Hs by (try done; by eapply Hn)]|by left]. }
  split.
  - intros p [Hn (pc & Ht)].
    destruct pc as [|h u|r].
    + exists (PStep id). split; [by left|]. unfold step, client_lts, pexec. simpl. rewrite Ht. simpl. eauto.
    + exists (PHandled id (Ok [])). split; [right; eauto|]. unfold step, client_lts, pexec. simpl. rewrite Ht. eauto.
    + exists (PStep id). split; [by left|]. unfold step, client_lts, pexec. simpl. rewrite Ht. simpl. eauto.
  - intros p l p' Ha Hx. destruct (Hgen p l p' Ha Hx) as [|[Ha' [[_ ->]|Hr]]]; [by left|right..]; (split; [done|lia]).
  - intros p l p' Ha Hp Hx. destruct (Hgen p l p' Ha Hx) as [|[Ha' [[Hl _]|Hr]]]; [by left| |by right].
    destruct Hl. by destruct Hp as [->|[r ->]].
Qed.

Lemma preachable_numbered c0 n p : preachable c0 n p -> p_numbered p.
Proof. induction 1 as [|n p l p' _ IH Hx]; [by intros id t Ht|by eapply p_numbered_exec]. Qed.

(** The end of the task is the end of its steps. *)
Lemma served_disabled id p : p_tasks p !! id = None -> ~ enabled (serves_task id) p.
Proof.
  intros Ht (l & Hl & Hs). unfold step, client_lts in Hs. unfold pexec in Hs.
  destruct Hl as [->|[r ->]]; simpl in Hs; rewrite Ht in Hs; simpl in Hs; by destruct Hs.
Qed.

(** C13: on every fair run every request an app has read is answered. Take any
    infinite run of a client from a reachable state, in which the runtime goes
    on polling the task of a dispatched request and its handler, if it runs,
    returns some time. Then the task ends, at an instant at which exactly one
    response, with the number of the request, is handed to the writer, and
    queued for it while the writer runs. *)
Theorem requests_answered c0 k (e : execution (Proc Q Nt) PLabel) n (id : task_id) (inv : Invoke) pc :
  preachable c0 k (at_ e 0) -> fair e (serves_task id) ->
  p_tasks (at_ e n) !! id = Some (PDispatch inv pc) ->
  exists m, n <= m /\ answers id inv (at_ e m) (at_ e (1 + m)).
Proof.
  intros Hr Hf Ht.
  assert (Hnum : forall m, p_numbered (at_ e m)).
  { intros m. apply (execution_invariant e p_numbered 0); [|by eapply preachable_numbered|lia].
    intros i l _ Hi _ Hx. by eapply p_numbered_exec. }
  destruct (fair_reaches e _ _ _ _ (dispatch_progress id inv) Hf n) as (m & Hle & Hend); [split; [done|by exists pc]|].
  set (mine := fun p => match p_tasks p !! id with Some (PDispatch inv' _) => bool_decide (inv' = inv) | _ => false end = true).
  destruct (execution_leaves e mine n m Hle) as (i & l & Hi & Hj & Hnj & _ & Hx).
  - unfold mine. rewrite Ht. by apply bool_decide_eq_true.
  - unfold mine. by rewrite Hend.
  - exists i. split; [lia|]. unfold mine in Hj, Hnj.
    destruct (p_tasks (at_ e i) !! id) as [[a ipc|inv' pc'|f|]|] eqn:Hti; try done.
    apply bool_decide_eq_true in Hj as ->.
    destruct (decide (own_label l = Some id)) as [Hl|Hl].
    + destruct (dispatch_step _ l _ id inv pc' Hx Hl Hti) as [(pc'' & Ht' & _)|]; [|done].
      destruct Hnj. rewrite Ht'. by apply bool_decide_eq_true.
    + destruct (pexec_tasks _ l _ Hx) as (_ & Hs & _). destruct Hnj.
      rewrite (Hs id Hl (Hnum i _ _ Hti)), Hti. by apply bool_decide_eq_true.
Qed.
End client.

(** * Concrete runs *)

(** The call of [app] is answered, and nothing happens afterwards. *)
Definition returned_script : list Label :=
  script_answered ++ [LReply 4; LContinue 4; LContinue 4; LWriter 2 true].

Definition broker_start : World (Fifo BusFrame) := init BrokerConfig.default.
Abbreviation broker_after := (after (H := broker_lts no_capabilities) broker_start).
Abbreviation broker_run := (execution_of (H := broker_lts no_capabilities) broker_start).

(** A request for an unknown method is read and answered, and nothing happens
    afterwards. *)
Definition client_start : Proc (Fifo BusFrame) Tickets := new_proc notes_client.
Abbreviation client_after := (after (H := client_lts) client_start).
Abbreviation client_course := (execution_of (H := client_lts) client_start).

Lemma run_exists {A} (o : option A) : bool_decide (is_Some o) = true -> exists s, o = Some s.
Proof. intros Ho. apply bool_decide_eq_true in Ho as [s Hs]. by exists s. Qed.

Lemma returned_runs : bool_decide (is_Some (broker_after returned_script)) = true.
Proof. vm_compute. reflexivity. Qed.

Lemma returned_ends : (fun w => tasks w !! 4%N) <$> broker_after returned_script = Some None.
Proof. vm_compute. reflexivity. Qed.

Lemma client_script_runs : bool_decide (is_Some (client_after client_script)) = true.
Proof. vm_compute. reflexivity. Qed.

Lemma client_script_ends : (fun p => p_tasks p !! 2%N) <$> client_after client_script = Some None.
Proof. vm_compute. reflexivity. Qed.

Lemma calls_return_witness :
  exists s' (Hs : broker_after returned_script = Some s') i r,
    let e := broker_run returned_script s' Hs in
    taken e i = Some (LContinue 4)
    /\ chan_queue (heap (at_ e (1 + i))) 2 = chan_queue (heap (at_ e i)) 2
         ++ (if chan_open (heap (at_ e i)) 2
             then [BusFrame.Response {| Response.req_id := 9; Response.result := r |}] else []).
Proof.
  destruct (run_exists _ returned_runs) as (s' & Hs).
  exists s', Hs.
  pose proof returned_ends as Hn.
  rewrite Hs in Hn. apply Some_inj in Hn.
  destruct (calls_return no_capabilities BrokerConfig.default 0
    (broker_run returned_script s' Hs)
    (length script_waiting) 4 (OApp 2 9) routed_args (CAwaitRemote echo_handle 1)) as (m & _ & _ & i & r & _ & Ht & Hq).
  - apply reachable_init.
  - apply execution_of_fair, ended_disabled. exact Hn.
  - vm_compute. reflexivity.
  - discriminate.
  - exists i, r. split; [exact Ht|exact Hq].
Defined.

Lemma requests_answered_witness :
  exists p' (Hs : client_after client_script = Some p') m r,
    let e := client_course client_script p' Hs in
    p_answered (at_ e (1 + m)) = p_answered (at_ e m) ++ [dispatch_response drop_request r].
Proof.
  destruct (run_exists _ client_script_runs) as (p' & Hs).
  exists p', Hs.
  pose proof client_script_ends as Hn.
  rewrite Hs in Hn. apply Some_inj in Hn.
  destruct (requests_answered notes_client 0
    (client_course client_script p' Hs) 6 2 drop_request DStart) as (m & _ & r & _ & Ha & _).
  - apply preachable_init.
  - apply execution_of_fair, served_disabled. exact Hn.
  - vm_compute. reflexivity.
  - exists m, r. exact Ha.
Defined.
