(* ===== verification/Muted.v ===== *)
(** What is left of a connection whose writer task has ended: it ends at the
    first frame it cannot write (see [Wire.writer_task]), also one that is only
    too large, and nobody is told. *)

From stdpp Require Import prelude gmap strings.
From S2P Require Import Prelude Frame Runtime Registry Broker Session System Invariant Steps Serving Guarantees Client Streams ClientSafety ClientGuarantees.

(** * At the broker *)

Section broker.
Context {Q : Type} `{LawfulMpsc Q BusFrame}.
Context (parse : bytes -> result CapabilityResponse string).
Implicit Types w : World Q.

(** While the reader of the connection runs, nothing but its end changes it. *)
Lemma muted_exec w l w' c hello g :
  exec parse w l = Some w' -> conns w !! c = Some (SRunning hello g) -> chan_open (heap w) c = false ->
  l <> LClose c -> (c < next_id w)%N ->
  conns w' !! c = Some (SRunning hello g) /\ chan_open (heap w') c = false /\ wire_of w' c = wire_of w c.
Proof.
  intros Hx Hc Ho Hl Hlt. destruct (exec_stream parse w l w' c hello g Hx Hc Hl Hlt) as [Hc' Hs].
  split; [done|]. unfold stream_to in Hs. by inversion Hs; subst; rewrite ?Ho in *.
Qed.

(** C25: a connection whose writer task has ended is cut off, unnoticed. While
    its reader runs, in any continuation: not one more frame is written to it;
    every call the broker has routed to it is refused with [ServiceNotFound]
    when it comes to send its request; and for as long as no other connection
    has stored an entry for the service since, its own entry stays the
    registered one, so that a call that is made then, if no local service has
    that name and the catalog of its [Hello] admits the call, is refused with
    [ServiceNotFound] although the app is connected. One frame that cannot be
    written, for instance because it is too large, is enough. *)
Theorem muted_connection config n w w' c hello g ls :
  reachable parse config n w -> (n + N.of_nat (length ls) < U64_SIZE)%N ->
  conns w !! c = Some (SRunning hello g) -> chan_open (heap w) c = false ->
  LClose c ∉ ls -> run parse w ls = Some w' ->
  conns w' !! c = Some (SRunning hello g) /\ wire_of w' c = wire_of w c
  /\ (forall id o (a : CallArgs) e hd rid,
        tasks w' !! id = Some (TCall o a (CSend e hd rid)) -> e.(ServiceEntry.tx) = c ->
        exists w'', exec parse w' (LStep id) = Some w''
          /\ tasks w'' !! id
             = Some (TCall o a (CDone (Err (BusError.ServiceNotFound a.(CallArgs.service))))))
  /\ (latest w' hello.(HelloRequest.service) c ->
      exists e, Registry.get (reg w') hello.(HelloRequest.service) = Some e
        /\ e.(ServiceEntry.tx) = c /\ e.(ServiceEntry.generation) = g
        /\ forall id (a : CallArgs), a.(CallArgs.service) = hello.(HelloRequest.service) ->
             Broker.local_services (broker w') !! a.(CallArgs.service) = None ->
             admitted hello.(HelloRequest.methods) a.(CallArgs.method) a.(CallArgs.caller) ->
             (call_begin (broker w') (heap w') id a).2
             = CDone (Err (BusError.ServiceNotFound a.(CallArgs.service)))).
Proof.
  intros Hr Hb Hc Ho Hl Hrun.
  assert (Hend : conns w' !! c = Some (SRunning hello g) /\ chan_open (heap w') c = false
    /\ wire_of w' c = wire_of w c /\ exists m, (m < U64_SIZE)%N /\ reachable parse config m w').
  { revert n w Hr Hb Hc Ho Hrun. induction ls as [|l ls IH]; intros n w Hr Hb Hc Ho Hrun; simpl in Hrun.
    - injection Hrun as <-. split_and!; [done..|]. exists n. simpl in Hb. split; [lia|done].
    - apply bind_Some in Hrun as (w1 & Hx & Hrun). simpl length in Hb.
      pose proof (reachable_structural parse config n w Hr ltac:(lia)) as Hst.
      destruct (muted_exec w l w1 c hello g Hx Hc Ho) as (Hc1 & Ho1 & Hw1);
        [intros ->; apply Hl; by left|by eapply (str_conn_ids n w Hst)|].
      rewrite <-Hw1. apply (IH ltac:(intros Hin; apply Hl; by right) (n + 1)%N w1); [|lia|done..].
      by eapply reachable_step. }
  destruct Hend as (Hc' & Ho' & Hw' & m & Hm & Hr'). split; [done|]. split; [done|].
  pose proof (reachable_structural parse config m w' Hr' Hm) as Hst. split.
  - intros id o a e hd rid Ht Htx. unfold exec. cbn [exec_conn exec_task]. rewrite Ht. cbn [call_step].
    unfold call_send. rewrite Htx, (proj2 (chan_send_None _ c _)) by done.
    eexists. split; [done|]. apply lookup_insert_eq.
  - intros Hla. destruct (latest_entry m w' c _ hello g Hst Hc' eq_refl eq_refl Hla) as (e & He & Htx & Hg & Hms).
    exists e. split_and!; [done..|]. intros id a Hsv Hloc Ha.
    pose proof (reachable_serving parse config m w' Hr' Hm c hello g Hc') as Hse.
    rewrite <-Hsv in He, Hse. rewrite <-Hg in Hse. rewrite <-Hms in Ha.
    rewrite (call_begin_remote _ _ _ _ e _ Hloc He Ha Hse). unfold call_register. cbn [fetch_add1].
    unfold call_send. rewrite Htx. by rewrite (proj2 (chan_send_None _ c _)).
Qed.
End broker.

(** * At the app *)

Section client.
Context {Q Nt : Type} `{LawfulMpsc Q BusFrame, LawfulNotify Nt}.
Implicit Types p : Proc Q Nt.

Lemma muted_pexec p l p' :
  pexec p l = Some p' -> rx_alive (c_tx (p_client p)) = false -> p_reader p = RReading -> l <> PEnd ->
  rx_alive (c_tx (p_client p')) = false /\ p_reader p' = RReading /\ p_wire p' = p_wire p.
Proof.
  intros Hx Hd Hr Hl. destruct (pexec_stream p l p' Hx Hr Hl) as [Hr' Hs].
  unfold stream_from in Hs. by inversion Hs; subst; rewrite ?Hd in *.
Qed.

(** C26: an app whose writer task has ended is mute, unnoticed. While its
    reader runs it goes on reading requests and dispatching them to its
    handlers, but in any continuation not one more frame reaches the broker:
    the answers are dropped, [invoke] returns [ConnectionClosed], and neither
    [run_until_shutdown] nor the broker is told. A single response that cannot
    be written, for instance because it is too large, is enough. *)
Theorem muted_client (p p' : Proc Q Nt) ls :
  rx_alive (c_tx (p_client p)) = false -> p_reader p = RReading -> PEnd ∉ ls -> prun p ls = Some p' ->
  p_wire p' = p_wire p /\ p_reader p' = RReading
  /\ (forall now inv, exists p1, pexec p' (PFrame now (BusFrame.Invoke inv)) = Some p1
        /\ p_tasks p1 !! p_next_id p' = Some (PDispatch inv DStart))
  /\ forall id a k, p_tasks p' !! id = Some (PInvoke a (ISend k)) ->
       exists p1, pexec p' (PStep id) = Some p1
         /\ p_tasks p1 !! id = Some (PInvoke a (IDone (Err BusError.ConnectionClosed))).
Proof.
  revert p. induction ls as [|l ls IH]; intros p Hd Hr Hl Hrun; simpl in Hrun.
  - injection Hrun as <-. split; [done|]. split; [done|]. split.
    + intros now inv. eexists. split; [unfold pexec; simpl; by rewrite Hr|]. simpl. apply lookup_insert_eq.
    + intros id a k Ht. eexists. split.
      * unfold pexec. simpl. rewrite Ht. simpl. unfold invoke_send, send. by rewrite send_dead.
      * simpl. apply lookup_insert_eq.
  - apply bind_Some in Hrun as (p1 & Hx & Hrun).
    destruct (muted_pexec p l p1 Hx Hd Hr) as (Hd1 & Hr1 & <-); [intros ->; apply Hl; by left|].
    apply (IH p1); [done|done|intros Hin; apply Hl; by right|done].
Qed.
End client.

(** * Concrete runs *)

(** The writer of [echo] fails to write the request of [app], and the host
    calls [echo] once more. *)
Definition muting_script : list Label := removelast script_waiting ++ [LWriter 0 false].
Definition muted_world : World (Fifo BusFrame) := run_example muting_script.

(** The writer of the app fails to write its request. *)
Definition mute_script : list PLabel := [PCall call_fs; PStep 0; PStep 0; PWriter false].

Lemma muted_connection_witness :
  exists w', run no_capabilities muted_world [LCall routed_args] = Some w'
    /\ chan_open (heap muted_world) 0 = false
    /\ (call_begin (broker w') (heap w') 9 routed_args).2
       = CDone (Err (BusError.ServiceNotFound "echo")).
Proof.
  destruct (run no_capabilities muted_world [LCall routed_args]) as [w'|] eqn:Hrun;
    [|vm_compute in Hrun; discriminate Hrun].
  exists w'. split; [reflexivity|]. split; [vm_compute; reflexivity|].
  assert (Hm : muted_world = run_example muting_script) by reflexivity.
  destruct (muted_connection no_capabilities BrokerConfig.default (N.of_nat (length muting_script)) muted_world w'
    0 echo_hello 1 [LCall routed_args]) as (Hc & Hw & Hcall).
  - rewrite Hm. apply example_reachable. vm_compute. reflexivity.
  - reflexivity.
  - vm_compute. reflexivity.
  - vm_compute. reflexivity.
  - intros Hin. apply elem_of_cons in Hin as [Heq|Hin]; [discriminate Heq|]. exact (not_elem_of_nil _ Hin).
  - exact Hrun.
  - assert (Hx : (fun w => (entered w !! "echo", Broker.local_services (broker w) !! "echo"))
        <$> run no_capabilities muted_world [LCall routed_args] = Some (Some 0%N, None))
      by (vm_compute; reflexivity).
    rewrite Hrun in Hx. apply Some_inj in Hx. apply pair_equal_spec in Hx as [Hla Hlo].
    destruct Hcall as [_ Hcall]. destruct (Hcall Hla) as (e & _ & _ & _ & Hrefused).
    apply (Hrefused 9%N routed_args); [reflexivity|exact Hlo|].
    exists ping_decl. split; [reflexivity|]. intros _ Hx. discriminate Hx.
Defined.

Lemma muted_client_witness :
  exists p', prun (client_run mute_script) [PFrame 5 (BusFrame.Invoke list_request); PStep 1] = Some p'
    /\ p_wire p' = [] /\ p_reader p' = RReading.
Proof.
  destruct (prun (client_run mute_script) [PFrame 5 (BusFrame.Invoke list_request); PStep 1]) as [p'|] eqn:Hrun;
    [|vm_compute in Hrun; discriminate Hrun].
  exists p'. split; [reflexivity|].
  destruct (muted_client (client_run mute_script) p' [PFrame 5 (BusFrame.Invoke list_request); PStep 1])
    as (Hw & Hr & _).
  - vm_compute. reflexivity.
  - vm_compute. reflexivity.
  - intros Hin. repeat (apply elem_of_cons in Hin as [Heq|Hin]; [discriminate Heq|]). exact (not_elem_of_nil _ Hin).
  - exact Hrun.
  - split; [rewrite Hw; vm_compute; reflexivity|exact Hr].
Defined.
