(* ===== verification/Sdk.v ===== *)
(** What a connected client promises to its app, as an abstract machine, and
    the proof that the process of client.rs implements it.

    The machine is a table of jobs: the app's calls, the invocations being
    served, and those who wait for the shutdown. It has no request counter,
    pending table, oneshot cells, queues or [Notify]. [sdk_of] reads the
    machine's state off a [Proc]; every step of the process is a step of the
    machine ([client_refines_sdk]). *)

From stdpp Require Import prelude gmap strings.
From S2P Require Import Prelude Frame Runtime Client ClientSafety ClientOrigins ClientGuarantees.

(** * The abstract machine *)

Inductive Job :=
(** A call of the app: before it is sent, under a number, answered, over. *)
| JCalling (a : InvokeArgs)
| JAsked (a : InvokeArgs) (number : N)
| JAnswered (a : InvokeArgs) (r : result bytes BusError)
| JReturned (a : InvokeArgs) (r : result bytes BusError)
(** An invocation: just read, at its handler, about to be answered. *)
| JReceived (inv : Invoke)
| JHandling (inv : Invoke) (h : InvokeHandler) (user_id : option string)
| JReplying (inv : Invoke) (r : result bytes BusError)
(** A caller of [run_until_shutdown], who may go or not. *)
| JBlocked (released : bool)
| JOver.

(** [stopped]: the shutdown has happened. *)
Record Sdk := mkSdk { stopped : bool; activity : N; jobs : gmap task_id Job }.

Inductive SdkEvent :=
| SvResponse (resp : Response)
| SvInvoke (now : N) (inv : Invoke)
| SvStop
| SvHandled (id : task_id) (r : result bytes BusError)
| SvIdle (id : task_id) (now : N)
| SvDrop (id : task_id)
| SvOther.

Definition put_job (id : task_id) (j : Job) (s : Sdk) : Sdk :=
  mkSdk (stopped s) (activity s) (<[id := j]> (jobs s)).
Definition end_job (id : task_id) (s : Sdk) : Sdk :=
  mkSdk (stopped s) (activity s) (delete id (jobs s)).

(** The shutdown lets everyone go who waits for it. *)
Definition release (j : Job) : Job := match j with JBlocked _ => JBlocked true | j => j end.

(** No call waits for the number. *)
Definition unasked (s : Sdk) (k : N) : Prop := forall id a, jobs s !! id <> Some (JAsked a k).

(** What its app may drop. *)
Definition abandonable (j : Job) : bool :=
  match j with JCalling _ | JAsked _ _ | JAnswered _ _ | JBlocked _ => true | _ => false end.

(** The settings of a client: its service, its handlers and its threshold. *)
Inductive sdk_step (service : string) (handlers : gmap string InvokeHandler) (idle : option Duration)
    (s : Sdk) : SdkEvent -> Sdk -> Prop :=
| ss_call id a : jobs s !! id = None -> sdk_step service handlers idle s SvOther (put_job id (JCalling a) s)
| ss_ask id a k : jobs s !! id = Some (JCalling a) -> unasked s k ->
    sdk_step service handlers idle s SvOther (put_job id (JAsked a k) s)
| ss_lost id a j : jobs s !! id = Some j ->
    (exists k, j = JAsked a k) \/ (exists r, j = JAnswered a r) ->
    sdk_step service handlers idle s SvOther (put_job id (JReturned a (Err BusError.ConnectionClosed)) s)
| ss_take id a resp : jobs s !! id = Some (JAsked a resp.(Response.req_id)) ->
    sdk_step service handlers idle s (SvResponse resp) (put_job id (JAnswered a resp.(Response.result)) s)
| ss_ignore resp : unasked s resp.(Response.req_id) -> sdk_step service handlers idle s (SvResponse resp) s
| ss_return id a r : jobs s !! id = Some (JAnswered a r) ->
    sdk_step service handlers idle s SvOther (put_job id (JReturned a r) s)
| ss_receive id now inv : jobs s !! id = None ->
    sdk_step service handlers idle s (SvInvoke now inv)
      (mkSdk (stopped s) now (<[id := JReceived inv]> (jobs s)))
| ss_handle id inv h : jobs s !! id = Some (JReceived inv) -> handlers !! inv.(Invoke.method) = Some h ->
    sdk_step service handlers idle s SvOther
      (put_job id (JHandling inv h inv.(Invoke.caller).(CallerCtx.user_id)) s)
| ss_refuse id inv : jobs s !! id = Some (JReceived inv) -> handlers !! inv.(Invoke.method) = None ->
    sdk_step service handlers idle s SvOther
      (put_job id (JReplying inv (Err (BusError.MethodNotFound service inv.(Invoke.method)))) s)
| ss_handled id inv h u r : jobs s !! id = Some (JHandling inv h u) ->
    sdk_step service handlers idle s (SvHandled id r) (put_job id (JReplying inv r) s)
| ss_reply id inv r : jobs s !! id = Some (JReplying inv r) ->
    sdk_step service handlers idle s SvOther (end_job id s)
| ss_wait id : jobs s !! id = None -> sdk_step service handlers idle s SvOther (put_job id (JBlocked false) s)
| ss_stop : stopped s = false ->
    sdk_step service handlers idle s SvStop (mkSdk true (activity s) (release <$> jobs s))
| ss_stopped : stopped s = true -> sdk_step service handlers idle s SvStop s
| ss_released id : jobs s !! id = Some (JBlocked true) ->
    sdk_step service handlers idle s SvOther (put_job id JOver s)
| ss_idle id b now thresh : jobs s !! id = Some (JBlocked b) -> idle = Some thresh ->
    (activity s + thresh <= now)%N \/ thresh = 0%N ->
    sdk_step service handlers idle s (SvIdle id now) (put_job id JOver s)
| ss_drop id j : jobs s !! id = Some j -> abandonable j = true ->
    sdk_step service handlers idle s (SvDrop id) (end_job id s)
| ss_skip : sdk_step service handlers idle s SvOther s.

(** * The machine of a process *)

Section refinement.
Context {Q Nt : Type} `{LawfulMpsc Q BusFrame, LawfulNotify Nt}.
Implicit Types p : Proc Q Nt.

Definition job_of (n : Nt) (reply : option Response) (t : PTask) : Job :=
  match t with
  | PInvoke a IStart => JCalling a
  | PInvoke a (ISend k | IAwait k) =>
      match reply with Some resp => JAnswered a resp.(Response.result) | None => JAsked a k end
  | PInvoke a (IDone r) => JReturned a r
  | PDispatch inv DStart => JReceived inv
  | PDispatch inv (DRun h u) => JHandling inv h u
  | PDispatch inv (DReply r) => JReplying inv r
  | PWaiter i => JBlocked (woken n i)
  | PReturned => JOver
  end.
Definition jobs_of p : gmap task_id Job :=
  map_imap (fun id t => Some (job_of (notify_of p) (p_replies p !! id) t)) (p_tasks p).
Definition sdk_of p : Sdk := mkSdk (fired p) (c_last_activity (p_client p)) (jobs_of p).

Definition sdk_event (l : PLabel) : SdkEvent :=
  match l with
  | PFrame _ (BusFrame.Response resp) => SvResponse resp
  | PFrame now (BusFrame.Invoke inv) => SvInvoke now inv
  | PFrame _ BusFrame.Shutdown | PEnd | PShutdown => SvStop
  | PHandled id r => SvHandled id r
  | PIdle id now => SvIdle id now
  | PDrop id => SvDrop id
  | _ => SvOther
  end.

(** The entries of the pending table belong to distinct calls without a
    reply. *)
Record pending_unique p : Prop := {
  pu_reply k id : pending p !! k = Some id -> p_replies p !! id = None;
  pu_inj k k' id : pending p !! k = Some id -> pending p !! k' = Some id -> k = k'
}.

(** How a step changes the tables of calls. *)
Inductive p_tables p (l : PLabel) p' : Prop :=
| pt_same : pending p' = pending p -> p_replies p' = p_replies p -> p_tables p l p'
| pt_register id a : p_tasks p !! id = Some (PInvoke a IStart) ->
    pending p' = <[next_req p := id]> (pending p) -> p_replies p' = p_replies p -> l = PStep id -> p_tables p l p'
| pt_taken id now resp : l = PFrame now (BusFrame.Response resp) ->
    pending p !! resp.(Response.req_id) = Some id ->
    pending p' = delete resp.(Response.req_id) (pending p) ->
    p_replies p' = <[id := resp]> (p_replies p) -> p_tables p l p'.

Lemma pexec_tables p l p' : pexec p l = Some p' -> p_tables p l p'.
Proof.
  unfold pexec. intros Hx. destruct (pexec_reader p l) as [p1|] eqn:Hx1; [simplify_eq|
    destruct (pexec_task p l) as [p1|] eqn:Hx2; [simplify_eq|]].
  - destruct l as [| | | | | | | | | | | |now f| | |wr]; try done; simpl in Hx1.
    + destruct (p_reader p); try done. destruct f; simpl in Hx1; try (injection Hx1 as <-; by apply pt_same).
      * injection Hx1 as <-. destruct (send_calls (p_client p) BusFrame.Pong) as (_ & Hp & _). by apply pt_same.
      * injection Hx1 as <-. destruct (shutdown_calls (p_client p)) as (_ & Hp & _). by apply pt_same.
      * destruct (c_pending (p_client p) !! _) as [id|] eqn:Hp; injection Hx1 as <-; [|by apply pt_same].
        by eapply pt_taken.
    + destruct (p_reader p); try done. injection Hx1 as <-.
      destruct (shutdown_calls (p_client p)) as (_ & Hp & _). by apply pt_same.
    + destruct (p_reader p); try done. injection Hx1 as <-. by apply pt_same.
    + destruct (mpsc_recv _) as [[f q]|]; [|by destruct (p_reader p)].
      destruct (p_reader p), wr; injection Hx1 as <-; by apply pt_same.
  - destruct l; try done; simpl in Hx2.
    + apply bind_Some in Hx2 as (t & Ht & Hs).
      destruct t as [a [|rid|rid|r]|inv [|h u|r]|i|]; try done; simpl in Hs; simplify_eq; try (by apply pt_same).
      * by eapply pt_register.
      * unfold invoke_send, send in Hs. destruct (mpsc_send _ _); simpl in Hs; simplify_eq; by apply pt_same.
      * destruct (send_calls (p_client p) (BusFrame.Response (dispatch_response inv r))) as (_ & Hp & _).
        by apply pt_same.
    + destruct (p_tasks p !! id) as [[a pc|inv [|h u|r']|i|]|]; simplify_eq. by apply pt_same.
    + destruct (p_tasks p !! id) as [[a [|rid|rid|r]|inv pc|i|]|]; try done.
      destruct (p_replies p !! id); simplify_eq. by apply pt_same.
    + destruct (p_tasks p !! id) as [[a [|rid|rid|r]|inv pc|i|]|]; try done.
      destruct (reply_lost p id rid); simplify_eq. by apply pt_same.
    + destruct (p_tasks p !! id) as [[a pc|inv pc|i|]|]; try done. destruct (woken _ _); simplify_eq. by apply pt_same.
    + destruct (p_tasks p !! id) as [[a pc|inv pc|i|]|]; try done. destruct (idle_expired _ _); simplify_eq. by apply pt_same.
    + destruct (p_tasks p !! id) as [[a [|rid|rid|r]|inv pc|i|]|]; simplify_eq; by apply pt_same.
  - destruct l; try done; simpl in Hx.
    + simplify_eq. by apply pt_same.
    + unfold publish, send_or_closed, send in Hx. destruct (mpsc_send _ _); simplify_eq; by apply pt_same.
    + unfold client_subscribe, send_or_closed, send in Hx. destruct (mpsc_send _ _); simplify_eq; by apply pt_same.
    + simplify_eq. destruct (shutdown_calls (p_client p)) as (_ & Hp & _). by apply pt_same.
    + destruct (notified _). simplify_eq. by apply pt_same.
Qed.
Lemma pending_unique_exec n p l p' :
  client_ok n p -> pexec p l = Some p' -> pending_unique p -> pending_unique p'.
Proof.
  intros Hok Hx [Pr Pi]. destruct (pexec_tables p l p' Hx)
    as [Hp Hr|id a Ht Hp Hr|id now resp _ Hk Hp Hr]; split; rewrite Hp, ?Hr.
  - done.
  - done.
  - intros k id' [[<- <-]|[_ ?]]%lookup_insert_Some; [|by eapply Pr].
    destruct (p_replies p !! id) as [resp|] eqn:He; [|done].
    destruct (ck_reply n p Hok _ _ He) as [_ Hb]. by destruct (Hb a).
  - assert (Hno : forall k, pending p !! k <> Some id).
    { intros k Hk. destruct (ck_pending n p Hok _ _ Hk) as (_ & _ & Hb). by destruct (Hb _ _ Ht). }
    intros k k' id' [[<- <-]|[_ ?]]%lookup_insert_Some [[<- ?]|[_ ?]]%lookup_insert_Some; subst; try done;
      [by edestruct Hno|by edestruct Hno|by eapply Pi].
  - intros k id' [Hne Hk']%lookup_delete_Some. rewrite lookup_insert_ne; [by eapply Pr|].
    intros ->. apply Hne. by eapply Pi.
  - intros k k' id' [_ ?]%lookup_delete_Some [_ ?]%lookup_delete_Some. by eapply Pi.
Qed.

Lemma reachable_pending_unique c0 n p :
  fresh c0 -> preachable c0 n p -> (n + 1 < U64_SIZE)%N -> pending_unique p.
Proof.
  intros Hf. induction 1 as [|n p l p' Hr IH Hx]; intros Hb.
  - destruct Hf as (Hp & _). split; unfold pending; simpl; rewrite Hp; intros *; by rewrite lookup_empty.
  - eapply (pending_unique_exec n p); [eapply reachable_client_ok; [done..|lia]|done|apply IH; lia].
Qed.

(** ** Reading the machine *)

Lemma jobs_lookup p id :
  jobs_of p !! id = job_of (notify_of p) (p_replies p !! id) <$> p_tasks p !! id.
Proof. unfold jobs_of. rewrite map_lookup_imap. by destruct (p_tasks p !! id). Qed.

(** Two processes whose jobs agree but for [id]. *)
Lemma jobs_put p p' id j :
  (forall i, i <> id -> jobs_of p' !! i = jobs_of p !! i) -> jobs_of p' !! id = Some j ->
  jobs_of p' = <[id := j]> (jobs_of p).
Proof.
  intros Hi Hx. apply map_eq. intros i. destruct (decide (i = id)) as [->|Hne].
  - by rewrite lookup_insert_eq.
  - rewrite lookup_insert_ne by done. by apply Hi.
Qed.

(** Only the writer, the activity or the reader differ. *)
Lemma sdk_same p p' :
  p_tasks p' = p_tasks p -> p_replies p' = p_replies p -> notify_of p' = notify_of p ->
  fired p' = fired p -> c_last_activity (p_client p') = c_last_activity (p_client p) ->
  sdk_of p' = sdk_of p.
Proof.
  intros Ht Hr Hn Hf Ha. unfold sdk_of. rewrite Hf, Ha. f_equal.
  apply map_eq. intros i. by rewrite !jobs_lookup, Ht, Hr, Hn.
Qed.

(** One task is set. *)
Lemma sdk_put p p' id t :
  p_tasks p' = <[id := t]> (p_tasks p) -> p_replies p' = p_replies p -> notify_of p' = notify_of p ->
  fired p' = fired p -> c_last_activity (p_client p') = c_last_activity (p_client p) ->
  sdk_of p' = put_job id (job_of (notify_of p) (p_replies p !! id) t) (sdk_of p).
Proof.
  intros Ht Hr Hn Hf Ha. unfold sdk_of, put_job. simpl. rewrite Hf, Ha. f_equal. apply jobs_put.
  - intros i Hne. by rewrite !jobs_lookup, Ht, Hr, Hn, lookup_insert_ne.
  - by rewrite jobs_lookup, Ht, Hr, Hn, lookup_insert_eq.
Qed.

(** One task ends. *)
Lemma sdk_end p p' id :
  p_tasks p' = delete id (p_tasks p) -> p_replies p' = p_replies p -> notify_of p' = notify_of p ->
  fired p' = fired p -> c_last_activity (p_client p') = c_last_activity (p_client p) ->
  sdk_of p' = end_job id (sdk_of p).
Proof.
  intros Ht Hr Hn Hf Ha. unfold sdk_of, end_job. simpl. rewrite Hf, Ha. f_equal.
  apply map_eq. intros i. rewrite jobs_lookup, Ht, Hr, Hn. destruct (decide (i = id)) as [->|Hne].
  - by rewrite !lookup_delete_eq.
  - by rewrite !lookup_delete_ne, jobs_lookup.
Qed.

Lemma job_task p id t :
  p_tasks p !! id = Some t -> jobs (sdk_of p) !! id = Some (job_of (notify_of p) (p_replies p !! id) t).
Proof. intros Ht. simpl. by rewrite jobs_lookup, Ht. Qed.

(** A number somebody asked under is pending for that call. *)
Lemma asked_pending n p id a k :
  client_ok n p -> jobs (sdk_of p) !! id = Some (JAsked a k) ->
  pending p !! k = Some id /\ p_replies p !! id = None.
Proof.
  intros Hok. simpl. rewrite jobs_lookup. intros (t & Ht & Hj)%fmap_Some. symmetry in Hj.
  assert (Hw : exists pc, t = PInvoke a pc /\ inv_wait pc = Some k /\ p_replies p !! id = None).
  { destruct t as [a' [|k'|k'|r]|inv [|h u|r]|i|]; simpl in Hj; try done;
      (destruct (p_replies p !! id); [done|]); injection Hj as -> ->; eauto. }
  destruct Hw as (pc & -> & Hw & Hn). split; [|done]. by apply (ck_wait n p Hok _ _ _ _ Ht Hw).
Qed.
(** ** Steps *)

Abbreviation step_of p := (sdk_step (c_service (p_client p)) (c_handlers (p_client p)) (c_idle_exit (p_client p))).

Section step.
Context n p (Hok : client_ok n p) (Hpu : pending_unique p) (Hwc : waiters_created p).

(** The machine does not change. *)
Local Ltac keeps :=
  match goal with |- sdk_step _ _ _ _ _ (sdk_of ?q) => rewrite (sdk_same p q); [|try done..] end.

(** The shutdown fires, or has fired before. *)
Lemma stop_refines p' :
  p_client p' = shutdown (p_client p) -> p_tasks p' = p_tasks p -> p_replies p' = p_replies p ->
  step_of p (sdk_of p) SvStop (sdk_of p').
Proof using Hwc.
  intros Hc Ht Hr. unfold shutdown in Hc. destruct (c_shutdown_fired (p_client p)) eqn:Hf.
  - rewrite (sdk_same p p'); [by apply ss_stopped|done|done|..]; unfold notify_of, fired; by rewrite Hc.
  - replace (sdk_of p') with (mkSdk true (activity (sdk_of p)) (release <$> jobs (sdk_of p))); [by apply ss_stop|].
    unfold sdk_of, fired. rewrite Hc. simpl. f_equal. apply map_eq. intros i.
    rewrite lookup_fmap, !jobs_lookup, Ht, Hr. destruct (p_tasks p !! i) as [t|] eqn:Hti; [|done].
    simpl. f_equal. unfold notify_of. rewrite Hc. simpl.
    destruct t as [a [|k|k|r]|inv [|h u|r]|j|]; simpl; try done; try (by destruct (p_replies p !! i)).
    by rewrite notify_woken by (by eapply Hwc).
Qed.

(** A response is read. *)
Lemma response_refines p' now resp :
  pexec_reader p (PFrame now (BusFrame.Response resp)) = Some p' ->
  step_of p (sdk_of p) (SvResponse resp) (sdk_of p').
Proof using Hok Hpu.
  intros Hx. simpl in Hx. destruct (p_reader p); try done.
  fold (pending p) in Hx. destruct (pending p !! resp.(Response.req_id)) as [id|] eqn:Hp; injection Hx as <-.
  2: { keeps. apply ss_ignore. intros id a Hj.
       destruct (asked_pending n p id a _ Hok Hj) as [? _]. congruence. }
  pose proof (pu_reply p Hpu _ _ Hp) as Hn.
  assert (Hi : forall p', p_tasks p' = p_tasks p -> notify_of p' = notify_of p ->
    p_replies p' = <[id := resp]> (p_replies p) -> forall i, i <> id -> jobs_of p' !! i = jobs_of p !! i).
  { intros p' Ht Hnt Hr i Hne. by rewrite !jobs_lookup, Ht, Hnt, Hr, lookup_insert_ne. }
  set (p' := put_reply _ _ _). specialize (Hi p' eq_refl eq_refl eq_refl).
  assert (Hj : jobs_of p' !! id = job_of (notify_of p) (Some resp) <$> p_tasks p !! id).
  { rewrite jobs_lookup. subst p'. simpl. by rewrite lookup_insert_eq. }
  assert (Hother : forall i a, i <> id -> jobs (sdk_of p) !! i <> Some (JAsked a resp.(Response.req_id))).
  { intros i a Hne Hji. destruct (asked_pending n p i a _ Hok Hji) as [? _]. congruence. }
  destruct (p_tasks p !! id) as [t|] eqn:Ht.
  - assert (Hcase : (exists a pc, t = PInvoke a pc /\ inv_wait pc = Some resp.(Response.req_id))
      \/ job_of (notify_of p) (Some resp) t = job_of (notify_of p) None t).
    { destruct t as [a pc|inv pc|j|]; [|by right..]. destruct (inv_wait pc) as [k|] eqn:Hw.
      - left. exists a, pc. split; [done|]. destruct (ck_pending n p Hok _ _ Hp) as (_ & _ & Hb).
        destruct (Hb _ _ Ht) as [_ Hk]. by rewrite Hw, (Hk _ Hw).
      - right. by destruct pc. }
    destruct Hcase as [(a & pc & -> & Hw)|Heq].
    + assert (Hjob : jobs (sdk_of p) !! id = Some (JAsked a resp.(Response.req_id))).
      { rewrite (job_task p id _ Ht), Hn. destruct pc; simpl in Hw; simplify_eq; done. }
      replace (sdk_of p') with (put_job id (JAnswered a resp.(Response.result)) (sdk_of p));
        [by apply ss_take|].
      unfold sdk_of, put_job. simpl. f_equal. symmetry. apply jobs_put; [done|]. rewrite Hj. simpl.
      destruct pc; simpl in Hw; simplify_eq; done.
    + replace (sdk_of p') with (sdk_of p); [apply ss_ignore|].
      * intros i a Hji. destruct (decide (i = id)) as [->|Hne]; [|by eapply Hother].
        rewrite (job_task p id _ Ht), Hn, <-Heq in Hji.
        destruct t as [a' [|k|k|r]|inv [|h u|r]|j|]; simpl in Hji; done.
      * unfold sdk_of. simpl. f_equal. apply map_eq. intros i.
        destruct (decide (i = id)) as [->|Hne]; [|by rewrite Hi].
        rewrite Hj, jobs_lookup, Ht, Hn. simpl. by rewrite Heq.
  - replace (sdk_of p') with (sdk_of p); [apply ss_ignore|].
    + intros i a Hji. destruct (decide (i = id)) as [->|Hne]; [|by eapply Hother].
      simpl in Hji. by rewrite jobs_lookup, Ht in Hji.
    + unfold sdk_of. simpl. f_equal. apply map_eq. intros i.
      destruct (decide (i = id)) as [->|Hne]; [|by rewrite Hi]. by rewrite Hj, jobs_lookup, Ht.
Qed.
(** A task that did not exist. *)
Lemma job_fresh : jobs (sdk_of p) !! p_next_id p = None.
Proof using Hok.
  simpl. rewrite jobs_lookup. destruct (p_tasks p !! p_next_id p) as [t|] eqn:Ht; [|done].
  apply (ck_ids n p Hok) in Ht. lia.
Qed.

Lemma reply_fresh : p_replies p !! p_next_id p = None.
Proof using Hok.
  destruct (p_replies p !! p_next_id p) as [resp|] eqn:Hr; [|done].
  apply (ck_reply n p Hok) in Hr as [Hr _]. lia.
Qed.

Lemma invoke_refines p' now inv :
  pexec_reader p (PFrame now (BusFrame.Invoke inv)) = Some p' ->
  step_of p (sdk_of p) (SvInvoke now inv) (sdk_of p').
Proof using Hok.
  intros Hx. simpl in Hx. destruct (p_reader p); try done. injection Hx as <-.
  match goal with |- sdk_step _ _ _ _ _ (sdk_of ?q) => set (p' := q) end.
  replace (sdk_of p') with (mkSdk (stopped (sdk_of p)) now (<[p_next_id p := JReceived inv]> (jobs (sdk_of p))));
    [apply ss_receive, job_fresh|].
  unfold sdk_of. simpl. f_equal. symmetry. apply jobs_put.
  - intros i Hne. rewrite !jobs_lookup. subst p'. simpl. by rewrite lookup_insert_ne.
  - rewrite jobs_lookup. subst p'. simpl. by rewrite lookup_insert_eq.
Qed.

Lemma reader_refines l p' :
  pexec_reader p l = Some p' -> step_of p (sdk_of p) (sdk_event l) (sdk_of p').
Proof using Hok Hpu Hwc.
  intros Hx. destruct l as [| | | | | | | | | | | |now f| | |wr]; try done.
  - destruct f; try (simpl in Hx; destruct (p_reader p); try done; injection Hx as <-; keeps; apply ss_skip).
    + simpl in Hx. destruct (p_reader p); try done. injection Hx as <-.
      destruct (send_calls (p_client p) BusFrame.Pong) as (_ & _ & _ & _ & Hs & Hf & _).
      keeps; [apply ss_skip|]. simpl. unfold send_, send. by destruct (mpsc_send _ _).
    + simpl in Hx. destruct (p_reader p); try done. injection Hx as <-. by apply stop_refines.
    + by apply invoke_refines.
    + by eapply response_refines.
  - simpl in Hx. destruct (p_reader p); try done. injection Hx as <-. by apply stop_refines.
  - simpl in Hx. destruct (p_reader p); try done. injection Hx as <-. keeps. apply ss_skip.
  - simpl in Hx. destruct (mpsc_recv _) as [[f q]|]; [|by destruct (p_reader p)].
    destruct (p_reader p), wr; injection Hx as <-; keeps; apply ss_skip.
Qed.

(** The task [id] becomes [t]. *)
Local Ltac sets i Ht t :=
  pose proof (job_task p i _ Ht) as Hj;
  match goal with |- sdk_step _ _ _ _ _ (sdk_of ?q) => rewrite (sdk_put p q i t) by done end.

Lemma step_refines id t p' :
  p_tasks p !! id = Some t -> pstep_task p id t = Some p' ->
  step_of p (sdk_of p) SvOther (sdk_of p').
Proof using Hok.
  intros Ht Hs. destruct t as [a [|k|k|r]|inv [|h u|r]|i|]; try done; simpl in Hs.
  - injection Hs as <-. sets id Ht (PInvoke a (ISend (next_req p))).
    assert (Hn : p_replies p !! id = None).
    { destruct (p_replies p !! id) as [resp|] eqn:Hr; [|done].
      destruct (ck_reply n p Hok _ _ Hr) as [_ Hb]. by destruct (Hb a). }
    rewrite Hn. apply ss_ask; [done|]. intros i a' Hi.
    destruct (asked_pending n p i a' _ Hok Hi) as [Hp _].
    destruct (ck_pending n p Hok _ _ Hp) as [Hlt _]. lia.
  - unfold invoke_send, send in Hs. destruct (mpsc_send _ _) as [q|]; simpl in Hs; injection Hs as <-.
    + sets id Ht (PInvoke a (IAwait k)). simpl in Hj.
      replace (put_job _ _ _) with (sdk_of p); [apply ss_skip|].
      unfold put_job. rewrite insert_id; [by destruct (sdk_of p)|]. exact Hj.
    + sets id Ht (PInvoke a (IDone (Err BusError.ConnectionClosed))). eapply ss_lost; [exact Hj|].
      simpl. destruct (p_replies p !! id); eauto.
  - injection Hs as <-. sets id Ht (PDispatch inv (dispatch_lookup (p_client p) inv)).
    unfold dispatch_lookup. destruct (c_handlers (p_client p) !! Invoke.method inv) as [h|] eqn:Hh.
    + by apply ss_handle.
    + by apply ss_refuse.
  - injection Hs as <-. pose proof (job_task p id _ Ht) as Hj.
    destruct (send_calls (p_client p) (BusFrame.Response (dispatch_response inv r))) as (_ & _ & _ & _ & Hn & Hf & _).
    match goal with |- sdk_step _ _ _ _ _ (sdk_of ?q) => rewrite (sdk_end p q id); [|try done..] end.
    + by eapply ss_reply.
    + simpl. unfold send_, send. by destruct (mpsc_send _ _).
Qed.

Lemma client_task_refines l p' :
  pexec_task p l = Some p' -> step_of p (sdk_of p) (sdk_event l) (sdk_of p').
Proof using Hok.
  intros Hx. destruct l; try done; simpl in Hx; simpl sdk_event.
  - apply bind_Some in Hx as (t & Ht & Hs). by eapply step_refines.
  - destruct (p_tasks p !! id) as [[a pc|inv [|h u|r']|i|]|] eqn:Ht; simplify_eq.
    sets id Ht (PDispatch inv (DReply r)). by eapply ss_handled.
  - destruct (p_tasks p !! id) as [[a [|k|k|r]|inv pc|i|]|] eqn:Ht; try done.
    destruct (p_replies p !! id) as [resp|] eqn:Hr; simplify_eq.
    sets id Ht (PInvoke a (IDone resp.(Response.result))). apply ss_return. by rewrite Hj, Hr.
  - destruct (p_tasks p !! id) as [[a [|k|k|r]|inv pc|i|]|] eqn:Ht; try done.
    destruct (reply_lost p id k); simplify_eq.
    sets id Ht (PInvoke a (IDone (Err BusError.ConnectionClosed))). eapply ss_lost; [exact Hj|].
    simpl. destruct (p_replies p !! id); eauto.
  - destruct (p_tasks p !! id) as [[a pc|inv pc|i|]|] eqn:Ht; try done.
    destruct (woken _ _) eqn:Hw; simplify_eq. sets id Ht PReturned.
    apply ss_released. rewrite Hj. simpl. unfold notify_of. by rewrite Hw.
  - destruct (p_tasks p !! id) as [[a pc|inv pc|i|]|] eqn:Ht; try done.
    destruct (idle_expired _ _) eqn:Hw; simplify_eq. sets id Ht PReturned.
    unfold idle_expired in Hw. destruct (c_idle_exit (p_client p)) as [thresh|]; [|done].
    apply N.leb_le in Hw. eapply ss_idle; [exact Hj|done|]. simpl. lia.
  - assert (Hd : exists t, p_tasks p !! id = Some t
        /\ abandonable (job_of (notify_of p) (p_replies p !! id) t) = true /\ p' = end_task id p).
    { destruct (p_tasks p !! id) as [[a [|k|k|r]|inv pc|i|]|]; simplify_eq; eexists;
        (split; [done|]); simpl; by destruct (p_replies p !! id). }
    destruct Hd as (t & Ht & Ha & ->). rewrite (sdk_end p (end_task id p) id) by done.
    eapply ss_drop; [by apply job_task|done].
Qed.

Lemma app_refines l p' :
  pexec_app p l = Some p' -> step_of p (sdk_of p) (sdk_event l) (sdk_of p').
Proof using Hok Hwc.
  intros Hx. destruct l; try done; simpl in Hx; simpl sdk_event.
  - injection Hx as <-.
    match goal with |- sdk_step _ _ _ _ _ (sdk_of ?q) => rewrite (sdk_put p q (p_next_id p) (PInvoke a IStart)) by done end.
    apply ss_call, job_fresh.
  - injection Hx as <-. unfold publish, send_or_closed, send.
    destruct (mpsc_send _ _); keeps; apply ss_skip.
  - injection Hx as <-. unfold client_subscribe, send_or_closed, send.
    destruct (mpsc_send _ _); keeps; apply ss_skip.
  - injection Hx as <-. by apply stop_refines.
  - destruct (notified _) as [nt i] eqn:Hn. injection Hx as <-.
    destruct (notified_spec _ _ _ Hn) as (_ & Hw & Hold).
    match goal with |- sdk_step _ _ _ _ _ (sdk_of ?q) => set (p' := q) end.
    replace (sdk_of p') with (put_job (p_next_id p) (JBlocked false) (sdk_of p)); [apply ss_wait, job_fresh|].
    unfold sdk_of, put_job. simpl. f_equal. symmetry. apply jobs_put.
    + intros j Hne. rewrite !jobs_lookup. subst p'. simpl. rewrite lookup_insert_ne by done.
      destruct (p_tasks p !! j) as [t|] eqn:Ht; [|done]. simpl. f_equal. unfold notify_of. simpl.
      destruct t as [a [|k|k|r]|inv [|h u|r]|j'|]; simpl; try done.
      f_equal. by apply (Hold j' (Hwc _ _ Ht)).
    + rewrite jobs_lookup. subst p'. simpl. rewrite lookup_insert_eq. simpl. unfold notify_of. simpl. by rewrite Hw.
Qed.
End step.

(** The settings of a client never change. *)
Lemma settings_kept c0 n p :
  preachable c0 n p -> c_service (p_client p) = c_service c0 /\ c_handlers (p_client p) = c_handlers c0
    /\ c_idle_exit (p_client p) = c_idle_exit c0.
Proof.
  induction 1 as [|n p l p' Hr (Hs & Hh & Hi) Hx]; [done|].
  destruct (pl_service _ _ _ (pexec_logs p l p' Hx)) as [Hh' Hs'].
  rewrite Hs', Hh', (ef_idle p l p' (exec_effects p l p' Hx)). done.
Qed.

(** C8: the client implements the abstract machine. A client that has just been
    built has no jobs and has not stopped, and every step of its process,
    whatever its app, its handlers and the broker do, is a step of the
    machine: a call is sent under a number nobody waits for; a response goes
    to the one call that waits for its number, if any, and changes nothing
    else; an invocation becomes a job that the registered handler, or
    [MethodNotFound], answers once; the first shutdown lets everyone go who
    waits at that moment, later ones do nothing, and a call of
    [run_until_shutdown] made after it is only let go by the idle
    threshold. *)
Theorem client_refines_sdk c0 :
  fresh c0 -> sdk_of (new_proc c0) = mkSdk false (c_last_activity c0) ∅
  /\ forall n p l p', preachable c0 n p -> (n + 1 < U64_SIZE)%N -> pexec p l = Some p' ->
       sdk_step (c_service c0) (c_handlers c0) (c_idle_exit c0) (sdk_of p) (sdk_event l) (sdk_of p').
Proof.
  intros Hf. split.
  - destruct Hf as (_ & _ & Hs). unfold sdk_of, fired. simpl. by rewrite Hs.
  - intros n p l p' Hr Hb Hx. destruct (settings_kept c0 n p Hr) as (<- & <- & <-).
    pose proof (reachable_client_ok c0 n p Hf Hr Hb) as Hok.
    pose proof (reachable_pending_unique c0 n p Hf Hr Hb) as Hpu.
    pose proof (reachable_waiters c0 n p Hr) as Hwc. unfold pexec in Hx.
    destruct (pexec_reader p l) eqn:Hx1; [simplify_eq; by eapply reader_refines|].
    destruct (pexec_task p l) eqn:Hx2; [simplify_eq; by eapply client_task_refines|]. by eapply app_refines.
Qed.
End refinement.

(** The shutdown lets the caller of [run_until_shutdown] go. *)
Lemma client_refines_sdk_witness :
  exists p', pexec (client_run waiting_script) PEnd = Some p'
    /\ sdk_step "notes" {["list" := 7%N]} None (sdk_of (client_run waiting_script)) SvStop (sdk_of p')
    /\ jobs (sdk_of (client_run waiting_script)) !! 0%N = Some (JBlocked false)
    /\ jobs (sdk_of p') !! 0%N = Some (JBlocked true).
Proof.
  destruct (pexec (client_run waiting_script) PEnd) as [p'|] eqn:Hx; [|exfalso; vm_compute in Hx; discriminate Hx].
  exists p'. split; [reflexivity|]. split.
  - apply (proj2 (client_refines_sdk notes_client notes_fresh) 1%N (client_run waiting_script) PEnd p'
      (client_run_reachable waiting_script eq_refl) eq_refl Hx).
  - split; [vm_compute; reflexivity|].
    assert (Hj : (fun q => jobs (sdk_of q) !! 0%N) <$> pexec (client_run waiting_script) PEnd
      = Some (Some (JBlocked true))) by (vm_compute; reflexivity).
    rewrite Hx in Hj. change (Some (jobs (sdk_of p') !! 0%N) = Some (Some (JBlocked true))) in Hj.
    injection Hj as Hj. exact Hj.
Defined.
