(* ===== verification/Net.v ===== *)
(** The whole system: a broker process and the apps connected to it through
    the client of crates/client, joined by their streams.

    A connection of the broker is either the other end of an app that uses the
    client, or a foreign peer that may send anything.  The two ends are joined
    by their histories: an end reads the next frame the other end has written,
    in order, or sees the stream end at any time.  [nexec] performs one step
    of one end. *)

From stdpp Require Import prelude gmap strings.
From Stdlib Require Import Ascii.
From S2P Require Import Prelude Frame Runtime Registry Broker Session System Invariant Steps History Calls Guarantees Hosting Origins Transport ClientConfig Client ClientSafety ClientOrigins ClientGuarantees.

(** The frames a broker sends, and the frames the client sends after its
    [Hello]. *)
Definition broker_frame (f : BusFrame) : bool :=
  match f with
  | BusFrame.HelloAck _ | BusFrame.Response _ | BusFrame.Invoke _ | BusFrame.Event _ | BusFrame.Shutdown => true
  | _ => false
  end.
Definition client_frame (f : BusFrame) : bool :=
  match f with
  | BusFrame.Pong | BusFrame.Response _ | BusFrame.Invoke _ | BusFrame.Publish _ | BusFrame.Subscribe _ => true
  | _ => false
  end.

Section net.
Context {Q Nt : Type} `{LawfulMpsc Q BusFrame, LawfulNotify Nt}.
Context (parse : bytes -> result CapabilityResponse string) (dbg : BusFrame -> string).
(** [handles h payload caller r]: the app's handler [h] may return [r]. *)
Context (handles : InvokeHandler -> bytes -> CallerCtx -> result bytes BusError -> Prop).
(** [resolves h a r]: the host's local service [h] may return [r] for [a]. *)
Context (resolves : LocalServiceHandler -> CallArgs -> result bytes BusError -> Prop).

(** * The joint state *)

(** [establish]: the [Hello] has been written, the reply has been read and the
    process runs, or [establish] has returned an error. *)
Inductive AppPc :=
| AConnecting
| AConnected (p : Proc Q Nt)
| AFailed (e : BusError).

Record App := mkApp { app_builder : BusClientBuilder; app_hello : HelloRequest; app_pc : AppPc }.

Record Net := mkNet { world : World Q; apps : gmap conn_id App }.

Definition set_app (c : conn_id) (a : App) (pc : AppPc) (s : Net) : Net :=
  mkNet (world s) (<[c := mkApp (app_builder a) (app_hello a) pc]> (apps s)).

(** The frames an app has written to its stream. *)
Definition app_sent (a : App) : list BusFrame :=
  BusFrame.Hello (app_hello a) :: match app_pc a with AConnected p => p_wire p | _ => [] end.

Inductive NLabel :=
(** A step of the broker process, in which a connection may read. *)
| NBroker (l : Label)
(** An app with process id [pid] calls [connect] on its builder; its stream
    is accepted and carries its [Hello]. *)
| NConnect (pid : N) (b : BusClientBuilder)
(** [establish] reads the reply; a step of the connected client. *)
| NReply (c : conn_id) (read : result (option BusFrame) BusError) (now : N)
| NApp (c : conn_id) (l : PLabel).

(** * Steps *)

(** The broker reads what the app has written next; a peer that is not an app
    of the model may have written anything. *)
Definition broker_reads (s : Net) (c : conn_id) (f : BusFrame) : bool :=
  match apps s !! c with
  | Some a => bool_decide (app_sent a !! length (inbox_of (world s) c) = Some f)
  | None => true
  end.
Definition label_reads (s : Net) (l : Label) : bool :=
  match l with
  | LHello c (Ok (Some f)) _ | LFrame c f => broker_reads s c f
  | _ => true
  end.

Definition nexec (s : Net) (l : NLabel) : option Net :=
  match l with
  | NBroker l =>
      if label_reads s l then w ← exec parse (world s) l; Some (mkNet w (apps s)) else None
  | NConnect pid b =>
      match hello_of pid b with
      | Ok hello =>
          w ← exec parse (world s) LAccept;
          Some (mkNet w (<[next_id (world s) := mkApp b hello AConnecting]> (apps s)))
      | Err _ => None
      end
  | NReply c read now =>
      match apps s !! c with
      | Some (mkApp b hello AConnecting as a) =>
          if match read with Ok (Some f) => bool_decide (wire_of (world s) c !! 0 = Some f) | _ => true end
          then Some (set_app c a
                 (match handshake_reply dbg read with
                  | Ok _ =>
                      AConnected (new_proc (new_client hello.(HelloRequest.service)
                        b.(BusClientBuilder.handlers)
                        (b.(BusClientBuilder.cfg)).(ClientConfig.idle_exit) now))
                  | Err e => AFailed e
                  end) s)
          else None
      | _ => None
      end
  | NApp c l =>
      match apps s !! c with
      | Some (mkApp b hello (AConnected p) as a) =>
          if match l with
             | PFrame _ f => bool_decide (wire_of (world s) c !! S (length (p_inbox p)) = Some f)
             | _ => true
             end
          then p' ← pexec p l; Some (set_app c a (AConnected p') s)
          else None
      | _ => None
      end
  end.

(** A handler only returns what [handles] and [resolves] allow. *)
Definition nobeys (s : Net) (l : NLabel) : Prop :=
  match l with
  | NApp c l => forall b hello p, apps s !! c = Some (mkApp b hello (AConnected p)) -> obeys handles p l
  | NBroker (LLocal id r) => forall o a h,
      tasks (world s) !! id = Some (TCall o a (CAwaitLocal h)) -> resolves h a r
  | _ => True
  end.

Definition ninit (config : BrokerConfig) : Net := mkNet (init config) ∅.

Fixpoint nrun (s : Net) (ls : list NLabel) : option Net :=
  match ls with
  | [] => Some s
  | l :: ls => s' ← nexec s l; nrun s' ls
  end.

Inductive nreachable (config : BrokerConfig) : N -> Net -> Prop :=
| nreachable_init : nreachable config 0 (ninit config)
| nreachable_step n s l s' :
    nreachable config n s -> nobeys s l -> nexec s l = Some s' -> nreachable config (n + 1) s'.

(** * What an app may get *)

(** The call of [method] of [service] that the broker makes of the [invoke] of
    the app registered as [me]. *)
Definition call_of (config : BrokerConfig) (me service method : string) (a : InvokeArgs) : CallArgs := {|
  CallArgs.service := service; CallArgs.method := method; CallArgs.payload := i_payload a;
  CallArgs.caller := CallerCtx.set_caller_app_id (Some me) (i_caller a);
  CallArgs.timeout := config.(BrokerConfig.default_call_timeout) |}.

(** What an app built with [b] may answer to the call. *)
Definition app_answers (b : BusClientBuilder) (a : CallArgs) (r : result bytes BusError) : Prop :=
  match b.(BusClientBuilder.handlers) !! a.(CallArgs.method) with
  | Some h => handles h a.(CallArgs.payload) a.(CallArgs.caller) r
  | None => r = Err (BusError.MethodNotFound a.(CallArgs.service) a.(CallArgs.method))
  end.

(** What the caller may get, and from whom: a refusal of the broker, the
    timeout of the call, what a handler the host registered for the service may
    return for the call, or a response read from a connection registered for
    the service under a number that this call alone had there. *)
Inductive delivered (s : Net) (a : CallArgs) : result bytes BusError -> Prop :=
| dv_refused e : refused (world s) a e -> delivered s a (Err e)
| dv_timeout : a.(CallArgs.timeout) <> 0%N -> delivered s a (Err (timeout_error a))
| dv_local h r : hosts (world s) a.(CallArgs.service) h -> resolves h a r -> delivered s a r
| dv_served c hello g resp : registered (world s) c hello g ->
    hello.(HelloRequest.service) = a.(CallArgs.service) ->
    BusFrame.Response resp ∈ inbox_of (world s) c ->
    sole_invoke (world s) c resp.(Response.req_id) a ->
    (forall app, apps s !! c = Some app -> app_answers (app_builder app) a resp.(Response.result)) ->
    delivered s a resp.(Response.result).

(** * The projections *)

(** A connected client is in a state its own process can reach, and has read
    the beginning of what the broker wrote. *)
Definition connected_ok (n : N) (w : World Q) (c : conn_id) (a : App) (p : Proc Q Nt) : Prop :=
  (exists m c0, (m <= n)%N /\ fresh c0 /\ queued (c_tx c0) = [] /\ preachable c0 m p)
  /\ client_origins handles p
  /\ c_handlers (p_client p) = (app_builder a).(BusClientBuilder.handlers)
  /\ c_service (p_client p) = (app_hello a).(HelloRequest.service)
  /\ exists ack, BusFrame.HelloAck ack :: p_inbox p `prefix_of` wire_of w c.

Record app_ok (n : N) (w : World Q) (c : conn_id) (a : App) : Prop := {
  ao_id : (c < next_id w)%N;
  ao_hello : exists pid, hello_of pid (app_builder a) = Ok (app_hello a);
  ao_sent : inbox_of w c `prefix_of` app_sent a;
  ao_connected p : app_pc a = AConnected p -> connected_ok n w c a p
}.

Record net_ok (config : BrokerConfig) (n : N) (s : Net) : Prop := {
  no_world : exists m, (m <= n)%N /\ reachable parse config m (world s);
  no_app c a : apps s !! c = Some a -> app_ok n (world s) c a;
  no_local h a r : (h, a, r) ∈ resolved (world s) -> resolves h a r
}.

Lemma prefix_lookup_snoc {A} (l k : list A) x :
  l `prefix_of` k -> k !! length l = Some x -> l ++ [x] `prefix_of` k.
Proof.
  intros [m ->]. rewrite lookup_app_r, Nat.sub_diag by lia. destruct m as [|y m]; [done|].
  intros [= ->]. exists m. by rewrite <-app_assoc.
Qed.

(** What a step adds to the answers of the local services. *)
Lemma exec_resolved (w : World Q) l w' h a r :
  exec parse w l = Some w' -> (h, a, r) ∈ resolved w' ->
  (h, a, r) ∈ resolved w
  \/ exists id o, l = LLocal id r /\ tasks w !! id = Some (TCall o a (CAwaitLocal h)).
Proof.
  unfold exec. intros Hx Hin. destruct (exec_conn w l) as [w1|] eqn:Hx1; simplify_eq.
  { left. destruct l as [|c0 read wr|c0 wr|c0|c0 f|c0|c0|c0 wr|c0| | | | | | | | | | |]; try done;
      [..|apply exec_session in Hx1; by destruct Hx1 as [| | |? ? ? ? ? ? [] ?]];
      simpl in Hx1; repeat (case_match; try done); simplify_eq; try done;
      unfold spawn_opt, log_in, log_out in *; repeat case_match; simplify_eq; done. }
  destruct (exec_task parse w l) as [w1|] eqn:Hx2; simplify_eq.
  { destruct l as [| | | | | | | | | |i|i r'|i|i|i|i|i| | |]; try done; simpl in Hx2;
      destruct (tasks w !! i) as [[o a' pc|c resp|svc cr|svc hd|tx]|] eqn:Ht; try done.
    - destruct (call_step _ _ _ _ _) as [[h' pc']|]; [|done]. injection Hx2 as <-. by left.
    - destruct pc; try done. injection Hx2 as <-. simpl in Hin.
      apply elem_of_app in Hin as [?|Hin]; [by left|right].
      apply list_elem_of_singleton in Hin. simplify_eq. eauto.
    - destruct pc; try done. destruct (replies _ !! i); [|done]. injection Hx2 as <-. by left.
    - destruct pc; try done. destruct (sender_dropped _ _ _ _); [|done]. injection Hx2 as <-. by left.
    - destruct (bool_decide _); [done|]. destruct pc; try done; injection Hx2 as <-; by left.
    - destruct pc; try done. injection Hx2 as <-. left. destruct o; simpl in *; repeat case_match; done.
    - injection Hx2 as <-. by left.
    - injection Hx2 as <-. by left.
    - injection Hx2 as <-. by left.
    - injection Hx2 as <-. by left.
    - destruct o; try done. destruct (droppable pc); [|done]. injection Hx2 as <-. by left. }
  left. destruct l; try done; simpl in Hx; injection Hx as <-; try done. by destruct (shutdown_target _ _).
Qed.

(** The broker's part of a step. *)
Lemma nexec_world s l s' :
  nexec s l = Some s' ->
  match l with
  | NBroker l => exec parse (world s) l = Some (world s')
  | NConnect _ _ => exec parse (world s) LAccept = Some (world s')
  | _ => world s' = world s
  end.
Proof.
  destruct l as [l|pid b|c read now|c l]; simpl; intros Hx.
  - destruct (label_reads s l); [|done]. by apply bind_Some in Hx as (w & Hw & [= <-]).
  - destruct (hello_of pid b); [|done]. by injection Hx as <-.
  - repeat case_match; by simplify_eq.
  - repeat (case_match; try done); by apply bind_Some in Hx as (p' & _ & [= <-]).
Qed.

(** What the broker does to an app that does not move. *)
Lemma app_ok_world n w w' c a :
  app_ok n w c a -> (next_id w <= next_id w')%N ->
  inbox_of w' c `prefix_of` app_sent a -> wire_of w c `prefix_of` wire_of w' c ->
  app_ok (n + 1) w' c a.
Proof.
  intros [Hid Hh Hs Hc] Hn Hi Hw. split; simpl; [lia|done|done|].
  intros p Hp. destruct (Hc p Hp) as ((m & c0 & Hm & Hf & Hq & Hr) & Ho & Hh1 & Hs1 & ack & Ha).
  split; [exists m, c0; split_and!; [lia|done..]|]. split_and!; try done.
  exists ack. by etrans.
Qed.

Lemma net_ok_broker config n s l w :
  net_ok config n s -> nobeys s (NBroker l) -> label_reads s l = true ->
  exec parse (world s) l = Some w -> net_ok config (n + 1) (mkNet w (apps s)).
Proof.
  intros [(m & Hm & Hr) Ha Hlo] Hob Hl Hx. destruct (exec_logs parse _ _ _ Hx) as [Hn Hi Hw _ _ _]. split.
  - exists (m + 1)%N. split; [lia|]. by eapply reachable_step.
  - simpl. intros c a Hc. apply (app_ok_world n (world s)); auto. rewrite Hi.
    destruct (frames_read_nil l c) as [->|[f Hf]]; [rewrite app_nil_r; by apply Ha|].
    rewrite Hf. apply prefix_lookup_snoc; [by apply Ha|].
    unfold label_reads, broker_reads in Hl.
    destruct (frames_read_from parse _ _ _ _ _ Hx Hf) as [([wr ->] & _)|[-> _]]; simpl in Hl;
      rewrite Hc in Hl; by apply bool_decide_eq_true in Hl.
  - simpl. intros h a r [?|(id & o & -> & Ht)]%(exec_resolved (world s) l w); [by apply Hlo| |done].
    by eapply Hob.
Qed.

(** An app moves; the broker and the other apps stay. *)
Lemma net_ok_app config n s c a pc :
  net_ok config n s -> apps s !! c = Some a ->
  app_sent a `prefix_of` app_sent (mkApp (app_builder a) (app_hello a) pc) ->
  (forall p, pc = AConnected p -> connected_ok (n + 1) (world s) c (mkApp (app_builder a) (app_hello a) pc) p) ->
  net_ok config (n + 1) (set_app c a pc s).
Proof.
  intros [(m & Hm & Hr) Ha Hlo] Hc Hp Hk. split; [exists m; split; [lia|done]| |exact Hlo].
  intros c' a'. simpl. intros [[<- <-]|[_ Hl]]%lookup_insert_Some.
  - destruct (Ha c a Hc) as [Hid Hh Hs _]. split; simpl; [done|done|by etrans|exact Hk].
  - apply (app_ok_world n (world s)); auto. by apply Ha.
Qed.

Lemma inbox_unaccepted config m w :
  reachable parse config m w -> (m < U64_SIZE)%N -> inbox_of w (next_id w) = [].
Proof.
  intros Hr Hb. pose proof (reachable_hello_read parse config m w Hr Hb (next_id w)) as Hh.
  destruct (conns w !! next_id w) as [pc|] eqn:Hc; [|done].
  apply (str_conn_ids m w) in Hc; [lia|by eapply reachable_structural].
Qed.

Lemma net_ok_connect config n s pid b s' :
  net_ok config n s -> (n < U64_SIZE)%N -> nexec s (NConnect pid b) = Some s' -> net_ok config (n + 1) s'.
Proof.
  intros Hok Hb Hx. simpl in Hx. destruct (hello_of pid b) as [hello|] eqn:Hh; [|done].
  injection Hx as <-. pose proof (net_ok_broker config n s LAccept _ Hok I eq_refl eq_refl) as [Hw Ha Hlo].
  destruct (no_world _ _ _ Hok) as (m & Hm & Hr). split; [exact Hw| |exact Hlo].
  intros c a. simpl. intros [[<- <-]|[Hne Hl]]%lookup_insert_Some.
  - split; simpl; [lia|by exists pid| |done]. unfold inbox_of. simpl.
    fold (inbox_of (world s) (next_id (world s))). rewrite (inbox_unaccepted config m); [|done|lia].
    apply prefix_nil.
  - destruct (Ha c a Hl) as [A1 A2 A3 A4]. by split.
Qed.

Lemma net_ok_reply config n s c read now s' :
  net_ok config n s -> nexec s (NReply c read now) = Some s' -> net_ok config (n + 1) s'.
Proof.
  intros Hok Hx. simpl in Hx. destruct (apps s !! c) as [[b hello [|p|e]]|] eqn:Hc; try done.
  destruct (match read with Ok (Some f) => _ | _ => _ end) eqn:Hrd; [|done]. injection Hx as <-.
  apply (net_ok_app config n s c (mkApp b hello AConnecting)); [done|done| |].
  - unfold app_sent. simpl. apply prefix_cons, prefix_nil.
  - intros p Hp. destruct (handshake_reply dbg read) as [ack|] eqn:Hack; [|done]. injection Hp as <-.
    split; [exists 0%N; eexists; split_and!; [lia| | |apply preachable_init]; [by split_and!|apply new_queued]|].
    split; [apply client_origins_init; [by split_and!|apply new_queued]|]. split_and!; try done.
    destruct read as [[f|]|]; simpl in Hack; try done. apply bool_decide_eq_true in Hrd.
    exists ack. assert (f = BusFrame.HelloAck ack) as ->.
    { destruct f; simplify_eq; [done|]. by destruct (Response.result r). }
    destruct (wire_of (world s) c) as [|f k]; simplify_eq/=. by exists k.
Qed.

Lemma net_ok_step_app config n s c l s' :
  net_ok config n s -> (n + 2 < U64_SIZE)%N -> nobeys s (NApp c l) -> nexec s (NApp c l) = Some s' ->
  net_ok config (n + 1) s'.
Proof.
  intros Hok Hb Hob Hx. simpl in Hx. destruct (apps s !! c) as [[b hello [|p|e]]|] eqn:Hc; try done.
  destruct (match l with PFrame _ f => _ | _ => _ end) eqn:Hrd; [|done].
  apply bind_Some in Hx as (p' & Hx & Hs). injection Hs as <-.
  destruct (ao_connected _ _ _ _ (no_app _ _ _ Hok c _ Hc) p eq_refl)
    as ((m & c0 & Hm & Hf & Hq & Hr) & Ho & Hh & Hsv & ack & Ha).
  pose proof (pexec_logs p l p' Hx) as Hlg. destruct (pl_service _ _ _ Hlg) as [Hh' Hsv'].
  apply (net_ok_app config n s c (mkApp b hello (AConnected p))); [done|done| |].
  - unfold app_sent. simpl. apply prefix_cons, (pl_wire _ _ _ Hlg).
  - intros p1 [= <-]. split.
    { exists (m + 1)%N, c0. split_and!; [lia|done|done|by eapply preachable_step]. }
    split; [eapply (client_origins_exec handles m p l p'); try done;
      [by eapply reachable_client_ok; [done|done|lia]|lia|by eapply Hob]|].
    simpl in *. split_and!; [congruence|congruence|]. exists ack. rewrite (pl_inbox _ _ _ Hlg).
    destruct l; simpl; rewrite ?app_nil_r; try exact Ha.
    apply bool_decide_eq_true in Hrd. change (BusFrame.HelloAck ack :: p_inbox p ++ [f])
      with ((BusFrame.HelloAck ack :: p_inbox p) ++ [f]). by apply prefix_lookup_snoc.
Qed.

(** Every reachable state of the system projects to reachable states of its
    parts, joined by their streams. *)
Lemma reachable_net config n s :
  nreachable config n s -> (n + 1 < U64_SIZE)%N -> net_ok config n s.
Proof.
  induction 1 as [|n s l s' Hr IH Hob Hx]; intros Hb.
  - split; [exists 0%N; split; [done|apply reachable_init]| |by intros * ?%elem_of_nil].
    intros c a. simpl. by rewrite lookup_empty.
  - specialize (IH ltac:(lia)). destruct l as [l|pid b|c read now|c l].
    + simpl in Hx. destruct (label_reads s l) eqn:Hl; [|done].
      apply bind_Some in Hx as (w & Hx & Hs). injection Hs as <-. by eapply net_ok_broker.
    + by eapply net_ok_connect; [|lia|].
    + by eapply net_ok_reply.
    + by eapply net_ok_step_app; [|lia| |].
Qed.

(** * The types of the links *)

Lemma broker_frames_typed config n (w : World Q) c f :
  reachable parse config n w -> (n < U64_SIZE)%N -> f ∈ frames_to w c -> broker_frame f = true.
Proof.
  intros Hr. revert c f. induction Hr as [|n w l w' Hr IH Hx]; intros c f Hb Hf.
  - unfold frames_to, wire_of, chan_queue in Hf. simpl in Hf. rewrite !lookup_empty in Hf.
    by apply elem_of_nil in Hf.
  - pose proof (reachable_structural parse config n w Hr ltac:(lia)) as Hst.
    destruct (adds_elem _ _ _ _ _ _ (exec_frames parse w l w' c Hx) Hf)
      as [|Hn]; [by eapply IH; [lia|]|]. by destruct Hn.
Qed.

Lemma client_frames_typed (c0 : Client Q Nt) n p f :
  fresh c0 -> queued (c_tx c0) = [] -> preachable c0 n p -> f ∈ frames_out p -> client_frame f = true.
Proof.
  intros _ Hq Hr. revert f. induction Hr as [|n p l p' Hr IH Hx]; intros f Hf.
  - unfold frames_out in Hf. simpl in Hf. rewrite Hq in Hf. by apply elem_of_nil in Hf.
  - destruct (pl_frames _ _ _ (pexec_logs p l p' Hx) f Hf) as [|Hn]; [by apply IH|]. by destruct Hn.
Qed.

(** * End to end *)

(** The connection of an app registered with the app's own [Hello]. *)
Lemma app_registered config n s c a hello g :
  net_ok config n s -> (n + 1 < U64_SIZE)%N -> apps s !! c = Some a ->
  registered (world s) c hello g -> hello = app_hello a.
Proof.
  intros Hok Hb Hc Hrg. destruct (no_world _ _ _ Hok) as (m & Hm & Hr).
  destruct (registered_hello parse config m (world s) c hello g Hr ltac:(lia) Hrg) as [l Hl].
  destruct (ao_sent _ _ _ _ (no_app _ _ _ Hok c a Hc)) as [k Hk]. rewrite Hl in Hk.
  unfold app_sent in Hk. by injection Hk as ->.
Qed.

(** What the broker has read from an app was in the app's output. *)
Lemma app_wrote config n s c a f :
  net_ok config n s -> apps s !! c = Some a -> f ∈ inbox_of (world s) c ->
  f = BusFrame.Hello (app_hello a) \/ exists p, app_pc a = AConnected p /\ f ∈ frames_out p.
Proof.
  intros Hok Hc Hf. destruct (ao_sent _ _ _ _ (no_app _ _ _ Hok c a Hc)) as [k Hk].
  assert (Hin : f ∈ app_sent a) by (rewrite Hk; apply elem_of_app; by left).
  apply elem_of_cons in Hin as [->|Hin]; [by left|right].
  destruct (app_pc a) as [|p|e]; try by apply elem_of_nil in Hin.
  exists p. split; [done|]. apply elem_of_app. by left.
Qed.

(** What an app has read was in the broker's output. *)
Lemma app_read n s c a p f :
  connected_ok n (world s) c a p -> f ∈ p_inbox p -> f ∈ frames_to (world s) c.
Proof.
  intros (_ & _ & _ & _ & ack & k & Hk) Hf. unfold frames_to. rewrite Hk.
  apply elem_of_app. left. apply elem_of_app. left. by apply elem_of_cons; right.
Qed.

(** A response read from an app is what the app may answer to the call that
    owns its number. *)
Lemma response_answers config n s c app resp (a : CallArgs) hello g :
  net_ok config n s -> (n + 1 < U64_SIZE)%N -> apps s !! c = Some app ->
  registered (world s) c hello g -> hello.(HelloRequest.service) = a.(CallArgs.service) ->
  BusFrame.Response resp ∈ inbox_of (world s) c ->
  sole_invoke (world s) c resp.(Response.req_id) a ->
  app_answers (app_builder app) a resp.(Response.result).
Proof.
  intros Hok Hb Hc Hrg Hsv Hin Hso.
  pose proof (app_registered _ _ _ _ _ _ _ Hok Hb Hc Hrg) as ->.
  destruct (app_wrote _ _ _ _ _ _ Hok Hc Hin) as [|(p & Hp & Hout)]; [done|].
  pose proof (ao_connected _ _ _ _ (no_app _ _ _ Hok c app Hc) p Hp) as Hco.
  pose proof Hco as (_ & Hcr & Hh & Hs & _).
  destruct (cr_resp _ _ Hcr _ Hout) as (inv & Hinv & Hid & Hhd).
  pose proof (si_only _ _ _ _ Hso inv (app_read _ _ _ _ _ _ Hco Hinv) Hid) as Hf.
  injection Hf as ->. unfold handled in Hhd. simpl in Hhd. unfold app_answers.
  rewrite <-Hh. case_match; [done|]. by rewrite Hhd, Hs, Hsv.
Qed.

(** What explains the result of a call, in terms of the apps. *)
Lemma explained_delivered config n s (a : CallArgs) (r : result bytes BusError) :
  net_ok config n s -> (n + 1 < U64_SIZE)%N -> explained (world s) a r -> delivered s a r.
Proof.
  intros Hok Hb Hex. destruct Hex as [e He|Hz|h r Hh Hin|c hello g resp Hrg Hsv Hin Hso].
  - by apply dv_refused.
  - by apply dv_timeout.
  - apply (dv_local s a h); [done|]. by eapply no_local.
  - apply (dv_served s a c hello g); [done..|]. intros app Hc. by eapply response_answers.
Qed.

(** C1: end to end. When an app's [invoke service method payload caller]
    returns, either the result is [ConnectionClosed] and the writer of the
    app's own connection has ended, or it is what was delivered for one call of
    the broker: the call, with this payload, this caller, the invoking app's
    service name as [caller_app_id] and the default timeout, of the service and
    method that "service.method" splits into at its first dot, which are the
    invoked ones if the service name has no dot. What is delivered is a refusal
    of the broker ([ServiceNotFound], or [MethodNotFound] or [Unauthorized] by
    a catalog that was given for the called service), the timeout of this call,
    what a local service the host registered under that name may return for
    this call, or a response read from a connection registered for the called
    service under a number that this call alone had there; and if that
    connection is an app built with the client, the response carries what the
    handler the app registered for the method may return for this payload and
    this caller, or [MethodNotFound] if the app has no handler for it. *)
Theorem invoke_end_to_end config n s (c : conn_id) (app : App) (p : Proc Q Nt) (id : task_id)
    (a : InvokeArgs) (r : result bytes BusError) :
  nreachable config n s -> (n + 1 < U64_SIZE)%N ->
  apps s !! c = Some app -> app_pc app = AConnected p ->
  p_tasks p !! id = Some (PInvoke a (IDone r)) ->
  (r = Err BusError.ConnectionClosed /\ rx_alive (c_tx (p_client p)) = false)
  \/ exists service method,
       split_once (i_service a +:+ "." +:+ i_method a) "."%char = Some (service, method)
       /\ (string_mem "."%char (i_service a) = false -> service = i_service a /\ method = i_method a)
       /\ delivered s (call_of config (app_hello app).(HelloRequest.service) service method a) r.
Proof.
  intros Hn Hb Hc Hp Ht. pose proof (reachable_net config n s Hn Hb) as Hok.
  destruct (no_world _ _ _ Hok) as (m & Hm & Hr).
  pose proof (reachable_origins parse config m (world s) Hr ltac:(lia)) as Hor.
  pose proof (ao_connected _ _ _ _ (no_app _ _ _ Hok c app Hc) p Hp) as Hco.
  pose proof Hco as (_ & Hcr & _).
  destruct (cr_done _ _ Hcr _ _ _ Ht) as [?|(resp & How & Hin & <-)]; [by left|right].
  destruct (split_once_sep (i_service a) (i_method a) "."%char) as (sv & mt & Hsplit).
  exists sv, mt. split; [exact Hsplit|]. split.
  { intros Hdot. change (i_service a +:+ "." +:+ i_method a)
      with (i_service a +:+ String "." (i_method a)) in Hsplit.
    rewrite split_once_app in Hsplit by done. by simplify_eq. }
  assert (Hmine : forall inv, BusFrame.Invoke inv ∈ inbox_of (world s) c ->
    resp.(Response.req_id) = inv.(Invoke.req_id) -> BusFrame.Invoke inv = outbound_frame a resp.(Response.req_id)).
  { intros inv Hinv Hid. apply (ow_only _ _ _ How); [|done].
    destruct (app_wrote _ _ _ _ _ _ Hok Hc Hinv) as [|(p' & Hp' & Hout)]; [done|]. congruence. }
  destruct (or_resp _ Hor _ _ (app_read _ _ _ _ _ _ Hco Hin)) as [[e He]|Hrep].
  { injection He as ->. destruct (ow_number _ _ _ How). simpl in *. lia. }
  destruct Hrep as [inv ca (Hinv & hello & g & Hrg & Hrt) Hid Hex|inv Hinv Hid Hsp _].
  - pose proof (Hmine _ Hinv Hid) as Hf. injection Hf as ->.
    pose proof (app_registered _ _ _ _ _ _ _ Hok Hb Hc Hrg) as ->.
    unfold route_invoke, Broker.call in Hrt. simpl in Hrt. simpl in Hsplit. rewrite Hsplit in Hrt.
    rewrite (reachable_config parse config m (world s) Hr) in Hrt. injection Hrt as <-.
    fold (call_of config (app_hello app).(HelloRequest.service) sv mt a) in Hex.
    by eapply explained_delivered.
  - pose proof (Hmine _ Hinv Hid) as Hf. injection Hf as ->. simpl in Hsp.
    simpl in Hsplit. by rewrite Hsplit in Hsp.
Qed.

(** C2: calls of the host end to end. When a call the host made through
    [Broker::call_with_timeout] finishes, its result is a refusal of the broker
    ([ServiceNotFound], or [MethodNotFound] or [Unauthorized] by a catalog that
    was given for the service), the timeout of this call, what a local service
    the host registered under that name may return for this call, or a response
    read from a connection registered for the service under a number that this
    call alone had there; and if that connection is an app built with the
    client, the response carries what the handler the app registered for the
    method may return for this payload and this caller, or [MethodNotFound] if
    the app has no handler for it. It is never [ConnectionClosed] but by the
    word of a local service or of the app. *)
Theorem host_call_end_to_end config n s (id : call_id) (a : CallArgs) (r : result bytes BusError) :
  nreachable config n s -> (n + 1 < U64_SIZE)%N ->
  tasks (world s) !! id = Some (TCall OHost a (CDone r)) ->
  delivered s a r.
Proof.
  intros Hn Hb Ht. pose proof (reachable_net config n s Hn Hb) as Hok.
  destruct (no_world _ _ _ Hok) as (m & Hm & Hr).
  pose proof (reachable_origins parse config m (world s) Hr ltac:(lia)) as Hor.
  by eapply explained_delivered, or_done.
Qed.

(** C34: the links are typed. Whatever the apps, the broker and foreign peers
    do, an app that uses the client only ever reads [HelloAck], [Response],
    [Invoke], [Event] and [Shutdown] frames from the broker, no [Ping], no
    stream frame and no frame of its own direction; and after its [Hello] the
    broker only ever reads [Pong], [Response], [Invoke], [Publish] and
    [Subscribe] frames from it. The other arms of the two read loops are dead
    between them. *)
Theorem links_typed config n s (c : conn_id) (app : App) (p : Proc Q Nt) :
  nreachable config n s -> (n + 1 < U64_SIZE)%N ->
  apps s !! c = Some app -> app_pc app = AConnected p ->
  (forall f, f ∈ p_inbox p -> broker_frame f = true)
  /\ (forall f, f ∈ inbox_of (world s) c ->
        f = BusFrame.Hello (app_hello app) \/ client_frame f = true).
Proof.
  intros Hn Hb Hc Hp. pose proof (reachable_net config n s Hn Hb) as Hok.
  destruct (no_world _ _ _ Hok) as (m & Hm & Hr).
  pose proof (ao_connected _ _ _ _ (no_app _ _ _ Hok c app Hc) p Hp) as Hco. split.
  - intros f Hf. eapply broker_frames_typed; [exact Hr|lia|by eapply app_read].
  - intros f Hf. destruct (app_wrote _ _ _ _ _ _ Hok Hc Hf) as [|(p' & Hp' & Hout)]; [by left|right].
    assert (p' = p) as -> by congruence.
    destruct Hco as ((k & c0 & _ & Hfr & Hq & Hpr) & _). by eapply client_frames_typed.
Qed.

End net.
Arguments App Q Nt : clear implicits.
Arguments Net Q Nt : clear implicits.

(** * A concrete run *)

(** The app [echo] serves [ping], the app [app] invokes it. *)
Definition echo_builder : BusClientBuilder :=
  BusClientBuilder.on_invoke "ping" 3%N
    (BusClientBuilder.method ping_decl
       (BusClientBuilder.set_service "echo" "0.1.0"
          (BusClientBuilder.new (config_unix "/run/bus.sock" (Broker.random_token (Some 5%N) 7 0))))).
Definition invoker_builder : BusClientBuilder :=
  BusClientBuilder.set_service "app" "0.1.0"
    (BusClientBuilder.new (config_unix "/run/bus.sock" (Broker.random_token (Some 6%N) 7 1))).

(** Every handler answers [pong]. *)
Definition pongs (_ : InvokeHandler) (_ : bytes) (_ : CallerCtx) (r : result bytes BusError) : Prop :=
  r = Ok (bytes_lit "pong").
Definition no_local_answer (_ : LocalServiceHandler) (_ : CallArgs) (_ : result bytes BusError) : Prop := False.
Definition no_debug (_ : BusFrame) : string := EmptyString.

Definition ping_call : InvokeArgs := mkInvokeArgs "echo" "ping" (bytes_lit "hi") user_caller.
Definition ack (client_id : N) : BusFrame := BusFrame.HelloAck
  {| HelloAck.client_id := client_id; HelloAck.heartbeat_interval := duration_from_secs 15 |}.
Definition ping_args : CallArgs := call_of BrokerConfig.default "app" "echo" "ping" ping_call.
Definition pong : Response := {| Response.req_id := 1; Response.result := Ok (bytes_lit "pong") |}.

(** An app connects as connection [c]; its probe is task [c + 1]. *)
Definition connects (c : conn_id) (pid : N) (b : BusClientBuilder) (client_id : N) : list NLabel :=
  match hello_of pid b with
  | Ok hello =>
      NConnect pid b
      :: (NBroker <$> [LHello c (Ok (Some (BusFrame.Hello hello))) true; LSession c; LSession c; LSession c; LAck c true;
                       LAttach c; LSession c; LStep (c + 1); LStep (c + 1); LContinue (c + 1)])
      ++ [NReply c (Ok (Some (ack client_id))) 0]
  | Err _ => []
  end.
Definition net_script : list NLabel :=
  NBroker (LIssueToken (Some 5%N) 7 "echo") :: connects 0 77 echo_builder 1
  ++ NBroker (LIssueToken (Some 6%N) 7 "app") :: connects 2 78 invoker_builder 2
  ++ (NApp 2 <$> [PCall ping_call; PStep 0; PStep 0; PWriter true])
  ++ (NBroker <$> [LFrame 2 (outbound_frame ping_call 1); LStep 4; LStep 4; LStep 4; LStep 4; LStep 4;
                   LWriter 0 true])
  ++ (NApp 0 <$> [PFrame 1 (invoke_frame ping_args 1); PStep 0; PHandled 0 (Ok (bytes_lit "pong")); PStep 0;
                  PWriter true])
  ++ (NBroker <$> [LFrame 0 (BusFrame.Response pong); LReply 4; LContinue 4; LContinue 4; LWriter 2 true])
  ++ (NApp 2 <$> [PFrame 2 (BusFrame.Response pong); PReply 0]).

Abbreviation ExampleNet := (Net (Fifo BusFrame) Tickets).
Definition net_start : ExampleNet := ninit BrokerConfig.default.
Definition net_end : ExampleNet := default net_start (nrun no_capabilities no_debug net_start net_script).

Definition pongs_label (l : NLabel) : bool :=
  match l with
  | NApp _ (PHandled _ r) => bool_decide (r = Ok (bytes_lit "pong"))
  | NBroker (LLocal _ _) => false
  | _ => true
  end.

(** The process of the invoking app at the end. *)
Definition invoking_app : option (App (Fifo BusFrame) Tickets) := apps net_end !! 2%N.
Definition app_proc (a : App (Fifo BusFrame) Tickets) : Proc (Fifo BusFrame) Tickets :=
  match app_pc a with AConnected p => p | _ => client_run [] end.

(** The host calls [echo] at the end of the run. *)
Definition host_args : CallArgs := Broker.call (broker (world net_end)) "echo" "ping" (bytes_lit "hi") user_caller.
Definition host_script : list NLabel := net_script
  ++ (NBroker <$> LCall host_args :: replicate 5 (LStep 5) ++ [LWriter 0 true])
  ++ (NApp 0 <$> [PFrame 1 (invoke_frame host_args 2); PStep 1; PHandled 1 (Ok (bytes_lit "pong")); PStep 1;
                  PWriter true])
  ++ (NBroker <$> [LFrame 0 (BusFrame.Response {| Response.req_id := 2; Response.result := Ok (bytes_lit "pong") |});
                   LReply 5]).
Definition host_end : ExampleNet := default net_start (nrun no_capabilities no_debug net_start host_script).

Lemma nrun_reachable : forall ls n (s s' : ExampleNet),
  nreachable no_capabilities no_debug pongs no_local_answer BrokerConfig.default n s ->
  forallb pongs_label ls = true -> nrun no_capabilities no_debug s ls = Some s' ->
  nreachable no_capabilities no_debug pongs no_local_answer BrokerConfig.default (n + N.of_nat (length ls)) s'.
Proof.
  induction ls as [|l ls IH]; intros n s s' Hr Hl Hrun; simpl in Hrun.
  - simplify_eq. by rewrite N.add_0_r.
  - apply bind_Some in Hrun as (s1 & Hx & Hrun). simpl in Hl. apply andb_true_iff in Hl as [Hl Hls].
    assert (Hr1 : nreachable no_capabilities no_debug pongs no_local_answer BrokerConfig.default (n + 1) s1).
    { eapply nreachable_step; [exact Hr| |exact Hx]. destruct l as [[]|?|?|c [| | | | | |id r| | | | | | | | | ]]; try done.
      simpl in *. apply bool_decide_eq_true in Hl. by intros. }
    pose proof (IH _ _ _ Hr1 Hls Hrun). simpl length.
    by replace (n + N.of_nat (S (length ls)))%N with (n + 1 + N.of_nat (length ls))%N by lia.
Qed.

Lemma net_run_reachable ls :
  bool_decide (is_Some (nrun no_capabilities no_debug net_start ls)) = true -> forallb pongs_label ls = true ->
  nreachable no_capabilities no_debug pongs no_local_answer BrokerConfig.default (N.of_nat (length ls))
    (default net_start (nrun no_capabilities no_debug net_start ls)).
Proof.
  intros [s Hs]%bool_decide_eq_true_1 Hl. rewrite Hs. simpl.
  apply (nrun_reachable ls 0 net_start s); [apply nreachable_init | exact Hl | exact Hs].
Qed.

Lemma net_end_reachable :
  nreachable no_capabilities no_debug pongs no_local_answer BrokerConfig.default (N.of_nat (length net_script)) net_end.
Proof. by apply net_run_reachable; vm_compute. Qed.

Lemma invoke_end_to_end_witness :
  exists app, invoking_app = Some app
    /\ p_tasks (app_proc app) !! 0%N = Some (PInvoke ping_call (IDone (Ok (bytes_lit "pong"))))
    /\ delivered pongs no_local_answer net_end ping_args (Ok (bytes_lit "pong")).
Proof.
  destruct invoking_app as [app|] eqn:Ha; [|exfalso; vm_compute in Ha; discriminate Ha].
  exists app. split; [reflexivity|].
  assert (Hc : match invoking_app with
    | Some app => match app_pc app with
        | AConnected p => (p_tasks p !! 0%N, (app_hello app).(HelloRequest.service))
        | _ => (None, EmptyString) end
    | None => (None, EmptyString) end
    = (Some (PInvoke ping_call (IDone (Ok (bytes_lit "pong")))), "app")) by (vm_compute; reflexivity).
  rewrite Ha in Hc. destruct (app_pc app) as [|p|e] eqn:Hp; [discriminate Hc| |discriminate Hc].
  injection Hc as Ht Hs. unfold app_proc. rewrite Hp. split; [exact Ht|].
  unfold ping_args. rewrite <-Hs.
  destruct (invoke_end_to_end no_capabilities no_debug pongs no_local_answer BrokerConfig.default _ net_end 2 app p 0 ping_call
    (Ok (bytes_lit "pong")) net_end_reachable eq_refl Ha Hp Ht)
    as [[Hx _]|(sv & mt & _ & Hplain & Hx)]; [discriminate Hx|].
  destruct (Hplain eq_refl) as [-> ->]. exact Hx.
Defined.

Lemma host_call_end_to_end_witness :
  tasks (world host_end) !! 5%N = Some (TCall OHost host_args (CDone (Ok (bytes_lit "pong"))))
  /\ delivered pongs no_local_answer host_end host_args (Ok (bytes_lit "pong")).
Proof.
  assert (Ht : tasks (world host_end) !! 5%N = Some (TCall OHost host_args (CDone (Ok (bytes_lit "pong")))))
    by (vm_compute; reflexivity).
  split; [exact Ht|].
  exact (host_call_end_to_end no_capabilities no_debug pongs no_local_answer BrokerConfig.default _ host_end 5 host_args
    (Ok (bytes_lit "pong")) (net_run_reachable host_script eq_refl eq_refl) eq_refl Ht).
Defined.

Lemma links_typed_witness :
  exists app p, invoking_app = Some app /\ app_pc app = AConnected p
    /\ p_inbox p = [BusFrame.Response pong] /\ broker_frame (BusFrame.Response pong) = true.
Proof.
  destruct invoking_app as [app|] eqn:Ha; [|exfalso; vm_compute in Ha; discriminate Ha].
  assert (Hc : match invoking_app with
    | Some app => match app_pc app with AConnected p => p_inbox p | _ => [] end
    | None => [] end = [BusFrame.Response pong]) by (vm_compute; reflexivity).
  rewrite Ha in Hc. destruct (app_pc app) as [|p|e] eqn:Hp; [discriminate Hc| |discriminate Hc].
  exists app, p. split; [reflexivity|]. split; [exact Hp|]. split; [exact Hc|].
  destruct (links_typed no_capabilities no_debug pongs no_local_answer BrokerConfig.default _ net_end 2 app p
    net_end_reachable eq_refl Ha Hp) as [Hin _].
  apply Hin. rewrite Hc. apply list_elem_of_singleton. reflexivity.
Defined.
