(* ===== verification/Returns.v ===== *)
(** Every [invoke] returns: on the fair infinite runs of the whole system of
    Net.v on which the two ends of a connection go on reading and writing, the
    request of an app reaches the broker, the broker's call ends, its response
    reaches the app, and the caller has its result.  The runs are unbounded;
    nothing here depends on the width of the counters after the start. *)

From stdpp Require Import prelude gmap strings.
From Stdlib Require Import Ascii.
From S2P Require Import Prelude Lts Frame Runtime Registry Broker Session System Invariant Steps History Guarantees Transport ClientConfig Client Streams ClientSafety ClientOrigins ClientGuarantees Liveness Sdk Net.

(** * The caller, at its client *)

Section client.
Context {Q Nt : Type} `{LawfulMpsc Q BusFrame, LawfulNotify Nt}.
Implicit Types p : Proc Q Nt.

(** The caller of [invoke] waits for the response numbered [k], or has its
    result. *)
Definition calling p (id : task_id) (a : InvokeArgs) (k : N) : Prop :=
  p_tasks p !! id = Some (PInvoke a (IAwait k)) \/ exists r, p_tasks p !! id = Some (PInvoke a (IDone r)).

(** Its response is there, or nobody can give it one any more. *)
Definition settled_call p (id : task_id) (k : N) : Prop :=
  is_Some (p_replies p !! id) \/ pending p !! k <> Some id.

(** The steps of a caller of [invoke]. *)
Definition polls (id : task_id) (l : PLabel) : Prop := l = PStep id \/ l = PReply id \/ l = PRxClosed id.

(** How a caller goes on. *)
Inductive invoke_next p : InvokePc -> InvokePc -> Prop :=
| in_draw : invoke_next p IStart (ISend (next_req p))
| in_sent k : rx_alive (c_tx (p_client p)) = true -> invoke_next p (ISend k) (IAwait k)
| in_closed k : rx_alive (c_tx (p_client p)) = false ->
    invoke_next p (ISend k) (IDone (Err BusError.ConnectionClosed))
| in_done k r : invoke_next p (IAwait k) (IDone r).

Lemma caller_next p l p' id a pc' :
  pexec p l = Some p' -> own_label l = Some id -> p_tasks p' !! id = Some (PInvoke a pc') ->
  exists pc, p_tasks p !! id = Some (PInvoke a pc) /\ invoke_next p pc pc'.
Proof.
  intros Hx Hl Ht. unfold pexec in Hx.
  destruct l; simpl in Hl; try done; injection Hl as ->; simpl in Hx.
  - destruct (p_tasks p !! id) as [t|] eqn:Ht0; simpl in Hx; [|done].
    destruct t as [a0 []|inv []|f|]; simpl in Hx; try done.
    + injection Hx as <-. simpl in Ht. rewrite lookup_insert_eq in Ht. injection Ht as <- <-. eexists. split; [done|constructor].
    + unfold invoke_send, send in Hx. destruct (rx_alive (c_tx (p_client p))) eqn:Ha.
      * destruct (send_alive _ (outbound_frame a0 req_id) Ha) as (q & Hq & _). rewrite Hq in Hx. simpl in Hx. injection Hx as <-.
        simpl in Ht. rewrite lookup_insert_eq in Ht. injection Ht as <- <-. eexists. split; [done|by constructor].
      * rewrite (send_dead _ _ Ha) in Hx. simpl in Hx. injection Hx as <-.
        simpl in Ht. rewrite lookup_insert_eq in Ht. injection Ht as <- <-. eexists. split; [done|by constructor].
    + injection Hx as <-. simpl in Ht. by rewrite lookup_insert_eq in Ht.
    + injection Hx as <-. simpl in Ht. by rewrite lookup_delete_eq in Ht.
  - destruct (p_tasks p !! id) as [[|inv []| |]|]; try done. injection Hx as <-. simpl in Ht. by rewrite lookup_insert_eq in Ht.
  - destruct (p_tasks p !! id) as [[a0 []| | |]|], (p_replies p !! id); try done. injection Hx as <-.
    simpl in Ht. rewrite lookup_insert_eq in Ht. injection Ht as <- <-. eexists. split; [done|constructor].
  - destruct (p_tasks p !! id) as [[a0 []| | |]|]; try done. destruct (reply_lost _ _ _); [|done]. injection Hx as <-.
    simpl in Ht. rewrite lookup_insert_eq in Ht. injection Ht as <- <-. eexists. split; [done|constructor].
  - destruct (p_tasks p !! id) as [[| | |]|]; try done. destruct (woken _ _); [|done]. injection Hx as <-.
    simpl in Ht. by rewrite lookup_insert_eq in Ht.
  - destruct (p_tasks p !! id) as [[| | |]|]; try done. destruct (idle_expired _ _); [|done]. injection Hx as <-.
    simpl in Ht. by rewrite lookup_insert_eq in Ht.
  - destruct (p_tasks p !! id) as [[a0 []| | |]|]; try done; injection Hx as <-; simpl in Ht; by rewrite lookup_delete_eq in Ht.
Qed.

(** What the caller may do next it does, or drops its future. *)
Lemma caller_stays p l p' id a pc :
  pexec p l = Some p' -> p_numbered p -> p_tasks p !! id = Some (PInvoke a pc) -> l <> PDrop id ->
  exists pc', p_tasks p' !! id = Some (PInvoke a pc')
    /\ ((own_label l <> Some id /\ pc' = pc) \/ (own_label l = Some id /\ invoke_next p pc pc')).
Proof.
  intros Hx Hn Ht Hd. destruct (pexec_tasks p l p' Hx) as (_ & Hs & _).
  destruct (decide (own_label l = Some id)) as [Hl|Hl].
  - assert (Hex : exists pc', p_tasks p' !! id = Some (PInvoke a pc')).
    { unfold pexec in Hx. destruct l; simpl in Hl; try done; injection Hl as ->; simpl in Hx; rewrite Ht in Hx; simpl in Hx; try done.
      - destruct pc; simpl in Hx; try done; [|destruct (invoke_send _ _ _)]; injection Hx as <-; simpl; rewrite lookup_insert_eq; eauto.
      - destruct pc; try done. destruct (p_replies p !! id); [|done]. injection Hx as <-. simpl. rewrite lookup_insert_eq. eauto.
      - destruct pc; try done. destruct (reply_lost _ _ _); [|done]. injection Hx as <-. simpl. rewrite lookup_insert_eq. eauto. }
    destruct Hex as [pc' Ht']. exists pc'. split; [done|]. right. split; [done|].
    destruct (caller_next p l p' id a pc' Hx Hl Ht') as (pc0 & Ht0 & Hnx). by simplify_eq.
  - exists pc. rewrite Hs by (done || by eapply Hn). split; [done|by left].
Qed.

(** Once a call cannot wait for a response any more, it stays so. *)
Lemma settled_exec p l p' id a k :
  pexec p l = Some p' -> p_tasks p !! id = Some (PInvoke a (IAwait k)) -> settled_call p id k -> settled_call p' id k.
Proof.
  intros Hx Ht Hs. unfold settled_call in *.
  destruct (pexec_tables p l p' Hx) as [-> ->|i a' Hi -> -> _|i now resp _ Hi -> ->]; [done| |].
  - destruct Hs as [?|Hs]; [by left|right]. intros [[_ ->]|[_ ?]]%lookup_insert_Some; [|done]. congruence.
  - destruct Hs as [Hs|Hs].
    + left. apply lookup_insert_is_Some'. by right.
    + right. intros [_ ?]%lookup_delete_Some. done.
Qed.

(** The response with the number of the call settles it. *)
Lemma response_settles p p' id a k now resp :
  pexec p (PFrame now (BusFrame.Response resp)) = Some p' -> p_tasks p !! id = Some (PInvoke a (IAwait k)) ->
  resp.(Response.req_id) = k -> settled_call p' id k.
Proof.
  intros Hx Ht Hk. unfold settled_call.
  assert (Hp : pending p' = delete k (pending p)
    /\ (pending p !! k = Some id -> is_Some (p_replies p' !! id))).
  { unfold pexec in Hx. simpl in Hx. destruct (p_reader p); simpl in Hx; try done. rewrite Hk in Hx.
    unfold pending. destruct (c_pending (p_client p) !! k) as [i|] eqn:Hi; injection Hx as <-; simpl.
    - split; [done|]. intros [= ->]. rewrite lookup_insert_eq. eauto.
    - split; [by rewrite delete_id|done]. }
  destruct Hp as [-> _]. right. by rewrite lookup_delete_eq.
Qed.

Lemma settled_enabled p id a k :
  p_tasks p !! id = Some (PInvoke a (IAwait k)) -> settled_call p id k ->
  exists l p', polls id l /\ pexec p l = Some p'.
Proof.
  intros Ht Hs. destruct (p_replies p !! id) as [resp|] eqn:Hr.
  - exists (PReply id). eexists. split; [right; by left|]. unfold pexec. simpl. by rewrite Ht, Hr.
  - exists (PRxClosed id). eexists. split; [right; by right|]. unfold pexec. simpl. rewrite Ht. unfold reply_lost.
    destruct Hs as [[? ?]|Hs]; [congruence|]. rewrite bool_decide_eq_true_2 by done.
    unfold pending in Hs. by rewrite bool_decide_eq_false_2 by done.
Qed.
End client.

Section net.
Context {Q Nt : Type} `{LawfulMpsc Q BusFrame, LawfulNotify Nt}.
Context (parse : bytes -> result CapabilityResponse string) (dbg : BusFrame -> string).
Implicit Types s : Net Q Nt.

#[local] Instance net_lts : Lts (Net Q Nt) NLabel := nexec parse dbg.

(** * The broker within the whole *)

Definition broker_label (l : NLabel) : option Label :=
  match l with NBroker l => Some l | NConnect _ _ => Some LAccept | _ => None end.

(** The steps of the broker that only concern its own tasks. *)
Definition runs_call (id : call_id) (l : NLabel) : Prop := exists l', l = NBroker l' /\ runs_task id l'.

Lemma broker_moves (e : execution (Net Q Nt) NLabel) n :
  match l ← taken e n; broker_label l with
  | Some l => exec parse (world (at_ e n)) l = Some (world (at_ e (1 + n)))
  | None => world (at_ e (1 + n)) = world (at_ e n)
  end.
Proof.
  pose proof (moves_on e n) as Hm. destruct (taken e n) as [l|]; cbn [mbind option_bind]; [|exact (f_equal world Hm)].
  pose proof (nexec_world _ _ _ _ _ Hm) as Hw. by destruct l.
Qed.

Definition broker_run (e : execution (Net Q Nt) NLabel) : @execution (World Q) Label (broker_lts parse) :=
  @mkExecution _ _ (broker_lts parse) (fun n => world (at_ e n)) (fun n => l ← taken e n; broker_label l)
    (broker_moves e).

Lemma run_config config k e n :
  reachable parse config k (world (at_ e 0)) -> Broker.config (broker (world (at_ e n))) = config.
Proof.
  intros Hr. apply (execution_invariant (broker_run e) (fun w => Broker.config (broker w) = config) 0);
    [|by eapply reachable_config|lia].
  intros i l _ Hi _ Hx. by rewrite (lg_config _ _ _ (exec_logs parse _ _ _ Hx)).
Qed.

Lemma broker_run_fair e id :
  fair e (runs_call id) -> fair (H := broker_lts parse) (broker_run e) (runs_task id).
Proof.
  intros Hf n. destruct (Hf n) as (m & Hle & Hm). exists m. split; [done|].
  destruct Hm as [(l & Hl & l' & -> & Hr)|Hd].
  - left. exists l'. simpl. by rewrite Hl.
  - right. intros (l & Hl & w & Hw). apply Hd. exists (NBroker l). split; [by exists l|].
    change (is_Some (nexec parse dbg (at_ e m) (NBroker l))). cbn [nexec]. assert (Hrd : label_reads (at_ e m) l = true) by by destruct Hl as [->|[->|[->| ->]]].
    rewrite Hrd. change (exec parse (world (at_ e m)) l = Some w) in Hw. rewrite Hw. simpl. eauto.
Qed.

(** * A connection that stays up *)

(** The steps that end the connection [c], one of its writers or the caller. *)
Definition breaks (c : conn_id) (id : task_id) (l : NLabel) : bool :=
  match l with
  | NBroker (LClose c') => bool_decide (c' = c)
  | NBroker (LWriter c' written) => bool_decide (c' = c) && negb written
  | NApp c' PEnd => bool_decide (c' = c)
  | NApp c' (PWriter written) => bool_decide (c' = c) && negb written
  | NApp c' (PDrop id') => bool_decide (c' = c) && bool_decide (id' = id)
  | _ => false
  end.

(** The app built with [b] is connected as [c]: the broker serves it, both ends
    read, both writers run, and each end has read the beginning of what the
    other has written. *)
Record linked (c : conn_id) (b : BusClientBuilder) (h : HelloRequest) s (p : Proc Q Nt) : Prop := {
  lk_conn : exists hello g, conns (world s) !! c = Some (SRunning hello g);
  lk_open : chan_open (heap (world s)) c = true;
  lk_id : (c < next_id (world s))%N;
  lk_tasks : numbered (world s);
  lk_app : apps s !! c = Some (mkApp b h (AConnected p));
  lk_reader : p_reader p = RReading;
  lk_writer : rx_alive (c_tx (p_client p)) = true;
  lk_numbered : p_numbered p;
  lk_sent : inbox_of (world s) c `prefix_of` BusFrame.Hello h :: p_wire p;
  lk_got : exists ack, BusFrame.HelloAck ack :: p_inbox p `prefix_of` wire_of (world s) c
}.

(** What the app does in a step. *)
Definition app_moves (c : conn_id) (l : NLabel) (p p' : Proc Q Nt) : Prop :=
  (p' = p /\ forall pl, l <> NApp c pl) \/ exists pl, l = NApp c pl /\ pexec p pl = Some p'.

(** What a step does to a connection that stays up. *)
Record advances (c : conn_id) (l : NLabel) s s' (p p' : Proc Q Nt) : Prop := {
  ad_app : app_moves c l p p';
  ad_to : frames_to (world s) c `prefix_of` frames_to (world s') c;
  ad_wire_to : wire_of (world s) c `prefix_of` wire_of (world s') c;
  ad_written_to : l = NBroker (LWriter c true) -> length (wire_of (world s') c) = S (length (wire_of (world s) c));
  ad_from : frames_out p `prefix_of` frames_out p';
  ad_written : l = NApp c (PWriter true) -> length (p_wire p') = S (length (p_wire p));
  ad_read : inbox_of (world s') c =
    inbox_of (world s) c ++ match l with NBroker l => frames_read l c | _ => [] end;
  ad_got : p_inbox p' =
    p_inbox p ++ match l with NApp c' pl => if decide (c' = c) then p_reads pl else [] | _ => [] end;
  ad_wire : p_wire p `prefix_of` p_wire p'
}.

Lemma stream_open queue wire open' queue' wire' wr :
  stream_step true queue wire open' queue' wire' wr -> wr <> Some false ->
  open' = true /\ wire ++ queue `prefix_of` wire' ++ queue' /\ wire `prefix_of` wire'
  /\ (wr = Some true -> length wire' = S (length wire)).
Proof.
  intros Hs Hwr. inversion Hs as [k|f q' _ Hq|q']; subst; [| |done].
  - split; [done|]. split; [rewrite app_assoc; by apply prefix_app_r|done].
  - split; [done|]. split; [by rewrite <-app_assoc|]. split; [by apply prefix_app_r|].
    intros _. rewrite length_app. simpl. lia.
Qed.

Lemma linked_broker c b h s p l w' :
  linked c b h s p -> label_reads s l = true -> exec parse (world s) l = Some w' ->
  breaks c 0 (NBroker l) = false -> linked c b h (mkNet w' (apps s)) p
  /\ frames_to (world s) c `prefix_of` frames_to w' c
  /\ (l = LWriter c true -> length (wire_of w' c) = S (length (wire_of (world s) c))).
Proof.
  intros [(hello & g & Hc) Ho Hid Ht Ha Hr Hw Hn Hs (ack & Hg)] Hl Hx Hb.
  destruct (exec_stream parse _ l w' c hello g Hx Hc) as [Hc' Hst]; [intros ->; simpl in Hb; by rewrite bool_decide_eq_true_2 in Hb|done|].
  pose proof (exec_logs parse _ l w' Hx) as [Hnx Hi Hwi _ _ _].
  unfold stream_to in Hst. rewrite Ho in Hst.
  destruct (stream_open _ _ _ _ _ _ Hst) as (Ho' & Hf & Hpw & Hlen).
  { destruct l; try done. simpl. case_decide as Hcc; [|done]. subst. simpl in Hb. rewrite bool_decide_eq_true_2 in Hb by done.
    destruct written; [done|simpl in Hb; done]. }
  split; [|split; [exact Hf|]].
  - split; simpl; try done; [by exists hello, g|lia|by eapply numbered_exec| |exists ack; by etrans].
    rewrite Hi. destruct (frames_read_nil l c) as [->|[f Hfr]]; [by rewrite app_nil_r|].
    rewrite Hfr. apply prefix_lookup_snoc; [done|].
    destruct (frames_read_from parse _ _ _ _ _ Hx Hfr) as [(_ & Hh & _)|[-> _]]; [congruence|].
    simpl in Hl. unfold broker_reads in Hl. rewrite Ha in Hl. by apply bool_decide_eq_true in Hl.
  - intros ->. apply Hlen. simpl. by rewrite decide_True.
Qed.

(** A step that leaves the world and the app alone. *)
Lemma linked_apart c b h s s' p l :
  linked c b h s p -> world s' = world s -> apps s' !! c = apps s !! c -> (forall pl, l <> NApp c pl) ->
  (forall bl, l <> NBroker bl) -> linked c b h s' p /\ advances c l s s' p p.
Proof.
  intros Hk Hw Ha Hl Hb. split.
  - destruct Hk. split; rewrite ?Hw, ?Ha; done.
  - split; rewrite ?Hw; try done.
    + by left.
    + intros ->. by destruct (Hb (LWriter c true)).
    + intros ->. by destruct (Hl (PWriter true)).
    + destruct l as [l| | |]; rewrite ?app_nil_r; try done. by destruct (Hb l).
    + destruct l as [| | |c' pl]; rewrite ?app_nil_r; try done. rewrite decide_False, app_nil_r; [done|].
      intros ->. by destruct (Hl pl).
Qed.

Lemma linked_world c b h s p l w' al :
  linked c b h s p -> label_reads s l = true -> exec parse (world s) l = Some w' ->
  breaks c 0 (NBroker l) = false ->
  apps (mkNet w' al) !! c = apps s !! c ->
  linked c b h (mkNet w' al) p /\ (forall nl, nl = NBroker l \/ (l = LAccept /\ exists pid b', nl = NConnect pid b') ->
    advances c nl s (mkNet w' al) p p).
Proof.
  intros Hk Hl Hx Hb Ha. destruct (linked_broker c b h s p l w' Hk Hl Hx Hb) as (Hk' & Hf & Hlen).
  pose proof (exec_logs parse _ l w' Hx) as [_ Hi Hwi _ _ _]. split.
  - simpl in Ha. destruct Hk', Hk. split; simpl in *; try done. congruence.
  - intros nl Hnl.
    assert (Hne : forall pl, nl <> NApp c pl) by by destruct Hnl as [->|(_ & ? & ? & ->)].
    split; simpl; try done.
    + by left.
    + intros ->. destruct Hnl as [[= <-]|(_ & ? & ? & ?)]; [by apply Hlen|done].
    + intros ->. by destruct (Hne (PWriter true)).
    + rewrite Hi. destruct Hnl as [->|(-> & ? & ? & ->)]; done.
    + destruct Hnl as [->|(_ & ? & ? & ->)]; by rewrite app_nil_r.
Qed.

Lemma linked_app c b h s p pl p' id :
  linked c b h s p -> pexec p pl = Some p' -> breaks c id (NApp c pl) = false ->
  (match pl with
   | PFrame _ f => bool_decide (wire_of (world s) c !! S (length (p_inbox p)) = Some f)
   | _ => true
   end) = true ->
  linked c b h (set_app c (mkApp b h (AConnected p)) (AConnected p') s) p'
  /\ advances c (NApp c pl) s (set_app c (mkApp b h (AConnected p)) (AConnected p') s) p p'.
Proof.
  intros [Hc Ho Hid Ht Ha Hr Hw Hn Hs (ack & Hg)] Hx Hb Hf.
  destruct (pexec_stream p pl p' Hx Hr) as [Hr' Hst]; [intros ->; simpl in Hb; by rewrite bool_decide_eq_true_2 in Hb|].
  unfold stream_from in Hst. rewrite Hw in Hst.
  destruct (stream_open _ _ _ _ _ _ Hst) as (Hw' & Hfr & Hpw & Hlen).
  { destruct pl; try done. simpl in *. rewrite bool_decide_eq_true_2 in Hb by done. by destruct written. }
  pose proof (pl_inbox _ _ _ (pexec_logs p pl p' Hx)) as Hi.
  split.
  - split; simpl; try done.
    + by rewrite lookup_insert_eq.
    + by eapply p_numbered_exec.
    + etrans; [done|]. by apply prefix_cons.
    + exists ack. rewrite Hi. destruct pl; simpl; rewrite ?app_nil_r; try done.
      apply bool_decide_eq_true in Hf.
      change (BusFrame.HelloAck ack :: p_inbox p ++ [f]) with ((BusFrame.HelloAck ack :: p_inbox p) ++ [f]).
      by apply prefix_lookup_snoc.
  - split; simpl; try done.
    + right. by exists pl.
    + intros [= ->]. by apply Hlen.
    + by rewrite app_nil_r.
    + by rewrite decide_True.
Qed.

Lemma linked_step c b h s p id l s' :
  linked c b h s p -> nexec parse dbg s l = Some s' -> breaks c id l = false ->
  exists p', linked c b h s' p' /\ advances c l s s' p p'.
Proof.
  intros Hk Hx Hb. destruct l as [l|pid b'|c' read now|c' pl]; simpl in Hx.
  - destruct (label_reads s l) eqn:Hl; [|done]. apply bind_Some in Hx as (w' & Hx & [= <-]). exists p.
    destruct (linked_world c b h s p l w' (apps s) Hk Hl Hx) as [Hk' Had]; [by destruct l|done|]. split; [done|]. apply Had. by left.
  - destruct (hello_of pid b') as [hello|]; [|done]. simpl in Hx. injection Hx as <-. exists p.
    pose proof (lk_id _ _ _ _ _ Hk) as Hid.
    destruct (linked_world c b h s p LAccept _ (<[next_id (world s) := mkApp b' hello AConnecting]> (apps s)) Hk eq_refl eq_refl)
      as [Hk' Had]; [done|simpl; rewrite lookup_insert_ne; [done|lia]|]. split; [exact Hk'|]. apply Had. right. eauto.
  - destruct (apps s !! c') as [[b0 h0 [|p0|e0]]|] eqn:Ha; try done.
    destruct (match read with Ok (Some f) => _ | _ => _ end); [|done]. injection Hx as <-. exists p.
    apply linked_apart; try done. simpl. rewrite lookup_insert_ne; [done|]. intros ->.
    rewrite (lk_app _ _ _ _ _ Hk) in Ha. done.
  - destruct (apps s !! c') as [[b0 h0 [|p0|e0]]|] eqn:Ha; try done.
    destruct (match pl with PFrame _ f => _ | _ => _ end) eqn:Hf; [|done].
    apply bind_Some in Hx as (p' & Hx & [= <-]). destruct (decide (c' = c)) as [->|Hne].
    + rewrite (lk_app _ _ _ _ _ Hk) in Ha. injection Ha as <- <- <-. exists p'. by apply (linked_app c b h s p pl p' id).
    + exists p. apply linked_apart; try done; [|congruence]. simpl. by rewrite lookup_insert_ne.
Qed.

(** * The way of a call *)

Definition proc_of s c : option (Proc Q Nt) :=
  match apps s !! c with Some (mkApp _ _ (AConnected p)) => Some p | _ => None end.
Definition app_wire s c : list BusFrame := default [] (p_wire <$> proc_of s c).
Definition app_inbox s c : list BusFrame := default [] (p_inbox <$> proc_of s c).

(** The states of the connection in which [X] holds. *)
Definition linking c b h (X : Net Q Nt -> Proc Q Nt -> Prop) s : Prop := exists p, linked c b h s p /\ X s p.

(** What only grows. *)
Definition sent (i : nat) (f : BusFrame) s (p : Proc Q Nt) : Prop := frames_out p !! i = Some f.
Definition written c (i : nat) (f : BusFrame) s (p : Proc Q Nt) : Prop := app_wire s c !! i = Some f.
Definition queued_to c (i : nat) (f : BusFrame) s (p : Proc Q Nt) : Prop := frames_to (world s) c !! i = Some f.
Definition written_to c (i : nat) (f : BusFrame) s (p : Proc Q Nt) : Prop := wire_of (world s) c !! i = Some f.

Lemma linked_proc c b h s p : linked c b h s p -> proc_of s c = Some p.
Proof. intros Hk. unfold proc_of. by rewrite (lk_app _ _ _ _ _ Hk). Qed.

Lemma linked_logs c b h s p :
  linked c b h s p -> app_wire s c = p_wire p /\ app_inbox s c = p_inbox p.
Proof. intros Hk. unfold app_wire, app_inbox. by rewrite (linked_proc _ _ _ _ _ Hk). Qed.

Section connection.
Context (c : conn_id) (b : BusClientBuilder) (h : HelloRequest) (id : task_id).

(** The steps that keep the connection. *)
Definition keeps (l : NLabel) : bool := negb (breaks c id l).
#[local] Instance kept_lts : Lts (Net Q Nt) NLabel := confined (H := net_lts) keeps.

Definition grows (X : Net Q Nt -> Proc Q Nt -> Prop) : Prop := forall l s s' p p',
  linked c b h s p -> linked c b h s' p' -> advances c l s s' p p' -> l <> NApp c (PDrop id) -> X s p -> X s' p'.

Lemma kept_step s l s' :
  step s l = Some s' -> nexec parse dbg s l = Some s' /\ breaks c id l = false.
Proof.
  unfold step, kept_lts, confined, keeps. destruct (breaks c id l); simpl; [done|]. by intros Hx.
Qed.

Lemma linking_step X s l s' :
  grows X -> linking c b h X s -> step s l = Some s' -> linking c b h X s'.
Proof.
  intros Hg (p & Hk & HX) [Hx Hb]%kept_step. destruct (linked_step c b h s p id l s' Hk Hx Hb) as (p' & Hk' & Had).
  exists p'. split; [done|]. apply (Hg l s s' p p' Hk Hk' Had); [|done]. intros ->. simpl in Hb. rewrite !bool_decide_eq_true_2 in Hb; done.
Qed.

Lemma grows_sent i f : grows (sent i f).
Proof. intros l s s' p p' _ _ Had _ Hi. eapply prefix_lookup_Some; [exact Hi|apply (ad_from _ _ _ _ _ _ Had)]. Qed.

Lemma grows_written i f : grows (written c i f).
Proof.
  intros l s s' p p' Hk Hk' Had _. unfold written. rewrite (proj1 (linked_logs _ _ _ _ _ Hk)), (proj1 (linked_logs _ _ _ _ _ Hk')).
  intros Hi. eapply prefix_lookup_Some; [exact Hi|apply (ad_wire _ _ _ _ _ _ Had)].
Qed.

Lemma grows_queued_to i f : grows (queued_to c i f).
Proof. intros l s s' p p' _ _ Had _ Hi. eapply prefix_lookup_Some; [exact Hi|apply (ad_to _ _ _ _ _ _ Had)]. Qed.

Lemma grows_written_to i f : grows (written_to c i f).
Proof. intros l s s' p p' _ _ Had _ Hi. eapply prefix_lookup_Some; [exact Hi|apply (ad_wire_to _ _ _ _ _ _ Had)]. Qed.

(** The caller waits for the response numbered [k], or has its result. *)
Lemma grows_calling a k : grows (fun _ p => calling p id a k).
Proof.
  intros l s s' p p' Hk Hk' Had Hd Hc. destruct (ad_app _ _ _ _ _ _ Had) as [[-> _]|(pl & -> & Hx)]; [done|].
  assert (Hpl : pl <> PDrop id) by (by intros ->). pose proof (lk_numbered _ _ _ _ _ Hk) as Hn.
  destruct Hc as [Ht|[r Ht]]; destruct (caller_stays p pl p' id a _ Hx Hn Ht Hpl) as (pc' & Ht' & [[_ ->]|[_ Hnx]]).
  - by left.
  - inversion Hnx; subst. right. eauto.
  - right. eauto.
  - inversion Hnx.
Qed.

(** A counter of the connection that the steps of [P] raise. *)
Lemma link_counts e X (count : Net Q Nt -> nat) target (P : NLabel -> Prop) n :
  grows X -> fair e P -> linking c b h X (at_ e n) ->
  (forall s p, linked c b h s p -> X s p -> count s < target ->
     exists l, P l /\ breaks c id l = false /\ is_Some (nexec parse dbg s l)) ->
  (forall l s s' p p', linked c b h s p -> linked c b h s' p' -> advances c l s s' p p' ->
     count s <= count s' /\ (P l -> count s < count s')) ->
  exists m, n <= m /\ linking c b h X (at_ e m) /\ target <= count (at_ e m).
Proof.
  intros Hg Hf Hn He Hc. apply (fair_counts e (linking c b h X) count target P); [|exact Hf|exact Hn].
  assert (Hcount : forall s l s', linking c b h X s -> step s l = Some s' ->
    count s <= count s' /\ (P l -> count s < count s')).
  { intros s l s' (p & Hk & _) [Hx Hb]%kept_step.
    destruct (linked_step c b h s p id l s' Hk Hx Hb) as (p' & Hk' & Had). by eapply Hc. }
  split.
  - intros s (p & Hk & HX) Hlt. destruct (He s p Hk HX Hlt) as (l & Hl & Hb & Hs). exists l. split; [done|].
    unfold step, kept_lts, confined, keeps. by rewrite Hb.
  - intros s l s' HJ Hx. split; [by eapply linking_step|by eapply Hcount].
  - intros s l s' HJ _ Hl Hx. by eapply Hcount.
Qed.

(** ** The request *)

(** The session task of the connection goes on: it reads a frame, or goes on
    with what it has read. *)
Definition reads_on (l : NLabel) : Prop := (exists f, l = NBroker (LFrame c f)) \/ l = NBroker (LSession c).

(** The app's writer writes what was queued for it. *)
Lemma app_writes e i f n :
  fair e (fun l => l = NApp c (PWriter true)) -> linking c b h (sent i f) (at_ e n) ->
  exists m, n <= m /\ linking c b h (written c i f) (at_ e m).
Proof.
  intros Hf Hn.
  destruct (link_counts e (sent i f) (fun s => length (app_wire s c)) (S i) _ n (grows_sent _ _) Hf Hn)
    as (m & Hle & (p & Hk & Hi) & Hlen).
  - intros s p Hk Hi Hlt. rewrite (proj1 (linked_logs _ _ _ _ _ Hk)) in Hlt. eexists. split; [done|].
    split; [simpl; apply andb_false_r|].
    unfold sent, frames_out in Hi. rewrite lookup_app_r in Hi by lia.
    destruct (queued (c_tx (p_client p))) as [|f0 q] eqn:Hq; [done|].
    destruct (recv_cons _ _ _ (lk_writer _ _ _ _ _ Hk) Hq) as (q' & Hrc & _).
    simpl. rewrite (lk_app _ _ _ _ _ Hk). unfold pexec. simpl. rewrite Hrc. simpl. eauto.
  - intros l s s' p p' Hk Hk' Had. rewrite (proj1 (linked_logs _ _ _ _ _ Hk)), (proj1 (linked_logs _ _ _ _ _ Hk')).
    split; [by apply prefix_length, (ad_wire _ _ _ _ _ _ Had)|].
    intros Hl. rewrite (ad_written _ _ _ _ _ _ Had Hl). lia.
  - exists m. split; [done|]. exists p. split; [done|]. rewrite (proj1 (linked_logs _ _ _ _ _ Hk)) in Hlen.
    unfold written. rewrite (proj1 (linked_logs _ _ _ _ _ Hk)).
    unfold sent, frames_out in Hi. by rewrite lookup_app_l in Hi by lia.
Qed.

(** The broker comes to read the next frame the app has written. *)
Lemma broker_reads_next e i f n k :
  fair e reads_on -> linking c b h (written c i f) (at_ e n) ->
  length (inbox_of (world (at_ e n)) c) = k -> k < S (S i) ->
  exists m, n <= m /\ linking c b h (written c i f) (at_ e m) /\ k < length (inbox_of (world (at_ e m)) c).
Proof.
  intros Hf Hn Hk Hlt.
  set (J := fun s => linking c b h (written c i f) s /\ length (inbox_of (world s) c) = k).
  set (G := fun s => linking c b h (written c i f) s /\ k < length (inbox_of (world s) c)).
  destruct (fair_reaches e J G (fun s => job_rank (busy (world s) !! c)) reads_on) with (n := n)
    as (m & Hle & Hm); [|exact Hf|by split|by exists m].
  assert (Hgen : forall s l s', J s -> step s l = Some s' ->
    G s' \/ (J s' /\ (busy (world s') !! c = busy (world s) !! c /\ ~ reads_on l
      \/ job_rank (busy (world s') !! c) < job_rank (busy (world s) !! c)))).
  { intros s l s' [HJ Hkk] Hx. pose proof (linking_step _ _ _ _ (grows_written i f) HJ Hx) as HJ'.
    destruct HJ as (p & Hl & _). apply kept_step in Hx as [Hx Hb].
    destruct (linked_step c b h s p id l s' Hl Hx Hb) as (p' & _ & Had).
    pose proof (ad_read _ _ _ _ _ _ Had) as Hr. pose proof (nexec_world _ _ _ _ _ Hx) as Hw.
    destruct (lk_conn _ _ _ _ _ Hl) as (hello & g & Hc).
    assert (Hquiet : busy (world s') !! c = busy (world s) !! c /\ ~ reads_on l ->
      inbox_of (world s') c = inbox_of (world s) c ->
      G s' \/ (J s' /\ (busy (world s') !! c = busy (world s) !! c /\ ~ reads_on l
        \/ job_rank (busy (world s') !! c) < job_rank (busy (world s) !! c)))).
    { intros Hq Hi. right. split; [by split; [|rewrite Hi]|by left]. }
    destruct l as [bl|pid b'|c' read now|c' pl]; simpl in Hr; rewrite ?app_nil_r in Hr.
    - destruct (frames_read_nil bl c) as [Hn0|[f' Hf']].
      + rewrite Hn0, app_nil_r in Hr.
        destruct (running_job parse _ bl _ c hello g Hw Hc) as [[Hs Hne]|[[f' ->]|[-> Hrank]]].
        * intros ->. simpl in Hb. by rewrite bool_decide_eq_true_2 in Hb.
        * apply Hquiet; [|done]. split; [done|]. intros [[f' [= ->]]|[= ->]]; [|done].
          simpl in Hn0. by rewrite decide_True in Hn0.
        * simpl in Hn0. by rewrite decide_True in Hn0.
        * right. split; [by split; [|rewrite Hr]|by right].
      + left. split; [done|]. rewrite Hr, Hf', length_app. simpl. lia.
    - apply Hquiet; [|done].
      destruct (running_job parse _ LAccept _ c hello g Hw Hc) as [[Hs _]|[[f' ?]|[? _]]]; [done| |done..].
      split; [done|]. by intros [[]|].
    - apply Hquiet; [|done]. rewrite Hw. split; [done|]. by intros [[]|].
    - apply Hquiet; [|done]. rewrite Hw. split; [done|]. by intros [[]|]. }
  split.
  - intros s [(p & Hl & Hi) Hkk]. unfold written in Hi. rewrite (proj1 (linked_logs _ _ _ _ _ Hl)) in Hi.
    apply lookup_lt_Some in Hi. destruct (lk_conn _ _ _ _ _ Hl) as (hello & g & Hc).
    destruct (busy (world s) !! c) as [job|] eqn:Hj.
    + exists (NBroker (LSession c)). split; [by right|]. unfold step, kept_lts, confined, keeps. simpl.
      change (is_Some (nexec parse dbg s (NBroker (LSession c)))). cbn [nexec label_reads]. unfold exec. simpl.
      rewrite Hc, Hj. destruct (serve_job _ _ _ _ _) as [[[b' h'] t] j]. simpl. eauto.
    + destruct (lookup_lt_is_Some_2 (BusFrame.Hello h :: p_wire p) (length (inbox_of (world s) c))) as [f' Hf'];
        [simpl; lia|].
      exists (NBroker (LFrame c f')). split; [left; by exists f'|]. unfold step, kept_lts, confined, keeps. simpl.
      change (is_Some (nexec parse dbg s (NBroker (LFrame c f')))).
      cbn [nexec label_reads]. unfold broker_reads. rewrite (lk_app _ _ _ _ _ Hl), bool_decide_eq_true_2 by exact Hf'.
      unfold exec. simpl. rewrite Hc, Hj. destruct (serve_frame _ _ _ _ _) as [[[b' h'] t] j]. simpl. eauto.
  - intros s l s' HJ Hx. destruct (Hgen s l s' HJ Hx) as [?|[? [[-> _]|?]]]; auto with lia.
  - intros s l s' HJ Hl Hx. destruct (Hgen s l s' HJ Hx) as [?|[? [[_ ?]|?]]]; auto; done.
Qed.

(** The broker reads what the app has written. *)
Lemma broker_reads_on e i f n :
  fair e reads_on -> linking c b h (written c i f) (at_ e n) ->
  exists m, n <= m /\ linking c b h (written c i f) (at_ e m) /\ S (S i) <= length (inbox_of (world (at_ e m)) c).
Proof.
  intros Hf Hn. remember (S (S i) - length (inbox_of (world (at_ e n)) c)) as d eqn:Hd. revert n Hn Hd.
  induction d as [d IH] using lt_wf_ind. intros n Hn Hd.
  destruct (decide (S (S i) <= length (inbox_of (world (at_ e n)) c))) as [|Hlt]; [by exists n|].
  destruct (broker_reads_next e i f n _ Hf Hn eq_refl) as (m & Hle & Hm & Hmore); [lia|].
  destruct (IH (S (S i) - length (inbox_of (world (at_ e m)) c))) with (n := m) as (m' & Hle' & Hm'); [lia|done|done|].
  exists m'. split; [lia|done].
Qed.

(** ** The response *)

(** The broker's writer writes what was queued for it. *)
Lemma broker_writes e i f n :
  fair e (fun l => l = NBroker (LWriter c true)) -> linking c b h (queued_to c i f) (at_ e n) ->
  exists m, n <= m /\ linking c b h (written_to c i f) (at_ e m).
Proof.
  intros Hf Hn.
  destruct (link_counts e (queued_to c i f) (fun s => length (wire_of (world s) c)) (S i) _ n (grows_queued_to _ _) Hf Hn)
    as (m & Hle & (p & Hk & Hi) & Hlen).
  - intros s p Hk Hi Hlt. eexists. split; [done|]. split; [simpl; apply andb_false_r|].
    unfold queued_to, frames_to in Hi. rewrite lookup_app_r in Hi by lia.
    pose proof (lk_open _ _ _ _ _ Hk) as Ho. unfold chan_open in Ho. unfold chan_queue in Hi.
    destruct (channels (heap (world s)) !! c) as [q|] eqn:Hc; [|done]. simpl in Hi, Ho.
    destruct (queued q) as [|f0 q0] eqn:Hq; [done|].
    destruct (recv_cons _ _ _ Ho Hq) as (q' & Hrc & _).
    destruct (lk_conn _ _ _ _ _ Hk) as (hello & g & Hcn).
    cbn [nexec label_reads]. unfold exec. simpl. rewrite Hcn, Hc. simpl. rewrite Hrc. simpl. eauto.
  - intros l s s' p p' Hk Hk' Had. split; [by apply prefix_length, (ad_wire_to _ _ _ _ _ _ Had)|].
    intros Hl. rewrite (ad_written_to _ _ _ _ _ _ Had Hl). lia.
  - exists m. split; [done|]. exists p. split; [done|].
    unfold written_to. unfold queued_to, frames_to in Hi. by rewrite lookup_app_l in Hi by lia.
Qed.

(** The app reads what the broker has written. *)
Lemma app_reads_on e j f n :
  fair e (fun l => exists now f, l = NApp c (PFrame now f)) -> linking c b h (written_to c (S j) f) (at_ e n) ->
  exists m, n <= m /\ S j <= length (app_inbox (at_ e m) c).
Proof.
  intros Hf Hn.
  destruct (link_counts e (written_to c (S j) f) (fun s => length (app_inbox s c)) (S j) _ n (grows_written_to _ _) Hf Hn)
    as (m & Hle & _ & Hlen); [..|by exists m].
  - intros s p Hk Hi Hlt. rewrite (proj2 (linked_logs _ _ _ _ _ Hk)) in Hlt. apply lookup_lt_Some in Hi.
    destruct (lookup_lt_is_Some_2 (wire_of (world s) c) (S (length (p_inbox p)))) as [f' Hf']; [lia|].
    exists (NApp c (PFrame 0 f')). split; [by exists 0%N, f'|]. split; [done|].
    cbn [nexec]. rewrite (lk_app _ _ _ _ _ Hk), bool_decide_eq_true_2 by exact Hf'.
    unfold pexec. simpl. rewrite (lk_reader _ _ _ _ _ Hk). destruct (handle_inbound _ _ _) as [c' ef]. simpl. eauto.
  - intros l s s' p p' Hk Hk' Had. rewrite (proj2 (linked_logs _ _ _ _ _ Hk)), (proj2 (linked_logs _ _ _ _ _ Hk')).
    rewrite (ad_got _ _ _ _ _ _ Had), length_app. split; [lia|].
    intros (now & f' & ->). rewrite decide_True by done. simpl. lia.
Qed.

(** ** The two ends of the way *)

(** The frame of the app the broker has come to. *)
Lemma request_read e i f n m :
  linking c b h (sent i f) (at_ e n) -> n <= m -> length (inbox_of (world (at_ e n)) c) <= S i ->
  S (S i) <= length (inbox_of (world (at_ e m)) c) ->
  exists k, n <= k /\ taken e k = Some (NBroker (LFrame c f))
    /\ exec parse (world (at_ e k)) (LFrame c f) = Some (world (at_ e (1 + k))).
Proof.
  intros Hn Hle Hlt Hge.
  destruct (counter_crosses e (linking c b h (sent i f)) (fun s => length (inbox_of (world s) c)) (S (S i)) n m)
    as (k & l & Hk & (p & Hl & Hi) & Htk & Hx & Hcr); [|done|done|lia|done|].
  { intros s l s'. apply linking_step, grows_sent. }
  apply kept_step in Hx as [Hx Hb]. exists k. split; [lia|].
  destruct (linked_step c b h _ p id l _ Hl Hx Hb) as (p' & _ & Had).
  pose proof (ad_read _ _ _ _ _ _ Had) as Hr. rewrite Hr, length_app in Hcr. clear Hr Had.
  destruct l as [bl| | |]; simpl in Hcr; try lia.
  destruct (frames_read_nil bl c) as [Hr|[f' Hr]]; rewrite Hr in Hcr; simpl in Hcr; [lia|].
  cbn [nexec] in Hx. destruct (label_reads _ bl) eqn:Hlr; [|done].
  apply bind_Some in Hx as (w & Hx & [= Hw]). change (1 + k) with (S k). rewrite <-Hw. cbn [world]. clear Hw.
  destruct (lk_conn _ _ _ _ _ Hl) as (hello & g & Hc).
  destruct (frames_read_from parse _ _ _ _ _ Hx Hr) as [(_ & Hh & _)|[-> _]]; [congruence|].
  assert (f' = f) as ->; [|done].
  simpl in Hlr. unfold broker_reads in Hlr. rewrite (lk_app _ _ _ _ _ Hl) in Hlr. apply bool_decide_eq_true in Hlr.
  replace (length (inbox_of (world (at_ e k)) c)) with (S i) in Hlr by lia. simpl in Hlr.
  unfold sent, frames_out in Hi. apply (lookup_app_l_Some _ (queued (c_tx (p_client p)))) in Hlr. congruence.
Qed.

(** The frame of the broker the app has come to. *)
Lemma response_read e j f n m :
  linking c b h (queued_to c (S j) f) (at_ e n) -> n <= m -> length (app_inbox (at_ e n) c) <= j ->
  S j <= length (app_inbox (at_ e m) c) ->
  exists k now p p', n <= k /\ linked c b h (at_ e k) p /\ linked c b h (at_ e (1 + k)) p'
    /\ pexec p (PFrame now f) = Some p'.
Proof.
  intros Hn Hle Hlt Hge.
  destruct (counter_crosses e (linking c b h (queued_to c (S j) f)) (fun s => length (app_inbox s c)) (S j) n m)
    as (k & l & Hk & (p & Hl & Hi) & Htk & Hx & Hcr); [|done|done|lia|done|].
  { intros s l s'. apply linking_step, grows_queued_to. }
  apply kept_step in Hx as [Hx Hb].
  destruct (linked_step c b h _ p id l _ Hl Hx Hb) as (p' & Hl' & Had).
  rewrite (proj2 (linked_logs _ _ _ _ _ Hl)), (proj2 (linked_logs _ _ _ _ _ Hl')) in Hcr.
  pose proof (ad_got _ _ _ _ _ _ Had) as Hr. rewrite Hr, length_app in Hcr.
  destruct l as [| | |c' pl]; simpl in Hcr; try lia. destruct (decide (c' = c)) as [->|]; simpl in Hcr; [|lia].
  destruct (ad_app _ _ _ _ _ _ Had) as [[_ Hne]|(pl' & [= <-] & Hpx)]; [by destruct (Hne pl)|].
  destruct pl as [| | | | | | | | | | | |now f'| | |]; simpl in Hcr; try lia.
  exists k, now, p, p'. split; [lia|]. split; [done|]. split; [done|].
  assert (f' = f) as ->; [|done].
  cbn [nexec] in Hx. rewrite (lk_app _ _ _ _ _ Hl) in Hx. destruct (bool_decide _) eqn:Hw; [|done].
  apply bool_decide_eq_true in Hw. replace (length (p_inbox p)) with j in Hw by lia.
  unfold queued_to, frames_to in Hi. apply (lookup_app_l_Some _ (chan_queue (heap (world (at_ e k))) c)) in Hw. congruence.
Qed.

(** ** The caller *)

Definition polls_caller (l : NLabel) : Prop := exists pl, l = NApp c pl /\ polls id pl.
Definition at_pc (a : InvokeArgs) (pc : InvokePc) : Net Q Nt -> Proc Q Nt -> Prop :=
  fun _ p => p_tasks p !! id = Some (PInvoke a pc).

(** The request has been queued in the place [i]; the broker is not beyond it. *)
Definition requested (a : InvokeArgs) (k : N) (i : nat) : Net Q Nt -> Proc Q Nt -> Prop := fun s p =>
  at_pc a (IAwait k) s p /\ sent i (outbound_frame a k) s p /\ length (inbox_of (world s) c) <= S i.

Definition caller_rank s : nat :=
  match p ← proc_of s c; p_tasks p !! id with
  | Some (PInvoke _ IStart) => 2
  | Some (PInvoke _ (ISend _)) => 1
  | _ => 0
  end.

(** A step of a caller at [pc], as the connection sees it. *)
Lemma caller_moves a pc s l s' :
  linking c b h (at_pc a pc) s -> step s l = Some s' ->
  (linking c b h (at_pc a pc) s' /\ ~ polls_caller l)
  \/ exists pl p p' pc', l = NApp c pl /\ linked c b h s p /\ linked c b h s' p' /\ at_pc a pc s p /\ at_pc a pc' s' p'
       /\ pexec p pl = Some p' /\ own_label pl = Some id /\ invoke_next p pc pc'
       /\ inbox_of (world s') c = inbox_of (world s) c.
Proof.
  intros (p & Hk & Ht) [Hx Hb]%kept_step. destruct (linked_step c b h s p id l s' Hk Hx Hb) as (p' & Hk' & Had).
  destruct (ad_app _ _ _ _ _ _ Had) as [[-> Hne]|(pl & -> & Hpx)].
  - left. split; [by exists p|]. intros (pl & -> & _). by destruct (Hne pl).
  - assert (Hpl : pl <> PDrop id) by (intros ->; simpl in Hb; by rewrite !bool_decide_eq_true_2 in Hb).
    destruct (caller_stays p pl p' id a pc Hpx (lk_numbered _ _ _ _ _ Hk) Ht Hpl) as (pc' & Ht' & [[Hl ->]|[Hl Hnx]]).
    + left. split; [by exists p'|]. intros (pl' & [= <-] & [->|[->| ->]]); done.
    + right. exists pl, p, p', pc'. split_and!; try done.
      rewrite (ad_read _ _ _ _ _ _ Had). by rewrite app_nil_r.
Qed.

Lemma caller_enabled s p pl p' :
  linked c b h s p -> pexec p pl = Some p' -> polls id pl -> enabled polls_caller s.
Proof.
  intros Hk Hx Hp. exists (NApp c pl). split; [by exists pl|]. unfold step, kept_lts, confined, keeps.
  assert (Hb : breaks c id (NApp c pl) = false) by (by destruct Hp as [->|[->| ->]]). rewrite Hb. simpl.
  change (is_Some (nexec parse dbg s (NApp c pl))). cbn [nexec]. rewrite (lk_app _ _ _ _ _ Hk).
  destruct Hp as [->|[->| ->]]; rewrite Hx; simpl; eauto.
Qed.

Lemma at_rank a pc s p :
  linked c b h s p -> at_pc a pc s p ->
  caller_rank s = match pc with IStart => 2 | ISend _ => 1 | _ => 0 end.
Proof. intros Hk Ht. unfold caller_rank. rewrite (linked_proc _ _ _ _ _ Hk). simpl. rewrite Ht. by destruct pc. Qed.

Lemma send_requests s s' p p' pl a k :
  linked c b h s p -> linked c b h s' p' -> inbox_of (world s') c = inbox_of (world s) c ->
  at_pc a (ISend k) s p -> pexec p pl = Some p' -> own_label pl = Some id ->
  exists i, linking c b h (requested a k i) s'.
Proof.
  intros Hk Hk' Hi Ht Hx Hl. pose proof (lk_writer _ _ _ _ _ Hk) as Ha. unfold at_pc in Ht.
  exists (length (frames_out p)), p'. split; [done|].
  assert (Hp : p_tasks p' !! id = Some (PInvoke a (IAwait k)) /\ frames_out p' = frames_out p ++ [outbound_frame a k]).
  { unfold pexec in Hx. destruct pl; simpl in Hl; try done; injection Hl as ->; simpl in Hx; rewrite Ht in Hx; simpl in Hx; try done.
    unfold invoke_send, send in Hx. destruct (send_alive _ (outbound_frame a k) Ha) as (q & Hq & Hqu & _).
    rewrite Hq in Hx. simpl in Hx. injection Hx as <-. unfold frames_out. simpl. rewrite lookup_insert_eq, Hqu, app_assoc. done. }
  destruct Hp as [Ht' Hf]. split; [exact Ht'|]. split.
  - unfold sent. rewrite Hf. by rewrite lookup_app_r, Nat.sub_diag by lia.
  - rewrite Hi. pose proof (prefix_length _ _ (lk_sent _ _ _ _ _ Hk)) as Hlen. simpl in Hlen.
    unfold frames_out. rewrite length_app. lia.
Qed.

Lemma caller_requests e a n :
  fair e polls_caller -> linking c b h (at_pc a IStart) (at_ e n) ->
  exists m k i, n <= m /\ linking c b h (requested a k i) (at_ e m).
Proof.
  intros Hf Hn.
  set (J := fun s => exists pc, (pc = IStart \/ exists k, pc = ISend k) /\ linking c b h (at_pc a pc) s).
  destruct (fair_reaches e J (fun s => exists k i, linking c b h (requested a k i) s) caller_rank polls_caller)
    with (n := n) as (m & Hle & k & i & Hm); [|exact Hf| |by exists m, k, i].
  - assert (Hgen : forall s l s', J s -> step s l = Some s' ->
      (exists k i, linking c b h (requested a k i) s')
      \/ J s' /\ caller_rank s' <= caller_rank s /\ (polls_caller l -> caller_rank s' < caller_rank s)).
    { intros s l s' (pc & Hpc & Hl) Hx. destruct (caller_moves a pc s l s' Hl Hx)
        as [[Hl' Hno]|(pl & p & p' & pc' & -> & Hk & Hk' & Ht & Ht' & Hpx & Hown & Hnx & Hi)].
      - right. split; [by exists pc|]. destruct Hl as (p & Hk & Ht), Hl' as (p' & Hk' & Ht').
        rewrite (at_rank _ _ _ _ Hk Ht), (at_rank _ _ _ _ Hk' Ht'). split; [done|by intros].
      - destruct Hpc as [->|[k ->]]; inversion Hnx as [|k0 Ha|k0 Ha|]; subst.
        + right. split; [exists (ISend (next_req p)); split; [right; eauto|by exists p']|].
          rewrite (at_rank _ _ _ _ Hk Ht), (at_rank _ _ _ _ Hk' Ht'). lia.
        + left. exists k. by apply (send_requests s s' p p' pl).
        + by rewrite (lk_writer _ _ _ _ _ Hk) in Ha. }
    split.
    + intros s (pc & Hpc & p & Hk & Ht). unfold at_pc in Ht.
      assert (Hx : is_Some (pexec p (PStep id))).
      { unfold pexec. simpl. rewrite Ht. simpl. destruct Hpc as [->|[k ->]]; simpl; [|destruct (invoke_send _ _ _)]; eauto. }
      destruct Hx as [p' Hx]. by eapply (caller_enabled s p (PStep id)); [done|done|left].
    + intros s l s' HJ Hx. destruct (Hgen s l s' HJ Hx) as [?|(? & ? & _)]; auto.
    + intros s l s' HJ Hl Hx. destruct (Hgen s l s' HJ Hx) as [?|(? & _ & ?)]; auto.
  - exists IStart. auto.
Qed.

(** A caller whose response is there, or can not come any more, returns. *)
Lemma caller_wakes e a k n :
  fair e polls_caller -> linking c b h (fun s p => at_pc a (IAwait k) s p /\ settled_call p id k) (at_ e n) ->
  exists m r, n <= m /\ linking c b h (at_pc a (IDone r)) (at_ e m).
Proof.
  intros Hf Hn.
  destruct (fair_reaches e (linking c b h (fun s p => at_pc a (IAwait k) s p /\ settled_call p id k))
    (fun s => exists r, linking c b h (at_pc a (IDone r)) s) (fun _ => 0) polls_caller)
    with (n := n) as (m & Hle & r & Hm); [|exact Hf|exact Hn|by exists m, r].
  assert (Hgen : forall s l s', linking c b h (fun s p => at_pc a (IAwait k) s p /\ settled_call p id k) s ->
    step s l = Some s' -> (exists r, linking c b h (at_pc a (IDone r)) s')
      \/ (linking c b h (fun s p => at_pc a (IAwait k) s p /\ settled_call p id k) s' /\ ~ polls_caller l)).
  { intros s l s' (p & Hk & Ht & Hs) Hx.
    destruct (caller_moves a (IAwait k) s l s') as [[(p' & Hk' & Ht') Hno]|(pl & p0 & p' & pc' & -> & _ & Hk' & _ & Ht' & _ & _ & Hnx & _)];
      [by exists p|exact Hx| |].
    - right. split; [|done]. exists p'. split; [done|]. split; [done|].
      apply kept_step in Hx as [Hx Hb]. destruct (linked_step c b h s p id l s' Hk Hx Hb) as (p1 & Hk1 & Had).
      assert (p1 = p') as -> by (pose proof (linked_proc _ _ _ _ _ Hk1); pose proof (linked_proc _ _ _ _ _ Hk'); congruence).
      destruct (ad_app _ _ _ _ _ _ Had) as [[-> _]|(pl & -> & Hpx)]; [done|]. by eapply settled_exec.
    - left. inversion Hnx; subst. eexists. by exists p'. }
  split.
  - intros s (p & Hk & Ht & Hs). destruct (settled_enabled p id a k Ht Hs) as (l & p' & Hl & Hx). by eapply caller_enabled.
  - intros s l s' HJ Hx. destruct (Hgen s l s' HJ Hx) as [?|[? _]]; auto.
  - intros s l s' HJ Hl Hx. destruct (Hgen s l s' HJ Hx) as [?|[_ ?]]; [auto|done].
Qed.

(** ** From the request to the result *)

(** The runtime, the streams and the two ends go on: no step of the run ends
    the connection, and every step that is needed is taken again and again
    where it can be. *)
Record attended (e : @execution (Net Q Nt) NLabel net_lts) : Prop := {
  att_up n l : taken e n = Some l -> breaks c id l = false;
  att_caller : fair e polls_caller;
  att_app_writer : fair e (fun l => l = NApp c (PWriter true));
  att_broker_reader : fair e reads_on;
  att_calls tid : fair e (runs_call tid);
  att_broker_writer : fair e (fun l => l = NBroker (LWriter c true));
  att_app_reader : fair e (fun l => exists now f, l = NApp c (PFrame now f))
}.

(** The app built with [b] is connected as [c], both ends read and write. *)
Record up s (p : Proc Q Nt) : Prop := {
  up_app : apps s !! c = Some (mkApp b h (AConnected p));
  up_conn : exists hello g, conns (world s) !! c = Some (SRunning hello g);
  up_open : chan_open (heap (world s)) c = true;
  up_reader : p_reader p = RReading;
  up_writer : rx_alive (c_tx (p_client p)) = true
}.

(** The run that keeps the connection, as a run of the smaller system. *)
Definition kept_run e (Ha : attended e) : @execution (Net Q Nt) NLabel kept_lts :=
  confine e keeps (fun n l Hl => f_equal negb (att_up e Ha n l Hl)).

(** A state in which the caller has its result and nothing is under way. *)
Definition quiet s : bool :=
  match proc_of s c with
  | Some p =>
      match p_tasks p !! id with Some (PInvoke _ (IDone _)) => true | _ => false end
      && bool_decide (length (queued (c_tx (p_client p))) = 0)
      && bool_decide (length (p_wire p) < length (inbox_of (world s) c))
      && bool_decide (size (tasks (world s)) = 0)
      && bool_decide (length (chan_queue (heap (world s)) c) = 0)
      && bool_decide (length (wire_of (world s) c) <= S (length (p_inbox p)))
      && match conns (world s) !! c, busy (world s) !! c with
         | Some (SRunning _ _), None => true
         | _, _ => false
         end
  | None => false
  end.
Definition up_now s : bool :=
  match apps s !! c, conns (world s) !! c with
  | Some (mkApp b' h' (AConnected p)), Some (SRunning _ _) =>
      chan_open (heap (world s)) c && rx_alive (c_tx (p_client p))
      && match p_reader p with RReading => true | _ => false end
  | _, _ => false
  end.

(** The broker starts a call for a request it reads. *)
Lemma request_routed w w' a k :
  (exists hello g, conns w !! c = Some (SRunning hello g)) ->
  exec parse w (LFrame c (outbound_frame a k)) = Some w' ->
  exists ca, tasks w' !! next_id w = Some (TCall (OApp c k) ca CStart)
    /\ ca.(CallArgs.timeout) = (Broker.config (broker w)).(BrokerConfig.default_call_timeout).
Proof.
  intros (hello & g & Hc) Hx. unfold exec in Hx. simpl in Hx. rewrite Hc in Hx.
  destruct (busy w !! c); [done|]. injection Hx as <-. unfold route_invoke. simpl.
  destruct (split_once_sep (i_service a) (i_method a) "."%char) as (l & r & Hs). rewrite Hs.
  simpl. rewrite lookup_insert_eq. by eexists.
Qed.

(** The response of the broker's call of the request gets on its way. *)
Lemma request_answered config k (e : @execution (Net Q Nt) NLabel net_lts) n (tid : call_id) rid (ca : CallArgs) :
  reachable parse config k (world (at_ e 0)) -> fair e (runs_call tid) ->
  (forall m, n <= m -> exists p, linked c b h (at_ e m) p) ->
  tasks (world (at_ e n)) !! tid = Some (TCall (OApp c rid) ca CStart) -> ca.(CallArgs.timeout) <> 0%N ->
  exists m j r, n <= m /\ length (app_inbox (at_ e m) c) <= j
    /\ linking c b h (queued_to c (S j) (BusFrame.Response {| Response.req_id := rid; Response.result := r |})) (at_ e m).
Proof.
  intros Hr Hf HX Ht Hz.
  destruct (app_call_ends parse config k (broker_run e) n tid c rid ca CStart) as (_ & _ & _ & i & r & [Hi _] & _ & Hq);
    [exact Hr|by apply broker_run_fair|exact Ht|exact Hz|].
  destruct (HX i Hi) as (p & Hk), (HX (1 + i)) as (p' & Hk'); [lia|].
  change (chan_queue (heap (world (at_ e (1 + i)))) c = chan_queue (heap (world (at_ e i))) c
    ++ (if chan_open (heap (world (at_ e i))) c
        then [BusFrame.Response {| Response.req_id := rid; Response.result := r |}] else [])) in Hq.
  rewrite (lk_open _ _ _ _ _ Hk) in Hq.
  destruct (lk_got _ _ _ _ _ Hk') as [ack Hg]. apply prefix_length in Hg. simpl in Hg.
  set (at0 := length (wire_of (world (at_ e (1 + i))) c) + length (chan_queue (heap (world (at_ e i))) c)).
  exists (1 + i), (pred at0), r. split; [lia|].
  rewrite (proj2 (linked_logs _ _ _ _ _ Hk')). split; [subst at0; simpl in *; lia|].
  exists p'. split; [done|]. replace (S (pred at0)) with at0 by (subst at0; simpl in *; lia).
  unfold queued_to, frames_to. rewrite Hq, app_assoc, lookup_app_r by (rewrite length_app; subst at0; lia).
  rewrite length_app. subst at0. by rewrite Nat.sub_diag.
Qed.

(** A response the app reads ends the wait of its caller. *)
Lemma answered_caller e a k n :
  fair e polls_caller -> linking c b h (fun _ p => calling p id a k) (at_ e n) ->
  (exists p0 p now resp, linked c b h (at_ e n) p0 /\ linked c b h (at_ e (1 + n)) p
     /\ pexec p0 (PFrame now (BusFrame.Response resp)) = Some p /\ resp.(Response.req_id) = k) ->
  exists m r, n <= m /\ linking c b h (at_pc a (IDone r)) (at_ e m).
Proof.
  intros Hf (p & Hk & Hc) (p0 & p' & now & resp & Hk0 & Hk' & Hx & Hid).
  assert (p0 = p) as -> by (pose proof (linked_proc _ _ _ _ _ Hk); pose proof (linked_proc _ _ _ _ _ Hk0); congruence).
  destruct Hc as [Ht|[r Ht]]; [|exists n, r; split; [done|by exists p]].
  destruct (pexec_tasks p _ p' Hx) as (_ & Hsame & _).
  destruct (caller_wakes e a k (1 + n) Hf) as (m & r & Hle & Hm).
  - exists p'. split; [done|]. split; [|by eapply response_settles].
    unfold at_pc. rewrite Hsame; [done|done|by eapply (lk_numbered _ _ _ _ _ Hk)].
  - exists m, r. split; [lia|done].
Qed.

Lemma up_linked handles resolves config k s p :
  nreachable parse dbg handles resolves config k s -> (k + 1 < U64_SIZE)%N -> up s p -> linked c b h s p.
Proof.
  intros Hn Hb [Ha Hc Ho Hr Hw]. pose proof (reachable_net parse dbg handles resolves config k s Hn Hb) as Hok.
  destruct (no_world _ _ _ _ _ _ Hok) as (m & _ & Hrw).
  destruct (no_app _ _ _ _ _ _ Hok c _ Ha) as [Hid _ Hs Hco].
  destruct (Hco p eq_refl) as ((m' & c0 & _ & _ & _ & Hp) & _ & _ & _ & ack & Hg).
  split; try done; [by eapply reachable_numbered|by eapply preachable_numbered|by exists ack].
Qed.

Lemma kept_fair e Ha (P : NLabel -> Prop) :
  fair (H := net_lts) e P -> (forall l, P l -> breaks c id l = false) -> fair (kept_run e Ha) P.
Proof. intros Hf HP. apply confine_fair; [|exact Hf]. intros l Hl. unfold keeps. by rewrite (HP l Hl). Qed.

Lemma kept_linking (e : @execution (Net Q Nt) NLabel kept_lts) X n m :
  grows X -> linking c b h X (at_ e n) -> n <= m -> linking c b h X (at_ e m).
Proof.
  intros Hg Hn. apply (execution_invariant e _ n); [|exact Hn]. intros k l _ Hk _ Hx. by eapply linking_step.
Qed.

Lemma polls_keep l : polls_caller l -> breaks c id l = false.
Proof. by intros (pl & -> & [->|[->| ->]]). Qed.

(** The broker takes up the request. *)
Lemma request_taken e (Ha : attended e) a n :
  linking c b h (at_pc a IStart) (at_ e n) ->
  exists m k tid ca, n <= m /\ linking c b h (fun _ p => calling p id a k) (at_ e m)
    /\ tasks (world (at_ e m)) !! tid = Some (TCall (OApp c k) ca CStart)
    /\ ca.(CallArgs.timeout) = (Broker.config (broker (world (at_ e m)))).(BrokerConfig.default_call_timeout).
Proof.
  intros Hn. set (e' := kept_run e Ha).
  destruct (caller_requests e' a n) as (n1 & k & i & Hle1 & p1 & Hk1 & Ht1 & Hs1 & Hi1); [|exact Hn|].
  { apply kept_fair; [apply Ha|apply polls_keep]. }
  assert (Hl1 : linking c b h (sent i (outbound_frame a k)) (at_ e' n1)) by by exists p1.
  destruct (app_writes e' i (outbound_frame a k) n1) as (n2 & Hle2 & Hl2); [|exact Hl1|].
  { apply kept_fair; [apply Ha|]. intros ? ->. simpl. apply andb_false_r. }
  destruct (broker_reads_on e' i (outbound_frame a k) n2) as (n3 & Hle3 & _ & Hi3); [|exact Hl2|].
  { apply kept_fair; [apply Ha|]. by intros ? [[? ->]| ->]. }
  destruct (request_read e' i (outbound_frame a k) n1 n3) as (n4 & Hle4 & _ & Hx); [exact Hl1|lia|exact Hi1|exact Hi3|].
  assert (Hc : forall m, n1 <= m -> linking c b h (fun _ p => calling p id a k) (at_ e' m)).
  { intros m. apply kept_linking; [apply grows_calling|]. exists p1. split; [done|by left]. }
  destruct (Hc n4 Hle4) as (p4 & Hk4 & _).
  destruct (request_routed _ _ a k (lk_conn _ _ _ _ _ Hk4) Hx) as (ca & Ht & Hz).
  exists (1 + n4), k, (next_id (world (at_ e n4))), ca. split; [lia|]. split; [apply Hc; lia|]. split; [exact Ht|].
  rewrite Hz. f_equal. symmetry. exact (lg_config _ _ _ (exec_logs parse _ _ _ Hx)).
Qed.

(** The app gets to the response. *)
Lemma response_arrives e (Ha : attended e) j resp n :
  linking c b h (queued_to c (S j) (BusFrame.Response resp)) (at_ e n) -> length (app_inbox (at_ e n) c) <= j ->
  exists m now p p', n <= m /\ linked c b h (at_ e m) p /\ linked c b h (at_ e (1 + m)) p'
    /\ pexec p (PFrame now (BusFrame.Response resp)) = Some p'.
Proof.
  intros Hq Hj. set (e' := kept_run e Ha).
  destruct (broker_writes e' (S j) (BusFrame.Response resp) n) as (m & Hle & Hw); [|exact Hq|].
  { apply kept_fair; [apply Ha|]. intros ? ->. simpl. apply andb_false_r. }
  destruct (app_reads_on e' j (BusFrame.Response resp) m) as (m' & Hle' & Hi); [|exact Hw|].
  { apply kept_fair; [apply Ha|]. by intros ? (? & ? & ->). }
  apply (response_read e' j (BusFrame.Response resp) n m' Hq); [lia|exact Hj|exact Hi].
Qed.

(** C4: every [invoke] returns. Take any infinite run of the whole system, from
    a reachable state in which an app is connected and both ends of its
    connection read and write, of whatever interleaving with other apps,
    foreign peers and calls; suppose that no step of the run ends the
    connection, and that the runtime goes on polling the caller, the tasks of
    the broker, the session task and the writer the broker has for the
    connection and the reader and the writer of the app, and firing the timers. If the broker has a default timeout, every call of
    [BusClient::invoke] the app makes during the run ends with a result: its
    request reaches the broker, the broker's call of it ends, the response with
    the number of the request reaches the app, and wakes the caller. Nothing is
    assumed of the app that serves the call. *)
Theorem invoke_returns handles resolves config k e p n (a : InvokeArgs) :
  nreachable parse dbg handles resolves config k (at_ e 0) -> (k + 1 < U64_SIZE)%N ->
  config.(BrokerConfig.default_call_timeout) <> 0%N ->
  up (at_ e 0) p -> attended e ->
  (exists p', proc_of (at_ e n) c = Some p' /\ p_tasks p' !! id = Some (PInvoke a IStart)) ->
  exists m p' r, n <= m /\ proc_of (at_ e m) c = Some p' /\ p_tasks p' !! id = Some (PInvoke a (IDone r)).
Proof.
  intros Hr Hb Hz Hup Ha (pn & Hpn & Htn). set (e' := kept_run e Ha).
  destruct (no_world _ _ _ _ _ _ (reachable_net parse dbg handles resolves config k _ Hr Hb)) as (k' & _ & Hw).
  assert (Hl : forall m, linking c b h (fun _ _ => True) (at_ e' m)).
  { intros m. apply (kept_linking e' _ 0); [done| |lia]. exists p. split; [by eapply up_linked|done]. }
  assert (Hn : linking c b h (at_pc a IStart) (at_ e n)).
  { destruct (Hl n) as (p0 & Hk & _). exists p0. split; [done|]. unfold at_pc.
    pose proof (linked_proc _ _ _ _ _ Hk). change (at_ e' n) with (at_ e n) in *. congruence. }
  destruct (request_taken e Ha a n Hn) as (n1 & rid & tid & ca & Hle1 & Hc1 & Ht & Hto).
  assert (Hc : forall m, n1 <= m -> linking c b h (fun _ p => calling p id a rid) (at_ e' m)).
  { intros m. apply kept_linking; [apply grows_calling|exact Hc1]. }
  destruct (request_answered config k' e n1 tid rid ca) as (n2 & j & r & Hle2 & Hj & Hq); [exact Hw|apply Ha| |exact Ht| |].
  { intros m Hm. destruct (Hc m Hm) as (p' & Hk & _). by exists p'. }
  { rewrite Hto. by rewrite (run_config config k' e n1 Hw). }
  destruct (response_arrives e Ha j {| Response.req_id := rid; Response.result := r |} n2 Hq Hj)
    as (n5 & now & p5 & p6 & Hle5 & Hk5 & Hk6 & Hx).
  destruct (answered_caller e' a rid n5) as (m & r' & Hle6 & p7 & Hk7 & Ht7).
  - apply kept_fair; [apply Ha|apply polls_keep].
  - apply Hc. lia.
  - exists p5, p6, now. eexists. by split_and!.
  - exists m, p7, r'. split; [lia|]. split; [by eapply linked_proc|done].
Qed.

Lemma app_step_inv s p pl :
  proc_of s c = Some p -> is_Some (nexec parse dbg s (NApp c pl)) ->
  is_Some (pexec p pl)
  /\ match pl with PFrame _ f => wire_of (world s) c !! S (length (p_inbox p)) = Some f | _ => True end.
Proof.
  unfold proc_of. intros Hp [s' Hx]. cbn [nexec] in Hx. destruct (apps s !! c) as [[b' h' [|p'|]]|]; try done.
  injection Hp as ->. destruct (match pl with PFrame _ f => _ | _ => _ end) eqn:Hf; [|done].
  apply bind_Some in Hx as (p' & Hx & _). split; [eauto|].
  destruct pl; try done. by apply bool_decide_eq_true in Hf.
Qed.

Lemma quiet_disabled s :
  quiet s = true ->
  ~ enabled (H := net_lts) polls_caller s /\ ~ enabled (H := net_lts) (fun l => l = NApp c (PWriter true)) s
  /\ ~ enabled (H := net_lts) reads_on s
  /\ (forall tid, ~ enabled (H := net_lts) (runs_call tid) s)
  /\ ~ enabled (H := net_lts) (fun l => l = NBroker (LWriter c true)) s
  /\ ~ enabled (H := net_lts) (fun l => exists now f, l = NApp c (PFrame now f)) s.
Proof.
  unfold quiet. destruct (proc_of s c) as [p|] eqn:Hp; [|done]. intros Hq. rewrite !andb_true_iff in Hq.
  destruct Hq as ((((((Hd & Hqu%bool_decide_eq_true) & Hin%bool_decide_eq_true) & Hts%bool_decide_eq_true)
    & Hcq%bool_decide_eq_true) & Hwi%bool_decide_eq_true) & Hidle).
  destruct (p_tasks p !! id) as [[a [| | |r]| | |]|] eqn:Ht; try done.
  apply length_zero_iff_nil in Hqu, Hcq. apply map_size_empty_inv in Hts. split_and!.
  - intros (l & (pl & -> & Hpl) & Hx). destruct (app_step_inv s p pl Hp Hx) as [[p' Hpx] _]. unfold pexec in Hpx.
    destruct Hpl as [->|[->| ->]]; simpl in Hpx; rewrite Ht in Hpx; done.
  - intros (l & -> & Hx). destruct (app_step_inv s p _ Hp Hx) as [[p' Hpx] _]. unfold pexec in Hpx. simpl in Hpx.
    by rewrite recv_nil in Hpx.
  - intros (l & [(f & ->)| ->] & s' & Hx);
      [change (nexec parse dbg s (NBroker (LFrame c f)) = Some s') in Hx
      |change (nexec parse dbg s (NBroker (LSession c)) = Some s') in Hx]; cbn [nexec label_reads] in Hx.
    2: { apply bind_Some in Hx as (w & Hx & _). unfold exec in Hx. simpl in Hx.
      destruct (conns (world s) !! c) as [[]|]; try done. by destruct (busy (world s) !! c). }
    unfold broker_reads in Hx. unfold proc_of in Hp. destruct (apps s !! c) as [[b' h' [|p'|]]|]; try done. injection Hp as ->.
    destruct (bool_decide _) eqn:Hr; [|done]. apply bool_decide_eq_true, lookup_lt_Some in Hr. simpl in Hr. lia.
  - intros tid (l & (l' & -> & Hl) & s' & Hx). change (nexec parse dbg s (NBroker l') = Some s') in Hx. cbn [nexec] in Hx.
    destruct (label_reads s l'); [|done]. apply bind_Some in Hx as (w & Hx & _). unfold exec in Hx.
    destruct Hl as [->|[->|[->| ->]]]; simpl in Hx; by rewrite Hts, lookup_empty in Hx.
  - intros (l & -> & s' & Hx). change (nexec parse dbg s (NBroker (LWriter c true)) = Some s') in Hx. cbn [nexec label_reads] in Hx.
    apply bind_Some in Hx as (w & Hx & _). unfold exec in Hx. simpl in Hx. unfold chan_queue in Hcq.
    destruct (conns (world s) !! c) as [[]|]; try done;
      (destruct (channels (heap (world s)) !! c) as [q|]; simpl in *; [|done]); by rewrite recv_nil in Hx.
  - intros (l & (now & f & ->) & Hx). destruct (app_step_inv s p _ Hp Hx) as [_ Hf]. apply lookup_lt_Some in Hf. lia.
Qed.

Lemma quiet_attended s ls s' (Hs : after (H := net_lts) s ls = Some s') :
  quiet s' = true -> forallb (fun l => negb (breaks c id l)) ls = true ->
  attended (execution_of (H := net_lts) s ls s' Hs).
Proof.
  intros Hq Hb. destruct (quiet_disabled s' Hq) as (H1' & H2' & H3' & H4' & H5' & H6').
  split; [|intros; by apply execution_of_fair..].
  intros n l Hl. rewrite forallb_forall in Hb. apply negb_true_iff, Hb.
  apply list_elem_of_In. apply (list_elem_of_lookup_2 ls n l). exact Hl.
Qed.

Lemma up_now_up s : up_now s = true -> exists p b' h', apps s !! c = Some (mkApp b' h' (AConnected p))
  /\ (exists hello g, conns (world s) !! c = Some (SRunning hello g))
  /\ chan_open (heap (world s)) c = true /\ p_reader p = RReading /\ rx_alive (c_tx (p_client p)) = true.
Proof.
  unfold up_now. destruct (apps s !! c) as [[b' h' [|p|]]|]; try done.
  destruct (conns (world s) !! c) as [[]|]; try done. rewrite !andb_true_iff. intros [[Ho Hw] Hr].
  exists p, b', h'. split; [done|]. split; [by eexists _, _|]. by destruct (p_reader p).
Qed.
End connection.
End net.

(** * A concrete run *)

(** Both apps of Net.v are connected; then one of them invokes the other, and
    when it has its result nothing happens any more. *)
Definition connect_script : list NLabel :=
  NBroker (LIssueToken (Some 5%N) 7 "echo") :: connects 0 77 echo_builder 1
  ++ NBroker (LIssueToken (Some 6%N) 7 "app") :: connects 2 78 invoker_builder 2.
Definition returning_start : ExampleNet := default net_start (nrun no_capabilities no_debug net_start connect_script).
Definition returning_script : list NLabel := drop (length connect_script) net_script.
Abbreviation returning_after := (after (H := net_lts no_capabilities no_debug) returning_start).
Abbreviation returning_run := (execution_of (H := net_lts no_capabilities no_debug) returning_start returning_script).

Lemma returning_runs : bool_decide (is_Some (returning_after returning_script)) = true.
Proof. vm_compute. reflexivity. Qed.
Lemma returning_ends : (fun s => quiet 2 0 s) <$> returning_after returning_script = Some true.
Proof. vm_compute. reflexivity. Qed.
Lemma returning_up : up_now 2 returning_start = true.
Proof. vm_compute. reflexivity. Qed.
Lemma returning_keeps : forallb (fun l => negb (breaks 2 0 l)) returning_script = true.
Proof. vm_compute. reflexivity. Qed.
Lemma returning_called :
  (p ← proc_of (default returning_start (returning_after (take 1 returning_script))) 2; p_tasks p !! 0%N)
  = Some (PInvoke ping_call IStart).
Proof. vm_compute. reflexivity. Qed.

Lemma invoke_returns_witness :
  exists s' (Hs : returning_after returning_script = Some s') m p r,
    1 <= m /\ proc_of (at_ (returning_run s' Hs) m) 2 = Some p
    /\ p_tasks p !! 0%N = Some (PInvoke ping_call (IDone r)).
Proof.
  destruct (run_exists _ returning_runs) as (s' & Hs). exists s', Hs.
  pose proof returning_ends as Hq. rewrite Hs in Hq. apply Some_inj in Hq.
  destruct (up_now_up 2 returning_start returning_up) as (p & b & h & Ha & Hc & Ho & Hr & Hw).
  pose proof returning_called as Ht. apply bind_Some in Ht as (p1 & Hp1 & Ht).
  assert (Hup : up 2 b h returning_start p) by (split; assumption).
  pose proof (net_run_reachable connect_script eq_refl eq_refl) as Hn. fold returning_start in Hn.
  pose proof (quiet_attended no_capabilities no_debug 2 0 returning_start returning_script s' Hs Hq returning_keeps) as Hat.
  rewrite <-(execution_of_start (H := net_lts no_capabilities no_debug) returning_start returning_script s' Hs) in Hup, Hn.
  apply (invoke_returns no_capabilities no_debug 2 b h 0 pongs no_local_answer BrokerConfig.default
    _ (returning_run s' Hs) p 1 ping_call Hn).
  - reflexivity.
  - discriminate.
  - exact Hup.
  - exact Hat.
  - exists p1. split; [exact Hp1|exact Ht].
Defined.
