(* ===== verification/Joins.v ===== *)
(** An app that connects comes up: on the fair infinite runs of the whole system
    of Net.v on which its spawn token is not spent by anybody else and its
    connection does not fail, [establish] returns the running client, and the
    broker serves the connection.  From there on Returns.v applies. *)

From stdpp Require Import prelude gmap strings.
From S2P Require Import Prelude Lts Frame Runtime Registry Broker Session System Invariant Steps History Safety Guarantees Transport ClientConfig Client Streams ClientSafety ClientOrigins Liveness Net Returns.

Section broker.
Context {Q : Type} `{LawfulMpsc Q BusFrame}.
Context (parse : bytes -> result CapabilityResponse string).
Implicit Types w : World Q.

(** The steps that issue or use up a token of the service [s]. *)
Definition takes (l : Label) (s : string) : bool :=
  match l with
  | LIssueToken _ _ s' => bool_decide (s' = s)
  | LHello _ (Ok (Some (BusFrame.Hello h))) _ => bool_decide (h.(HelloRequest.service) = s)
  | _ => false
  end.

Lemma hello_token (b : Broker) read b' out pc s :
  serve_hello b read = (b', out, pc) -> (forall c wr, takes (LHello c read wr) s = false) ->
  Broker.tokens b' !! s = Broker.tokens b !! s.
Proof.
  unfold serve_hello, Broker.consume_token. intros Hs Hl. specialize (Hl 0%N true).
  destruct read as [[[hello| | | | | | | | | | | | | ]|]|]; try by simplify_eq.
  apply bool_decide_eq_false in Hl. destruct (negb _); [by simplify_eq|].
  destruct (Broker.tokens b !! HelloRequest.service hello) eqn:Ht; simpl in Hs; [|by simplify_eq].
  destruct (bool_decide _); simpl in Hs; simplify_eq; simpl; by rewrite lookup_delete_ne.
Qed.

Lemma exec_token w l w' s :
  exec parse w l = Some w' -> takes l s = false -> Broker.tokens (broker w') !! s = Broker.tokens (broker w) !! s.
Proof.
  intros Hx Hl. unfold exec in Hx. destruct (exec_conn w l) as [w1|] eqn:Hx1; simplify_eq.
  { destruct l as [|c0 read wr|c0 wr|c0|c0 f|c0|c0|c0 wr|c0| | | | | | | | | | |]; try done;
      [..|apply exec_session in Hx1;
        destruct Hx1 as [hl Hc0|hl i Hc0|hl g i Hc0|hl g pc job b h t job' Hc0 _ _ _ Hsj]; [done..|];
        destruct (serve_job_frame _ _ _ _ _ _ _ _ _ Hsj) as (_ & _ & _ & _ & Htk & _); destruct t; simpl; by rewrite Htk];
      simpl in Hx1; [by injection Hx1 as <-|destruct (conns w !! c0) as [[]|]; try done..].
    - destruct (serve_hello _ _) as [[b out] pc] eqn:Hs. injection Hx1 as <-. simpl.
      by eapply hello_token.
    - destruct wr; simpl in Hx1; by injection Hx1 as <-.
    - by injection Hx1 as <-.
    - destruct (busy w !! c0); [done|].
      destruct (serve_frame _ _ _ _ _) as [[[b h] t] job] eqn:Hsf. injection Hx1 as <-.
      destruct (serve_frame_cases _ _ _ _ _ _ _ _ _ Hsf) as (_ & _ & _ & Htk & _). destruct t; simpl; by rewrite Htk.
    - destruct (busy w !! c0); [done|]. by injection Hx1 as <-.
    - destruct (busy w !! c0); [done|]. by injection Hx1 as <-.
    - destruct (_ ≫= _) as [[]|]; [|done]. injection Hx1 as <-. by destruct wr.
    - destruct (_ ≫= _) as [[]|]; [|done]. injection Hx1 as <-. by destruct wr.
    - destruct (_ ≫= _) as [[]|]; [|done]. injection Hx1 as <-. by destruct wr. }
  destruct (exec_task parse w l) as [w1|] eqn:Hx2; simplify_eq.
  { destruct l as [| | | | | | | | | |i|i r|i|i|i|i|i| | |]; try done; simpl in Hx2;
      destruct (tasks w !! i) as [[o a pc0|c0 resp|svc cr|svc hd|tx]|] eqn:Ht; try done.
    - destruct (call_step _ _ _ _ _) as [[h pc']|]; [|done]. by injection Hx2 as <-.
    - destruct pc0; try done. by injection Hx2 as <-.
    - destruct pc0; try done. destruct (replies _ !! i); [|done]. by injection Hx2 as <-.
    - destruct pc0; try done. destruct (sender_dropped _ _ _ _); [|done]. by injection Hx2 as <-.
    - destruct (bool_decide _); [done|]. destruct pc0; try done; by injection Hx2 as <-.
    - destruct pc0; try done. injection Hx2 as <-. by destruct o; simpl; repeat case_match.
    - by injection Hx2 as <-.
    - injection Hx2 as <-. simpl. by repeat case_match.
    - by injection Hx2 as <-.
    - by injection Hx2 as <-.
    - destruct o; try done. destruct (droppable pc0); [|done]. by injection Hx2 as <-. }
  destruct l; try done; simpl in Hx, Hl; injection Hx as <-; try done.
  - simpl. apply bool_decide_eq_false in Hl. by rewrite lookup_insert_ne.
  - by destruct (shutdown_target _ _).
Qed.

(** Only the session task itself, and the frames it reads, give it a job. *)
Lemma exec_busy_other w l w' c :
  exec parse w l = Some w' -> drives l c = false -> (forall f, l <> LFrame c f) -> busy w' !! c = busy w !! c.
Proof.
  intros Hx Hd Hf. unfold exec in Hx. destruct (exec_conn w l) as [w1|] eqn:Hx1.
  - simplify_eq. destruct (exec_conn_busy w l w' c Hx1) as [?|[(-> & _)|[(f & ? & ? & -> & _)|
      [(-> & _)|(? & ? & ? & ? & -> & _)]]]]; try done; [|by destruct (Hf f)|..];
      simpl in Hd; by rewrite bool_decide_eq_true_2 in Hd.
  - destruct (exec_task parse w l) as [w1|] eqn:Hx2;
      [simplify_eq; by rewrite (exec_task_busy _ _ _ _ Hx2)|by rewrite (exec_host_busy _ _ _ Hx)].
Qed.
End broker.

Section net.
Context {Q Nt : Type} `{LawfulMpsc Q BusFrame, LawfulNotify Nt}.
Context (parse : bytes -> result CapabilityResponse string) (dbg : BusFrame -> string).
Context (c : conn_id) (b : BusClientBuilder) (h : HelloRequest).
Implicit Types s : Net Q Nt.

(** * The connection comes up *)

(** The steps of the session task of the connection up to its main loop, and of
    [establish]. *)
Definition joins (l : NLabel) : Prop :=
  (exists read written, l = NBroker (LHello c read written)) \/ (exists written, l = NBroker (LAck c written))
  \/ l = NBroker (LAttach c) \/ l = NBroker (LSession c) \/ exists read now, l = NReply c read now.

Definition got (read : result (option BusFrame) BusError) : bool := match read with Ok (Some _) => true | _ => false end.

(** The steps in which the connection fails, and those of others that issue or
    use up a token of the service. *)
Definition spoils (l : NLabel) : bool :=
  match l with
  | NBroker (LHello c' read written) =>
      if decide (c' = c) then negb (got read) else takes (LHello c' read written) h.(HelloRequest.service)
  | NBroker (LAck c' written | LWriter c' written) => bool_decide (c' = c) && negb written
  | NBroker (LClose c') => bool_decide (c' = c)
  | NBroker l => takes l h.(HelloRequest.service)
  | NReply c' read _ => bool_decide (c' = c) && negb (got read)
  | NApp c' PEnd => bool_decide (c' = c)
  | NApp c' (PWriter written) => bool_decide (c' = c) && negb written
  | _ => false
  end.

(** The steps of the registration. *)
Inductive registering : nat -> SessionPc -> Prop :=
| rg_accepted : registering 6 (SAccepted h)
| rg_numbered id : registering 5 (SNumbered h id)
| rg_drawn g id : registering 4 (SDrawn h g id).

(** How far the broker is, and the app: the number of steps left. *)
Inductive broker_at (w : World Q) : nat -> Prop :=
| ba_hello : conns w !! c = Some SHandshake -> busy w !! c = None ->
    Broker.tokens (broker w) !! h.(HelloRequest.service) = Some h.(HelloRequest.auth_token) ->
    inbox_of w c = [] -> wire_of w c = [] -> broker_at w 7
| ba_session i pc : registering i pc -> conns w !! c = Some pc -> busy w !! c = None ->
    length (inbox_of w c) = 1 -> wire_of w c = [] -> broker_at w i
| ba_ack g id : conns w !! c = Some (SAck h g id) -> busy w !! c = None -> length (inbox_of w c) = 1 ->
    chan_open (heap w) c = true -> wire_of w c = [] -> broker_at w 3
| ba_attach g : conns w !! c = Some (SAttach h g) -> busy w !! c = None -> length (inbox_of w c) = 1 ->
    chan_open (heap w) c = true -> (exists ack l, wire_of w c = BusFrame.HelloAck ack :: l) -> broker_at w 2
| ba_running g i : conns w !! c = Some (SRunning h g) ->
    (i = 1 /\ busy w !! c = Some JProbe \/ i = 0 /\ busy w !! c = None) -> length (inbox_of w c) = 1 ->
    chan_open (heap w) c = true -> (exists ack l, wire_of w c = BusFrame.HelloAck ack :: l) -> broker_at w i.
Inductive app_at s : nat -> Prop :=
| aa_connecting : apps s !! c = Some (mkApp b h AConnecting) -> app_at s 1
| aa_connected p : apps s !! c = Some (mkApp b h (AConnected p)) -> p_reader p = RReading ->
    rx_alive (c_tx (p_client p)) = true -> app_at s 0.

Definition joining i j s : Prop := (c < next_id (world s))%N /\ broker_at (world s) i /\ app_at s j.

Definition left_over s : nat :=
  match conns (world s) !! c with Some SHandshake => 7 | Some (SAccepted _) => 6 | Some (SNumbered _ _) => 5
  | Some (SDrawn _ _ _) => 4 | Some (SAck _ _ _) => 3 | Some (SAttach _ _) => 2
  | Some (SRunning _ _) => match busy (world s) !! c with Some _ => 1 | None => 0 end | _ => 0 end
  + match apps s !! c with Some (mkApp _ _ AConnecting) => 1 | _ => 0 end.

#[local] Instance joining_lts : Lts (Net Q Nt) NLabel :=
  confined (H := nexec parse dbg) (fun l => negb (spoils l)).

(** What a step leaves: [kept] is a step beside the way. *)
Definition moved i j l s' : Prop :=
  exists i' j', joining i' j' s' /\ i' <= i /\ j' <= j /\ (joins l -> i' + j' < i + j).

(** The end of the way: the session reads, and the client runs. *)
Definition arrived s : Prop := exists i, i <= 1 /\ joining i 0 s.
Definition joined s : bool :=
  match conns (world s) !! c, apps s !! c with
  | Some (SRunning _ _), Some (mkApp _ _ (AConnected _)) =>
      match busy (world s) !! c with None => true | Some _ => false end
  | _, _ => false
  end.

Lemma joining_step s l s' : step s l = Some s' -> nexec parse dbg s l = Some s' /\ spoils l = false.
Proof. unfold step, joining_lts, confined. destruct (spoils l); simpl; [done|]. by intros Hx. Qed.

Lemma joining_left i j s : joining i j s -> left_over s = i + j.
Proof.
  intros (_ & Hb & Ha). unfold left_over.
  destruct Hb as [Hc|i pc [] Hc|? ? Hc|? Hc|? i Hc Hi], Ha as [Hp|? Hp]; rewrite Hc, Hp; try done;
    by destruct Hi as [[-> ->]|[-> ->]].
Qed.

(** A step of the broker that is not one of the session task. *)
Lemma broker_at_other w l w' i :
  broker_at w i -> exec parse w l = Some w' -> (c < next_id w)%N -> drives l c = false ->
  (forall f, l <> LFrame c f) ->
  takes l h.(HelloRequest.service) = false -> l <> LWriter c false -> broker_at w' i.
Proof.
  intros Hb Hx Hid Hd Hfr Htk Hwr.
  pose proof (exec_busy_other parse w l w' c Hx Hd Hfr) as Hbs.
  assert (Hin : inbox_of w' c = inbox_of w c).
  { rewrite (lg_inbox _ _ _ (exec_logs parse w l w' Hx)).
    destruct (frames_read_nil l c) as [->|[f Hr]]; [by rewrite app_nil_r|].
    destruct (frames_read_from parse _ _ _ _ _ Hx Hr) as [([wr ->] & _)|(-> & _)]; [|by destruct (Hfr f)].
    simpl in Hd. by rewrite bool_decide_eq_true_2 in Hd. }
  assert (Hgo : forall pc, conns w !! c = Some pc -> conns w' !! c = Some pc
    /\ (chan_open (heap w) c = true -> chan_open (heap w') c = true)
    /\ exists k, wire_of w' c = wire_of w c ++ k
    /\ (match pc with SAttach _ _ | SRunning _ _ | SDetached _ _ => True | _ => k = [] end)).
  { intros pc Hc. destruct (exec_stream_at parse w l w' c pc Hx Hc Hd Hid) as [Hc' Hst]. split; [done|].
    unfold stream_to in Hst. split.
    - intros Ho. rewrite Ho in Hst. destruct (stream_open _ _ _ _ _ _ Hst) as [Ho' _]; [|done].
      destruct l; try done. simpl. case_decide as Hcc; [|done]. subst. by destruct written.
    - inversion Hst as [q Hq|f q Ho Hq Hopen Hqueue Hwire Hw|q Ho Hopen Hqueue Hwire Hw].
      + exists []. rewrite app_nil_r. split; [done|]. by destruct pc.
      + exists [f]. split; [done|]. destruct l; try done. simpl in Hw. case_decide as Hcc; [|done].
        subst. unfold exec in Hx. simpl in Hx. rewrite Hc in Hx. by destruct pc.
      + exists []. rewrite app_nil_r. split; [done|]. by destruct pc. }
  destruct Hb as [Hc Hj Ht Hi Hw|i pc Hrg Hc Hj Hi Hw|g id Hc Hj Hi Ho Hw|g Hc Hj Hi Ho (ack & k & Hw)
    |g i Hc Hj Hi Ho (ack & k & Hw)];
    destruct (Hgo _ Hc) as (Hc' & Ho' & k' & Hw' & Hk); rewrite Hw in Hw'; rewrite <-Hin in Hi; rewrite <-Hbs in Hj.
  - simpl in Hk. subst k'. constructor; try done. by rewrite (exec_token parse w l w').
  - apply (ba_session w' i pc); try done. rewrite Hw'. by destruct Hrg.
  - simpl in Hk. subst k'. apply (ba_ack w' g id); auto.
  - apply (ba_attach w' g); auto. rewrite Hw'. by eexists _, _.
  - apply (ba_running w' g i); auto. rewrite Hw'. by eexists _, _.
Qed.

(** The steps of the session task bring it forward. *)
Lemma broker_at_session w w' i :
  broker_at w i -> exec parse w (LSession c) = Some w' -> exists i', i = S i' /\ broker_at w' i'.
Proof.
  intros Hb Hx. unfold exec in Hx. simpl in Hx.
  destruct Hb as [Hc Hj|i pc Hrg Hc Hj Hi Hw|g id Hc Hj|g Hc Hj|g i Hc Hj Hi Ho Hw]; rewrite Hc in Hx.
  - by rewrite Hj in Hx.
  - rewrite Hj in Hx. destruct Hrg as [|id|g id]; simpl in Hx; injection Hx as <-;
      eexists; (split; [reflexivity|]).
    + eapply ba_session; [apply rg_numbered|simpl; by rewrite lookup_insert_eq|done..].
    + eapply ba_session; [apply rg_drawn|simpl; by rewrite lookup_insert_eq|done..].
    + eapply ba_ack; [simpl; by rewrite lookup_insert_eq|done|done| |done].
      unfold chan_open. simpl. rewrite lookup_insert_eq. simpl. apply new_alive.
  - by rewrite Hj in Hx.
  - by rewrite Hj in Hx.
  - destruct Hj as [[-> Hj]|[-> Hj]]; rewrite Hj in Hx; [|done]. simpl in Hx. injection Hx as <-.
    exists 0. split; [done|]. eapply ba_running; [exact Hc| |exact Hi|exact Ho|exact Hw].
    right. split; [done|]. simpl. apply lookup_partial_alter_eq.
Qed.

Lemma broker_at_drives w l w' i :
  h.(HelloRequest.protocol) = ProtocolVersion.CURRENT ->
  broker_at w i -> exec parse w l = Some w' -> drives l c = true -> l <> LClose c ->
  (forall read written, l = LHello c read written -> read = Ok (Some (BusFrame.Hello h))) ->
  (forall written, l = LAck c written -> written = true) ->
  exists i', i = S i' /\ broker_at w' i'.
Proof.
  intros Hv Hb Hx Hd Hcl Hh Ha.
  destruct l as [|c' read wr|c' wr|c'|c' f|c'|c'|c' wr|c'| | | | | | | | | | |]; try done; simpl in Hd;
    apply bool_decide_eq_true in Hd as ->; try done; [..|by apply (broker_at_session w)]; unfold exec in Hx; simpl in Hx.
  - rewrite (Hh _ _ eq_refl) in Hx.
    destruct Hb as [Hc Hj Ht Hi Hw|i pc [] Hc|g id Hc|g Hc|g i Hc]; rewrite Hc in Hx; try done.
    unfold serve_hello, Broker.consume_token in Hx. rewrite Hv, Ht in Hx. simpl in Hx.
    rewrite !bool_decide_eq_true_2 in Hx by done. simpl in Hx. injection Hx as <-.
    exists 6. split; [done|]. eapply ba_session; [apply rg_accepted|simpl; by rewrite lookup_insert_eq|exact Hj| |exact Hw].
    unfold inbox_of at 1. simpl. rewrite lookup_insert_eq. simpl. by rewrite Hi.
  - rewrite (Ha _ eq_refl) in Hx.
    destruct Hb as [Hc|i pc [] Hc|g id Hc Hj Hi Ho Hw|g Hc|g i Hc]; rewrite Hc in Hx; try done.
    simpl in Hx. injection Hx as <-. exists 2. split; [done|].
    eapply ba_attach; simpl; [by rewrite lookup_insert_eq|exact Hj|exact Hi|exact Ho|].
    unfold wire_of at 1. simpl. rewrite lookup_insert_eq. simpl. rewrite Hw. by eexists _, [].
  - destruct Hb as [Hc|i pc [] Hc|g id Hc|g Hc Hj Hi Ho Hw|g i Hc]; rewrite Hc in Hx; try done.
    simpl in Hx. injection Hx as <-. exists 1. split; [done|].
    eapply ba_running; simpl; [by rewrite lookup_insert_eq| |exact Hi|exact Ho|exact Hw].
    left. split; [done|]. apply lookup_partial_alter_eq.
  - by destruct Hb as [Hc|i pc [] Hc|g id Hc|g Hc|g i Hc]; rewrite Hc in Hx.
Qed.

Lemma hello_current pid : hello_of pid b = Ok h -> h.(HelloRequest.protocol) = ProtocolVersion.CURRENT.
Proof.
  unfold hello_of. destruct (BusClientBuilder.service b); simpl; [|done].
  destruct (find _ _); [done|]. by intros [= <-].
Qed.

(** An app that does not move. *)
Lemma app_at_same s s' j : app_at s j -> apps s' !! c = apps s !! c -> app_at s' j.
Proof. intros [Ha|p Ha Hr Hw] He; [apply aa_connecting|apply (aa_connected _ p)]; congruence. Qed.

Lemma moved_kept i j l s' : joining i j s' -> ~ joins l -> moved i j l s'.
Proof. intros Hj Hl. exists i, j. split; [done|]. split; [done|]. by split. Qed.

(** Before the client runs it has sent nothing but its [Hello]. *)
Lemma joining_unread i s f w :
  broker_at (world s) i -> app_at s 1 -> label_reads s (LFrame c f) = true ->
  exec parse (world s) (LFrame c f) = Some w -> False.
Proof.
  intros Hb Ha Hl Hx. inversion Ha as [Hap|]; subst. unfold label_reads, broker_reads in Hl. rewrite Hap in Hl.
  assert (Hi : length (inbox_of (world s) c) = 1).
  { unfold exec in Hx. simpl in Hx. by destruct Hb as [Hc|i pc [] Hc|g id Hc|g Hc|g i Hc]; rewrite Hc in Hx. }
  rewrite Hi in Hl. by apply bool_decide_eq_true in Hl.
Qed.

Lemma joining_broker i j s l s' :
  h.(HelloRequest.protocol) = ProtocolVersion.CURRENT -> (i <= 1 -> j = 1) ->
  joining i j s -> nexec parse dbg s (NBroker l) = Some s' -> spoils (NBroker l) = false -> moved i j (NBroker l) s'.
Proof.
  intros Hv Hij (Hid & Hb & Ha) Hx Hsp. simpl in Hx.
  destruct (label_reads s l) eqn:Hl; [|done]. apply bind_Some in Hx as (w & Hx & [= <-]).
  pose proof (lg_next _ _ _ (exec_logs parse _ l w Hx)) as Hle.
  assert (Ha' : app_at (mkNet w (apps s)) j) by by eapply app_at_same.
  destruct (drives l c) eqn:Hd.
  - destruct (broker_at_drives (world s) l w i Hv Hb Hx Hd) as (i' & -> & Hb').
    + intros ->. simpl in Hsp. by rewrite bool_decide_eq_true_2 in Hsp.
    + intros read wr ->. simpl in Hsp, Hl. rewrite decide_True in Hsp by done.
      destruct read as [[f|]|]; try done. simpl in Hl. unfold broker_reads in Hl.
      assert (Hin : inbox_of (world s) c = []).
      { unfold exec in Hx. simpl in Hx. by destruct Hb as [Hc|? pc [] Hc|? ? Hc|? Hc|? ? Hc]; rewrite Hc in Hx. }
      destruct Ha as [Hap|p Hap]; rewrite Hap, Hin in Hl; simpl in Hl; apply bool_decide_eq_true in Hl; congruence.
    + intros wr ->. simpl in Hsp. rewrite bool_decide_eq_true_2 in Hsp by done. by destruct wr.
    + exists i', j. split; [split; [simpl; lia|by split]|]. lia.
  - assert (Hfr : forall f, l <> LFrame c f).
    { intros f ->. assert (Hi1 : i <= 1).
      { unfold exec in Hx. simpl in Hx.
        destruct Hb as [Hc|? pc [] Hc|? ? Hc|? Hc|? i Hc Hi]; rewrite Hc in Hx; try done.
        destruct Hi as [[-> _]|[-> _]]; lia. }
      rewrite (Hij Hi1) in Ha. by eapply (joining_unread i s f w). }
    apply moved_kept.
    + split; [simpl; lia|]. split; [|done]. eapply broker_at_other; try done.
      * destruct l as [|c0 read wr|c0 wr| | | | |c0 wr| | | | | | | | | | | |]; try done; simpl in Hsp, Hd |- *.
        apply bool_decide_eq_false in Hd. by rewrite decide_False in Hsp.
      * intros ->. simpl in Hsp. by rewrite bool_decide_eq_true_2 in Hsp.
    + intros [(read & wr & [= ->])|[(wr & [= ->])|[[= ->]|[[= ->]|(? & ? & ?)]]]]; [..|done];
        simpl in Hd; by rewrite bool_decide_eq_true_2 in Hd.
Qed.

Lemma joining_reply i j s c' read now s' :
  joining i j s -> nexec parse dbg s (NReply c' read now) = Some s' -> spoils (NReply c' read now) = false ->
  moved i j (NReply c' read now) s'.
Proof.
  intros (Hid & Hb & Ha) Hx Hsp. simpl in Hx. destruct (apps s !! c') as [[b0 h0 [|p0|e0]]|] eqn:Hap; try done.
  destruct (match read with Ok (Some f) => _ | _ => _ end) eqn:Hrd; [|done]. injection Hx as <-.
  destruct (decide (c' = c)) as [->|Hne].
  - destruct Ha as [Hc|p Hc]; [|congruence]. rewrite Hc in Hap. injection Hap as <- <-.
    simpl in Hsp. rewrite bool_decide_eq_true_2 in Hsp by done. destruct read as [[f|]|]; try done.
    apply bool_decide_eq_true in Hrd.
    assert (Hf : exists ack, f = BusFrame.HelloAck ack).
    { destruct Hb as [_ _ _ _ Hw|? ? _ _ _ _ Hw|? ? _ _ _ _ Hw|? _ _ _ _ (ack & k & Hw)|? ? _ _ _ _ (ack & k & Hw)];
        rewrite Hw in Hrd; simpl in Hrd; simplify_eq; eauto. }
    destruct Hf as [ack ->]. simpl. exists i, 0. split; [|lia]. split; [done|]. split; [done|].
    eapply aa_connected; simpl; [by rewrite lookup_insert_eq|done|apply new_alive].
  - apply moved_kept.
    + split; [done|]. split; [done|]. eapply app_at_same; [done|]. simpl. by rewrite lookup_insert_ne.
    + intros [(? & ? & ?)|[(? & ?)|[?|[?|(? & ? & [=])]]]]; done.
Qed.

Lemma joining_app i j s c' pl s' :
  joining i j s -> nexec parse dbg s (NApp c' pl) = Some s' -> spoils (NApp c' pl) = false -> joining i j s'.
Proof.
  intros (Hid & Hb & Ha) Hx Hsp. simpl in Hx. destruct (apps s !! c') as [[b0 h0 [|p0|e0]]|] eqn:Hap; try done.
  destruct (match pl with PFrame _ f => _ | _ => _ end); [|done].
  apply bind_Some in Hx as (p' & Hx & [= <-]). split; [done|]. split; [done|]. destruct (decide (c' = c)) as [->|Hne].
  - destruct Ha as [Hc|p Hc Hr Hw]; [congruence|]. rewrite Hc in Hap. injection Hap as <- <- <-.
    destruct (pexec_stream p pl p' Hx Hr) as [Hr' Hst]; [intros ->; simpl in Hsp; by rewrite bool_decide_eq_true_2 in Hsp|].
    unfold stream_from in Hst. rewrite Hw in Hst. destruct (stream_open _ _ _ _ _ _ Hst) as [Hw' _].
    { destruct pl; try done. simpl in *. rewrite bool_decide_eq_true_2 in Hsp by done. by destruct written. }
    eapply aa_connected; simpl; [by rewrite lookup_insert_eq|done|done].
  - eapply app_at_same; [done|]. simpl. by rewrite lookup_insert_ne.
Qed.

(** Every step keeps on the way, and those of the session task and of
    [establish] bring it forward. *)
Lemma joining_moves i j s l s' :
  h.(HelloRequest.protocol) = ProtocolVersion.CURRENT -> (i <= 1 -> j = 1) -> joining i j s ->
  step s l = Some s' -> moved i j l s'.
Proof.
  intros Hv Hij Hj [Hx Hsp]%joining_step. destruct l as [l|pid b'|c' read now|c' pl].
  - by apply (joining_broker i j s).
  - apply moved_kept; [|by intros [(? & ? & ?)|[(? & ?)|[?|[?|(? & ? & ?)]]]]].
    simpl in Hx. destruct (hello_of pid b') as [hello|]; [|done]. injection Hx as <-. destruct Hj as (Hid & Hb & Ha).
    split; [simpl; lia|]. split; [by eapply (broker_at_other (world s) LAccept)|].
    eapply app_at_same; [done|]. simpl. rewrite lookup_insert_ne; [done|lia].
  - by apply (joining_reply i j s).
  - apply moved_kept; [by eapply joining_app|by intros [(? & ? & ?)|[(? & ?)|[?|[?|(? & ? & ?)]]]]].
Qed.

Lemma joining_enabled i j s :
  h.(HelloRequest.protocol) = ProtocolVersion.CURRENT -> joining i j s -> (i <= 1 -> j = 1) -> enabled joins s.
Proof.
  intros Hv (_ & Hb & Ha) Hij.
  assert (Hgo : forall l, joins l -> spoils l = false -> is_Some (nexec parse dbg s l) -> enabled joins s).
  { intros l Hl Hsp Hx. exists l. split; [done|]. unfold step, joining_lts, confined. by rewrite Hsp. }
  destruct Hb as [Hc Hj Ht Hi Hw|i pc Hrg Hc Hj Hi Hw|g id Hc Hj Hi Ho Hw|g Hc Hj Hi Ho Hw|g i Hc Hj Hi Ho (ack & k & Hw)].
  - apply (Hgo (NBroker (LHello c (Ok (Some (BusFrame.Hello h))) true))).
    + left. by eexists _, _.
    + simpl. by rewrite decide_True.
    + cbn [nexec label_reads]. unfold broker_reads. rewrite Hi.
      assert (Hr : match apps s !! c with Some a => bool_decide (app_sent a !! length (@nil BusFrame) = Some (BusFrame.Hello h)) | None => true end = true)
        by (destruct Ha as [->|p ->]; by apply bool_decide_eq_true). rewrite Hr.
      unfold exec, exec_conn. rewrite Hc. destruct (serve_hello _ _) as [[b' out] pc]. eauto.
  - apply (Hgo (NBroker (LSession c))); [by right; right; right; left|done|].
    cbn [nexec label_reads]. unfold exec. simpl. rewrite Hc, Hj. destruct Hrg; simpl; eauto.
  - apply (Hgo (NBroker (LAck c true))); [right; left; by eexists|simpl; apply andb_false_r|].
    cbn [nexec label_reads]. unfold exec. simpl. rewrite Hc. simpl. eauto.
  - apply (Hgo (NBroker (LAttach c))); [by right; right; left|done|].
    cbn [nexec label_reads]. unfold exec. simpl. rewrite Hc. simpl. eauto.
  - assert (j = 1) as -> by (apply Hij; destruct Hj as [[-> _]|[-> _]]; lia). inversion Ha as [Hap|]; subst.
    apply (Hgo (NReply c (Ok (Some (BusFrame.HelloAck ack))) 0)).
    + do 4 right. by eexists _, _.
    + simpl. apply andb_false_r.
    + cbn [nexec]. rewrite Hap, Hw, bool_decide_eq_true_2 by done. eauto.
Qed.

Lemma app_at_le s j : app_at s j -> j <= 1.
Proof. destruct 1; lia. Qed.

Lemma joining_progress :
  h.(HelloRequest.protocol) = ProtocolVersion.CURRENT ->
  progress (fun s => exists i j, joining i j s /\ (i <= 1 -> j = 1)) arrived left_over joins.
Proof.
  intros Hv. assert (Hgen : forall i j s l s', joining i j s -> (i <= 1 -> j = 1) -> step s l = Some s' ->
    arrived s' \/ ((exists i j, joining i j s' /\ (i <= 1 -> j = 1)) /\ left_over s' <= left_over s
      /\ (joins l -> left_over s' < left_over s))).
  { intros i j s l s' Hj Hij Hx. destruct (joining_moves i j s l s' Hv Hij Hj Hx) as (i' & j' & Hj' & Hi & Hj0 & Hlt).
    destruct (decide (i' <= 1 /\ j' = 0)) as [[Hi1 ->]|Hz]; [left; by exists i'|right].
    rewrite (joining_left _ _ _ Hj), (joining_left _ _ _ Hj'). split; [|split; [lia|done]].
    exists i', j'. split; [done|]. intros Hi1. destruct Hj' as (_ & _ & Ha'). apply app_at_le in Ha'. lia. }
  split.
  - intros s (i & j & Hj & Hz). by apply (joining_enabled i j s).
  - intros s l s' (i & j & Hj & Hij) Hx. destruct (Hgen i j s l s' Hj Hij Hx) as [?|(? & ? & _)]; auto.
  - intros s l s' (i & j & Hj & Hij) Hl Hx. destruct (Hgen i j s l s' Hj Hij Hx) as [?|(? & _ & ?)]; auto.
Qed.

(** C11: an app that connects comes up. Take any infinite run of the whole
    system from a reachable state in which an app has called [connect], its
    stream is accepted, and the spawn token of its configuration is pending for
    its service; suppose that no step of the run ends the connection or fails on
    it, that nobody else is given or uses a token of the service, and that the
    runtime goes on polling the session task of the broker and [establish] of
    the app. Then the handshake succeeds: there is an instant at which the
    client runs and the broker serves the connection, both writers running,
    whatever the other connections, calls and failures of the run are. *)
Theorem connecting_comes_up handles resolves config k (e : @execution (Net Q Nt) NLabel (nexec parse dbg)) :
  nreachable parse dbg handles resolves config k (at_ e 0) -> (k + 1 < U64_SIZE)%N ->
  apps (at_ e 0) !! c = Some (mkApp b h AConnecting) -> conns (world (at_ e 0)) !! c = Some SHandshake ->
  Broker.tokens (broker (world (at_ e 0))) !! h.(HelloRequest.service) = Some h.(HelloRequest.auth_token) ->
  (forall n l, taken e n = Some l -> spoils l = false) -> fair (H := nexec parse dbg) e joins ->
  exists m p, up c b h (at_ e m) p.
Proof.
  intros Hr Hb Ha Hc Ht Hsp Hf. pose proof (reachable_net parse dbg handles resolves config k _ Hr Hb) as Hok.
  destruct (no_world _ _ _ _ _ _ Hok) as (k' & Hk & Hw).
  destruct (no_app _ _ _ _ _ _ Hok c _ Ha) as [Hid [pid Hh] _ _]. pose proof (hello_current pid Hh) as Hv.
  assert (HR : forall n l, taken e n = Some l -> negb (spoils l) = true) by (intros; by apply negb_true_iff, (Hsp n)).
  set (e' := confine (H := nexec parse dbg) e (fun l => negb (spoils l)) HR).
  pose proof (reachable_structural parse config k' _ Hw ltac:(lia)) as Hst.
  assert (Hn : joining 7 1 (at_ e' 0)).
  { split; [done|]. split; [|by apply aa_connecting]. apply ba_hello; [done|by eapply no_job|done| |].
    - pose proof (reachable_hello_read parse config k' _ Hw ltac:(lia) c) as Hi. by rewrite Hc in Hi.
    - pose proof (reachable_wire parse config k' _ Hw ltac:(lia) c) as Hi. by rewrite Hc in Hi. }
  destruct (fair_reaches e' (fun s => exists i j, joining i j s /\ (i <= 1 -> j = 1)) arrived left_over joins)
    with (n := 0) as (m & _ & i & Hi1 & _ & Hbm & Ham).
  - by apply joining_progress.
  - intros n. destruct (Hf n) as (m & Hle & Hm). exists m. split; [done|]. destruct Hm as [?|Hd]; [by left|right].
    intros (l & Hl & s' & [Hx _]%joining_step). apply Hd. exists l. split; [done|]. by exists s'.
  - exists 7, 1. split; [exact Hn|lia].
  - exists m. inversion Hbm as [|? ? Hrg| | |g i0 Hcm _ _ Ho _]; subst; try lia; [destruct Hrg; lia|]. inversion Ham as [|p Hap Hrp Hwp]; subst. exists p.
    split; [exact Hap|by exists h, g|exact Ho|exact Hrp|exact Hwp].
Qed.

Lemma joined_disabled s : joined s = true -> ~ enabled (H := nexec parse dbg) joins s.
Proof.
  unfold joined. destruct (conns (world s) !! c) as [[]|] eqn:Hc; try done.
  destruct (apps s !! c) as [[b' h' [|p|]]|] eqn:Ha; try done.
  destruct (busy (world s) !! c) eqn:Hj; [done|]. intros _ (l & Hl & s' & Hx).
  change (nexec parse dbg s l = Some s') in Hx.
  destruct Hl as [(read & wr & ->)|[(wr & ->)|[->|[->|(read & now & ->)]]]]; cbn [nexec] in Hx;
    [destruct (label_reads _ _); [|done]..|]; unfold exec, exec_conn in Hx; rewrite ?Hc, ?Ha, ?Hj in Hx; done.
Qed.
End net.

(** * A concrete run *)

(** The app [echo] has connected; then the handshake runs. *)
Definition joining_start : ExampleNet :=
  default net_start (nrun no_capabilities no_debug net_start
    (NBroker (LIssueToken (Some 5%N) 7 "echo") :: take 1 (connects 0 77 echo_builder 1))).
Definition joining_script : list NLabel := drop 1 (connects 0 77 echo_builder 1).
Abbreviation joining_after := (after (H := nexec no_capabilities no_debug) joining_start).
Abbreviation joining_run := (execution_of (H := nexec no_capabilities no_debug) joining_start joining_script).

Definition about_to_join (s : ExampleNet) (ls : list NLabel) : bool :=
  match apps s !! 0%N, conns (world s) !! 0%N with
  | Some (mkApp _ h AConnecting), Some SHandshake =>
      bool_decide (Broker.tokens (broker (world s)) !! h.(HelloRequest.service) = Some h.(HelloRequest.auth_token))
      && forallb (fun l => negb (spoils 0 h l)) ls
  | _, _ => false
  end.

Lemma joining_runs : bool_decide (is_Some (joining_after joining_script)) = true.
Proof. vm_compute. reflexivity. Qed.
Lemma joining_ends : (fun s => joined 0 s) <$> joining_after joining_script = Some true.
Proof. vm_compute. reflexivity. Qed.
Lemma joining_starts : about_to_join joining_start joining_script = true.
Proof. vm_compute. reflexivity. Qed.

Lemma about_to_join_spec s ls : about_to_join s ls = true -> exists b h,
  apps s !! 0%N = Some (mkApp b h AConnecting) /\ conns (world s) !! 0%N = Some SHandshake
  /\ Broker.tokens (broker (world s)) !! h.(HelloRequest.service) = Some h.(HelloRequest.auth_token)
  /\ forall n l, ls !! n = Some l -> spoils 0 h l = false.
Proof.
  unfold about_to_join. destruct (apps s !! 0%N) as [[b h [|p|]]|]; try done.
  destruct (conns (world s) !! 0%N) as [[]|]; try done.
  intros [Ht%bool_decide_eq_true Hl]%andb_true_iff. exists b, h. split_and!; try done.
  intros n l Hn. rewrite forallb_forall in Hl. apply negb_true_iff, Hl, list_elem_of_In. by eapply list_elem_of_lookup_2.
Qed.

Lemma connecting_comes_up_witness :
  exists s' (Hs : joining_after joining_script = Some s') b h m p, up 0 b h (at_ (joining_run s' Hs) m) p.
Proof.
  destruct (run_exists _ joining_runs) as (s' & Hs). exists s', Hs.
  pose proof joining_ends as Hj. rewrite Hs in Hj. apply Some_inj in Hj.
  destruct (about_to_join_spec _ _ joining_starts) as (b & h & Ha & Hc & Ht & Hsp). exists b, h.
  pose proof (net_run_reachable (NBroker (LIssueToken (Some 5%N) 7 "echo") :: take 1 (connects 0 77 echo_builder 1))
    eq_refl eq_refl) as Hn. fold joining_start in Hn.
  rewrite <-(execution_of_start (H := nexec no_capabilities no_debug) joining_start joining_script s' Hs) in Hn, Ha, Hc, Ht.
  apply (connecting_comes_up no_capabilities no_debug 0 b h pongs no_local_answer BrokerConfig.default _ (joining_run s' Hs) Hn).
  - reflexivity.
  - exact Ha.
  - exact Hc.
  - exact Ht.
  - intros n l Hl. apply (Hsp n l). exact Hl.
  - apply execution_of_fair, joined_disabled. exact Hj.
Defined.
