(* ===== verification/Exchange.v ===== *)
(** One exchange, step by step: a connection is admitted, a call reaches it,
    the client dispatches it to its handler and the answer returns. *)

From stdpp Require Import prelude gmap strings.
From S2P Require Import Prelude Frame Runtime Registry Broker Session System Invariant Steps History Safety Serving Transport ClientConfig Client ClientOrigins Net.

(** * Runs *)

Section runs.
Context {Q Nt : Type} `{LawfulMpsc Q BusFrame, LawfulNotify Nt}.
Context (parse : bytes -> result CapabilityResponse string) (dbg : BusFrame -> string).
Context (handles : InvokeHandler -> bytes -> CallerCtx -> result bytes BusError -> Prop).
Context (resolves : LocalServiceHandler -> CallArgs -> result bytes BusError -> Prop).

(** [ls] leads from [s] to [s'], every handler returning what it may. *)
Inductive nmoves (s : Net Q Nt) : list NLabel -> Net Q Nt -> Prop :=
| nmoves_nil : nmoves s [] s
| nmoves_cons l s1 ls s2 : nexec parse dbg s l = Some s1 -> nobeys handles resolves s l -> nmoves s1 ls s2 ->
    nmoves s (l :: ls) s2.

(** The labels that read nothing from an app and run no handler. *)
Definition unread (l : Label) : bool := match l with LHello _ _ _ | LFrame _ _ | LLocal _ _ => false | _ => true end.

Lemma nmoves_app s ls s1 ls' s2 : nmoves s ls s1 -> nmoves s1 ls' s2 -> nmoves s (ls ++ ls') s2.
Proof. induction 1; simpl; [done|]. intros. econstructor; eauto. Qed.

Lemma nmoves_broker : forall ls s w',
  forallb unread ls = true -> run parse (world s) ls = Some w' ->
  nmoves s (NBroker <$> ls) (mkNet w' (apps s)).
Proof.
  induction ls as [|l ls IH]; intros s w' Hl Hr; simpl in *.
  - injection Hr as <-. destruct s. constructor.
  - apply andb_true_iff in Hl as [Hl Hls]. apply bind_Some in Hr as (w1 & Hx & Hr).
    econstructor; [|by destruct l|apply (IH (mkNet w1 (apps s))); [done|exact Hr]].
    simpl. replace (label_reads s l) with true by by destruct l. by rewrite Hx.
Qed.

Lemma nmoves_frame s c f w' :
  broker_reads s c f = true -> exec parse (world s) (LFrame c f) = Some w' ->
  nmoves s [NBroker (LFrame c f)] (mkNet w' (apps s)).
Proof. intros Hr Hx. econstructor; [simpl; by rewrite Hr, Hx|done|constructor]. Qed.

(** * A connection is admitted *)

Implicit Types w : World Q.

(** The connection has just been attached: nothing is queued, pending or read
    but the [Hello], nothing is written but the ack. *)
Record ready w (c : conn_id) (hello : HelloRequest) (g client_id : N) : Prop := {
  rd_conn : conns w !! c = Some (SRunning hello g);
  rd_idle : busy w !! c = None;
  rd_chan : exists q, channels (heap w) !! c = Some q /\ queued q = [] /\ rx_alive q = true;
  rd_inbox : inbox_of w c = [BusFrame.Hello hello];
  rd_wire : wire_of w c = [ack_frame (broker w) client_id];
  rd_pending : pending_of (heap w) c = ∅;
  rd_counter : req_counters (heap w) !! c = Some 1%N;
  rd_entry : exists e, Registry.get (reg w) hello.(HelloRequest.service) = Some e
    /\ e.(ServiceEntry.tx) = c /\ e.(ServiceEntry.generation) = g
    /\ e.(ServiceEntry.methods) = hello.(HelloRequest.methods);
  rd_session : Broker.sessions (broker w) !! (hello.(HelloRequest.service), g)
    = Some {| SessionHandle.pending_out := c; SessionHandle.next_req_id := c |}
}.

Definition admission_labels (c : conn_id) (hello : HelloRequest) : list Label :=
  [LHello c (Ok (Some (BusFrame.Hello hello))) true; LSession c; LSession c; LSession c;
   LAck c true; LAttach c; LSession c].

(** An idle session task that registers takes its next step. *)
Lemma step_register w c pc b h pc' :
  conns w !! c = Some pc -> busy w !! c = None -> serve_register (broker w) (heap w) c pc = Some (b, h, pc') ->
  exec parse w (LSession c)
  = Some (set_conn c pc' (set_heap h (System.set_broker b
      (match pc' with SAck hello _ _ => enter hello.(HelloRequest.service) c w | _ => w end)))).
Proof.
  intros Hc Hj Hs. unfold exec. cbn [exec_conn]. rewrite Hc, Hj. by destruct pc; simpl in *; simplify_eq.
Qed.

Lemma admission_run w c hello :
  conns w !! c = Some SHandshake -> busy w !! c = None -> inbox_of w c = [] -> wire_of w c = [] ->
  hello.(HelloRequest.protocol).(ProtocolVersion.major) = 1%N ->
  Broker.tokens (broker w) !! hello.(HelloRequest.service) = Some hello.(HelloRequest.auth_token) ->
  exists w' g client_id, run parse w (admission_labels c hello) = Some w'
    /\ ready w' c hello g client_id
    /\ Broker.local_services (broker w') = Broker.local_services (broker w).
Proof.
  intros Hc Hj Hi Hw Hv Ht.
  assert (Hsh : exists b, serve_hello (broker w) (Ok (Some (BusFrame.Hello hello))) = (b, None, SAccepted hello)
    /\ b.(Broker.local_services) = (broker w).(Broker.local_services)).
  { unfold serve_hello. rewrite Hv, bool_decide_eq_true_2 by done. cbn [negb].
    unfold Broker.consume_token. rewrite Ht, bool_decide_eq_true_2 by done. simpl. by eexists. }
  destruct Hsh as (b & Hsh & Hlo).
  set (w1 := set_conn c (SAccepted hello) (System.set_broker b (log_in c (BusFrame.Hello hello) w))).
  assert (Hx1 : exec parse w (LHello c (Ok (Some (BusFrame.Hello hello))) true) = Some w1).
  { unfold exec. cbn [exec_conn]. by rewrite Hc, Hsh. }
  pose proof (step_register w1 c _ _ _ _ (lookup_insert_eq _ _ _) Hj eq_refl) as Hx2. set (w2 := set_conn _ _ _) in Hx2.
  pose proof (step_register w2 c _ _ _ _ (lookup_insert_eq _ _ _) Hj eq_refl) as Hx3. set (w3 := set_conn _ _ _) in Hx3.
  pose proof (step_register w3 c _ _ _ _ (lookup_insert_eq _ _ _) Hj eq_refl) as Hx4. set (w4 := set_conn _ _ _) in Hx4.
  set (cid := Broker.next_client_id (broker w1)) in *. set (g := (Registry.draw (Broker.registry (broker w2))).2) in *.
  set (w5 := set_conn c (SAttach hello g) (log_out c (ack_frame (broker w4) cid) w4)).
  assert (Hx5 : exec parse w4 (LAck c true) = Some w5).
  { unfold exec. cbn [exec_conn]. unfold w4 at 1. simpl. by rewrite lookup_insert_eq. }
  destruct (serve_attach (broker w5) (heap w5) c hello g) as [[[b6 h6] job] pc6] eqn:Hat.
  set (w6 := set_job c (Some job) (set_conn c pc6 (set_heap h6 (System.set_broker b6 w5)))).
  assert (Hx6 : exec parse w5 (LAttach c) = Some w6).
  { unfold exec. cbn [exec_conn]. change (conns w5 !! c) with (<[c := SAttach hello g]> (conns w4) !! c).
    by rewrite lookup_insert_eq, Hat. }
  unfold serve_attach in Hat. injection Hat as <- <- <- <-.
  destruct (probe_capabilities (broker w6) hello.(HelloRequest.service) g) as [b7 t7] eqn:Hpr.
  set (w7 := spawn t7 (set_job c None (set_heap (heap w6) (System.set_broker b7 w6)))).
  assert (Hx7 : exec parse w6 (LSession c) = Some w7).
  { unfold exec. cbn [exec_conn]. change (conns w6 !! c) with (<[c := SRunning hello g]> (conns w5) !! c).
    change (busy w6 !! c) with (partial_alter (fun _ => Some JProbe) c (busy w5) !! c).
    rewrite lookup_insert_eq, lookup_partial_alter_eq. cbn [serve_job]. by rewrite Hpr. }
  exists w7, g, cid. split.
  { unfold admission_labels. cbn [run]. rewrite Hx1. cbn [mbind option_bind]. rewrite Hx2. cbn [mbind option_bind].
    rewrite Hx3. cbn [mbind option_bind]. rewrite Hx4. cbn [mbind option_bind]. rewrite Hx5. cbn [mbind option_bind].
    rewrite Hx6. cbn [mbind option_bind]. by rewrite Hx7. }
  unfold probe_capabilities in Hpr. injection Hpr as <- <-. split; [|exact Hlo].
  split; simpl.
  - apply lookup_insert_eq.
  - apply lookup_partial_alter_eq.
  - exists mpsc_new. split; [apply lookup_insert_eq|]. split; [apply new_queued|apply new_alive].
  - unfold inbox_of. simpl. by rewrite lookup_insert_eq, Hi.
  - unfold wire_of. simpl. rewrite lookup_insert_eq. unfold wire_of. simpl. fold (wire_of w c). by rewrite Hw.
  - unfold pending_of. simpl. by rewrite lookup_insert_eq.
  - apply lookup_insert_eq.
  - eexists. split; [apply lookup_insert_eq|done].
  - apply lookup_insert_eq.
Qed.

(** * A call reaches the app *)

Definition first_handle (c : conn_id) : SessionHandle :=
  {| SessionHandle.pending_out := c; SessionHandle.next_req_id := c |}.

(** The host's call [id] waits for the answer, its [Invoke] is on the wire. *)
Record invoked w (c : conn_id) (hello : HelloRequest) (g client_id : N) (id : call_id) (a : CallArgs) : Prop := {
  iv_conn : conns w !! c = Some (SRunning hello g);
  iv_idle : busy w !! c = None;
  iv_task : tasks w !! id = Some (TCall OHost a (CAwaitRemote (first_handle c) 1));
  iv_pending : pending_of (heap w) c !! 1%N = Some id;
  iv_inbox : inbox_of w c = [BusFrame.Hello hello];
  iv_wire : wire_of w c = [ack_frame (broker w) client_id; invoke_frame a 1]
}.

Definition host_call (c : conn_id) (id : call_id) (a : CallArgs) : list Label :=
  LCall a :: replicate 5 (LStep id) ++ [LWriter c true].

Lemma step_call w id o a pc h pc' :
  tasks w !! id = Some (TCall o a pc) -> call_step (broker w) (heap w) id a pc = Some (h, pc') ->
  exec parse w (LStep id) = Some (put_task id (TCall o a pc') (set_heap h w)).
Proof. intros Ht Hs. unfold exec. cbn [exec_conn exec_task]. by rewrite Ht, Hs. Qed.

Lemma host_call_run w c hello g client_id (a : CallArgs) :
  ready w c hello g client_id -> a.(CallArgs.service) = hello.(HelloRequest.service) ->
  Broker.local_services (broker w) !! a.(CallArgs.service) = None ->
  admitted hello.(HelloRequest.methods) a.(CallArgs.method) a.(CallArgs.caller) ->
  exists w', run parse w (host_call c (next_id w) a) = Some w'
    /\ invoked w' c hello g client_id (next_id w) a.
Proof.
  intros [Hc Hj (q & Hq & Hqq & Hqa) Hi Hw Hp Hr (e & He & Htx & Hg & Hm) Hs] Hsv Hl Ha.
  set (id := next_id w). destruct (send_alive q (invoke_frame a 1) Hqa) as (q1 & Hsend & Hq1 & Hq1a).
  rewrite Hqq in Hq1. destruct (recv_cons q1 _ _ Hq1a Hq1) as (q2 & Hrecv & _ & _).
  set (st pc w0 := put_task id (TCall OHost a pc) w0).
  set (w0 := spawn (TCall OHost a CStart) w).
  assert (Ht : forall pc w1, tasks (st pc w1) !! id = Some (TCall OHost a pc)) by (intros; apply lookup_insert_eq).
  set (h1 := (call_register (heap w) id e (first_handle c)).1).
  set (h2 := set_channels (<[c := q1]> (channels h1)) h1).
  set (w1 := st CRegistry (set_heap (heap w) w0)).
  set (w2 := st (CSession e) (set_heap (heap w) w1)).
  set (w3 := st (CRegister e (first_handle c)) (set_heap (heap w) w2)).
  set (w4 := st (CSend e (first_handle c) 1) (set_heap h1 w3)).
  set (w5 := st (CAwaitRemote (first_handle c) 1) (set_heap h2 w4)).
  set (h3 := set_channels (<[c := q2]> (channels h2)) h2).
  set (w6 := log_out c (invoke_frame a 1) (set_heap h3 w5)).
  assert (Hx1 : exec parse w0 (LStep id) = Some w1).
  { eapply (step_call w0 id OHost a CStart); [apply lookup_insert_eq|]. simpl. unfold call_local.
    change (broker w0) with (broker w). by rewrite Hl. }
  assert (Hx2 : exec parse w1 (LStep id) = Some w2).
  { eapply (step_call w1 id OHost a CRegistry); [apply Ht|]. simpl. unfold call_registry.
    change (Broker.registry (broker w)) with (reg w). rewrite Hsv, He, Hm. by rewrite (proj2 (check_method_ok _ _) Ha). }
  assert (Hx3 : exec parse w2 (LStep id) = Some w3).
  { eapply (step_call w2 id OHost a (CSession e)); [apply Ht|]. simpl. unfold call_session.
    change (Broker.sessions (broker w2)) with (Broker.sessions (broker w)). by rewrite Hsv, Hg, Hs. }
  assert (Hreg : call_register (heap w3) id e (first_handle c) = (h1, CSend e (first_handle c) 1)).
  { unfold h1, call_register. simpl. by rewrite Hr. }
  assert (Hx4 : exec parse w3 (LStep id) = Some w4).
  { eapply (step_call w3 id OHost a (CRegister e (first_handle c))); [apply Ht|]. simpl. by rewrite <-Hreg. }
  assert (Hx5 : exec parse w4 (LStep id) = Some w5).
  { eapply (step_call w4 id OHost a (CSend e (first_handle c) 1)); [apply Ht|]. cbn [call_step].
    unfold call_send, chan_send. rewrite Htx. change (channels (heap w4) !! c) with (channels (heap w) !! c).
    rewrite Hq. cbn [mbind option_bind]. by rewrite Hsend. }
  assert (Hx6 : exec parse w5 (LWriter c true) = Some w6).
  { unfold exec. cbn [exec_conn]. change (conns w5 !! c) with (conns w !! c). rewrite Hc.
    change (channels (heap w5)) with (<[c := q1]> (channels h1)). rewrite lookup_insert_eq.
    cbn [mbind option_bind]. by rewrite Hrecv. }
  exists w6. split.
  { unfold host_call. cbn [replicate app run]. fold id.
    replace (exec parse w (LCall a)) with (Some w0) by done. cbn [mbind option_bind].
    rewrite Hx1. cbn [mbind option_bind]. rewrite Hx2. cbn [mbind option_bind]. rewrite Hx3. cbn [mbind option_bind].
    rewrite Hx4. cbn [mbind option_bind]. rewrite Hx5. cbn [mbind option_bind]. by rewrite Hx6. }
  split; [done|done|apply Ht| |done|].
  - change (pending_of (heap w6)) with (pending_of h1). unfold h1, call_register. cbn [fetch_add1 fst first_handle SessionHandle.next_req_id SessionHandle.pending_out].
    rewrite Hr. change (default 1%N (Some 1%N)) with 1%N. rewrite pending_of_set, decide_True by done.
    apply lookup_insert_eq.
  - assert (Hw6 : wire_of w6 c = wire_of w c ++ [invoke_frame a 1])
      by (unfold wire_of at 1; simpl; by rewrite lookup_insert_eq).
    rewrite Hw6, Hw. done.
Qed.

(** * The app answers *)

Definition first_invoke (a : CallArgs) : Invoke := {|
  Invoke.req_id := 1; Invoke.method := a.(CallArgs.method);
  Invoke.payload := a.(CallArgs.payload); Invoke.caller := a.(CallArgs.caller) |}.
Definition first_response (r : result bytes BusError) : Response :=
  {| Response.req_id := 1; Response.result := r |}.

Definition serving_labels (now : N) (a : CallArgs) (r : result bytes BusError) : list PLabel :=
  [PFrame now (invoke_frame a 1); PStep 0; PHandled 0 r; PStep 0; PWriter true].

Lemma serve_run service (hs : gmap string InvokeHandler) idle t0 now (a : CallArgs) h r :
  hs !! a.(CallArgs.method) = Some h ->
  exists p1 p2 p3 p4 p5,
    pexec (new_proc (Q := Q) (Nt := Nt) (new_client service hs idle t0)) (PFrame now (invoke_frame a 1)) = Some p1
    /\ pexec p1 (PStep 0) = Some p2
    /\ p_tasks p2 !! 0%N = Some (PDispatch (first_invoke a) (DRun h a.(CallArgs.caller).(CallerCtx.user_id)))
    /\ pexec p2 (PHandled 0 r) = Some p3 /\ pexec p3 (PStep 0) = Some p4
    /\ pexec p4 (PWriter true) = Some p5
    /\ p_wire p5 = [BusFrame.Response (first_response r)].
Proof.
  intros Hh. set (p0 := new_proc _). set (inv := first_invoke a).
  destruct (send_alive (Q := Q) mpsc_new (BusFrame.Response (first_response r)) new_alive) as (q1 & Hs & Hq1 & Ha1).
  rewrite new_queued in Hq1. destruct (recv_cons q1 _ _ Ha1 Hq1) as (q2 & Hr & _ & _).
  set (p1 := new_task (PDispatch inv DStart) (log_inbox (invoke_frame a 1)
    (set_client (record_activity now (p_client p0)) p0))).
  set (p2 := set_task 0 (PDispatch inv (DRun h a.(CallArgs.caller).(CallerCtx.user_id))) p1).
  set (p3 := set_task 0 (PDispatch inv (DReply r)) p2).
  set (p4 := end_task 0 (log_answer (dispatch_response inv r) (set_client (set_tx q1 (p_client p3)) p3))).
  set (p5 := log_wire (BusFrame.Response (first_response r)) (set_client (set_tx q2 (p_client p4)) p4)).
  exists p1, p2, p3, p4, p5. split; [done|]. split.
  { unfold pexec. cbn [pexec_reader pexec_task]. change (p_tasks p1 !! 0%N) with (Some (PDispatch inv DStart)).
    cbn [mbind option_bind pstep_task]. unfold dispatch_lookup.
    change (c_handlers (p_client p1)) with hs. change (Invoke.method inv) with (CallArgs.method a). by rewrite Hh. }
  split; [apply lookup_insert_eq|]. split.
  { unfold pexec. cbn [pexec_reader pexec_task]. 
    change (p_tasks p2 !! 0%N) with (<[0%N := PDispatch inv (DRun h a.(CallArgs.caller).(CallerCtx.user_id))]> (p_tasks p1) !! 0%N).
    by rewrite lookup_insert_eq. }
  split.
  { unfold pexec. cbn [pexec_reader pexec_task]. 
    change (p_tasks p3 !! 0%N) with (<[0%N := PDispatch inv (DReply r)]> (p_tasks p2) !! 0%N). rewrite lookup_insert_eq.
    cbn [mbind option_bind pstep_task]. unfold send_, send. change (c_tx (p_client p3)) with (mpsc_new (Q := Q) (M := BusFrame)).
    change (dispatch_response inv r) with (first_response r).
    by rewrite Hs. }
  split; [|done].
  unfold pexec. cbn [pexec_reader]. change (c_tx (p_client p4)) with q1. by rewrite Hr.
Qed.

(** * The answer returns *)

Definition host_answer (c : conn_id) (id : call_id) (r : result bytes BusError) : list Label :=
  [LFrame c (BusFrame.Response (first_response r)); LReply id; LContinue id].

Lemma host_answer_run w c hello g client_id id (a : CallArgs) r :
  invoked w c hello g client_id id a ->
  exists w1 w', exec parse w (LFrame c (BusFrame.Response (first_response r))) = Some w1
    /\ run parse w1 [LReply id; LContinue id] = Some w'
    /\ results w' !! id = Some r /\ conns w' !! c = Some (SRunning hello g).
Proof.
  intros [Hc Hj Ht Hp _ _]. set (resp := first_response r).
  set (w1 := set_job c None (set_heap (wake (heap w) c resp)
    (System.set_broker (broker w) (log_in c (BusFrame.Response resp) w)))).
  set (w2 := System.put_task id (TCall OHost a (CDone r)) w1).
  assert (Hrep : replies (heap w1) !! id = Some resp).
  { unfold w1, wake. simpl. rewrite Hp. simpl. apply lookup_insert_eq. }
  exists w1. eexists. split; [unfold exec; cbn [exec_conn]; by rewrite Hc, Hj|].
  cbn [run]. replace (exec parse w1 (LReply id)) with (Some w2).
  2: { unfold exec. cbn [exec_conn exec_task]. change (tasks w1) with (tasks w). by rewrite Ht, Hrep. }
  cbn [mbind option_bind]. unfold exec at 1. cbn [exec_conn exec_task].
  change (tasks w2 !! id) with (<[id := TCall OHost a (CDone r)]> (tasks w1) !! id). rewrite lookup_insert_eq.
  split; [done|]. split; [apply lookup_insert_eq|done].
Qed.

(** * The whole exchange *)

(** An app connects as [c] with its [Hello], the host's call [id] is made,
    served and answered. *)
Definition exchange (c : conn_id) (id : call_id) (pid : N) (b : BusClientBuilder) (hello : HelloRequest)
    (reply : BusFrame) (now : N) (a : CallArgs) (r : result bytes BusError) : list NLabel :=
  NConnect pid b :: (NBroker <$> admission_labels c hello) ++ [NReply c (Ok (Some reply)) now]
  ++ (NBroker <$> host_call c id a) ++ (NApp c <$> serving_labels now a r)
  ++ (NBroker <$> host_answer c id r).

Lemma nmoves_connect s pid b hello :
  hello_of pid b = Ok hello ->
  nmoves s [NConnect pid b]
    (mkNet (set_next_id (next_id (world s) + 1)%N (set_conn (next_id (world s)) SHandshake (world s)))
       (<[next_id (world s) := mkApp b hello AConnecting]> (apps s))).
Proof. intros Hh. econstructor; [simpl; by rewrite Hh|done|constructor]. Qed.

Lemma nmoves_admission s c b hello w' :
  apps s !! c = Some (mkApp b hello AConnecting) -> inbox_of (world s) c = [] ->
  run parse (world s) (admission_labels c hello) = Some w' ->
  nmoves s (NBroker <$> admission_labels c hello) (mkNet w' (apps s)).
Proof.
  intros Ha Hi Hr. unfold admission_labels in Hr. cbn [run] in Hr. apply bind_Some in Hr as (w1 & Hx & Hr).
  econstructor; [| |apply (nmoves_broker [LSession c; LSession c; LSession c; LAck c true; LAttach c; LSession c] (mkNet w1 (apps s))); [done|exact Hr]].
  - simpl. unfold broker_reads. rewrite Ha, Hi. simpl. rewrite bool_decide_eq_true_2 by done. by rewrite Hx.
  - done.
Qed.

Lemma nmoves_reply s c b hello ack now :
  apps s !! c = Some (mkApp b hello AConnecting) -> wire_of (world s) c !! 0 = Some (BusFrame.HelloAck ack) ->
  nmoves s [NReply c (Ok (Some (BusFrame.HelloAck ack))) now]
    (set_app c (mkApp b hello AConnecting)
       (AConnected (new_proc (new_client hello.(HelloRequest.service) b.(BusClientBuilder.handlers)
          (b.(BusClientBuilder.cfg)).(ClientConfig.idle_exit) now))) s).
Proof.
  intros Ha Hw. econstructor; [|done|constructor]. simpl. rewrite Ha.
  by rewrite bool_decide_eq_true_2 by done.
Qed.

Lemma nmoves_app_step s c b hello p l p' :
  apps s !! c = Some (mkApp b hello (AConnected p)) ->
  match l with PFrame _ f => wire_of (world s) c !! S (length (p_inbox p)) = Some f | _ => True end ->
  obeys handles p l -> pexec p l = Some p' ->
  nmoves s [NApp c l] (set_app c (mkApp b hello (AConnected p)) (AConnected p') s).
Proof.
  intros Ha Hf Hob Hx. econstructor; [| |constructor].
  - cbn [nexec]. rewrite Ha. replace (match l with PFrame _ f => _ | _ => _ end) with true; [by rewrite Hx|].
    symmetry. destruct l; try done. by apply bool_decide_eq_true_2.
  - simpl. intros b' hello' p1 Ha'. rewrite Ha in Ha'. by injection Ha' as _ _ <-.
Qed.

Lemma nmoves_serve s c b hello idle t0 now (a : CallArgs) h r :
  apps s !! c = Some (mkApp b hello (AConnected (new_proc
    (new_client hello.(HelloRequest.service) b.(BusClientBuilder.handlers) idle t0)))) ->
  wire_of (world s) c !! 1 = Some (invoke_frame a 1) ->
  b.(BusClientBuilder.handlers) !! a.(CallArgs.method) = Some h ->
  handles h a.(CallArgs.payload) a.(CallArgs.caller) r ->
  exists p, nmoves s (NApp c <$> serving_labels now a r)
      (mkNet (world s) (<[c := mkApp b hello (AConnected p)]> (apps s)))
    /\ p_wire p = [BusFrame.Response (first_response r)].
Proof.
  intros Ha Hw Hh Hr.
  destruct (serve_run hello.(HelloRequest.service) _ idle t0 now a h r Hh)
    as (p1 & p2 & p3 & p4 & p5 & Hx1 & Hx2 & Ht & Hx3 & Hx4 & Hx5 & Hp). exists p5. split; [|done].
  assert (Hstep : forall s0 p l p', apps s0 = <[c := mkApp b hello (AConnected p)]> (apps s) ->
    world s0 = world s ->
    match l with PFrame _ f => wire_of (world s) c !! S (length (p_inbox p)) = Some f | _ => True end ->
    obeys handles p l -> pexec p l = Some p' ->
    nmoves s0 [NApp c l] (mkNet (world s) (<[c := mkApp b hello (AConnected p')]> (apps s)))).
  { intros s0 p l p' Ha0 Hw0 Hf Hob Hx.
    pose proof (nmoves_app_step s0 c b hello p l p') as Hn. rewrite Hw0, Ha0, lookup_insert_eq in Hn.
    specialize (Hn eq_refl Hf Hob Hx). unfold set_app in Hn. rewrite Hw0, Ha0, insert_insert_eq in Hn. done. }
  cbn [serving_labels fmap list_fmap].
  apply (nmoves_app _ [_] (mkNet (world s) (<[c := mkApp b hello (AConnected p1)]> (apps s))) [_; _; _; _]).
  { eapply (Hstep s (new_proc _)); [by rewrite insert_id|done|exact Hw|done|exact Hx1]. }
  apply (nmoves_app _ [_] (mkNet (world s) (<[c := mkApp b hello (AConnected p2)]> (apps s))) [_; _; _]); [by eapply Hstep|].
  apply (nmoves_app _ [_] (mkNet (world s) (<[c := mkApp b hello (AConnected p3)]> (apps s))) [_; _]).
  { eapply Hstep; [done|done|done| |exact Hx3]. simpl. intros inv h' u Ht'. rewrite Ht in Ht'.
    by injection Ht' as <- <- _. }
  apply (nmoves_app _ [_] (mkNet (world s) (<[c := mkApp b hello (AConnected p4)]> (apps s))) [_]); by eapply Hstep.
Qed.

(** From any reachable state of the system. *)
Lemma exchange_run config n s pid b hello now (a : CallArgs) h r :
  nreachable parse dbg handles resolves config n s -> (n + 1 < U64_SIZE)%N ->
  hello_of pid b = Ok hello ->
  Broker.tokens (broker (world s)) !! hello.(HelloRequest.service) = Some hello.(HelloRequest.auth_token) ->
  a.(CallArgs.service) = hello.(HelloRequest.service) ->
  Broker.local_services (broker (world s)) !! a.(CallArgs.service) = None ->
  admitted b.(BusClientBuilder.methods) a.(CallArgs.method) a.(CallArgs.caller) ->
  b.(BusClientBuilder.handlers) !! a.(CallArgs.method) = Some h ->
  handles h a.(CallArgs.payload) a.(CallArgs.caller) r ->
  exists s' id reply g, let c := next_id (world s) in
    nmoves s (exchange c id pid b hello reply now a r) s'
    /\ results (world s') !! id = Some r
    /\ conns (world s') !! c = Some (SRunning hello g).
Proof.
  intros Hn Hb Hh Ht Hsv Hl Ha Hhd Hr. set (c := next_id (world s)).
  destruct (no_world _ _ _ _ _ _ (reachable_net parse dbg handles resolves config n s Hn Hb)) as (m & Hm & Hw).
  assert (Hc : conns (world s) !! c = None).
  { destruct (conns (world s) !! c) eqn:Hc; [|done].
    apply (str_conn_ids m _ (reachable_structural parse config m _ Hw ltac:(lia))) in Hc. unfold c in Hc. lia. }
  assert (Hbs : busy (world s) !! c = None).
  { destruct (busy (world s) !! c) as [job|] eqn:Hj; [|done].
    destruct (str_job m _ (reachable_structural parse config m _ Hw ltac:(lia)) c job Hj) as (pc & Hpc & _). congruence. }
  assert (Hin : inbox_of (world s) c = []) by (by eapply inbox_unaccepted; [exact Hw|lia]).
  assert (Hwi : wire_of (world s) c = []).
  { pose proof (reachable_wire parse config m _ Hw ltac:(lia) c) as Hx. by rewrite Hc in Hx. }
  destruct (hello_of_ok _ _ _ Hh) as [Hp _].
  assert (Hms : hello.(HelloRequest.methods) = b.(BusClientBuilder.methods)).
  { clear -Hh. unfold hello_of in Hh. destruct (BusClientBuilder.service b); simpl in Hh; [|done].
    destruct (find _ _); [done|]. by injection Hh as <-. }
  pose proof (nmoves_connect s pid b hello Hh) as Hn1. fold c in Hn1. set (s1 := mkNet _ _) in Hn1.
  destruct (admission_run (world s1) c hello) as (w2 & g & cid & Hr2 & Hrd & Hl2);
    [apply lookup_insert_eq|exact Hbs|exact Hin|exact Hwi|by rewrite Hp|exact Ht|].
  assert (Ha1 : apps s1 !! c = Some (mkApp b hello AConnecting)) by apply lookup_insert_eq.
  pose proof (nmoves_admission s1 c b hello w2 Ha1 Hin Hr2) as Hn2. set (s2 := mkNet w2 (apps s1)) in Hn2.
  set (hk := {| HelloAck.client_id := cid;
    HelloAck.heartbeat_interval := (broker w2).(Broker.config).(BrokerConfig.heartbeat_interval) |}).
  pose proof (nmoves_reply s2 c b hello hk now Ha1 ltac:(simpl; by rewrite (rd_wire _ _ _ _ _ Hrd))) as Hn3.
  set (s3 := set_app c _ _ s2) in Hn3.
  destruct (host_call_run w2 c hello g cid a Hrd Hsv) as (w4 & Hr4 & Hiv);
    [by rewrite Hl2|by rewrite Hms|].
  pose proof (nmoves_broker (host_call c (next_id w2) a) s3 w4 eq_refl Hr4) as Hn4.
  set (s4 := mkNet w4 (apps s3)) in Hn4. set (id := next_id w2) in *.
  destruct (nmoves_serve s4 c b hello (b.(BusClientBuilder.cfg)).(ClientConfig.idle_exit) now now a h r)
    as (p & Hn5 & Hpw); [apply lookup_insert_eq|simpl; by rewrite (iv_wire _ _ _ _ _ _ _ Hiv)|done|done|].
  set (s5 := mkNet _ _) in Hn5.
  destruct (host_answer_run w4 c hello g cid id a r Hiv) as (w6 & w7 & Hx6 & Hr7 & Hres & Hconn).
  assert (Hrf : broker_reads s5 c (BusFrame.Response (first_response r)) = true).
  { unfold broker_reads. simpl. rewrite lookup_insert_eq, (iv_inbox _ _ _ _ _ _ _ Hiv).
    apply bool_decide_eq_true_2. unfold app_sent. simpl. by rewrite Hpw. }
  pose proof (nmoves_frame s5 c _ w6 Hrf Hx6) as Hn6.
  pose proof (nmoves_broker [LReply id; LContinue id] (mkNet w6 (apps s5)) w7 eq_refl Hr7) as Hn7.
  exists (mkNet w7 (apps s5)), id, (BusFrame.HelloAck hk), g. cbv zeta. split; [|done].
  unfold exchange. apply (nmoves_app _ [_] s1 (_ ++ _)); [exact Hn1|].
  eapply nmoves_app; [exact Hn2|]. eapply nmoves_app; [exact Hn3|]. eapply nmoves_app; [exact Hn4|].
  eapply nmoves_app; [exact Hn5|]. by eapply (nmoves_app _ [_]); [exact Hn6|].
Qed.

End runs.
