(* ===== verification/Wire.v ===== *)
(** One direction of a connection at the level of bytes: the writer task
    (crates/broker/src/session.rs, [run_connection] in
    crates/client/src/client.rs), a stream that may fail at any byte, and the
    read loop at the other end; and what is left of a connection whose writer
    has ended. *)

From stdpp Require Import prelude gmap strings.
From S2P Require Import Prelude Frame Codec.

Local Open Scope N_scope.

(** A writer that may fail: [write_all] accepts everything, or fails before it
    has accepted the last byte; [flush] keeps nothing back (tokio's sockets and
    pipes have no buffer of their own). *)
Class FaultyWrite (W : Type) `{AsyncWrite W} : Type := {
  accepted : W -> bytes;
  write_all_or w l :
    (exists w', write_all w l = (Ok tt, w') /\ accepted w' = accepted w ++ l)
    \/ exists e w' l1 x l2, write_all w l = (Err e, w') /\ l = l1 ++ x :: l2
         /\ accepted w' = accepted w ++ l1;
  flush_through w : exists w', flush w = (Ok tt, w') /\ accepted w' = accepted w
}.

(** A sink that fails after [sink_room] bytes. *)
Record LimitedSink := mkLimited { limited_bytes : bytes; sink_room : nat }.
Definition broken_pipe : IoError := {| IoError.kind := IoError.Other; IoError.msg := "broken pipe" |}.
#[export] Instance LimitedSink_write : AsyncWrite LimitedSink := {|
  write_all w l :=
    if decide (length l <= sink_room w)%nat
    then (Ok tt, mkLimited (limited_bytes w ++ l) (sink_room w - length l)%nat)
    else (Err broken_pipe, mkLimited (limited_bytes w ++ take (sink_room w) l) 0%nat);
  flush w := (Ok tt, w)
|}.

Section wire.
Context {T : Type} `{Rmp T}.

(** The writer task: it takes the queued frames in order and ends at the first
    one it cannot write; the frames that were written, and the error. *)
Fixpoint writer_task {W} `{AsyncWrite W} (w : W) (queue : list T) : list T * option BusError * W :=
  match queue with
  | [] => ([], None, w)
  | f :: queue =>
      match write_frame w f with
      | (Err e, w) => ([], Some e, w)
      | (Ok _, w) => let '(fs, e, w) := writer_task w queue in (f :: fs, e, w)
      end
  end.
End wire.

#[export] Instance LimitedSink_faulty : FaultyWrite LimitedSink.
Proof.
  refine {| accepted := limited_bytes |}; simpl; [|eauto].
  intros w l. case_decide as Hl; [left; eauto|right].
  destruct (drop (sink_room w) l) as [|x l2] eqn:Hd.
  { apply (f_equal length) in Hd. rewrite length_drop in Hd. simpl in Hd. lia. }
  exists broken_pipe, (mkLimited (limited_bytes w ++ take (sink_room w) l) 0%nat), (take (sink_room w) l), x, l2.
  split; [done|]. split; [|done]. by rewrite <-Hd, take_drop.
Defined.

Section wire_lemmas.
Context {T : Type} `{Rmp T, !Roundtrip T}.

(** What a failed write leaves behind: nothing, or a cut frame. *)
Definition cut (tail : bytes) : Prop :=
  exists l x l2, byte_len l <= MAX_FRAME_BYTES /\ frame_bytes l = tail ++ x :: l2.

Definition encoded (v : T) (l : bytes) : Prop := to_vec_named v = Ok l /\ byte_len l <= MAX_FRAME_BYTES.

(** A frame is written, or its bytes are cut before the last. *)
Lemma write_frame_or {W} `{FaultyWrite W} (w : W) (v : T) :
  (exists l w', write_frame w v = (Ok tt, w') /\ to_vec_named v = Ok l /\ byte_len l <= MAX_FRAME_BYTES
     /\ accepted w' = accepted w ++ frame_bytes l)
  \/ (exists e, write_frame w v = (Err e, w))
  \/ (exists e w' l l1 x l2, write_frame w v = (Err e, w') /\ byte_len l <= MAX_FRAME_BYTES
        /\ frame_bytes l = l1 ++ x :: l2 /\ accepted w' = accepted w ++ l1).
Proof.
  unfold write_frame. destruct (to_vec_named v) as [l|e]; simpl; [|eauto].
  destruct (N.ltb_spec MAX_FRAME_BYTES (byte_len l)) as [|Hl]; [eauto|].
  rewrite as_u32_small by by apply max_frame_u32. unfold frame_bytes.
  destruct (write_all_or w (to_be_bytes (byte_len l))) as [(w1 & -> & Hw1)|(e & w1 & l1 & x & l2 & -> & Hs & Hw1)].
  2: { right. right. exists (from_io_error e), w1, l, l1, x, (l2 ++ l). by rewrite Hs, <-app_assoc. }
  destruct (write_all_or w1 l) as [(w2 & -> & Hw2)|(e & w2 & l1 & x & l2 & -> & Hs & Hw2)].
  2: { right. right. exists (from_io_error e), w2, l, (to_be_bytes (byte_len l) ++ l1), x, l2.
       rewrite Hw2, Hw1, <-!app_assoc. split_and!; try done. by rewrite Hs at 2. }
  destruct (flush_through w2) as (w3 & -> & Hw3). left. exists l, w3.
  split_and!; try done. by rewrite Hw3, Hw2, Hw1, <-app_assoc.
Qed.

(** The bytes of a cut frame are no frame. *)
Lemma read_cut_frame {R} `{LawfulRead R} (r : R) l l1 x l2 :
  byte_len l <= MAX_FRAME_BYTES -> frame_bytes l = l1 ++ x :: l2 -> unread r = l1 ->
  (exists r', read_frame_opt (T := T) r = (Ok None, r'))
  \/ exists e r', read_frame_opt (T := T) r = (Err e, r').
Proof.
  intros Hl Hf Hu.
  assert (Hlen : byte_len l1 < 4 + byte_len l).
  { apply (f_equal byte_len) in Hf. unfold frame_bytes in Hf. rewrite !byte_len_app in Hf.
    change (byte_len (to_be_bytes _)) with 4 in Hf. unfold byte_len in *. simpl in Hf. lia. }
  unfold read_frame_opt. destruct (decide (byte_len l1 < 4)) as [Hs|Hs].
  - destruct (ending r) as [e|] eqn:He.
    + destruct (read_exact_fail r 4 e) as (r' & ->); [by rewrite Hu|done|]. case_decide; eauto.
    + destruct (read_exact_eof r 4) as (msg & r' & ->); [by rewrite Hu|done|]. simpl. eauto.
  - assert (Hh : exists tl, l1 = to_be_bytes (byte_len l) ++ tl).
    { exists (drop 4 l1). rewrite <-(take_drop 4 l1) at 1. f_equal.
      apply (f_equal (take 4)) in Hf. unfold frame_bytes in Hf.
      rewrite take_app_length' in Hf by done. rewrite Hf. symmetry. apply take_app_le.
      unfold byte_len in Hs. lia. }
    destruct Hh as [tl ->]. rewrite byte_len_app in Hlen. change (byte_len (to_be_bytes _)) with 4 in Hlen.
    destruct (read_frame_opt_header r _ _ Hu (length_to_be_bytes _)) as (r1 & -> & Hu1 & He1).
    rewrite from_to_be_bytes by by apply max_frame_u32. rewrite (proj2 (N.ltb_ge _ _)) by done.
    destruct (ending r1) as [e|] eqn:He.
    + destruct (read_exact_fail r1 (byte_len l) e) as (r' & ->); [rewrite Hu1; lia|done|]. eauto.
    + destruct (read_exact_eof r1 (byte_len l)) as (msg & r' & ->); [rewrite Hu1; lia|done|]. eauto.
Qed.

Lemma cut_nil : cut [].
Proof. exists [], Byte.x00, [Byte.x00; Byte.x00; Byte.x00]. split; [done|]. reflexivity. Qed.

Lemma cut_prefix tail tail' : tail `prefix_of` tail' -> cut tail' -> cut tail.
Proof.
  intros [k ->] (l & x & l2 & Hl & Hf). rewrite <-app_assoc in Hf.
  destruct k as [|y k]; [by exists l, x, l2|]. by exists l, y, (k ++ x :: l2).
Qed.

Lemma writer_task_bytes {W} `{FaultyWrite W} : forall queue (w w' : W) (fs : list T) e,
  writer_task w queue = (fs, e, w') ->
  exists ls tail, Forall2 encoded fs ls /\ cut tail
    /\ accepted w' = accepted w ++ concat (frame_bytes <$> ls) ++ tail
    /\ fs `prefix_of` queue /\ (e = None -> fs = queue /\ tail = []).
Proof.
  induction queue as [|f queue IH]; intros w w' fs e Hw; simpl in Hw.
  - injection Hw as <- <- <-. exists [], []. split; [constructor|]. split; [apply cut_nil|]. by rewrite app_nil_r.
  - destruct (write_frame_or w f) as [(l & w1 & Hf & Hl & Hm & Ha)|[(e1 & Hf)|(e1 & w1 & l & l1 & x & l2 & Hf & Hm & Hb & Ha)]];
      rewrite Hf in Hw.
    + destruct (writer_task w1 queue) as [[fs1 e1] w2] eqn:Ht. injection Hw as <- <- <-.
      destruct (IH _ _ _ _ Ht) as (ls & tail & Hls & Hc & Ha' & Hp & He).
      exists (l :: ls), tail. split_and!; [by constructor|done| |by apply prefix_cons|].
      * rewrite Ha', Ha. simpl. by rewrite <-!app_assoc.
      * intros Hn. destruct (He Hn) as [-> ->]. done.
    + injection Hw as <- <- <-. exists [], []. split; [constructor|]. split; [apply cut_nil|].
      split; [by rewrite app_nil_r|]. split; [apply prefix_nil|done].
    + injection Hw as <- <- <-. exists [], l1. split; [constructor|]. split; [by exists l, x, l2|].
      split; [done|]. split; [apply prefix_nil|done].
Qed.

(** Reading a part of those bytes. *)
Lemma read_written {R} `{LawfulRead R} tail : forall fs ls fuel (r : R),
  Forall2 encoded fs ls -> cut tail ->
  unread r `prefix_of` concat (frame_bytes <$> ls) ++ tail ->
  (read_frames (T := T) fuel r).1 `prefix_of` fs
  /\ (unread r = concat (frame_bytes <$> ls) ++ tail -> (length fs < fuel)%nat ->
      (read_frames (T := T) fuel r).1 = fs).
Proof.
  assert (Hcut : forall fuel (r : R), cut (unread r) -> (read_frames (T := T) fuel r).1 = []).
  { intros [|fuel] r (l & x & l2 & Hl & Hf); [done|]. simpl.
    destruct (read_cut_frame r l _ x l2 Hl Hf eq_refl) as [[r' ->]|(e & r' & ->)]; done. }
  induction fs as [|f fs IH]; intros ls fuel r Hls Hc Hu; inversion Hls as [|? l ? ls' [Hv Hl] Hls']; subst;
    cbn [fmap list_fmap concat] in Hu |- *.
  - rewrite Hcut by by eapply cut_prefix. done.
  - rewrite <-app_assoc in Hu. destruct fuel as [|fuel]; [split; [apply prefix_nil|simpl; lia]|].
    destruct (decide (frame_bytes l `prefix_of` unread r)) as [[rest Hrest]|Hnp].
    + rewrite Hrest in Hu. apply prefix_app_inv in Hu.
      destruct (read_frame_opt_frame r l rest f Hrest Hl (from_slice_to_vec _ _ Hv)) as (r' & Hx & Hur & _).
      cbn [read_frames]. rewrite Hx. destruct (IH ls' fuel r' Hls' Hc) as [Hp He]; [by rewrite Hur|].
      destruct (read_frames fuel r') as [fs' e'] eqn:Hrf. cbn [fst length] in *. split; [by apply prefix_cons|].
      intros Heq Hlen. f_equal. apply He; [|lia]. rewrite Hur. rewrite Hrest in Heq.
      rewrite <-app_assoc in Heq. by apply app_inv_head in Heq.
    + assert (Hcu : cut (unread r)).
      { exists l. destruct Hu as [k Hk].
        destruct (decide (length (unread r) < length (frame_bytes l))%nat) as [Hlt|Hge].
        - destruct (drop (length (unread r)) (frame_bytes l)) as [|x l2] eqn:Hd.
          { apply (f_equal length) in Hd. rewrite length_drop, length_nil in Hd. lia. }
          exists x, l2. split; [done|]. rewrite <-Hd. rewrite <-(take_drop (length (unread r)) (frame_bytes l)) at 1.
          f_equal. apply (f_equal (take (length (unread r)))) in Hk.
          rewrite take_app_le in Hk by lia. by rewrite take_app_length in Hk.
        - destruct Hnp. exists (drop (length (frame_bytes l)) (unread r)).
          apply (f_equal (take (length (frame_bytes l)))) in Hk.
          rewrite take_app_length, take_app_le in Hk by lia. rewrite Hk at 1. by rewrite take_drop. }
      rewrite (Hcut (S fuel) r Hcu). split; [apply prefix_nil|]. intros Heq _. destruct Hnp. rewrite Heq.
      rewrite <-app_assoc. by apply prefix_app_r.
Qed.

End wire_lemmas.

(** C30: the byte stream carries frames. Whatever the queue of a writer task,
    wherever its stream fails, and however much of what was accepted has
    arrived at the other end, in whatever pieces and however the stream then
    ends, the read loop there sees a prefix of the frames the task reported as
    written, which are a prefix of the queue: no frame is invented, merged,
    reordered or skipped, a frame that was cut or refused is never seen. When
    all accepted bytes have arrived the loop sees every written frame; and a
    writer that has not failed has written the whole queue. *)
Theorem stream_carries_frames {T} `{Roundtrip T} {W} `{FaultyWrite W} {R} `{LawfulRead R}
    (queue fs : list T) (e : option BusError) (w w' : W) (r : R) (fuel : nat) :
  accepted w = [] -> writer_task w queue = (fs, e, w') -> unread r `prefix_of` accepted w' ->
  (read_frames (T := T) fuel r).1 `prefix_of` fs /\ fs `prefix_of` queue
  /\ (unread r = accepted w' -> (length fs < fuel)%nat -> (read_frames (T := T) fuel r).1 = fs)
  /\ (e = None -> fs = queue).
Proof.
  intros Hw Ht Hp. destruct (writer_task_bytes queue w w' fs e Ht) as (ls & tail & Hls & Hc & Ha & Hq & He).
  rewrite Hw in Ha. simpl in Ha. rewrite Ha in Hp |- *.
  destruct (read_written tail fs ls fuel r Hls Hc Hp) as [Hr Hall]. split_and!; [done|done|done|].
  intros Hn. by destruct (He Hn).
Qed.

(** The sink breaks within the second frame. *)
Lemma stream_carries_frames_witness :
  let queue := [bytes_lit "hello"; bytes_lit "bus"; bytes_lit "!"] in
  let '(fs, e, w') := writer_task (H := raw_rmp) (mkLimited [] 12) queue in
  fs = [bytes_lit "hello"] /\ e = Some (BusError.Io "broken pipe")
  /\ (read_frames (T := bytes) (H := raw_rmp) 4 (mkStream (limited_bytes w') None)).1 = [bytes_lit "hello"].
Proof.
  destruct (writer_task (H := raw_rmp) (mkLimited [] 12) [bytes_lit "hello"; bytes_lit "bus"; bytes_lit "!"])
    as [[fs e] w'] eqn:Ht. cbv zeta. rewrite Ht.
  pose proof (@stream_carries_frames bytes raw_rmp raw_roundtrip LimitedSink _ _ ByteStream _ _
    _ fs e (mkLimited [] 12) w' (mkStream (limited_bytes w') None) 4 eq_refl Ht ltac:(exists []; symmetry; apply app_nil_r)) as (_ & _ & Hall & _).
  vm_compute in Ht. injection Ht as <- <- <-. split; [reflexivity|]. split; [reflexivity|].
  apply Hall; [reflexivity|simpl; lia].
Defined.
