(* ===== verification/Supervisor.v ===== *)
(** The process supervisor (crates/supervisor/src/lib.rs).

    [Sup] is the supervisor with its app states, the child processes and the
    tasks that run its async methods.  [Arc<AppState>] is an identity in
    [s_states]: [s_apps] and the tasks hold references, and a state nobody
    refers to any more is dropped together with its [Child].  Each [Child] is
    created with [kill_on_drop].  [a_lock] is the task that holds the guard of
    the [child] mutex; tasks take it one at a time and in any order.  A task is
    cut at its awaits; a step of it is given what it observes of the operating
    system as an [Io]. *)

From stdpp Require Import prelude gmap strings.
From Stdlib Require Import Ascii.
From S2P Require Import Prelude Frame Registry Broker.

(** * Data *)

Module Lifecycle.
Inductive Lifecycle :=
| Resident
| OnDemand (idle_timeout : Duration).
End Lifecycle.
Abbreviation Lifecycle := Lifecycle.Lifecycle.

Module AppSpec.
Record AppSpec := mk {
  service : string;
  binary : string;
  args : list string;
  env : list (string * string);
  lifecycle : Lifecycle;
  working_dir : option string
}.
End AppSpec.
Abbreviation AppSpec := AppSpec.AppSpec.

Module Backoff.
Record Backoff := mk { next : Duration }.
Definition new : Backoff := mk (duration_from_secs 1).
Definition bump (b : Backoff) : Backoff * Duration :=
  (mk ((b.(next) * 2) `min` duration_from_secs 300), b.(next)).
Definition reset (b : Backoff) : Backoff := mk (duration_from_secs 1).
End Backoff.
Abbreviation Backoff := Backoff.Backoff.

Abbreviation app_id := N.
Abbreviation proc_id := N.
Abbreviation stask_id := N.

Record AppState := mkApp {
  a_spec : AppSpec;
  a_child : option proc_id;
  a_backoff : Backoff;
  a_last_spawn : option N;
  a_lock : option stask_id
}.
Definition new_state (spec : AppSpec) : AppState := mkApp spec None Backoff.new None None.
Definition with_child v s := mkApp (a_spec s) v (a_backoff s) (a_last_spawn s) (a_lock s).
Definition with_backoff v s := mkApp (a_spec s) (a_child s) v (a_last_spawn s) (a_lock s).
Definition with_spawn v s := mkApp (a_spec s) (a_child s) (a_backoff s) v (a_lock s).
Definition with_lock v s := mkApp (a_spec s) (a_child s) (a_backoff s) (a_last_spawn s) v.

(** [tokio::process::Command], as [spawn_once] fills it. *)
Record Command := mkCommand {
  cmd_binary : string;
  cmd_args : list string;
  cmd_env : list (string * string);
  cmd_dir : option string;
  cmd_kill_on_drop : bool
}.

Inductive ExitStatus := ExitCode (code : N) | ExitSignal (signal : N).
Definition success (s : ExitStatus) : bool :=
  match s with ExitCode 0 => true | _ => false end.

(** A child runs, or runs with SIGKILL sent to it, or has exited. *)
Inductive ProcState := Running | Dying | Exited (s : ExitStatus).

(** * The command of a child *)

Definition idle_ms (l : Lifecycle) : N :=
  match l with
  | Lifecycle.OnDemand idle_timeout => as_u64 (as_millis idle_timeout)
  | Lifecycle.Resident => 0
  end.

Definition command (endpoint token : string) (spec : AppSpec) : Command := {|
  cmd_binary := spec.(AppSpec.binary);
  cmd_args := spec.(AppSpec.args);
  cmd_env := [("TOKIMO_BUS_SOCKET", endpoint); ("TOKIMO_BUS_TOKEN", token);
              ("TOKIMO_BUS_IDLE_MS", show_N (idle_ms spec.(AppSpec.lifecycle)))]
             ++ spec.(AppSpec.env);
  cmd_dir := spec.(AppSpec.working_dir);
  cmd_kill_on_drop := true
|}.

(** [Command::env]: the last value set for a variable counts. *)
Fixpoint env_lookup (env : list (string * string)) (k : string) : option string :=
  match env with
  | [] => None
  | (k', v) :: env =>
      match env_lookup env k with
      | Some v' => Some v'
      | None => if decide (k' = k) then Some v else None
      end
  end.

(** The environment of the child: that of the supervisor with the changes of
    the command. *)
Definition child_env (parent : string -> option string) (c : Command) (k : string) : option string :=
  match env_lookup (cmd_env c) k with Some v => Some v | None => parent k end.

(** [svc_color]: [usize] has 64 bits. *)
Definition svc_hash (name : string) : N :=
  fold_left (fun h b => as_u64 (as_u64 (h * 33) + Byte.to_N b)) (bytes_lit name) 5381%N.
Definition PALETTE : list N := [36; 33; 35; 34; 96; 93; 95; 94; 37; 91]%N.
Definition svc_color (name : string) : option N :=
  PALETTE !! N.to_nat (svc_hash name mod N.of_nat (length PALETTE)).

(** The output of a child: each line is printed with the coloured name of its
    service, until the pipe ends or fails; [None] where indexing the palette
    would panic. *)
Definition escape (code : N) : string := String (ascii_of_N 27) ("[" +:+ show_N code +:+ "m").
Definition prefix_line (service line : string) : option string :=
  code ← svc_color service; Some (escape code +:+ "[" +:+ service +:+ "]" +:+ escape 0 +:+ " " +:+ line).
Fixpoint forward (service : string) (reads : list (result (option string) IoError)) : list (option string) :=
  match reads with
  | Ok (Some line) :: reads => prefix_line service line :: forward service reads
  | _ => []
  end.

(** The hook that runs in the child before [exec], on Linux: ask to be killed
    with the parent, and leave if the parent has gone already. *)
Inductive PreExec := Proceed | ExitNow (code : N) | SpawnError (e : IoError).
Definition pre_exec (parent_pid : N) (set_pdeathsig : result unit IoError) (getppid : N) : PreExec :=
  match set_pdeathsig with
  | Err e => SpawnError e
  | Ok _ => if bool_decide (getppid = parent_pid) then Proceed else ExitNow 0
  end.

(** * Tasks *)

Inductive ResidentPc :=
| RLookup
| RLock (sid : app_id)
(** Sleeping after a failed spawn, inside the block that owns the guard. *)
| RRetry (sid : app_id) (wait : Duration)
| RRelock (sid : app_id)
(** In [c.wait()], holding the guard. *)
| RWait (sid : app_id) (pid : proc_id)
| RExited (sid : app_id) (status : option ExitStatus)
| RSleep (sid : app_id) (wait : Duration).

(** [stop_service]; the guard is held while the killed child is awaited. *)
Inductive StopPc :=
| TLookup
| TLock (sid : app_id)
| TWait (sid : app_id) (pid : proc_id)
| TStopped.

Inductive ReplacePc := PContains | PStop (pc : StopPc) | PRemove | PInsert.
Inductive UnregisterPc := UContains | UStop (pc : StopPc) | URemove.
Inductive EnsurePc := ELookup | ELock (sid : app_id).

Inductive STask :=
| SResident (service : string) (pc : ResidentPc)
| SReplace (spec : AppSpec) (pc : ReplacePc)
| SUnregister (service : string) (pc : UnregisterPc)
| SEnsure (service : string) (pc : EnsurePc)
| SReturned (r : result unit BusError).

(** The app state a task refers to, and the one whose guard it holds. *)
Definition res_ref (pc : ResidentPc) : option app_id :=
  match pc with
  | RLookup => None
  | RLock sid | RRetry sid _ | RRelock sid | RWait sid _ | RExited sid _ | RSleep sid _ => Some sid
  end.
Definition stop_ref (pc : StopPc) : option app_id :=
  match pc with TLock sid | TWait sid _ => Some sid | _ => None end.
Definition stop_of (t : STask) : option StopPc :=
  match t with SReplace _ (PStop pc) | SUnregister _ (UStop pc) => Some pc | _ => None end.
Definition task_ref (t : STask) : option app_id :=
  match t with
  | SResident _ pc => res_ref pc
  | SEnsure _ (ELock sid) => Some sid
  | _ => stop_of t ≫= stop_ref
  end.
Definition task_holds (t : STask) : option app_id :=
  match t with
  | SResident _ (RRetry sid _) | SResident _ (RWait sid _) => Some sid
  | SReplace _ (PStop (TWait sid _)) | SUnregister _ (UStop (TWait sid _)) => Some sid
  | _ => None
  end.

(** * The supervisor *)

Record Sup := mkSup {
  s_broker : Broker;
  s_endpoint : string;
  s_apps : gmap string app_id;
  s_states : gmap app_id AppState;
  s_procs : gmap proc_id ProcState;
  s_commands : gmap proc_id Command;
  s_tasks : gmap stask_id STask;
  s_ctr : N;
  s_next : N
}.

Definition set_broker b ctr w := mkSup b (s_endpoint w) (s_apps w) (s_states w) (s_procs w) (s_commands w) (s_tasks w) ctr (s_next w).
Definition set_apps v w := mkSup (s_broker w) (s_endpoint w) v (s_states w) (s_procs w) (s_commands w) (s_tasks w) (s_ctr w) (s_next w).
Definition put_state sid v w := mkSup (s_broker w) (s_endpoint w) (s_apps w) (<[sid := v]> (s_states w)) (s_procs w) (s_commands w) (s_tasks w) (s_ctr w) (s_next w).
Definition set_states v w := mkSup (s_broker w) (s_endpoint w) (s_apps w) v (s_procs w) (s_commands w) (s_tasks w) (s_ctr w) (s_next w).
Definition set_procs v w := mkSup (s_broker w) (s_endpoint w) (s_apps w) (s_states w) v (s_commands w) (s_tasks w) (s_ctr w) (s_next w).
Definition log_command pid c w := mkSup (s_broker w) (s_endpoint w) (s_apps w) (s_states w) (s_procs w) (<[pid := c]> (s_commands w)) (s_tasks w) (s_ctr w) (s_next w).
Definition put_task id t w := mkSup (s_broker w) (s_endpoint w) (s_apps w) (s_states w) (s_procs w) (s_commands w) (<[id := t]> (s_tasks w)) (s_ctr w) (s_next w).
Definition end_task id w := mkSup (s_broker w) (s_endpoint w) (s_apps w) (s_states w) (s_procs w) (s_commands w) (delete id (s_tasks w)) (s_ctr w) (s_next w).
Definition take_id w : N * Sup :=
  (s_next w, mkSup (s_broker w) (s_endpoint w) (s_apps w) (s_states w) (s_procs w) (s_commands w) (s_tasks w) (s_ctr w) (s_next w + 1)).

(** [Supervisor::new]. *)
Definition new_supervisor (b : Broker) (bus_endpoint : string) : Sup :=
  mkSup b bus_endpoint ∅ ∅ ∅ ∅ ∅ 0 0.

Definition spawn_task (t : STask) (w : Sup) : Sup :=
  let '(id, w) := take_id w in put_task id t w.

(** What a step observes of the outside: the clocks, the process id of the
    supervisor, whether the command can be started, and whether [try_wait] and
    [wait] fail. *)
Record Io := mkIo {
  io_now_ns : option N;
  io_own_pid : N;
  io_instant : N;
  io_spawn : result unit IoError;
  io_try_wait : result unit IoError;
  io_wait : result unit IoError
}.

(** SIGKILL, as [Child::kill] and dropping a [Child] send it. *)
Definition kill (pid : proc_id) (procs : gmap proc_id ProcState) : gmap proc_id ProcState :=
  match procs !! pid with Some Running => <[pid := Dying]> procs | _ => procs end.
Definition drop_child (child : option proc_id) (procs : gmap proc_id ProcState) :=
  match child with Some pid => kill pid procs | None => procs end.

(** [spawn_once], the guard of [sid] at hand. *)
Definition spawn_once (w : Sup) (io : Io) (sid : app_id) (st : AppState)
    : Sup * result unit BusError :=
  let spec := a_spec st in
  let '(b, ctr, token) :=
    Broker.issue_token (s_broker w) (io_now_ns io) (io_own_pid io) (s_ctr w) spec.(AppSpec.service) in
  let w := set_broker b ctr w in
  let cmd := command (s_endpoint w) token spec in
  match io_spawn io with
  | Err e => (w, Err (from_io_error e))
  | Ok _ =>
      let '(pid, w) := take_id w in
      let w := set_procs (<[pid := Running]> (drop_child (a_child st) (s_procs w))) (log_command pid cmd w) in
      (put_state sid (with_spawn (Some (io_instant io)) (with_child (Some pid) st)) w, Ok tt)
  end.

(** [lock().await] can return: the mutex is free. *)
Definition acquire (w : Sup) (sid : app_id) : option AppState :=
  st ← s_states w !! sid;
  match a_lock st with None => Some st | Some _ => None end.

(** [wait] of a child: its status, or the error. *)
Definition waited (w : Sup) (io : Io) (pid : proc_id) : option (option ExitStatus) :=
  match io_wait io, s_procs w !! pid with
  | Err _, _ => Some None
  | Ok _, Some (Exited s) => Some (Some s)
  | _, _ => None
  end.

(** [run_resident]. *)
Definition step_resident (w : Sup) (io : Io) (id : stask_id) (service : string) (pc : ResidentPc)
    : option Sup :=
  match pc with
  | RLookup =>
      Some (match s_apps w !! service with
            | None => end_task id w
            | Some sid => put_task id (SResident service (RLock sid)) w
            end)
  | RLock sid =>
      st ← acquire w sid;
      Some (match spawn_once w io sid st with
            | (w, Ok _) => put_task id (SResident service (RRelock sid)) w
            | (w, Err _) =>
                let '(b, wait) := Backoff.bump (a_backoff st) in
                put_task id (SResident service (RRetry sid wait))
                  (put_state sid (with_lock (Some id) (with_backoff b st)) w)
            end)
  | RRetry sid _ =>
      st ← s_states w !! sid;
      Some (put_task id (SResident service RLookup) (put_state sid (with_lock None st) w))
  | RRelock sid =>
      st ← acquire w sid;
      Some (match a_child st with
            | None => end_task id w
            | Some pid =>
                put_task id (SResident service (RWait sid pid)) (put_state sid (with_lock (Some id) st) w)
            end)
  | RWait sid pid =>
      st ← s_states w !! sid;
      status ← waited w io pid;
      Some (put_task id (SResident service (RExited sid status)) (put_state sid (with_lock None st) w))
  | RExited sid status =>
      st ← s_states w !! sid;
      let b := match status with
               | Some s => if success s then Backoff.reset (a_backoff st) else a_backoff st
               | None => a_backoff st
               end in
      let '(b, wait) := Backoff.bump b in
      Some (put_task id (SResident service (RSleep sid wait)) (put_state sid (with_backoff b st) w))
  | RSleep _ _ => Some (put_task id (SResident service RLookup) w)
  end.

(** [stop_service], up to the task that runs it; [kill().await] sends the
    signal and waits, as the [wait().await] after it does. *)
Definition step_stop (w : Sup) (io : Io) (id : stask_id) (service : string) (pc : StopPc)
    : option (Sup * StopPc) :=
  match pc with
  | TLookup =>
      Some (w, match s_apps w !! service with Some sid => TLock sid | None => TStopped end)
  | TLock sid =>
      st ← acquire w sid;
      Some (match a_child st with
            | None => (w, TStopped)
            | Some pid =>
                (put_state sid (with_lock (Some id) (with_child None st)) (set_procs (kill pid (s_procs w)) w),
                 TWait sid pid)
            end)
  | TWait sid pid =>
      st ← s_states w !! sid;
      _ ← waited w io pid;
      Some (put_state sid (with_lock None st) w, TStopped)
  | TStopped => None
  end.

Definition insert_state (spec : AppSpec) (w : Sup) : Sup :=
  let '(sid, w) := take_id w in
  put_state sid (new_state spec) (set_apps (<[spec.(AppSpec.service) := sid]> (s_apps w)) w).

Definition is_resident (spec : AppSpec) : bool :=
  match spec.(AppSpec.lifecycle) with Lifecycle.Resident => true | _ => false end.

(** [register_or_replace], after the test of [stop_service]'s end. *)
Definition step_replace (w : Sup) (io : Io) (id : stask_id) (spec : AppSpec) (pc : ReplacePc)
    : option Sup :=
  let service := spec.(AppSpec.service) in
  match pc with
  | PContains =>
      Some (put_task id (SReplace spec (if bool_decide (is_Some (s_apps w !! service))
                                        then PStop TLookup else PInsert)) w)
  | PStop TStopped => Some (put_task id (SReplace spec PRemove) w)
  | PStop pc =>
      '(w, pc) ← step_stop w io id service pc;
      Some (put_task id (SReplace spec (PStop pc)) w)
  | PRemove => Some (put_task id (SReplace spec PInsert) (set_apps (delete service (s_apps w)) w))
  | PInsert =>
      let w := insert_state spec w in
      let w := if is_resident spec then spawn_task (SResident service RLookup) w else w in
      Some (put_task id (SReturned (Ok tt)) w)
  end.

(** [unregister]. *)
Definition step_unregister (w : Sup) (io : Io) (id : stask_id) (service : string) (pc : UnregisterPc)
    : option Sup :=
  match pc with
  | UContains =>
      Some (put_task id (if bool_decide (is_Some (s_apps w !! service)) then SUnregister service (UStop TLookup)
                         else SReturned (Err (BusError.ServiceNotFound service))) w)
  | UStop TStopped => Some (put_task id (SUnregister service URemove) w)
  | UStop pc =>
      '(w, pc) ← step_stop w io id service pc;
      Some (put_task id (SUnregister service (UStop pc)) w)
  | URemove => Some (put_task id (SReturned (Ok tt)) (set_apps (delete service (s_apps w)) w))
  end.

(** [ensure_up]: nothing is awaited between locking and returning. *)
Definition ensure_locked (w : Sup) (io : Io) (sid : app_id) (st : AppState) : Sup * result unit BusError :=
  match a_child st with
  | Some pid =>
      match io_try_wait io with
      | Err e => (w, Err (from_io_error e))
      | Ok _ =>
          match s_procs w !! pid with
          | Some (Exited _) => spawn_once w io sid st
          | _ => (w, Ok tt)
          end
      end
  | None => spawn_once w io sid st
  end.
Definition step_ensure (w : Sup) (io : Io) (id : stask_id) (service : string) (pc : EnsurePc)
    : option Sup :=
  match pc with
  | ELookup =>
      Some (put_task id (match s_apps w !! service with
                         | Some sid => SEnsure service (ELock sid)
                         | None => SReturned (Err (BusError.ServiceNotFound service))
                         end) w)
  | ELock sid =>
      st ← acquire w sid;
      let '(w, r) := ensure_locked w io sid st in
      Some (put_task id (SReturned r) w)
  end.

(** [register]. *)
Definition register (spec : AppSpec) (w : Sup) : Sup := insert_state spec w.

(** [start_all_resident]. *)
Definition start_all_resident (w : Sup) : Sup :=
  foldr (fun '(service, sid) w =>
      match s_states w !! sid with
      | Some st => if is_resident (a_spec st) then spawn_task (SResident service RLookup) w else w
      | None => w
      end) w (map_to_list (s_apps w)).

(** * Dropping app states *)

Definition in_use (w : Sup) (sid : app_id) : bool :=
  bool_decide (map_Exists (fun _ s => s = sid) (s_apps w))
  || bool_decide (map_Exists (fun _ t => task_ref t = Some sid) (s_tasks w)).

Definition unused (w : Sup) : gmap app_id AppState :=
  filter (fun '(sid, _) => in_use w sid = false) (s_states w).

(** The last reference to a state is gone: its child is dropped with it. *)
Definition collect (w : Sup) : Sup :=
  set_states (filter (fun '(sid, _) => in_use w sid = true) (s_states w))
    (set_procs (foldr (fun '(_, st) => drop_child (a_child st)) (s_procs w) (map_to_list (unused w))) w).

(** * The transition system *)

Inductive SLabel :=
(** Calls of the host. *)
| LRegister (spec : AppSpec)
| LStartAll
| LReplace (spec : AppSpec)
| LUnregister (service : string)
| LEnsure (service : string)
(** A task takes a step; a process exits; the broker moves on. *)
| LStep (id : stask_id) (io : Io)
| LExit (pid : proc_id) (s : ExitStatus)
| LBroker (b : Broker) (ctr : N).

Definition step_task (w : Sup) (io : Io) (id : stask_id) (t : STask) : option Sup :=
  match t with
  | SResident service pc => step_resident w io id service pc
  | SReplace spec pc => step_replace w io id spec pc
  | SUnregister service pc => step_unregister w io id service pc
  | SEnsure service pc => step_ensure w io id service pc
  | SReturned _ => None
  end.

Definition exit_proc (w : Sup) (pid : proc_id) (s : ExitStatus) : option Sup :=
  match s_procs w !! pid with
  | Some Running | Some Dying => Some (set_procs (<[pid := Exited s]> (s_procs w)) w)
  | _ => None
  end.

Definition srun_label (w : Sup) (l : SLabel) : option Sup :=
  match l with
  | LRegister spec => Some (register spec w)
  | LStartAll => Some (start_all_resident w)
  | LReplace spec => Some (spawn_task (SReplace spec PContains) w)
  | LUnregister service => Some (spawn_task (SUnregister service UContains) w)
  | LEnsure service => Some (spawn_task (SEnsure service ELookup) w)
  | LStep id io => t ← s_tasks w !! id; step_task w io id t
  | LExit pid s => exit_proc w pid s
  | LBroker b ctr => Some (set_broker b ctr w)
  end.

Definition sexec (w : Sup) (l : SLabel) : option Sup := collect <$> srun_label w l.

Fixpoint srun (w : Sup) (ls : list SLabel) : option Sup :=
  match ls with
  | [] => Some w
  | l :: ls => w' ← sexec w l; srun w' ls
  end.

Inductive sreachable (b : Broker) (endpoint : string) : Sup -> Prop :=
| sreachable_init : sreachable b endpoint (new_supervisor b endpoint)
| sreachable_step w l w' :
    sreachable b endpoint w -> sexec w l = Some w' -> sreachable b endpoint w'.
