(* ===== verification/SupervisorSafety.v ===== *)
(** Invariants of the supervisor: references point to live states, the guard
    of each state has at most one holder, every running child is in the slot of
    exactly one state, and backoffs stay in range. *)

From stdpp Require Import prelude gmap strings.
From S2P Require Import Prelude Frame Broker Supervisor.

(** * The invariant *)

Definition backoff_ok (b : Backoff) : Prop :=
  (duration_from_secs 1 <= b.(Backoff.next) <= duration_from_secs 300)%N.

Record sup_ok (w : Sup) : Prop := {
  so_procs pid : is_Some (s_procs w !! pid) -> (pid < s_next w)%N;
  so_states sid : is_Some (s_states w !! sid) -> (sid < s_next w)%N;
  so_tasks id : is_Some (s_tasks w !! id) -> (id < s_next w)%N;
  so_apps svc sid : s_apps w !! svc = Some sid ->
    exists st, s_states w !! sid = Some st /\ (a_spec st).(AppSpec.service) = svc;
  so_refs id t sid : s_tasks w !! id = Some t -> task_ref t = Some sid -> is_Some (s_states w !! sid);
  so_lock sid st id : s_states w !! sid = Some st -> a_lock st = Some id ->
    exists t, s_tasks w !! id = Some t /\ task_holds t = Some sid;
  so_held id t sid st : s_tasks w !! id = Some t -> task_holds t = Some sid ->
    s_states w !! sid = Some st -> a_lock st = Some id;
  so_wait id svc sid pid st : s_tasks w !! id = Some (SResident svc (RWait sid pid)) ->
    s_states w !! sid = Some st -> a_child st = Some pid;
  so_child sid st pid : s_states w !! sid = Some st -> a_child st = Some pid -> is_Some (s_procs w !! pid);
  so_inj sid sid' st st' pid : s_states w !! sid = Some st -> s_states w !! sid' = Some st' ->
    a_child st = Some pid -> a_child st' = Some pid -> sid = sid';
  so_owner pid : s_procs w !! pid = Some Running ->
    exists sid st, s_states w !! sid = Some st /\ a_child st = Some pid;
  so_backoff sid st : s_states w !! sid = Some st -> backoff_ok (a_backoff st)
}.

(** The step by which a task changes, and the state it works on. *)
Record touched (w : Sup) (id : stask_id) (t : STask) (sid : app_id) (st st' : AppState) (w' : Sup) : Prop := {
  tc_next : (s_next w <= s_next w')%N;
  tc_apps : s_apps w' = s_apps w;
  tc_states : s_states w' = <[sid := st']> (s_states w);
  tc_tasks : s_tasks w' = <[id := t]> (s_tasks w);
  tc_ref sid' : task_ref t = Some sid' -> sid' = sid;
  tc_spec : a_spec st' = a_spec st;
  tc_backoff : backoff_ok (a_backoff st) -> backoff_ok (a_backoff st');
  tc_before : a_lock st = None \/ a_lock st = Some id;
  tc_after : (task_holds t = Some sid /\ a_lock st' = Some id) \/ (task_holds t = None /\ a_lock st' = None);
  tc_wait svc pid : t = SResident svc (RWait sid pid) -> a_child st' = Some pid;
  tc_child : (a_child st' = a_child st /\ s_procs w' = s_procs w)
    \/ (a_child st' = None /\ s_procs w' = drop_child (a_child st) (s_procs w))
    \/ (a_child st' = Some (s_next w) /\ (s_next w < s_next w')%N
        /\ s_procs w' = <[s_next w := Running]> (drop_child (a_child st) (s_procs w)))
}.

Definition drop_all (l : list (app_id * AppState)) (procs : gmap proc_id ProcState) :=
  foldr (fun '(_, st) => drop_child (a_child st)) procs l.

Definition stop_task (spec : AppSpec + string) (pc : StopPc) : STask :=
  match spec with inl spec => SReplace spec (PStop pc) | inr svc => SUnregister svc (UStop pc) end.

(** ** Killing *)

Lemma drop_child_lookup c procs pid :
  drop_child c procs !! pid =
  match procs !! pid with
  | Some Running => if decide (c = Some pid) then Some Dying else Some Running
  | o => o
  end.
Proof.
  destruct c as [c|]; simpl.
  2: { by destruct (procs !! pid) as [[]|]. }
  unfold kill. destruct (decide (c = pid)) as [->|Hne].
  - destruct (procs !! pid) as [[| |]|] eqn:Hp; rewrite ?lookup_insert_eq; try done.
    by rewrite decide_True.
  - rewrite decide_False by congruence.
    assert (Hk : (match procs !! c with Some Running => <[c:=Dying]> procs | _ => procs end) !! pid = procs !! pid).
    { destruct (procs !! c) as [[]|]; try done. by rewrite lookup_insert_ne. }
    rewrite Hk. by destruct (procs !! pid) as [[]|].
Qed.

Lemma drop_child_Some c procs pid : is_Some (drop_child c procs !! pid) <-> is_Some (procs !! pid).
Proof.
  rewrite drop_child_lookup. destruct (procs !! pid) as [[]|]; try done. case_decide; split; eauto.
Qed.

Lemma drop_child_running c procs pid :
  drop_child c procs !! pid = Some Running <-> procs !! pid = Some Running /\ c <> Some pid.
Proof.
  rewrite drop_child_lookup. destruct (procs !! pid) as [[]|]; try (split; [done|by intros []]).
  case_decide; split; try done; by intros [].
Qed.

Lemma drop_all_Some l procs pid : is_Some (drop_all l procs !! pid) <-> is_Some (procs !! pid).
Proof. induction l as [|[sid st] l IH]; [done|]. simpl. by rewrite drop_child_Some. Qed.

Lemma drop_all_running l procs pid :
  drop_all l procs !! pid = Some Running
  <-> procs !! pid = Some Running /\ forall sid st, (sid, st) ∈ l -> a_child st <> Some pid.
Proof.
  induction l as [|[sid st] l IH]; simpl.
  - split; [|by intros []]. intros. split; [done|]. by intros ? ? ?%not_elem_of_nil.
  - rewrite drop_child_running, IH. split.
    + intros [[Hp Hl] Hc]. split; [done|]. intros sid' st' [[= -> ->]|Hin]%elem_of_cons; eauto.
    + intros [Hp Hl]. split_and!; [done| |].
      * intros sid' st' Hin. apply (Hl sid'). by right.
      * apply (Hl sid). by left.
Qed.

(** ** Collecting *)

Lemma unused_elem w sid st :
  (sid, st) ∈ map_to_list (unused w) <-> s_states w !! sid = Some st /\ in_use w sid = false.
Proof. unfold unused. rewrite elem_of_map_to_list, map_lookup_filter_Some. naive_solver. Qed.

Lemma collect_states w sid st :
  s_states (collect w) !! sid = Some st <-> s_states w !! sid = Some st /\ in_use w sid = true.
Proof. unfold collect. simpl. rewrite map_lookup_filter_Some. naive_solver. Qed.

Lemma in_use_spec w sid :
  in_use w sid = true <->
  (exists svc, s_apps w !! svc = Some sid) \/ (exists id t, s_tasks w !! id = Some t /\ task_ref t = Some sid).
Proof.
  unfold in_use. rewrite orb_true_iff, !bool_decide_eq_true. unfold map_Exists. naive_solver.
Qed.

Lemma collect_running w pid :
  s_procs (collect w) !! pid = Some Running
  <-> s_procs w !! pid = Some Running
      /\ forall sid st, s_states w !! sid = Some st -> in_use w sid = false -> a_child st <> Some pid.
Proof.
  unfold collect. simpl. change (foldr _ _ _) with (drop_all (map_to_list (unused w)) (s_procs w)).
  rewrite drop_all_running. setoid_rewrite unused_elem. naive_solver.
Qed.

Lemma collect_Some w pid : is_Some (s_procs (collect w) !! pid) <-> is_Some (s_procs w !! pid).
Proof. apply drop_all_Some. Qed.

Lemma in_use_collect w sid : in_use (collect w) sid = in_use w sid.
Proof. done. Qed.

Lemma collect_ok w : sup_ok w -> sup_ok (collect w).
Proof.
  intros Hok.
  assert (Hs : forall sid st, s_states (collect w) !! sid = Some st -> s_states w !! sid = Some st)
    by (intros sid st [? _]%collect_states; done).
  split.
  - intros pid Hp. apply (so_procs w Hok). by apply collect_Some.
  - intros sid [st Hst]. apply (so_states w Hok). exists st. by apply Hs.
  - apply (so_tasks w Hok).
  - intros svc sid Ha. destruct (so_apps w Hok _ _ Ha) as (st & Hst & Hsvc). exists st. split; [|done].
    apply collect_states. split; [done|]. apply in_use_spec. eauto.
  - intros id t sid Ht Hr. destruct (so_refs w Hok _ _ _ Ht Hr) as [st Hst]. exists st.
    apply collect_states. split; [done|]. apply in_use_spec. eauto.
  - intros sid st id Hst. apply (so_lock w Hok sid st id). by apply Hs.
  - intros id t sid st Ht Hh Hst. by eapply (so_held w Hok); [..|apply Hs].
  - intros id svc sid pid st Ht Hst. by eapply (so_wait w Hok); [|apply Hs].
  - intros sid st pid Hst Hc. apply collect_Some. eapply (so_child w Hok); [by apply Hs|done].
  - intros sid sid' st st' pid Hst Hst'. eapply (so_inj w Hok); by apply Hs.
  - intros pid [Hr Hu]%collect_running. destruct (so_owner w Hok _ Hr) as (sid & st & Hst & Hc).
    exists sid, st. split; [|done]. apply collect_states. split; [done|].
    destruct (in_use w sid) eqn:Hi; [done|]. by destruct (Hu _ _ Hst Hi).
  - intros sid st Hst. apply (so_backoff w Hok sid). by apply Hs.
Qed.

(** ** Steps of a task *)

Lemma holds_ref t sid : task_holds t = Some sid -> task_ref t = Some sid.
Proof.
  destruct t as [? []|? [|[]| |]|? [|[]|]|? []|]; try done; simpl; congruence.
Qed.

Section touched.
Context (w w' : Sup) (id : stask_id) (t : STask) (sid : app_id) (st st' : AppState).
Context (Hok : sup_ok w) (Hid : is_Some (s_tasks w !! id)) (Hst : s_states w !! sid = Some st).
Context (Hh0 : forall t0, s_tasks w !! id = Some t0 -> task_holds t0 = None \/ task_holds t0 = Some sid).
Context (Hto : touched w id t sid st st' w').

Lemma touched_others id' t' :
  id' <> id -> s_tasks w !! id' = Some t' -> task_holds t' <> Some sid.
Proof using All.
  intros Hne Ht' Hh. pose proof (so_held w Hok _ _ _ _ Ht' Hh Hst).
  destruct (tc_before _ _ _ _ _ _ _ Hto); congruence.
Qed.

Lemma touched_procs pid :
  is_Some (s_procs w' !! pid) <-> is_Some (s_procs w !! pid)
    \/ (pid = s_next w /\ a_child st' = Some pid /\ (s_next w < s_next w')%N).
Proof using All.
  destruct (tc_child _ _ _ _ _ _ _ Hto) as [[Hc ->]|[[Hc ->]|(Hc & Hlt & ->)]].
  - split; [auto|]. intros [|(-> & Hc' & _)]; [done|]. rewrite Hc in Hc'. by eapply (so_child w Hok).
  - rewrite drop_child_Some. split; [auto|]. intros [|(_ & ? & _)]; congruence.
  - rewrite lookup_insert_is_Some, drop_child_Some. rewrite Hc.
    destruct (decide (s_next w = pid)) as [<-|]; naive_solver.
Qed.

Lemma touched_child pid :
  a_child st' = Some pid ->
  a_child st = Some pid \/ (pid = s_next w /\ ~ is_Some (s_procs w !! pid)).
Proof using All.
  intros Hp. destruct (tc_child _ _ _ _ _ _ _ Hto) as [[Hc _]|[[Hc _]|(Hc & _)]];
    rewrite Hc in Hp; simplify_eq; auto. right. split; [done|]. intros Hx%(so_procs w Hok). lia.
Qed.

Lemma touched_running pid :
  s_procs w' !! pid = Some Running ->
  a_child st' = Some pid
  \/ (s_procs w !! pid = Some Running /\ (a_child st = Some pid -> a_child st' = a_child st)).
Proof using All.
  intros Hp. destruct (tc_child _ _ _ _ _ _ _ Hto) as [[Hc Heq]|[[Hc Heq]|(Hc & Hlt & Heq)]];
    rewrite Heq in Hp.
  - by right.
  - apply drop_child_running in Hp as [Hp Hx]. right. by split.
  - apply lookup_insert_Some in Hp as [[<- _]|[Hne Hp]]; [by left|].
    apply drop_child_running in Hp as [Hp Hx]. right. by split.
Qed.

(** What the locks, and what the children of the new world satisfy. *)
Lemma touched_locks :
  (forall sid' st0 id', s_states w' !! sid' = Some st0 -> a_lock st0 = Some id' ->
     exists t0, s_tasks w' !! id' = Some t0 /\ task_holds t0 = Some sid')
  /\ (forall id' t' sid' st0, s_tasks w' !! id' = Some t' -> task_holds t' = Some sid' ->
     s_states w' !! sid' = Some st0 -> a_lock st0 = Some id')
  /\ (forall id' svc sid' pid st0, s_tasks w' !! id' = Some (SResident svc (RWait sid' pid)) ->
     s_states w' !! sid' = Some st0 -> a_child st0 = Some pid).
Proof using All.
  rewrite (tc_states _ _ _ _ _ _ _ Hto), (tc_tasks _ _ _ _ _ _ _ Hto).
  pose proof (tc_after _ _ _ _ _ _ _ Hto) as Haft. split_and!.
  - intros sid' st0 id' [[<- <-]|[Hne Hst0]]%lookup_insert_Some Hl.
    + destruct Haft as [[Hh Hl']|[_ Hl']]; [|congruence]. assert (id' = id) as -> by congruence.
      rewrite lookup_insert_eq. eauto.
    + destruct (so_lock w Hok _ _ _ Hst0 Hl) as (t0 & Ht0 & Hh). destruct (decide (id' = id)) as [->|].
      * destruct (Hh0 _ Ht0); congruence.
      * rewrite lookup_insert_ne by done. eauto.
  - intros id' t' sid' st0 [[<- <-]|[Hne Ht']]%lookup_insert_Some Hh [[<- <-]|[Hne' Hst0]]%lookup_insert_Some.
    + destruct Haft as [[_ ?]|[? _]]; congruence.
    + destruct Haft as [[? _]|[? _]]; congruence.
    + by destruct (touched_others id' t' ltac:(done) Ht').
    + by eapply (so_held w Hok).
  - intros id' svc sid' pid st0 [[<- Heq]|[Hne Ht']]%lookup_insert_Some [[<- <-]|[Hne' Hst0]]%lookup_insert_Some.
    + by eapply (tc_wait _ _ _ _ _ _ _ Hto).
    + assert (Hr : task_ref t = Some sid') by by subst t.
      apply (tc_ref _ _ _ _ _ _ _ Hto) in Hr. congruence.
    + by destruct (touched_others id' _ ltac:(done) Ht').
    + by eapply (so_wait w Hok).
Qed.

Lemma touched_children :
  (forall s1 st1 pid, s_states w' !! s1 = Some st1 -> a_child st1 = Some pid -> is_Some (s_procs w' !! pid))
  /\ (forall s1 s2 st1 st2 pid, s_states w' !! s1 = Some st1 -> s_states w' !! s2 = Some st2 ->
       a_child st1 = Some pid -> a_child st2 = Some pid -> s1 = s2)
  /\ (forall pid, s_procs w' !! pid = Some Running ->
       exists s1 st1, s_states w' !! s1 = Some st1 /\ a_child st1 = Some pid).
Proof using All.
  setoid_rewrite touched_procs. setoid_rewrite (tc_states _ _ _ _ _ _ _ Hto). split_and!.
  - intros s1 st1 pid [[<- <-]|[Hne Hst0]]%lookup_insert_Some Hp.
    + destruct (tc_child _ _ _ _ _ _ _ Hto) as [[Hc _]|[[Hc _]|(Hc & Hlt & _)]];
        rewrite Hc in Hp; simplify_eq; [left|right; auto]. by eapply (so_child w Hok).
    + left. by eapply (so_child w Hok).
  - intros s1 s2 st1 st2 pid [[<- <-]|[Hne1 Hst1]]%lookup_insert_Some [[<- <-]|[Hne2 Hst2]]%lookup_insert_Some
      Hc1 Hc2; [done|..].
    + apply touched_child in Hc1 as [Hc1|[-> Hc1]]; [by eapply (so_inj w Hok _ _ _ _ _ Hst Hst2)|].
      destruct Hc1. by eapply (so_child w Hok).
    + apply touched_child in Hc2 as [Hc2|[-> Hc2]]; [by eapply (so_inj w Hok _ _ _ _ _ Hst1 Hst)|].
      destruct Hc2. by eapply (so_child w Hok).
    + by eapply (so_inj w Hok).
  - intros pid [Hp0|[Hp0 Hx]]%touched_running.
    + exists sid, st'. by rewrite lookup_insert_eq.
    + destruct (so_owner w Hok _ Hp0) as (s1 & st1 & Hst1 & Hc1).
      destruct (decide (s1 = sid)) as [->|Hne]; [|exists s1, st1; by rewrite lookup_insert_ne].
      exists sid, st'. rewrite lookup_insert_eq. split; [done|].
      assert (st1 = st) as -> by congruence. by rewrite Hx.
Qed.

Lemma touched_ok : sup_ok w'.
Proof using All.
  destruct touched_locks as (Hl1 & Hl2 & Hl3). destruct touched_children as (Hc1 & Hc2 & Hc3).
  pose proof touched_procs as Hpr. pose proof (tc_next _ _ _ _ _ _ _ Hto) as Hn. split; try done.
  - intros pid [Hp%(so_procs w Hok)|(-> & _ & ?)]%Hpr; lia.
  - intros sid'. rewrite (tc_states _ _ _ _ _ _ _ Hto), lookup_insert_is_Some.
    intros [<-|[_ ?%(so_states w Hok)]]; [|lia]. pose proof (so_states w Hok sid ltac:(eauto)). lia.
  - intros id'. rewrite (tc_tasks _ _ _ _ _ _ _ Hto), lookup_insert_is_Some.
    intros [<-|[_ ?%(so_tasks w Hok)]]; [|lia]. pose proof (so_tasks w Hok id Hid). lia.
  - intros svc sid'. rewrite (tc_apps _ _ _ _ _ _ _ Hto), (tc_states _ _ _ _ _ _ _ Hto).
    intros (st0 & Hst0 & Hsvc)%(so_apps w Hok).
    destruct (decide (sid' = sid)) as [->|]; [|rewrite lookup_insert_ne by done; eauto].
    rewrite lookup_insert_eq. exists st'. split; [done|].
    rewrite (tc_spec _ _ _ _ _ _ _ Hto). congruence.
  - intros id' t' sid'. rewrite (tc_tasks _ _ _ _ _ _ _ Hto), (tc_states _ _ _ _ _ _ _ Hto).
    rewrite lookup_insert_is_Some. intros [[<- <-]|[Hne Ht']]%lookup_insert_Some Hr.
    + left. symmetry. by apply (tc_ref _ _ _ _ _ _ _ Hto).
    + destruct (decide (sid = sid')); [by left|right]. split; [done|]. by eapply (so_refs w Hok).
  - intros s1 st1. rewrite (tc_states _ _ _ _ _ _ _ Hto).
    intros [[<- <-]|[Hne Hst1]]%lookup_insert_Some; [|by apply (so_backoff w Hok s1)].
    apply (tc_backoff _ _ _ _ _ _ _ Hto). by apply (so_backoff w Hok sid).
Qed.
End touched.

(** A step that only moves or ends a task that holds nothing. *)
Lemma moved_ok w w' id ot :
  sup_ok w -> (s_next w <= s_next w')%N -> s_states w' = s_states w -> s_procs w' = s_procs w ->
  (forall svc sid, s_apps w' !! svc = Some sid -> s_apps w !! svc = Some sid) ->
  (forall id', id' <> id -> s_tasks w' !! id' = s_tasks w !! id') -> s_tasks w' !! id = ot ->
  (forall t0, s_tasks w !! id = Some t0 -> task_holds t0 = None) ->
  (forall t, ot = Some t -> (id < s_next w')%N /\ task_holds t = None
     /\ forall sid, task_ref t = Some sid -> is_Some (s_states w !! sid)) ->
  sup_ok w'.
Proof.
  intros Hok Hn Hs Hp Ha Ht Hid Hh0 Hot.
  assert (Hold : forall id' t' sid, s_tasks w' !! id' = Some t' -> task_holds t' = Some sid ->
    s_tasks w !! id' = Some t').
  { intros id' t' sid Ht' Hh. destruct (decide (id' = id)) as [->|]; [|by rewrite <-Ht].
    destruct (Hot t') as (_ & ? & _); congruence. }
  split; rewrite ?Hs, ?Hp.
  - intros pid ?%(so_procs w Hok). lia.
  - intros sid ?%(so_states w Hok). lia.
  - intros id' [t' Ht']. destruct (decide (id' = id)) as [->|Hne]; [apply (Hot t'); congruence|].
    rewrite Ht in Ht' by done. pose proof (so_tasks w Hok id' ltac:(eauto)). lia.
  - intros svc sid Hsvc%Ha. by apply (so_apps w Hok).
  - intros id' t' sid Ht' Hr. destruct (decide (id' = id)) as [->|Hne].
    + destruct (Hot t') as (_ & _ & Hx); [congruence|]. by apply Hx.
    + rewrite Ht in Ht' by done. by eapply (so_refs w Hok).
  - intros sid st id' Hst Hl. destruct (so_lock w Hok _ _ _ Hst Hl) as (t0 & Ht0 & Hh).
    exists t0. split; [|done]. destruct (decide (id' = id)) as [->|Hne]; [|by rewrite Ht].
    by rewrite (Hh0 _ Ht0) in Hh.
  - intros id' t' sid st Ht' Hh Hst. by eapply (so_held w Hok); [eapply Hold|..].
  - intros id' svc sid pid st Ht' Hst. by eapply (so_wait w Hok); [eapply Hold|].
  - apply (so_child w Hok).
  - apply (so_inj w Hok).
  - apply (so_owner w Hok).
  - apply (so_backoff w Hok).
Qed.

(** ** Every step *)

Lemma acquire_Some w sid st :
  acquire w sid = Some st <-> s_states w !! sid = Some st /\ a_lock st = None.
Proof.
  unfold acquire. destruct (s_states w !! sid) as [st0|]; simpl; [|naive_solver].
  destruct (a_lock st0) eqn:Hl; naive_solver.
Qed.

Lemma bump_ok b : backoff_ok b -> backoff_ok (Backoff.bump b).1.
Proof. unfold backoff_ok, Backoff.bump, duration_from_secs. simpl. lia. Qed.
Lemma reset_ok b : backoff_ok (Backoff.reset b).
Proof. unfold backoff_ok, Backoff.reset, duration_from_secs. simpl. lia. Qed.

(** [spawn_once] followed by the next program counter of the task. *)
Lemma spawn_ok w io id t sid st w1 r :
  sup_ok w -> is_Some (s_tasks w !! id) -> acquire w sid = Some st ->
  (forall t0, s_tasks w !! id = Some t0 -> task_holds t0 = None) ->
  spawn_once w io sid st = (w1, r) ->
  task_holds t = None -> (forall sid', task_ref t = Some sid' -> sid' = sid) ->
  is_ok r = true -> sup_ok (put_task id t w1).
Proof.
  intros Hok Hid [Hst Hl]%acquire_Some Hh0 Hs Ht Href Hr.
  unfold spawn_once in Hs. destruct (Broker.issue_token _ _ _ _ _) as [[b ctr] token].
  destruct (io_spawn io) as [[]|e]; simplify_eq/=.
  eapply (touched_ok w _ id t sid st); [done|done|done|by intros t0 ?; left; apply Hh0|].
  split; try done; simpl; auto; [lia| |].
  - intros svc pid ->. by destruct (Href sid).
  - right. right. split_and!; [done|lia|done].
Qed.

(** A failed [spawn_once] only uses up a token. *)
Lemma spawn_err w io sid st w1 e :
  spawn_once w io sid st = (w1, Err e) -> exists b ctr, w1 = set_broker b ctr w.
Proof.
  unfold spawn_once. destruct (Broker.issue_token _ _ _ _ _) as [[b ctr] token].
  destruct (io_spawn io) as [[]|e']; simpl; [done|]. intros [= <- _]. eauto.
Qed.

Lemma broker_ok w b ctr : sup_ok w -> sup_ok (set_broker b ctr w).
Proof. by intros []. Qed.

Lemma end_ok w id t0 : sup_ok w -> s_tasks w !! id = Some t0 -> task_holds t0 = None -> sup_ok (end_task id w).
Proof.
  intros Hok Ht Hh. eapply (moved_ok _ _ id None); try done; simpl.
  - by intros id' Hne; rewrite lookup_delete_ne.
  - by rewrite lookup_delete_eq.
  - by intros ? ?; simplify_eq.
Qed.

Lemma move_ok w id t0 t apps :
  sup_ok w -> s_tasks w !! id = Some t0 -> task_holds t0 = None -> task_holds t = None ->
  (forall sid, task_ref t = Some sid -> is_Some (s_states w !! sid)) ->
  (forall svc sid, apps !! svc = Some sid -> s_apps w !! svc = Some sid) ->
  sup_ok (put_task id t (set_apps apps w)).
Proof.
  intros Hok Ht Hh0 Hh Hr Ha. pose proof (so_tasks w Hok id ltac:(eauto)).
  eapply (moved_ok _ _ id (Some t)); try done; simpl.
  - by intros id' Hne; rewrite lookup_insert_ne.
  - by rewrite lookup_insert_eq.
  - by intros ? ?; simplify_eq.
  - by intros ? [= <-].
Qed.

Lemma move_ok' w id t0 t :
  sup_ok w -> s_tasks w !! id = Some t0 -> task_holds t0 = None -> task_holds t = None ->
  (forall sid, task_ref t = Some sid -> is_Some (s_states w !! sid)) -> sup_ok (put_task id t w).
Proof. intros. assert (Hw : w = set_apps (s_apps w) w) by by destruct w. rewrite Hw. by eapply move_ok. Qed.

(** A step on the record of a state that leaves the child alone. *)
Lemma put_ok w id t0 t sid st st' :
  sup_ok w -> s_tasks w !! id = Some t0 -> (task_holds t0 = None \/ task_holds t0 = Some sid) ->
  s_states w !! sid = Some st -> (a_lock st = None \/ a_lock st = Some id) ->
  (forall sid', task_ref t = Some sid' -> sid' = sid) ->
  a_spec st' = a_spec st -> (backoff_ok (a_backoff st) -> backoff_ok (a_backoff st')) ->
  a_child st' = a_child st ->
  (task_holds t = Some sid /\ a_lock st' = Some id) \/ (task_holds t = None /\ a_lock st' = None) ->
  (forall svc pid, t = SResident svc (RWait sid pid) -> a_child st = Some pid) ->
  sup_ok (put_task id t (put_state sid st' w)).
Proof.
  intros Hok Ht Hh0 Hst Hl Hr Hs Hb Hc Hh Hw.
  eapply (touched_ok w _ id t sid st st'); try done; [by intros; simplify_eq|].
  split; try done; simpl; auto. intros ? ? ->. rewrite Hc. by eapply Hw.
Qed.

Lemma backoff_put_ok w sid st b :
  sup_ok w -> s_states w !! sid = Some st -> backoff_ok b -> sup_ok (put_state sid (with_backoff b st) w).
Proof.
  intros Hok Hst Hb.
  assert (Hs : forall sid' st', s_states (put_state sid (with_backoff b st) w) !! sid' = Some st' ->
    exists st0, s_states w !! sid' = Some st0 /\ a_child st' = a_child st0 /\ a_lock st' = a_lock st0).
  { intros sid' st'. simpl. intros [[<- <-]|[Hne ?]]%lookup_insert_Some; [by exists st | by exists st']. }
  assert (Hl : forall sid', is_Some (s_states (put_state sid (with_backoff b st) w) !! sid')
    <-> is_Some (s_states w !! sid')).
  { intros sid'. simpl. rewrite lookup_insert_is_Some'. split; [intros [->|]; eauto|auto]. }
  split; simpl.
  - apply (so_procs w Hok).
  - intros sid' ?%Hl. by apply (so_states w Hok).
  - apply (so_tasks w Hok).
  - intros svc sid' (st0 & Hst0 & Hsvc)%(so_apps w Hok). destruct (decide (sid' = sid)) as [->|].
    + rewrite lookup_insert_eq. exists (with_backoff b st). split; [done|]. simpl. congruence.
    + rewrite lookup_insert_ne by done. eauto.
  - intros id t sid' Ht Hr. apply Hl. by eapply (so_refs w Hok).
  - intros sid' st' id (st0 & Hst0 & _ & ->)%Hs. by apply (so_lock w Hok).
  - intros id t sid' st' Ht Hh (st0 & Hst0 & _ & ->)%Hs. by eapply (so_held w Hok).
  - intros id svc sid' pid st' Ht (st0 & Hst0 & -> & _)%Hs. by eapply (so_wait w Hok).
  - intros sid' st' pid (st0 & Hst0 & -> & _)%Hs. by eapply (so_child w Hok).
  - intros s1 s2 st1 st2 pid (st1' & Hst1 & -> & _)%Hs (st2' & Hst2 & -> & _)%Hs. by eapply (so_inj w Hok).
  - intros pid (s1 & st1 & Hst1 & Hc)%(so_owner w Hok). destruct (decide (s1 = sid)) as [->|].
    + exists sid, (with_backoff b st). rewrite lookup_insert_eq. split; [done|]. simpl. congruence.
    + exists s1, st1. by rewrite lookup_insert_ne.
  - intros s1 st1 [[<- <-]|[Hne ?]]%lookup_insert_Some; [done|]. by apply (so_backoff w Hok s1).
Qed.

Lemma resident_ok w io id svc pc w' :
  sup_ok w -> s_tasks w !! id = Some (SResident svc pc) -> step_resident w io id svc pc = Some w' -> sup_ok w'.
Proof.
  intros Hok Ht. destruct pc as [|sid|sid d|sid|sid pid|sid status|sid d]; simpl.
  - intros [= <-]. destruct (s_apps w !! svc) as [sid|] eqn:Ha; [|by eapply end_ok].
    destruct (so_apps w Hok _ _ Ha) as (st & ? & _).
    eapply move_ok'; try done. simpl. intros ? [= <-]. eauto.
  - intros (st & Ha & [= <-])%bind_Some. destruct (spawn_once w io sid st) as [w1 [[]|e]] eqn:Hs.
    + eapply (spawn_ok w io id _ sid st w1 (Ok ())); try done; [by intros; simplify_eq | by intros ? [= <-]].
    + destruct (spawn_err _ _ _ _ _ _ Hs) as (b & ctr & ->). apply acquire_Some in Ha as [Hst Hl].
      eapply (put_ok (set_broker b ctr w)); try done; simpl; auto; [by apply broker_ok|by intros ? [= <-]|apply bump_ok].
  - intros (st & Hst & [= <-])%bind_Some. eapply put_ok; try done; simpl; auto.
    right. by eapply (so_held w Hok).
  - intros (st & Ha & [= <-])%bind_Some. destruct (a_child st) as [pid|] eqn:Hc; [|by eapply end_ok].
    apply acquire_Some in Ha as [Hst Hl]. eapply put_ok; try done; simpl; auto; [by intros ? [= <-] | congruence].
  - intros (st & Hst & (status & Hw & [= <-])%bind_Some)%bind_Some.
    eapply put_ok; try done; simpl; auto; [right; by eapply (so_held w Hok) | by intros ? [= <-]].
  - intros (st & Hst & [= <-])%bind_Some.
    eapply (move_ok' (put_state sid _ w)); try done; simpl.
    + apply backoff_put_ok; [done..|]. apply bump_ok. pose proof (so_backoff w Hok _ _ Hst).
      destruct status as [s|]; [|done]. destruct (success s); [apply reset_ok | done].
    + intros ? [= <-]. rewrite lookup_insert_eq. eauto.
  - intros [= <-]. by eapply move_ok'.
Qed.

Lemma stop_ok w io id spec svc pc w1 pc' :
  sup_ok w -> s_tasks w !! id = Some (stop_task spec pc) ->
  step_stop w io id svc pc = Some (w1, pc') -> sup_ok (put_task id (stop_task spec pc') w1).
Proof.
  intros Hok Ht.
  assert (Hh : forall sid pid, task_holds (stop_task spec (TWait sid pid)) = Some sid) by by destruct spec.
  assert (Hn : forall pc, (forall sid pid, pc <> TWait sid pid) -> task_holds (stop_task spec pc) = None).
  { intros [] Hw; try (by destruct spec). by destruct (Hw sid pid). }
  assert (Hr : forall pc, task_ref (stop_task spec pc) = stop_ref pc) by by destruct spec.
  assert (Hw : forall svc sid pid pc, stop_task spec pc <> SResident svc (RWait sid pid)) by by destruct spec.
  destruct pc as [|sid|sid pid|]; simpl; [| | |done].
  - intros [= <- <-]. eapply move_ok'; try done; [by apply Hn| |].
    + apply Hn. by destruct (s_apps w !! svc).
    + rewrite Hr. destruct (s_apps w !! svc) as [sid|] eqn:Ha; simpl; [|done]. intros ? [= <-].
      destruct (so_apps w Hok _ _ Ha) as (st & ? & _). eauto.
  - intros (st & Ha & Hs)%bind_Some. destruct (a_child st) as [pid|] eqn:Hc; simplify_eq.
    + apply acquire_Some in Ha as [Hst Hl].
      eapply (touched_ok w _ id _ sid st); try done; [intros; simplify_eq; left; by apply Hn|].
      split; try done; simpl; auto.
      * rewrite Hr. by intros ? [= <-].
      * intros ? ? Hx. by destruct (Hw _ _ _ _ Hx).
      * right. left. by rewrite Hc.
    + eapply move_ok'; try done; [by apply Hn|by apply Hn|by rewrite Hr].
  - intros (st & Hst & (s & _ & [= <- <-])%bind_Some)%bind_Some.
    eapply put_ok; try done; simpl.
    + right. apply Hh.
    + right. eapply (so_held w Hok); [done|apply Hh|done].
    + by rewrite Hr.
    + right. split; [by apply Hn | done].
    + intros ? ? Hx. by destruct (Hw _ _ _ _ Hx).
Qed.

Lemma spawn_task_ok w t :
  sup_ok w -> task_holds t = None -> (forall sid, task_ref t = Some sid -> is_Some (s_states w !! sid)) ->
  sup_ok (spawn_task t w).
Proof.
  intros Hok Hh Hr.
  assert (Hf : s_tasks w !! s_next w = None).
  { destruct (s_tasks w !! s_next w) eqn:Hx; [|done]. pose proof (so_tasks w Hok _ ltac:(eauto)). lia. }
  eapply (moved_ok w _ (s_next w) (Some t)); try done; simpl.
  - lia.
  - by intros id' Hne; rewrite lookup_insert_ne.
  - by rewrite lookup_insert_eq.
  - intros t0 Ht0. congruence.
  - intros t' [= <-]. split_and!; [lia|done|done].
Qed.

Lemma insert_state_ok w spec : sup_ok w -> sup_ok (insert_state spec w).
Proof.
  intros Hok. unfold insert_state, take_id. cbv iota beta zeta.
  assert (Hf : forall st, s_states w !! s_next w = Some st -> False).
  { intros st Hst. pose proof (so_states w Hok _ ltac:(eauto)). lia. }
  assert (Hm : forall sid st, s_states w !! sid = Some st -> <[s_next w := new_state spec]> (s_states w) !! sid = Some st).
  { intros sid st Hst. rewrite lookup_insert_ne; [done|]. intros <-. eauto. }
  split; simpl.
  - intros pid ?%(so_procs w Hok). lia.
  - intros sid. rewrite lookup_insert_is_Some. intros [<-|[_ ?%(so_states w Hok)]]; lia.
  - intros id ?%(so_tasks w Hok). lia.
  - intros svc sid [[<- <-]|[Hne Ha]]%lookup_insert_Some.
    + exists (new_state spec). by rewrite lookup_insert_eq.
    + destruct (so_apps w Hok _ _ Ha) as (st & Hst & Hsvc). eauto.
  - intros id t sid Ht Hr. destruct (so_refs w Hok _ _ _ Ht Hr) as [st Hst]. eauto.
  - intros sid st id [[<- <-]|[Hne Hst]]%lookup_insert_Some Hl; [done|]. by eapply (so_lock w Hok).
  - intros id t sid st Ht Hh [[<- <-]|[Hne Hst]]%lookup_insert_Some; [|by eapply (so_held w Hok)].
    destruct (so_refs w Hok _ _ _ Ht (holds_ref _ _ Hh)) as [st Hst]. by destruct (Hf st).
  - intros id svc sid pid st Ht [[<- <-]|[Hne Hst]]%lookup_insert_Some; [|by eapply (so_wait w Hok)].
    destruct (so_refs w Hok id _ (s_next w) Ht eq_refl) as [st Hst]. by destruct (Hf st).
  - intros sid st pid [[<- <-]|[Hne Hst]]%lookup_insert_Some Hc; [done|]. by eapply (so_child w Hok).
  - intros s1 s2 st1 st2 pid [[<- <-]|[Hne1 Hst1]]%lookup_insert_Some [[<- <-]|[Hne2 Hst2]]%lookup_insert_Some
      Hc1 Hc2; try done. by eapply (so_inj w Hok).
  - intros pid (sid & st & Hst & Hc)%(so_owner w Hok). eauto.
  - intros sid st [[<- <-]|[Hne Hst]]%lookup_insert_Some; [|by eapply (so_backoff w Hok)].
    unfold backoff_ok, duration_from_secs. simpl. unfold duration_from_secs. lia.
Qed.

Lemma start_all_ok w : sup_ok w -> sup_ok (start_all_resident w).
Proof.
  intros Hok. unfold start_all_resident. induction (map_to_list (s_apps w)) as [|[svc sid] l IH]; [done|].
  simpl. destruct (s_states _ !! sid) as [st|]; [|done]. destruct (is_resident _); [|done].
  by apply spawn_task_ok.
Qed.

Lemma exit_ok w pid s w' : sup_ok w -> exit_proc w pid s = Some w' -> sup_ok w'.
Proof.
  intros Hok Hx.
  assert (Hp : is_Some (s_procs w !! pid) /\ w' = set_procs (<[pid := Exited s]> (s_procs w)) w).
  { unfold exit_proc in Hx. destruct (s_procs w !! pid) as [[]|]; simplify_eq; eauto. }
  destruct Hp as [Hp ->].
  assert (Hi : forall pid', is_Some (<[pid := Exited s]> (s_procs w) !! pid') <-> is_Some (s_procs w !! pid')).
  { intros pid'. rewrite lookup_insert_is_Some'. split; [intros [<-|]; done|auto]. }
  destruct Hok. split; simpl; try done.
  - intros pid' ?%Hi. auto.
  - intros sid st pid' Hst Hc. apply Hi. eauto.
  - intros pid' [[_ ?]|[_ ?]]%lookup_insert_Some; [done|auto].
Qed.

Lemma task_ok w io id t w' :
  sup_ok w -> s_tasks w !! id = Some t -> step_task w io id t = Some w' -> sup_ok w'.
Proof.
  intros Hok Ht. destruct t as [svc pc|spec pc|svc pc|svc pc|r]; [| | | |done].
  - by apply resident_ok.
  - destruct pc as [|pc| |]; simpl.
    + intros [= <-]. eapply move_ok'; try done; by case_bool_decide.
    + destruct pc; try (intros ([w1 pc'] & Hs & [= <-])%bind_Some; by eapply (stop_ok w io id (inl spec))).
      intros [= <-]. by eapply move_ok'.
    + intros [= <-]. eapply move_ok; try done. intros svc sid [_ ?]%lookup_delete_Some. done.
    + intros [= <-]. pose proof (insert_state_ok w spec Hok) as Hi.
      assert (Ht' : s_tasks (insert_state spec w) !! id = Some (SReplace spec PInsert)) by done.
      destruct (is_resident spec); [|by eapply move_ok'].
      eapply (move_ok' _ id (SReplace spec PInsert)); try done; [by apply spawn_task_ok|].
      simpl. rewrite lookup_insert_ne; [done|]. pose proof (so_tasks w Hok id ltac:(eauto)). lia.
  - destruct pc as [|pc|]; simpl.
    + intros [= <-]. eapply move_ok'; try done; by case_bool_decide.
    + destruct pc; try (intros ([w1 pc'] & Hs & [= <-])%bind_Some; by eapply (stop_ok w io id (inr svc))).
      intros [= <-]. by eapply move_ok'.
    + intros [= <-]. eapply move_ok; try done. intros svc' sid [_ ?]%lookup_delete_Some. done.
  - destruct pc as [|sid]; simpl.
    + intros [= <-]. destruct (s_apps w !! svc) as [sid|] eqn:Ha; eapply move_ok'; try done.
      simpl. intros ? [= <-]. destruct (so_apps w Hok _ _ Ha) as (st & ? & _). eauto.
    + intros (st & Ha & Hx)%bind_Some.
      destruct (ensure_locked w io sid st) as [w1 r] eqn:He. injection Hx as <-.
      assert (Hsp : forall w1 r, spawn_once w io sid st = (w1, r) -> sup_ok (put_task id (SReturned r) w1)).
      { intros w2 [[]|e] Hs.
        - eapply (spawn_ok w io id _ sid st w2 (Ok ())); try done; by intros; simplify_eq.
        - destruct (spawn_err _ _ _ _ _ _ Hs) as (b & ctr & ->).
          eapply (move_ok' (set_broker b ctr w)); try done. by apply broker_ok. }
      unfold ensure_locked in He. destruct (a_child st) as [pid|]; [|by apply Hsp].
      destruct (io_try_wait io); [|simplify_eq; by eapply move_ok'].
      destruct (s_procs w !! pid) as [[]|]; try (simplify_eq; by eapply move_ok'). by apply Hsp.
Qed.

Lemma label_ok w l w1 : sup_ok w -> srun_label w l = Some w1 -> sup_ok w1.
Proof.
  intros Hok Hw1. destruct l; simpl in Hw1; simplify_eq.
  - by apply insert_state_ok.
  - by apply start_all_ok.
  - by apply spawn_task_ok.
  - by apply spawn_task_ok.
  - by apply spawn_task_ok.
  - apply bind_Some in Hw1 as (t & Ht & Hx). by eapply task_ok.
  - by eapply exit_ok.
  - by apply broker_ok.
Qed.

Lemma sexec_ok w l w' : sup_ok w -> sexec w l = Some w' -> sup_ok w'.
Proof. intros Hok (w1 & Hw1 & ->)%fmap_Some. apply collect_ok. by eapply label_ok. Qed.

Lemma sreachable_ok b endpoint w : sreachable b endpoint w -> sup_ok w.
Proof.
  induction 1 as [|w l w' _ IH Hx]; [|by eapply sexec_ok].
  split; simpl; try done; by intros ? [].
Qed.

Lemma sreachable_used b endpoint w sid st :
  sreachable b endpoint w -> s_states w !! sid = Some st -> in_use w sid = true.
Proof.
  destruct 1 as [|w l w' _ (w1 & _ & ->)%fmap_Some]; [done|]. by intros [_ ?]%collect_states.
Qed.
