(* ===== verification/SupervisorGuarantees.v ===== *)
(** What the supervisor guarantees: children have one owner, a spawned app is
    admitted by the broker, the schedule of restarts; and where its locking
    falls short: a resident cannot be stopped, and a restart kills the instance
    [ensure_up] has started. *)

From stdpp Require Import prelude gmap strings.
From S2P Require Import Prelude Frame Runtime Registry Broker Session Transport ClientConfig Client Supervisor SupervisorSafety.

(** * Concrete runs *)

Definition sup_io : Io := mkIo (Some 5%N) 7 3 (Ok tt) (Ok tt) (Ok tt).
Definition notes_spec (l : Lifecycle) : AppSpec := {|
  AppSpec.service := "notes"; AppSpec.binary := "/usr/bin/notes"; AppSpec.args := ["serve"];
  AppSpec.env := [("RUST_LOG", "info")]; AppSpec.lifecycle := l; AppSpec.working_dir := None |}.
Definition sup0 : Sup := new_supervisor (Broker.new BrokerConfig.default) "/run/tokimo/bus.sock".
Definition sup_run (ls : list SLabel) : Sup := default sup0 (srun sup0 ls).

(** The resident app (state 0) is up: task 1 waits for its child 2. *)
Definition up_script : list SLabel :=
  [LRegister (notes_spec Lifecycle.Resident); LStartAll; LStep 1 sup_io; LStep 1 sup_io; LStep 1 sup_io].
(** The host wants to unregister it (task 3). *)
Definition unregister_script : list SLabel :=
  up_script ++ [LUnregister "notes"; LStep 3 sup_io; LStep 3 sup_io].
(** The child crashes, [ensure_up] (task 3) starts child 4 during the backoff,
    and the resident task goes on. *)
Definition crash_script : list SLabel :=
  up_script ++ [LExit 2 (ExitCode 1); LStep 1 sup_io].
Definition ensured_script : list SLabel :=
  crash_script ++ [LStep 1 sup_io; LEnsure "notes"; LStep 3 sup_io; LStep 3 sup_io; LStep 1 sup_io; LStep 1 sup_io].

(** * Vocabulary *)

(** The state whose guard a task waits for, in [ensure_up] or [stop_service]. *)
Definition wants (t : STask) : option app_id :=
  match t with
  | SEnsure _ (ELock sid) => Some sid
  | SReplace _ (PStop (TLock sid)) | SUnregister _ (UStop (TLock sid)) => Some sid
  | _ => None
  end.

(** The variables [spawn_once] sets. *)
Definition bus_vars : list string := ["TOKIMO_BUS_SOCKET"; "TOKIMO_BUS_TOKEN"; "TOKIMO_BUS_IDLE_MS"].

Definition clean (status : option ExitStatus) : bool :=
  match status with Some s => success s | None => false end.

(** The child of a locked state is out of reach. *)
Definition guarded (w : Sup) (pid : proc_id) : Prop :=
  s_procs w !! pid = Some Running
  /\ forall sid st, s_states w !! sid = Some st -> a_child st = Some pid -> is_Some (a_lock st).

(** A step of a task moves no other task and reaches no guarded child. *)
Definition framed (w w' : Sup) (id : stask_id) : Prop :=
  (forall j t, j <> id -> (j < s_next w)%N -> s_tasks w !! j = Some t -> s_tasks w' !! j = Some t)
  /\ forall pid, guarded w pid -> s_procs w' !! pid = Some Running.

(** A resident task in [wait], holding the guard of its state. *)
Definition waits (w : Sup) (id : stask_id) svc sid pid : Prop :=
  s_tasks w !! id = Some (SResident svc (RWait sid pid)) /\ s_procs w !! pid = Some Running.

(** * What a step leaves alone *)

Lemma spawn_tasks w io sid st w' r : spawn_once w io sid st = (w', r) -> s_tasks w' = s_tasks w.
Proof.
  unfold spawn_once. destruct (Broker.issue_token _ _ _ _ _) as [[b ctr] token].
  destruct (io_spawn io); simpl; by intros [= <- <-].
Qed.
Lemma spawn_procs w io sid st w' r pid :
  sup_ok w -> acquire w sid = Some st -> spawn_once w io sid st = (w', r) ->
  s_procs w !! pid = Some Running -> a_child st <> Some pid -> s_procs w' !! pid = Some Running.
Proof.
  intros Hok Ha. unfold spawn_once. destruct (Broker.issue_token _ _ _ _ _) as [[b ctr] token].
  destruct (io_spawn io); simpl; intros [= <- <-] Hp Hc; simpl; [|done].
  rewrite lookup_insert_ne; [by apply drop_child_running|].
  pose proof (so_procs w Hok pid ltac:(eauto)). lia.
Qed.

Lemma guarded_acquire w sid st pid : guarded w pid -> acquire w sid = Some st -> a_child st <> Some pid.
Proof. intros [_ Hg] [Hst Hl]%acquire_Some Hc. destruct (Hg _ _ Hst Hc). congruence. Qed.

Lemma stop_frame w io id svc pc w' pc' :
  step_stop w io id svc pc = Some (w', pc') ->
  s_tasks w' = s_tasks w /\ forall pid, guarded w pid -> s_procs w' !! pid = Some Running.
Proof.
  destruct pc as [|sid|sid p|]; simpl; [| | |done].
  - intros [= <- <-]. split; [done|]. by intros pid [? _].
  - intros (st & Ha & Hs)%bind_Some. destruct (a_child st) as [p|] eqn:Hc; simplify_eq/=.
    + split; [done|]. intros pid Hg. apply (drop_child_running (Some p)). split; [apply Hg|].
      rewrite <-Hc. by eapply guarded_acquire.
    + split; [done|]. by intros pid [? _].
  - intros (st & Hst & (s & _ & [= <- <-])%bind_Some)%bind_Some. split; [done|]. by intros pid [? _].
Qed.

Lemma ensure_frame w io sid st w' r :
  sup_ok w -> acquire w sid = Some st -> ensure_locked w io sid st = (w', r) ->
  s_tasks w' = s_tasks w /\ forall pid, guarded w pid -> s_procs w' !! pid = Some Running.
Proof.
  intros Hok Ha He.
  assert (Hsp : spawn_once w io sid st = (w', r) ->
    s_tasks w' = s_tasks w /\ forall pid, guarded w pid -> s_procs w' !! pid = Some Running).
  { intros Hs. split; [by eapply spawn_tasks|]. intros pid Hg.
    eapply spawn_procs; try done; [apply Hg | by eapply guarded_acquire]. }
  assert (Hid : (w, r) = (w', r) ->
    s_tasks w' = s_tasks w /\ forall pid, guarded w pid -> s_procs w' !! pid = Some Running).
  { intros [= <-]. split; [done|]. by intros pid [? _]. }
  unfold ensure_locked in He. destruct (a_child st) as [p|]; [|auto].
  destruct (io_try_wait io); [|simplify_eq; auto].
  destruct (s_procs w !! p) as [[]|]; simplify_eq; auto.
Qed.

Lemma framed_put w w1 id t :
  s_tasks w1 = s_tasks w -> (forall pid, guarded w pid -> s_procs w1 !! pid = Some Running) ->
  framed w (put_task id t w1) id.
Proof. intros Ht Hp. split; [|done]. intros j t' Hj _ Htj. simpl. by rewrite lookup_insert_ne, Ht. Qed.

Lemma framed_same w id ot w' :
  s_tasks w' = partial_alter (fun _ => ot) id (s_tasks w) -> s_procs w' = s_procs w -> framed w w' id.
Proof.
  intros Ht Hp. split.
  - intros j t' Hj _ Htj. by rewrite Ht, lookup_partial_alter_ne.
  - intros pid [? _]. by rewrite Hp.
Qed.

Lemma task_frame w io id t w' :
  sup_ok w -> step_task w io id t = Some w' -> framed w w' id.
Proof.
  intros Hok. destruct t as [svc pc|spec pc|svc pc|svc pc|r]; [| | | |done].
  - destruct pc as [|sid|sid d|sid|sid pid|sid status|sid d]; simpl.
    + intros [= <-]. destruct (s_apps w !! svc); by eapply framed_same.
    + intros (st & Ha & [= <-])%bind_Some. destruct (spawn_once w io sid st) as [w1 [[]|e]] eqn:Hs.
      * apply framed_put; [by eapply spawn_tasks|]. intros pid Hg.
        eapply spawn_procs; try done; [apply Hg | by eapply guarded_acquire].
      * destruct (spawn_err _ _ _ _ _ _ Hs) as (b & ctr & ->). by eapply framed_same.
    + intros (st & Ha & [= <-])%bind_Some. by eapply framed_same.
    + intros (st & Ha & [= <-])%bind_Some. destruct (a_child st); by eapply framed_same.
    + intros (st & Hst & (s & _ & [= <-])%bind_Some)%bind_Some. by eapply framed_same.
    + intros (st & Ha & [= <-])%bind_Some. by eapply framed_same.
    + intros [= <-]. by eapply framed_same.
  - destruct pc as [|pc| |]; simpl.
    + intros [= <-]. by eapply framed_same.
    + destruct pc; try (intros ([w1 pc'] & Hs & [= <-])%bind_Some;
        destruct (stop_frame _ _ _ _ _ _ _ Hs); by apply framed_put).
      intros [= <-]. by eapply framed_same.
    + intros [= <-]. by eapply framed_same.
    + intros [= <-]. split; [|by intros pid [? _]; destruct (is_resident spec)].
      intros j t Hj Hlt Ht. destruct (is_resident spec); simpl; rewrite !lookup_insert_ne; try done; lia.
  - destruct pc as [|pc|]; simpl.
    + intros [= <-]. by eapply framed_same.
    + destruct pc; try (intros ([w1 pc'] & Hs & [= <-])%bind_Some;
        destruct (stop_frame _ _ _ _ _ _ _ Hs); by apply framed_put).
      intros [= <-]. by eapply framed_same.
    + intros [= <-]. by eapply framed_same.
  - destruct pc as [|sid]; simpl.
    + intros [= <-]. by eapply framed_same.
    + intros (st & Ha & Hx)%bind_Some. destruct (ensure_locked w io sid st) as [w1 r] eqn:He.
      injection Hx as <-. destruct (ensure_frame _ _ _ _ _ _ Hok Ha He). by apply framed_put.
Qed.

Lemma spawn_task_frame w t j t' :
  s_tasks w !! j = Some t' -> (j < s_next w)%N -> s_tasks (spawn_task t w) !! j = Some t'.
Proof. intros Ht Hlt. simpl. rewrite lookup_insert_ne; [done|lia]. Qed.

Lemma start_all_frame w :
  s_procs (start_all_resident w) = s_procs w /\ (s_next w <= s_next (start_all_resident w))%N
  /\ forall j t, s_tasks w !! j = Some t -> (j < s_next w)%N -> s_tasks (start_all_resident w) !! j = Some t.
Proof.
  unfold start_all_resident. induction (map_to_list (s_apps w)) as [|[svc sid] l (Hp & Hn & Ht)]; [done|].
  simpl. destruct (s_states _ !! sid) as [st|]; [|done]. destruct (is_resident _); [|done].
  split_and!; [done|simpl; lia|]. intros j t Hj Hlt. apply spawn_task_frame; [auto|lia].
Qed.

Lemma label_frame w l w' :
  sup_ok w -> srun_label w l = Some w' ->
  (forall j t, (forall io, l <> LStep j io) -> s_tasks w !! j = Some t -> s_tasks w' !! j = Some t)
  /\ forall pid, guarded w pid -> (forall s, l <> LExit pid s) -> s_procs w' !! pid = Some Running.
Proof.
  intros Hok Hx. assert (Hlt : forall j t, s_tasks w !! j = Some t -> (j < s_next w)%N)
    by (intros j t Ht; apply (so_tasks w Hok); eauto).
  destruct l; simpl in Hx; simplify_eq; try (split; [intros j t _ ?; apply spawn_task_frame; eauto | by intros ? []]).
  - split; [done | by intros ? []].
  - destruct (start_all_frame w) as (Hp & _ & Ht). rewrite Hp. split; [eauto | by intros ? []].
  - apply bind_Some in Hx as (t & Ht & Hx). apply task_frame in Hx as [Hf Hg]; [|done]. split; [|eauto].
    intros j t' Hj Ht'. apply Hf; eauto. intros ->. by apply (Hj io).
  - unfold exit_proc in Hx.
    assert (Hw : w' = set_procs (<[pid := Exited s]> (s_procs w)) w)
      by (destruct (s_procs w !! pid) as [[]|]; by simplify_eq).
    subst w'. split; [done|]. intros pid' [? _] Hne. simpl. rewrite lookup_insert_ne; [done|].
    intros ->. by apply (Hne s).
  - split; [done | by intros ? []].
Qed.

Lemma waits_owner w id svc sid pid sid' st :
  sup_ok w -> waits w id svc sid pid -> s_states w !! sid' = Some st -> a_child st = Some pid ->
  sid' = sid /\ a_lock st = Some id.
Proof.
  intros Hok [Ht _] Hst Hc. destruct (so_refs w Hok _ _ sid Ht eq_refl) as [st0 Hst0].
  pose proof (so_wait w Hok _ _ _ _ _ Ht Hst0) as Hc0.
  assert (sid' = sid) as -> by by eapply (so_inj w Hok).
  split; [done|]. by eapply (so_held w Hok).
Qed.

Lemma blocked_step w l w' id svc sid pid id' t' :
  sup_ok w -> waits w id svc sid pid -> s_tasks w !! id' = Some t' -> wants t' = Some sid ->
  sexec w l = Some w' -> (forall s, l <> LExit pid s) ->
  (forall io, l = LStep id io -> is_ok (io_wait io) = true) ->
  sup_ok w' /\ waits w' id svc sid pid /\ s_tasks w' !! id' = Some t'.
Proof.
  intros Hok Hw Ht' Hwant Hx Hne Hio. split; [by eapply sexec_ok|].
  apply fmap_Some in Hx as (w1 & Hx & ->). pose proof (label_ok w l w1 Hok Hx) as Hok1.
  assert (Hg : guarded w pid).
  { split; [apply Hw|]. intros sid' st Hst Hc. destruct (waits_owner _ _ _ _ _ _ _ Hok Hw Hst Hc); eauto. }
  destruct (so_refs w Hok _ _ sid (proj1 Hw) eq_refl) as [st Hst].
  pose proof (so_held w Hok _ _ _ _ (proj1 Hw) eq_refl Hst) as Hl.
  assert (Hna : acquire w sid = None) by (unfold acquire; by rewrite Hst; simpl; rewrite Hl).
  assert (Hl1 : forall io, l <> LStep id io).
  { intros io ->. specialize (Hio io eq_refl). simpl in Hx. rewrite (proj1 Hw) in Hx. simpl in Hx.
    rewrite Hst in Hx. simpl in Hx. unfold waited in Hx. rewrite (proj2 Hw) in Hx.
    by destruct (io_wait io). }
  assert (Hl2 : forall io, l <> LStep id' io).
  { intros io ->. simpl in Hx. rewrite Ht' in Hx. simpl in Hx.
    destruct t' as [|? [|[]| |]|? [|[]|]|? []|]; simpl in Hwant; simplify_eq/=; by rewrite Hna in Hx. }
  destruct (label_frame w l w1 Hok Hx) as [Hf Hp].
  assert (Hw1 : waits w1 id svc sid pid) by (split; [apply Hf; [done | apply Hw] | auto]).
  split; [|by apply Hf]. split; [apply Hw1|]. apply collect_running. split; [apply Hw1|].
  intros sid' st' Hst' Hu Hc. destruct (waits_owner _ _ _ _ _ _ _ Hok1 Hw1 Hst' Hc) as [-> _].
  enough (in_use w1 sid = true) by congruence. apply in_use_spec. right.
  exists id. eexists. split; [apply Hw1 | done].
Qed.

(** * Properties *)

(** C21: children have one owner. In every reachable world a child that runs,
    and has not been sent the signal, is in the slot of exactly one app state,
    and that state is still registered or referred to by a task: replacing,
    unregistering or restarting an app never leaves a stray process. At any
    time the guard of a state is held by at most one task. *)
Theorem children_have_one_owner b endpoint w :
  sreachable b endpoint w ->
  (forall pid, s_procs w !! pid = Some Running ->
     exists sid st, s_states w !! sid = Some st /\ a_child st = Some pid /\ in_use w sid = true
       /\ forall sid' st', s_states w !! sid' = Some st' -> a_child st' = Some pid -> sid' = sid)
  /\ (forall id id' t t' sid, s_tasks w !! id = Some t -> s_tasks w !! id' = Some t' ->
        task_holds t = Some sid -> task_holds t' = Some sid -> id = id').
Proof.
  intros Hr. pose proof (sreachable_ok _ _ _ Hr) as Hok. split.
  - intros pid (sid & st & Hst & Hc)%(so_owner w Hok). exists sid, st.
    split_and!; [done|done|by eapply sreachable_used|]. intros sid' st' Hst' Hc'.
    by eapply (so_inj w Hok).
  - intros id id' t t' sid Ht Ht' Hh Hh'.
    destruct (so_refs w Hok _ _ _ Ht (holds_ref _ _ Hh)) as [st Hst].
    pose proof (so_held w Hok _ _ _ _ Ht Hh Hst). pose proof (so_held w Hok _ _ _ _ Ht' Hh' Hst). congruence.
Qed.

(** C22: a resident app cannot be stopped. While the resident task of an app
    waits for its child it holds the guard; a task that wants the guard, be it
    [unregister], [register_or_replace] or [ensure_up], makes no progress and
    no signal is sent to the child, whatever else the system does, until the
    child exits by itself. *)
Theorem resident_blocks_stop b endpoint w w' id svc sid pid id' t' ls :
  sreachable b endpoint w ->
  s_tasks w !! id = Some (SResident svc (RWait sid pid)) -> s_procs w !! pid = Some Running ->
  s_tasks w !! id' = Some t' -> wants t' = Some sid ->
  (forall s, LExit pid s ∉ ls) -> (forall io, LStep id io ∈ ls -> is_ok (io_wait io) = true) ->
  srun w ls = Some w' ->
  s_tasks w' !! id' = Some t' /\ s_procs w' !! pid = Some Running.
Proof.
  intros Hr Ht Hp. pose proof (sreachable_ok _ _ _ Hr) as Hok. clear Hr.
  assert (Hw : waits w id svc sid pid) by done. clear Ht Hp. revert w Hok Hw.
  induction ls as [|l ls IH]; intros w Hok Hw Ht' Hwant Hne Hio Hrun; simpl in Hrun.
  - simplify_eq. split; [done | apply Hw].
  - apply bind_Some in Hrun as (w1 & Hx & Hrun).
    destruct (blocked_step w l w1 id svc sid pid id' t') as (Hok1 & Hw1 & Ht1); try done.
    + intros s ->. apply (Hne s). by left.
    + intros io ->. apply Hio. by left.
    + apply (IH w1); try done; [intros s Hin; apply (Hne s); by right | intros io Hin; apply Hio; by right].
Qed.

(** What [collect] keeps of a task's own state and of dying processes. *)
Lemma collect_kept w id t sid st :
  s_tasks w !! id = Some t -> task_ref t = Some sid -> s_states w !! sid = Some st ->
  s_states (collect w) !! sid = Some st.
Proof. intros Ht Hr Hst. apply collect_states. split; [done|]. apply in_use_spec. eauto. Qed.

Lemma drop_all_dying l procs pid :
  procs !! pid = Some Dying -> drop_all l procs !! pid = Some Dying.
Proof.
  intros Hp. induction l as [|[sid st] l IH]; [done|]. simpl. by rewrite drop_child_lookup, IH.
Qed.

(** A restart kills the instance that [ensure_up] has started. When the
    resident task of an app comes back from its backoff and the app has been
    started in the meantime, the new child takes the slot and the running one
    is killed; [spawn_once] never looks at what runs. *)
Lemma restart_kills_instance b endpoint w id svc sid st pid io :
  sreachable b endpoint w ->
  s_tasks w !! id = Some (SResident svc (RLock sid)) ->
  s_states w !! sid = Some st -> a_lock st = None ->
  a_child st = Some pid -> s_procs w !! pid = Some Running -> io_spawn io = Ok tt ->
  exists w' pid' st', sexec w (LStep id io) = Some w' /\ pid' <> pid
    /\ s_procs w' !! pid = Some Dying /\ s_procs w' !! pid' = Some Running
    /\ s_states w' !! sid = Some st' /\ a_child st' = Some pid'
    /\ s_tasks w' !! id = Some (SResident svc (RRelock sid)).
Proof.
  intros Hr Ht Hst Hl Hc Hp Hio. pose proof (sreachable_ok _ _ _ Hr) as Hok.
  pose proof (so_procs w Hok pid ltac:(eauto)) as Hlt.
  destruct (Broker.issue_token (s_broker w) (io_now_ns io) (io_own_pid io) (s_ctr w)
    (a_spec st).(AppSpec.service)) as [[b' ctr'] token] eqn:Htok.
  set (st' := with_spawn (Some (io_instant io)) (with_child (Some (s_next w)) st)).
  assert (Hx : exists w1, srun_label w (LStep id io) = Some w1
    /\ s_procs w1 = <[s_next w := Running]> (drop_child (Some pid) (s_procs w))
    /\ s_states w1 = <[sid := st']> (s_states w)
    /\ s_tasks w1 = <[id := SResident svc (RRelock sid)]> (s_tasks w)).
  { simpl. rewrite Ht. simpl. unfold acquire. rewrite Hst. simpl. rewrite Hl. simpl.
    unfold spawn_once. rewrite Htok, Hio, Hc. eexists. split; [reflexivity|]. done. }
  destruct Hx as (w1 & Hx & Hp1 & Hs1 & Ht1). pose proof (label_ok _ _ _ Hok Hx) as Hok1.
  assert (Hst1 : s_states (collect w1) !! sid = Some st').
  { eapply (collect_kept _ id); [by rewrite Ht1, lookup_insert_eq | done | by rewrite Hs1, lookup_insert_eq]. }
  exists (collect w1), (s_next w), st'. unfold sexec. rewrite Hx. split_and!; [done|lia| | |done|done|].
  - unfold collect. simpl. apply (drop_all_dying _ _ pid). rewrite Hp1, lookup_insert_ne by lia.
    rewrite drop_child_lookup, Hp. by rewrite decide_True.
  - apply collect_running. split; [by rewrite Hp1, lookup_insert_eq|].
    intros sid' st0 Hst0 Hu Hc0. enough (sid' = sid) as ->.
    { apply collect_states in Hst1 as [_ ?]. congruence. }
    eapply (so_inj w1 Hok1); [done| |done|]; [by rewrite Hs1, lookup_insert_eq | done].
  - simpl. by rewrite Ht1, lookup_insert_eq.
Qed.

Lemma bump_schedule n :
  (Nat.iter n (fun b => (Backoff.bump b).1) Backoff.new).(Backoff.next)
  = (duration_from_secs 1 * ((2 ^ N.of_nat n) `min` 300))%N.
Proof.
  induction n as [|n IH]; [done|]. cbn [Nat.iter nat_rect]. unfold Backoff.bump at 1. cbn [fst Backoff.next].
  unfold Nat.iter in IH. rewrite IH, Nat2N.inj_succ, N.pow_succ_r'. unfold duration_from_secs. lia.
Qed.

(** C38: the schedule of restarts. A resident whose child has ended sleeps for
    the backoff of its app, between one second and five minutes in every
    reachable world, and for exactly one second after a clean exit; the next
    delay is twice this one, up to five minutes. Without a clean exit the n-th
    delay is the smaller of 2^n and 300 seconds. *)
Theorem backoff_schedule b endpoint w w' id svc sid status io :
  sreachable b endpoint w ->
  s_tasks w !! id = Some (SResident svc (RExited sid status)) ->
  sexec w (LStep id io) = Some w' ->
  (exists st st' d, s_states w !! sid = Some st /\ s_states w' !! sid = Some st'
    /\ s_tasks w' !! id = Some (SResident svc (RSleep sid d))
    /\ d = (if clean status then duration_from_secs 1 else (a_backoff st).(Backoff.next))
    /\ (duration_from_secs 1 <= d <= duration_from_secs 300)%N
    /\ (a_backoff st').(Backoff.next) = ((2 * d) `min` duration_from_secs 300)%N)
  /\ forall n, (Nat.iter n (fun b => (Backoff.bump b).1) Backoff.new).(Backoff.next)
        = (duration_from_secs 1 * ((2 ^ N.of_nat n) `min` 300))%N.
Proof.
  intros Hr Ht (w1 & Hx & ->)%fmap_Some. split; [|apply bump_schedule].
  pose proof (sreachable_ok _ _ _ Hr) as Hok.
  simpl in Hx. rewrite Ht in Hx. simpl in Hx. apply bind_Some in Hx as (st & Hst & [= <-]).
  pose proof (so_backoff w Hok _ _ Hst) as Hb.
  eexists st, _, _. split; [done|]. split.
  { eapply (collect_kept _ id); [simpl; by rewrite lookup_insert_eq | done | simpl; by rewrite lookup_insert_eq]. }
  split; [simpl; by rewrite lookup_insert_eq|].
  assert (Hcl : (match status with
     | Some s => if success s then Backoff.reset (a_backoff st) else a_backoff st
     | None => a_backoff st end).(Backoff.next)
     = if clean status then duration_from_secs 1 else (a_backoff st).(Backoff.next))
    by (destruct status as [s|]; [simpl; by destruct (success s) | done]).
  split; [done|]. simpl. rewrite Hcl. unfold backoff_ok in Hb.
  split; [destruct (clean status); [unfold duration_from_secs; lia | done] | lia].
Qed.

Lemma env_lookup_app e1 e2 k :
  k ∉ e2.*1 -> env_lookup (e1 ++ e2) k = env_lookup e1 k.
Proof.
  intros Hk. assert (He2 : env_lookup e2 k = None).
  { induction e2 as [|[k' v] e2 IH]; [done|]. apply not_elem_of_cons in Hk as [Hne Hk]. simpl.
    rewrite IH by done. rewrite decide_False; [done|]. by intros ->. }
  induction e1 as [|[k' v] e1 IH]; [done|]. simpl. by rewrite IH.
Qed.

Lemma idle_ms_lt l : (idle_ms l < U64_SIZE)%N.
Proof. destruct l; [done | apply as_u64_lt]. Qed.

(** The configuration a child reads from its environment. *)
Lemma child_config pf parent endpoint token spec :
  (forall k, k ∈ spec.(AppSpec.env).*1 -> k ∉ bus_vars) ->
  exists cfg, from_env pf (child_env parent (command endpoint token spec)) = Ok cfg
    /\ cfg.(ClientConfig.endpoint) = parse_endpoint pf endpoint
    /\ cfg.(ClientConfig.auth_token) = token
    /\ cfg.(ClientConfig.idle_exit)
       = (let ms := idle_ms spec.(AppSpec.lifecycle) in
          if decide (ms = 0%N) then None else Some (duration_from_millis ms)).
Proof.
  intros Henv. set (cmd := command endpoint token spec).
  assert (Hv : forall k, k ∈ bus_vars -> child_env parent cmd k
    = match env_lookup [("TOKIMO_BUS_SOCKET", endpoint); ("TOKIMO_BUS_TOKEN", token);
        ("TOKIMO_BUS_IDLE_MS", show_N (idle_ms spec.(AppSpec.lifecycle)))] k with
      | Some v => Some v | None => parent k end).
  { intros k Hk. unfold child_env, cmd. cbn [cmd_env command].
    by rewrite env_lookup_app by (intros Hx; by destruct (Henv k Hx)). }
  pose proof (Hv "TOKIMO_BUS_SOCKET" ltac:(by left)) as H1.
  pose proof (Hv "TOKIMO_BUS_TOKEN" ltac:(right; by left)) as H2.
  pose proof (Hv "TOKIMO_BUS_IDLE_MS" ltac:(right; right; by left)) as H3. simpl in H1, H2, H3.
  eexists. split; [unfold from_env; rewrite H1, H2, H3; reflexivity|]. split; [done|]. split; [done|].
  simpl. by rewrite parse_show by apply idle_ms_lt.
Qed.

(** A spawned app is admitted. When [spawn_once] succeeds and the app's own
    environment sets none of the three bus variables, the child finds in its
    environment the supervisor's endpoint, no idle threshold if it is resident
    and otherwise the configured one in whole milliseconds, and a token with
    which the [Hello] of a client of that service is accepted by the broker. *)
Lemma spawned_app_admitted w io sid st w' pf parent :
  spawn_once w io sid st = (w', Ok tt) ->
  (forall k, k ∈ (a_spec st).(AppSpec.env).*1 -> k ∉ bus_vars) ->
  exists pid st' cmd cfg, s_states w' !! sid = Some st' /\ a_child st' = Some pid
    /\ s_procs w' !! pid = Some Running /\ s_commands w' !! pid = Some cmd
    /\ from_env pf (child_env parent cmd) = Ok cfg
    /\ cfg.(ClientConfig.endpoint) = parse_endpoint pf (s_endpoint w)
    /\ cfg.(ClientConfig.idle_exit)
       = (let ms := idle_ms (a_spec st).(AppSpec.lifecycle) in
          if decide (ms = 0%N) then None else Some (duration_from_millis ms))
    /\ forall app_pid (bd : BusClientBuilder) hello,
        bd.(BusClientBuilder.cfg) = cfg -> hello_of app_pid bd = Ok hello ->
        hello.(HelloRequest.service) = (a_spec st).(AppSpec.service) ->
        exists b', serve_hello (s_broker w') (Ok (Some (BusFrame.Hello hello)))
          = (b', None, SAccepted hello).
Proof.
  intros Hs Henv. unfold spawn_once in Hs. unfold Broker.issue_token in Hs.
  cbn [fetch_add1 fst snd] in Hs. set (token := Broker.random_token _ _ _) in Hs.
  destruct (io_spawn io) as [[]|e]; [|done]. injection Hs as <-.
  destruct (child_config pf parent (s_endpoint w) token (a_spec st) Henv) as (cfg & Hcfg & He & Htok & Hidle).
  eexists (s_next w), _, _, cfg. split; [simpl; by rewrite lookup_insert_eq|].
  split; [done|]. split; [simpl; by rewrite lookup_insert_eq|].
  split; [simpl; by rewrite lookup_insert_eq|]. split; [exact Hcfg|]. split; [exact He|]. split; [exact Hidle|].
  intros app_pid bd hello Hb [Hp Ht]%hello_of_ok Hsvc. unfold serve_hello.
  rewrite Hp, bool_decide_eq_true_2 by done. cbn [negb]. rewrite consume_token_spec, bool_decide_eq_true_2.
  2: { rewrite Hsvc, Ht, Hb, Htok. simpl. by rewrite lookup_insert_eq. }
  simpl. by eexists.
Qed.

(** The index of [svc_color] is in range. *)
Lemma svc_color_in_range name : exists colour, svc_color name = Some colour /\ (colour < 108)%N.
Proof.
  unfold svc_color. set (i := (svc_hash name mod N.of_nat (length PALETTE))%N).
  assert (Hi : (i < 10)%N) by (apply N.mod_lt; done). clearbody i.
  destruct (PALETTE !! N.to_nat i) as [v|] eqn:Hv; [|apply lookup_ge_None in Hv; simpl in Hv; lia].
  exists v. split; [done|]. assert (Hf : Forall (fun c => c < 108)%N PALETTE) by by repeat constructor.
  by apply (Forall_lookup_1 _ _ _ _ Hf Hv).
Qed.

(** The lines of a child are printed in order, each after the coloured name of
    its service, up to the end or the first error of the pipe; no line is
    dropped and the palette never panics. *)
Lemma forward_lines service lines rest :
  (forall line reads, rest <> Ok (Some line) :: reads) ->
  exists colour, svc_color service = Some colour
    /\ forward service (((fun line => Ok (Some line)) <$> lines) ++ rest)
       = (fun line => Some (escape colour +:+ "[" +:+ service +:+ "]" +:+ escape 0 +:+ " " +:+ line)) <$> lines.
Proof.
  intros Hrest. destruct (svc_color_in_range service) as (colour & Hc & _). exists colour.
  split; [done|]. induction lines as [|line lines IH]; simpl.
  - destruct rest as [|[[line|]|] reads]; try done. by edestruct Hrest.
  - unfold prefix_line at 1. rewrite Hc. simpl. f_equal. exact IH.
Qed.

(** * The theorems on the runs *)

Lemma srun_reachable b endpoint : forall ls w w',
  sreachable b endpoint w -> srun w ls = Some w' -> sreachable b endpoint w'.
Proof.
  induction ls as [|l ls IH]; intros w w' Hr Hrun; simpl in Hrun; [by simplify_eq|].
  apply bind_Some in Hrun as (w1 & Hx & Hrun). eapply IH; [|done]. by eapply sreachable_step.
Qed.

Lemma sup_run_reachable ls :
  bool_decide (is_Some (srun sup0 ls)) = true ->
  sreachable (Broker.new BrokerConfig.default) "/run/tokimo/bus.sock" (sup_run ls).
Proof.
  intros [w Hw]%bool_decide_eq_true_1. unfold sup_run. rewrite Hw. simpl.
  eapply (srun_reachable _ _ ls sup0); [apply sreachable_init | done].
Qed.

Lemma children_have_one_owner_witness :
  exists sid st, s_states (sup_run up_script) !! sid = Some st /\ a_child st = Some 2%N.
Proof.
  destruct (proj1 (children_have_one_owner _ _ (sup_run up_script)
    (sup_run_reachable up_script ltac:(vm_compute; reflexivity))) 2%N ltac:(vm_compute; reflexivity))
    as (sid & st & Hst & Hc & _).
  exists sid, st. split; [exact Hst | exact Hc].
Defined.

(** Whatever the host tries, the app goes on running and the call waits. *)
Lemma resident_blocks_stop_witness :
  exists w', srun (sup_run unregister_script) [LEnsure "notes"; LStep 4 sup_io; LRegister (notes_spec Lifecycle.Resident)] = Some w'
    /\ s_tasks w' !! 3%N = Some (SUnregister "notes" (UStop (TLock 0)))
    /\ s_procs w' !! 2%N = Some Running.
Proof.
  destruct (srun (sup_run unregister_script) [LEnsure "notes"; LStep 4 sup_io; LRegister (notes_spec Lifecycle.Resident)])
    as [w'|] eqn:Hrun; [|vm_compute in Hrun; discriminate Hrun].
  exists w'. split; [reflexivity|].
  apply (resident_blocks_stop _ _ (sup_run unregister_script) w' 1 "notes" 0 2 3
    (SUnregister "notes" (UStop (TLock 0)))
    [LEnsure "notes"; LStep 4 sup_io; LRegister (notes_spec Lifecycle.Resident)]
    (sup_run_reachable unregister_script ltac:(vm_compute; reflexivity)));
    try (vm_compute; reflexivity); [| |exact Hrun].
  - intros s Hin. repeat (apply elem_of_cons in Hin as [Heq|Hin]; [discriminate Heq|]).
    exact (not_elem_of_nil _ Hin).
  - intros io Hin. repeat (apply elem_of_cons in Hin as [Heq|Hin]; [discriminate Heq|]).
    destruct (not_elem_of_nil _ Hin).
Defined.

Lemma restart_kills_instance_witness :
  exists w', sexec (sup_run ensured_script) (LStep 1 sup_io) = Some w'
    /\ s_tasks (sup_run ensured_script) !! 3%N = Some (SReturned (Ok tt))
    /\ s_procs (sup_run ensured_script) !! 4%N = Some Running
    /\ s_procs w' !! 4%N = Some Dying.
Proof.
  destruct (s_states (sup_run ensured_script) !! 0%N) as [st|] eqn:Hst; [|vm_compute in Hst; discriminate Hst].
  destruct (restart_kills_instance _ _ (sup_run ensured_script) 1 "notes" 0 st 4 sup_io
    (sup_run_reachable ensured_script ltac:(vm_compute; reflexivity)) ltac:(vm_compute; reflexivity) Hst
    ltac:(vm_compute in Hst; injection Hst as <-; reflexivity)
    ltac:(vm_compute in Hst; injection Hst as <-; reflexivity)
    ltac:(vm_compute; reflexivity) ltac:(reflexivity)) as (w' & pid' & st' & Hx & _ & Hp & _).
  exists w'. split; [exact Hx|]. split; [vm_compute; reflexivity|].
  split; [vm_compute; reflexivity | exact Hp].
Defined.

Lemma backoff_schedule_witness :
  exists w' d, sexec (sup_run crash_script) (LStep 1 sup_io) = Some w'
    /\ s_tasks w' !! 1%N = Some (SResident "notes" (RSleep 0 d))
    /\ (duration_from_secs 1 <= d <= duration_from_secs 300)%N.
Proof.
  destruct (sexec (sup_run crash_script) (LStep 1 sup_io)) as [w'|] eqn:Hx; [|vm_compute in Hx; discriminate Hx].
  destruct (proj1 (backoff_schedule _ _ (sup_run crash_script) w' 1 "notes" 0 (Some (ExitCode 1)) sup_io
    (sup_run_reachable crash_script ltac:(vm_compute; reflexivity)) ltac:(vm_compute; reflexivity) Hx))
    as (st & st' & d & _ & _ & Ht & _ & Hd & _).
  exists w', d. split; [reflexivity|]. split; [exact Ht | exact Hd].
Defined.

(** A client built from the environment of the child: see [from_env]. *)
Lemma spawned_app_admitted_witness :
  exists w' cmd cfg, spawn_once sup0 sup_io 0 (new_state (notes_spec (Lifecycle.OnDemand (duration_from_secs 300))))
      = (w', Ok tt)
    /\ s_commands w' !! 0%N = Some cmd
    /\ from_env Platform.Unix (child_env (fun _ => None) cmd) = Ok cfg
    /\ cfg.(ClientConfig.idle_exit) = Some (duration_from_secs 300).
Proof.
  destruct (spawn_once sup0 sup_io 0 (new_state (notes_spec (Lifecycle.OnDemand (duration_from_secs 300)))))
    as [w' r] eqn:Hs.
  assert (Hr : r = Ok tt) by (vm_compute in Hs; injection Hs as _ <-; reflexivity). subst r.
  destruct (spawned_app_admitted sup0 sup_io 0
    (new_state (notes_spec (Lifecycle.OnDemand (duration_from_secs 300)))) w' Platform.Unix (fun _ => None) Hs)
    as (pid & st' & cmd & cfg & Hst & Hc & _ & Hcmd & Henv & _ & Hidle & _).
  { intros k [->|[]%not_elem_of_nil]%elem_of_cons. apply (bool_decide_unpack _). vm_compute. exact I. }
  assert (Hpid : pid = 0%N).
  { vm_compute in Hs. injection Hs as <-. vm_compute in Hst. injection Hst as <-.
    vm_compute in Hc. by injection Hc as <-. }
  subst pid. exists w', cmd, cfg. split; [reflexivity|]. split; [exact Hcmd|]. split; [exact Henv|].
  rewrite Hidle. vm_compute. reflexivity.
Defined.
