(* ===== verification/Fleet.v ===== *)
(** The supervisor (crates/supervisor/src/lib.rs) as a table of apps and of the
    processes that run for them: an abstract machine without tasks, guards,
    shared app states, clocks, tokens or the broker, and the proof that every
    step of the supervisor is one of its operations, followed by forgetting
    apps nobody refers to. *)

From stdpp Require Import prelude gmap strings.
From S2P Require Import Prelude Frame Broker Supervisor SupervisorSafety SupervisorGuarantees.

(** * The abstract machine *)

(** The directory, the apps that exist, and the process each of them runs. *)
Record Fleet := mkFleet {
  f_apps : gmap string app_id;
  f_specs : gmap app_id AppSpec;
  f_up : gmap app_id proc_id
}.

Inductive FleetOp :=
| FIdle
(** [spec] enters the directory as a new app. *)
| FRegister (sid : app_id) (spec : AppSpec)
| FRemove (service : string)
(** A new process is the one of the app; the former one is killed. *)
| FStart (sid : app_id) (pid : proc_id)
| FStop (sid : app_id)
| FExit (pid : proc_id)
(** Apps that are not in the directory end, with their processes. *)
| FForget (dead : gset app_id).

Definition f_exec (f : Fleet) (op : FleetOp) : option Fleet :=
  match op with
  | FIdle => Some f
  | FRegister sid spec =>
      guard (f_specs f !! sid = None);;
      Some (mkFleet (<[spec.(AppSpec.service) := sid]> (f_apps f)) (<[sid := spec]> (f_specs f)) (f_up f))
  | FRemove service => Some (mkFleet (delete service (f_apps f)) (f_specs f) (f_up f))
  | FStart sid pid =>
      guard (is_Some (f_specs f !! sid));;
      guard (map_Forall (fun _ pid' => pid' <> pid) (f_up f));;
      Some (mkFleet (f_apps f) (f_specs f) (<[sid := pid]> (f_up f)))
  | FStop sid => Some (mkFleet (f_apps f) (f_specs f) (delete sid (f_up f)))
  | FExit pid => Some (mkFleet (f_apps f) (f_specs f) (filter (fun '(_, pid') => pid' <> pid) (f_up f)))
  | FForget dead =>
      guard (map_Forall (fun _ sid => sid ∉ dead) (f_apps f));;
      Some (mkFleet (f_apps f) (filter (fun '(sid, _) => sid ∉ dead) (f_specs f))
              (filter (fun '(sid, _) => sid ∉ dead) (f_up f)))
  end.

(** * The abstraction *)

Definition up_of (procs : gmap proc_id ProcState) (st : AppState) : option proc_id :=
  pid ← a_child st;
  match procs !! pid with Some Running => Some pid | _ => None end.

Definition fleet (w : Sup) : Fleet :=
  mkFleet (s_apps w) (a_spec <$> s_states w) (omap (up_of (s_procs w)) (s_states w)).

(** * What the tasks may do *)

Inductive Kind := KResident | KReplace | KUnregister | KEnsure.

Definition role (t : STask) : option (Kind * string) :=
  match t with
  | SResident service _ => Some (KResident, service)
  | SReplace spec _ => Some (KReplace, spec.(AppSpec.service))
  | SUnregister service _ => Some (KUnregister, service)
  | SEnsure service _ => Some (KEnsure, service)
  | SReturned _ => None
  end.

Definition starts (k : Kind) : bool := match k with KResident | KEnsure => true | _ => false end.

(** The service a step works for is in the hands of a task of that kind. *)
Definition by_task (w : Sup) (l : SLabel) (starting : bool) (service : string) : Prop :=
  exists id io t k, l = LStep id io /\ s_tasks w !! id = Some t /\ role t = Some (k, service)
    /\ starts k = starting.

Definition allowed (w : Sup) (l : SLabel) (op : FleetOp) : Prop :=
  match op with
  | FIdle => True
  | FRegister sid spec =>
      sid = s_next w /\ (l = LRegister spec
        \/ exists id io, l = LStep id io /\ s_tasks w !! id = Some (SReplace spec PInsert))
  | FRemove service => by_task w l false service
  | FStart sid pid => exists st, s_states w !! sid = Some st /\ by_task w l true (a_spec st).(AppSpec.service)
  | FStop sid => exists st, s_states w !! sid = Some st /\ by_task w l false (a_spec st).(AppSpec.service)
  | FExit pid => exists s, l = LExit pid s
  | FForget _ => False
  end.

(** * The step of a task *)

(** Every task works on the app of the service it was called for. *)
Definition refs_named (w : Sup) : Prop := forall id t sid st,
  s_tasks w !! id = Some t -> task_ref t = Some sid -> s_states w !! sid = Some st ->
  exists k, role t = Some (k, (a_spec st).(AppSpec.service)).

(** The task goes on as what it is, or returns; it stays with its app, or has
    just found it in the directory. *)
Definition goes_on (w : Sup) (t : STask) (ot : option STask) : Prop :=
  forall t', ot = Some t' -> (role t' = role t \/ exists r, t' = SReturned r)
    /\ forall sid, task_ref t' = Some sid ->
         role t' = role t
         /\ (task_ref t = Some sid \/ exists k service, role t = Some (k, service) /\ s_apps w !! service = Some sid).

Inductive child_change (w : Sup) (t : STask) (st st' : AppState) (w' : Sup) : Prop :=
| cc_same :
    a_child st' = a_child st -> s_procs w' = s_procs w -> child_change w t st st' w'
| cc_stopped k service :
    role t = Some (k, service) -> starts k = false ->
    a_child st' = None -> s_procs w' = drop_child (a_child st) (s_procs w) -> child_change w t st st' w'
| cc_started k service :
    role t = Some (k, service) -> starts k = true -> a_child st' = Some (s_next w) ->
    s_procs w' = <[s_next w := Running]> (drop_child (a_child st) (s_procs w)) -> child_change w t st st' w'.

Inductive effect (w : Sup) (id : stask_id) (t : STask) (w' : Sup) : Prop :=
| ef_moves ot :
    s_states w' = s_states w -> s_procs w' = s_procs w ->
    s_tasks w' = partial_alter (fun _ => ot) id (s_tasks w) ->
    s_apps w' = s_apps w -> goes_on w t ot -> effect w id t w'
| ef_removes k service t' :
    s_states w' = s_states w -> s_procs w' = s_procs w -> s_tasks w' = <[id := t']> (s_tasks w) ->
    role t = Some (k, service) -> starts k = false -> s_apps w' = delete service (s_apps w) ->
    goes_on w t (Some t') -> effect w id t w'
| ef_touches t' sid st st' :
    task_ref t = Some sid -> s_states w !! sid = Some st -> s_states w' = <[sid := st']> (s_states w) ->
    s_apps w' = s_apps w -> s_tasks w' = <[id := t']> (s_tasks w) -> a_spec st' = a_spec st ->
    (forall service, role t = Some (KEnsure, service) -> a_lock st' = a_lock st) ->
    child_change w t st st' w' -> goes_on w t (Some t') -> effect w id t w'
| ef_inserts spec :
    t = SReplace spec PInsert -> s_states w' = <[s_next w := new_state spec]> (s_states w) ->
    s_procs w' = s_procs w -> s_apps w' = <[spec.(AppSpec.service) := s_next w]> (s_apps w) ->
    s_tasks w' !! id = Some (SReturned (Ok tt)) ->
    (forall j t', j <> id -> s_tasks w' !! j = Some t' ->
       s_tasks w !! j = Some t' \/ ((s_next w <= j)%N /\ t' = SResident spec.(AppSpec.service) RLookup)) ->
    effect w id t w'.

(** * The effects of a step *)

Lemma goes_stays w t t' :
  role t' = role t -> (forall sid, task_ref t' = Some sid -> task_ref t = Some sid) -> goes_on w t (Some t').
Proof. intros Hr Hs t'' [= <-]. split; [by left|]. intros sid Hsid. split; [done|]. left. by apply Hs. Qed.

Lemma goes_returned w t r : goes_on w t (Some (SReturned r)).
Proof. intros t' [= <-]. split; [by right; exists r|done]. Qed.

Lemma goes_ended w t : goes_on w t None.
Proof. by intros t'. Qed.

Lemma spawn_child w io sid st w1 r :
  spawn_once w io sid st = (w1, r) ->
  s_apps w1 = s_apps w /\ s_tasks w1 = s_tasks w
  /\ ((r = Ok tt /\ io_spawn io = Ok tt
       /\ exists st', s_states w1 = <[sid := st']> (s_states w) /\ a_spec st' = a_spec st /\ a_lock st' = a_lock st
            /\ a_child st' = Some (s_next w)
            /\ s_procs w1 = <[s_next w := Running]> (drop_child (a_child st) (s_procs w)))
      \/ (is_ok r = false /\ s_states w1 = s_states w /\ s_procs w1 = s_procs w)).
Proof.
  unfold spawn_once. destruct (Broker.issue_token _ _ _ _ _) as [[b ctr] token].
  destruct (io_spawn io) as [[]|e]; simpl; intros [= <- <-]; (split; [done|]); (split; [done|]).
  - left. split; [done|]. split; [done|]. eexists. split; [reflexivity|]. done.
  - right. done.
Qed.

Lemma stop_effect w io id service pc w1 pc' :
  step_stop w io id service pc = Some (w1, pc') ->
  s_tasks w1 = s_tasks w /\ s_apps w1 = s_apps w
  /\ (forall sid, stop_ref pc' = Some sid -> stop_ref pc = Some sid \/ s_apps w !! service = Some sid)
  /\ ((s_states w1 = s_states w /\ s_procs w1 = s_procs w)
      \/ exists sid st st', stop_ref pc = Some sid /\ s_states w !! sid = Some st
           /\ s_states w1 = <[sid := st']> (s_states w) /\ a_spec st' = a_spec st
           /\ ((a_child st' = a_child st /\ s_procs w1 = s_procs w)
               \/ (a_child st' = None /\ s_procs w1 = drop_child (a_child st) (s_procs w)))).
Proof.
  destruct pc as [|sid|sid p|]; simpl; [| | |done].
  - intros [= <- <-]. split_and!; try done; [|by left]. intros sid. destruct (s_apps w !! service); simpl; auto.
  - intros (st & [Hst _]%acquire_Some & Hs)%bind_Some. destruct (a_child st) as [p|] eqn:Hc; simplify_eq/=.
    + split; [done|]. split; [done|]. split; [auto|]. right. exists sid, st. eexists.
      split_and!; [done|done|reflexivity|done|]. right. by rewrite Hc.
    + split_and!; try done. by left.
  - intros (st & Hst & (s & _ & [= <- <-])%bind_Some)%bind_Some. simpl.
    split; [done|]. split; [done|]. split; [done|]. right. exists sid, st. eexists.
    split_and!; [done|done|reflexivity|done|]. by left.
Qed.

(** A resident task works on the record of its app. *)
Lemma put_effect w w1 id service pc pc' sid st st' :
  res_ref pc = Some sid -> (res_ref pc' = Some sid \/ res_ref pc' = None) -> s_states w !! sid = Some st ->
  s_states w1 = s_states w -> s_procs w1 = s_procs w -> s_apps w1 = s_apps w -> s_tasks w1 = s_tasks w ->
  a_spec st' = a_spec st -> a_child st' = a_child st ->
  effect w id (SResident service pc) (put_task id (SResident service pc') (put_state sid st' w1)).
Proof.
  intros Hr Hr' Hst Hs Hp Ha Ht Hsp Hc. eapply (ef_touches _ _ _ _ _ sid st st'); simpl; try done.
  - by rewrite Hs.
  - by rewrite Ht.
  - by apply cc_same.
  - apply goes_stays; simpl; [done|]. destruct Hr' as [-> | ->]; congruence.
Qed.

Lemma resident_effect w io id service pc w' :
  s_tasks w !! id = Some (SResident service pc) -> step_resident w io id service pc = Some w' ->
  effect w id (SResident service pc) w'.
Proof.
  intros Ht. destruct pc as [|sid|sid d|sid|sid pid|sid status|sid d]; simpl.
  - intros [= <-]. destruct (s_apps w !! service) as [sid|] eqn:Ha.
    + eapply (ef_moves _ _ _ _ (Some _)); try done. intros t' [= <-]. split; [by left|]. intros sid' [= <-]. split; [done|]. right. by exists KResident, service.
    + by eapply (ef_moves _ _ _ _ None).
  - intros (st & [Hst _]%acquire_Some & [= <-])%bind_Some.
    destruct (spawn_once w io sid st) as [w1 r] eqn:Hs.
    destruct (spawn_child w io sid st w1 r Hs) as (Ha & Hta & [(-> & _ & st' & Hs' & Hsp & Hl & Hc & Hp)|(Hr & Hs' & Hp)]).
    + eapply (ef_touches _ _ _ _ _ sid st st'); simpl; try done; [by rewrite Hta| |by apply goes_stays].
      by eapply (cc_started _ _ _ _ _ KResident service).
    + destruct r as [|e]; [done|]. destruct (Backoff.bump (a_backoff st)) as [b wt]. eapply put_effect; naive_solver.
  - intros (st & Hst & [= <-])%bind_Some. eapply put_effect; naive_solver.
  - intros (st & [Hst _]%acquire_Some & [= <-])%bind_Some. destruct (a_child st) as [pid|] eqn:Hc.
    + eapply put_effect; naive_solver.
    + by eapply (ef_moves _ _ _ _ None).
  - intros (st & Hst & (s & _ & [= <-])%bind_Some)%bind_Some. eapply put_effect; naive_solver.
  - intros (st & Hst & [= <-])%bind_Some. eapply put_effect; naive_solver.
  - intros [= <-]. eapply (ef_moves _ _ _ _ (Some _)); try done. by apply goes_stays.
Qed.

(** The steps [stop_service] takes for [register_or_replace] and [unregister]. *)
Lemma stopping_effect w io id target service pc w1 pc' :
  match target with inl spec => service = spec.(AppSpec.service) | inr s => service = s end ->
  step_stop w io id service pc = Some (w1, pc') ->
  effect w id (stop_task target pc) (put_task id (stop_task target pc') w1).
Proof.
  intros Hsv Hs. destruct (stop_effect _ _ _ _ _ _ _ Hs) as (Hta & Ha & Href & Hcases).
  assert (Hrole : exists k, starts k = false /\ forall pc, role (stop_task target pc) = Some (k, service)).
  { destruct target; subst; [exists KReplace|exists KUnregister]; by split. }
  destruct Hrole as (k & Hk & Hrole).
  assert (Hr : forall pc, task_ref (stop_task target pc) = stop_ref pc) by by intros [] ; destruct target.
  assert (Hgo : goes_on w (stop_task target pc) (Some (stop_task target pc'))).
  { intros t' [= <-]. rewrite !Hrole. split; [by left|]. intros sid. rewrite !Hr. intros [?|?]%Href; [by split; [|left]|].
    split; [done|]. right. by exists k, service. }
  destruct Hcases as [[Hst Hp]|(sid & st & st' & Hsid & Hst & Hs' & Hsp & Hc)].
  - eapply (ef_moves _ _ _ _ (Some _)); simpl; try done. by rewrite Hta.
  - eapply (ef_touches _ _ _ _ _ sid st st'); simpl; try done; [by rewrite Hr|by rewrite Hta| |].
    + intros s. rewrite Hrole. intros [= -> _]. done.
    + destruct Hc as [[? ?]|[? ?]]; [by apply cc_same|by eapply (cc_stopped _ _ _ _ _ k service)].
Qed.

Lemma task_effect w io id t w' :
  sup_ok w -> s_tasks w !! id = Some t -> step_task w io id t = Some w' -> effect w id t w'.
Proof.
  intros Hok Ht. pose proof (so_tasks w Hok id ltac:(eauto)) as Hlt.
  destruct t as [svc pc|spec pc|svc pc|svc pc|r]; [| | | |done].
  - by apply resident_effect.
  - destruct pc as [|pc| |]; simpl.
    + intros [= <-]. eapply (ef_moves _ _ _ _ (Some _)); try done. by apply goes_stays; [|case_bool_decide].
    + destruct pc; try (intros ([w1 pc'] & Hs & [= <-])%bind_Some; by eapply (stopping_effect w io id (inl spec))).
      intros [= <-]. eapply (ef_moves _ _ _ _ (Some _)); try done. by apply goes_stays.
    + intros [= <-]. eapply (ef_removes _ _ _ _ KReplace); try done. by apply goes_stays.
    + intros [= <-]. destruct (is_resident spec) eqn:Hres; simpl;
        (eapply (ef_inserts _ _ _ _ spec); simpl; try done; [by rewrite lookup_insert_eq|]); intros j t' Hj.
      * rewrite lookup_insert_ne by done. intros [[<- <-]|[_ ?]]%lookup_insert_Some; [right|by left]. split; [lia|done].
      * rewrite lookup_insert_ne by done. by left.
  - destruct pc as [|pc|]; simpl.
    + intros [= <-]. eapply (ef_moves _ _ _ _ (Some _)); try done.
      case_bool_decide; [by apply goes_stays|apply goes_returned].
    + destruct pc; try (intros ([w1 pc'] & Hs & [= <-])%bind_Some; by eapply (stopping_effect w io id (inr svc))).
      intros [= <-]. eapply (ef_moves _ _ _ _ (Some _)); try done. by apply goes_stays.
    + intros [= <-]. eapply (ef_removes _ _ _ _ KUnregister); try done. apply goes_returned.
  - destruct pc as [|sid]; simpl.
    + intros [= <-]. eapply (ef_moves _ _ _ _ (Some _)); try done.
      destruct (s_apps w !! svc) as [sid|] eqn:Ha; [|apply goes_returned].
      intros t' [= <-]. split; [by left|]. intros sid' [= <-]. split; [done|]. right. by exists KEnsure, svc.
    + intros (st & [Hst _]%acquire_Some & Hx)%bind_Some. destruct (ensure_locked w io sid st) as [w1 r] eqn:He.
      injection Hx as <-.
      assert (Hsame : (w1, r) = (w, r) -> effect w id (SEnsure svc (ELock sid)) (put_task id (SReturned r) w1)).
      { intros [= ->]. eapply (ef_moves _ _ _ _ (Some _)); try done. apply goes_returned. }
      assert (Hspawn : spawn_once w io sid st = (w1, r) -> effect w id (SEnsure svc (ELock sid)) (put_task id (SReturned r) w1)).
      { intros Hs. destruct (spawn_child w io sid st w1 r Hs) as (Ha & Hta & [(-> & _ & st' & Hs' & Hsp & Hl & Hc & Hp)|(_ & Hs' & Hp)]).
        - eapply (ef_touches _ _ _ _ _ sid st st'); simpl; try done; [by rewrite Hta| |apply goes_returned].
          by eapply (cc_started _ _ _ _ _ KEnsure svc).
        - eapply (ef_moves _ _ _ _ (Some _)); simpl; try done; [by rewrite Hta|apply goes_returned]. }
      unfold ensure_locked in He. destruct (a_child st) as [p|]; [|auto].
      destruct (io_try_wait io); [|simplify_eq; auto].
      destruct (s_procs w !! p) as [[]|]; simplify_eq; auto.
Qed.

(** * Tasks and their apps *)

Lemma start_all_keeps w :
  s_states (start_all_resident w) = s_states w /\ s_apps (start_all_resident w) = s_apps w
  /\ forall j t, s_tasks (start_all_resident w) !! j = Some t ->
       s_tasks w !! j = Some t \/ ((s_next w <= j)%N /\ exists service, t = SResident service RLookup).
Proof.
  unfold start_all_resident. assert (Hn : forall l, (s_next w <= s_next (foldr (fun '(service, sid) w =>
      match s_states w !! sid with
      | Some st => if is_resident (a_spec st) then spawn_task (SResident service RLookup) w else w
      | None => w end) w l))%N).
  { induction l as [|[svc sid] l IH]; [done|]. simpl. repeat case_match; simpl; lia. }
  induction (map_to_list (s_apps w)) as [|[svc sid] l (Hs & Ha & Ht)]; [auto|]. specialize (Hn l).
  simpl. destruct (s_states _ !! sid) as [st|]; [|done]. destruct (is_resident _); [|done].
  split; [done|]. split; [done|]. simpl. intros j t [[<- <-]|[_ ?]]%lookup_insert_Some; [|auto].
  right. split; [lia|]. by exists svc.
Qed.

(** A new task refers to no app, a new app is referred to by no task. *)
Lemma refs_named_label w l w1 : sup_ok w -> refs_named w -> srun_label w l = Some w1 -> refs_named w1.
Proof.
  intros Hok Hn Hx.
  assert (Hsame : forall w2, s_states w2 = s_states w ->
    (forall j t, s_tasks w2 !! j = Some t -> s_tasks w !! j = Some t \/ task_ref t = None) -> refs_named w2).
  { intros w2 Hs Ht id t sid st Hid Href. rewrite Hs. destruct (Ht _ _ Hid) as [Hid'|]; [by eapply Hn|congruence]. }
  assert (Hins : forall w2 spec, s_states w2 = <[s_next w := new_state spec]> (s_states w) ->
    (forall j t, s_tasks w2 !! j = Some t -> s_tasks w !! j = Some t \/ task_ref t = None) -> refs_named w2).
  { intros w2 spec Hs Ht id t sid st Hid Href. rewrite Hs. destruct (Ht _ _ Hid) as [Hid'|]; [|congruence].
    intros [[<- _]|[_ Hst]]%lookup_insert_Some; [|by eapply Hn].
    pose proof (so_states w Hok _ (so_refs w Hok _ _ _ Hid' Href)). lia. }
  assert (Hspawn : forall t0, task_ref t0 = None -> refs_named (spawn_task t0 w)).
  { intros t0 H0. apply Hsame; [done|]. simpl. intros j t [[_ <-]|[_ ?]]%lookup_insert_Some; auto. }
  destruct l as [spec| |spec|service|service|id io|pid s|b ctr]; simpl in Hx; simplify_eq; try by apply Hspawn.
  - by eapply (Hins _ spec); [|auto].
  - destruct (start_all_keeps w) as (Hs & _ & Ht). apply Hsame; [done|].
    intros j t [?|[_ [? ->]]]%Ht; auto.
  - apply bind_Some in Hx as (t & Ht & Hx).
    assert (Hmove : forall ot w2, goes_on w t ot -> s_states w2 = s_states w ->
      s_tasks w2 = partial_alter (fun _ => ot) id (s_tasks w) -> refs_named w2).
    { intros ot w2 Hgo Hs Hta j t' sid st Hj Href. rewrite Hs. intros Hst.
      rewrite Hta in Hj. destruct (decide (j = id)) as [->|Hne]; [|rewrite lookup_partial_alter_ne in Hj by done; by eapply Hn].
      rewrite lookup_partial_alter_eq in Hj. destruct (Hgo t' Hj) as [_ Hr]. destruct (Hr sid Href) as [-> [Href'|(k & svc & Hro & Ha)]].
      - by eapply Hn.
      - destruct (so_apps w Hok _ _ Ha) as (st' & Hst' & <-). exists k. by simplify_eq. }
    destruct (task_effect w io id t w1 Hok Ht Hx) as [ot Hs _ Hta _ Hgo|k svc t' Hs _ Hta _ _ _ Hgo
      |t' sid st st' _ Hst Hs _ Hta Hsp _ _ Hgo|spec -> Hs _ _ Hme Hta].
    + by eapply Hmove.
    + by eapply Hmove.
    + intros j t0 sid0 st0 Hj Href0. rewrite Hs.
      assert (Hold : forall st1, s_states w !! sid0 = Some st1 ->
        exists k, role t0 = Some (k, (a_spec st1).(AppSpec.service))).
      { intros st1 Hst1. pose proof (Hmove (Some t') (set_states (s_states w) w1) Hgo eq_refl Hta) as Hm.
        by eapply Hm. }
      intros [[<- <-]|[_ ?]]%lookup_insert_Some; [|auto]. rewrite Hsp. by apply Hold.
    + eapply (Hins _ spec); [done|]. intros j t0 Hj. destruct (decide (j = id)) as [->|Hne].
      * right. rewrite Hme in Hj. by injection Hj as <-.
      * destruct (Hta j t0 Hne Hj) as [|[_ ->]]; auto.
  - unfold exit_proc in Hx. by destruct (s_procs w !! pid) as [[]|]; simplify_eq.
  - done.
Qed.

Lemma refs_named_collect w : refs_named w -> refs_named (collect w).
Proof. intros Hn id t sid st Ht Hr [Hst _]%collect_states. by eapply Hn. Qed.

Lemma sreachable_named b endpoint w : sreachable b endpoint w -> refs_named w.
Proof.
  induction 1 as [|w l w' Hr IH (w1 & Hx & ->)%fmap_Some]; [by intros id t sid st Ht|].
  apply refs_named_collect. eapply refs_named_label; [by eapply sreachable_ok|done|done].
Qed.

(** * Refinement *)

Lemma fleet_eq w f :
  f_apps f = s_apps w -> (forall sid, f_specs f !! sid = a_spec <$> s_states w !! sid) ->
  (forall sid, f_up f !! sid = s_states w !! sid ≫= up_of (s_procs w)) -> f = fleet w.
Proof.
  destruct f as [apps specs up]. simpl. intros -> Hs Hu. unfold fleet. f_equal; apply map_eq; intros sid.
  - by rewrite Hs, lookup_fmap.
  - by rewrite Hu, lookup_omap.
Qed.

Lemma up_of_Some procs st pid :
  up_of procs st = Some pid <-> a_child st = Some pid /\ procs !! pid = Some Running.
Proof.
  unfold up_of. destruct (a_child st) as [p|]; simpl; [|naive_solver].
  destruct (procs !! p) as [[]|] eqn:Hp; naive_solver.
Qed.

(** Killing a child ends no other. *)
Lemma up_of_drop procs st c :
  (forall pid, c = Some pid -> a_child st <> Some pid) -> up_of (drop_child c procs) st = up_of procs st.
Proof.
  intros Hc. apply option_eq. intros pid. rewrite !up_of_Some, drop_child_running. naive_solver.
Qed.

Lemma up_of_dropped procs st : up_of (drop_child (a_child st) procs) st = None.
Proof. apply eq_None_not_Some. intros [pid [Hc [_ Hp]%drop_child_running]%up_of_Some]. done. Qed.

Lemma other_child w sid sid' st st' pid :
  sup_ok w -> s_states w !! sid = Some st -> s_states w !! sid' = Some st' -> sid' <> sid ->
  a_child st = Some pid -> a_child st' <> Some pid.
Proof. intros Hok Hst Hst' Hne Hc Hc'. destruct Hne. by eapply (so_inj w Hok). Qed.

Lemma forget_refines w :
  sup_ok w -> f_exec (fleet w) (FForget (dom (unused w))) = Some (fleet (collect w)).
Proof.
  intros Hok. cbn [f_exec].
  assert (Hdead : forall sid, sid ∈ dom (unused w) <-> is_Some (s_states w !! sid) /\ in_use w sid = false).
  { intros sid. rewrite elem_of_dom. unfold unused, is_Some. setoid_rewrite map_lookup_filter_Some. naive_solver. }
  rewrite option_guard_True.
  2: { intros svc sid Hs. rewrite Hdead. intros [_ Hu]. cbn [f_apps fleet] in Hs.
       assert (in_use w sid = true) by (apply in_use_spec; left; by exists svc). congruence. }
  f_equal. apply fleet_eq; [done|intros sid; cbn [f_specs f_up fleet]..].
  - apply option_eq. intros spec. rewrite map_lookup_filter_Some, lookup_fmap, Hdead, !fmap_Some.
    setoid_rewrite collect_states. destruct (in_use w sid); naive_solver.
  - apply option_eq. intros pid. rewrite map_lookup_filter_Some, lookup_omap, Hdead, !bind_Some.
    setoid_rewrite up_of_Some. setoid_rewrite collect_states. setoid_rewrite collect_running.
    split.
    + intros [(st & Hst & Hc & Hp) Hu]. exists st. split_and!; try done.
      * destruct (in_use w sid) eqn:Hi; [done|]. destruct Hu. eauto.
      * intros sid' st' Hst' Hi Hc'. assert (sid' = sid) as -> by by eapply (so_inj w Hok). destruct Hu. eauto.
    + intros (st & [Hst Hi] & Hc & Hp & _). split; [eauto|]. intros [_ Hf]. congruence.
Qed.

Lemma up_at w sid : f_up (fleet w) !! sid = s_states w !! sid ≫= up_of (s_procs w).
Proof. apply lookup_omap. Qed.

Lemma specs_at w sid : f_specs (fleet w) !! sid = a_spec <$> s_states w !! sid.
Proof. apply lookup_fmap. Qed.

Lemma same_fleet w w1 : s_states w1 = s_states w -> s_procs w1 = s_procs w -> s_apps w1 = s_apps w -> fleet w1 = fleet w.
Proof. unfold fleet. by intros -> -> ->. Qed.

(** The record of an app has changed. *)
Lemma touch_refines w l w1 t sid st st' service k :
  sup_ok w -> s_states w !! sid = Some st -> s_states w1 = <[sid := st']> (s_states w) -> s_apps w1 = s_apps w ->
  a_spec st' = a_spec st -> role t = Some (k, service) -> (a_spec st).(AppSpec.service) = service ->
  by_task w l (starts k) service -> child_change w t st st' w1 ->
  exists op, f_exec (fleet w) op = Some (fleet w1) /\ allowed w l op.
Proof.
  intros Hok Hst Hs Ha Hsp Hro Hsv Hby Hch.
  assert (Hspecs : forall s, f_specs (fleet w) !! s = a_spec <$> s_states w1 !! s).
  { intros s. rewrite specs_at, Hs. destruct (decide (s = sid)) as [->|Hne].
    - rewrite lookup_insert_eq, Hst. simpl. by rewrite Hsp.
    - by rewrite lookup_insert_ne. }
  assert (Hot : forall s, s <> sid -> s_states w1 !! s = s_states w !! s) by (intros; by rewrite Hs, lookup_insert_ne).
  assert (Hme : s_states w1 !! sid = Some st') by (by rewrite Hs, lookup_insert_eq).
  assert (Hup : forall s procs, s <> sid -> procs = drop_child (a_child st) (s_procs w) ->
    s_states w1 !! s ≫= up_of procs = f_up (fleet w) !! s).
  { intros s procs Hne ->. rewrite up_at, Hot by done. destruct (s_states w !! s) as [st0|] eqn:Hst0; [|done].
    simpl. apply up_of_drop. intros pid Hc. exact (other_child w sid s st st0 pid Hok Hst Hst0 Hne Hc). }
  destruct Hch as [Hc Hp|k' svc' Hro' Hk Hc Hp|k' svc' Hro' Hk Hc Hp].
  - exists FIdle. split; [|done]. simpl. f_equal. apply fleet_eq; [done|done|].
    intros s. rewrite up_at, Hp. destruct (decide (s = sid)) as [->|Hne]; [|by rewrite Hot].
    rewrite Hme, Hst. simpl. unfold up_of. by rewrite Hc.
  - rewrite Hro in Hro'. injection Hro' as <- <-. subst service.
    exists (FStop sid). split; [|exists st; by rewrite Hk in Hby]. simpl. f_equal. apply fleet_eq; [done|done|].
    intros s. cbn [f_up]. destruct (decide (s = sid)) as [->|Hne].
    + rewrite lookup_delete_eq, Hme. simpl. unfold up_of. by rewrite Hc.
    + rewrite lookup_delete_ne by done. symmetry. by apply Hup.
  - rewrite Hro in Hro'. injection Hro' as <- <-. subst service.
    exists (FStart sid (s_next w)). split; [|exists st; by rewrite Hk in Hby].
    assert (Hlt : forall pid, is_Some (s_procs w !! pid) -> pid <> s_next w)
      by (intros pid Hx%(so_procs w Hok); lia).
    cbn [f_exec]. rewrite option_guard_True by (rewrite specs_at, Hst; eauto).
    rewrite option_guard_True.
    2: { intros s pid. rewrite up_at. intros (st0 & _ & [_ ?]%up_of_Some)%bind_Some. eauto. }
    f_equal. apply fleet_eq; [done|done|]. intros s. cbn [f_up]. rewrite Hp. destruct (decide (s = sid)) as [->|Hne].
    + rewrite lookup_insert_eq, Hme. simpl. symmetry. apply up_of_Some. split; [done|apply lookup_insert_eq].
    + rewrite lookup_insert_ne, <-(Hup s _ Hne eq_refl), Hot by done.
      destruct (s_states w !! s) as [st0|] eqn:Hst0; [|done]. simpl. unfold up_of.
      destruct (a_child st0) as [pid|] eqn:Hc0; [|done]. simpl. rewrite lookup_insert_ne; [done|].
      apply not_eq_sym, Hlt. by eapply (so_child w Hok).
Qed.

Lemma register_refines w w1 spec :
  sup_ok w -> s_states w1 = <[s_next w := new_state spec]> (s_states w) -> s_procs w1 = s_procs w ->
  s_apps w1 = <[spec.(AppSpec.service) := s_next w]> (s_apps w) ->
  f_exec (fleet w) (FRegister (s_next w) spec) = Some (fleet w1).
Proof.
  intros Hok Hs Hp Ha.
  assert (Hf : s_states w !! s_next w = None).
  { destruct (s_states w !! s_next w) eqn:Hst; [|done]. pose proof (so_states w Hok (s_next w) ltac:(eauto)). lia. }
  cbn [f_exec]. rewrite option_guard_True by by rewrite specs_at, Hf. f_equal. apply fleet_eq; cbn [f_apps f_specs f_up].
  - by rewrite Ha.
  - intros s. rewrite Hs. destruct (decide (s = s_next w)) as [->|Hne].
    + by rewrite !lookup_insert_eq.
    + by rewrite !lookup_insert_ne, specs_at by done.
  - intros s. rewrite up_at, Hs, Hp. destruct (decide (s = s_next w)) as [->|Hne].
    + by rewrite lookup_insert_eq, Hf.
    + by rewrite lookup_insert_ne by done.
Qed.

Lemma exit_refines w pid s w1 :
  exit_proc w pid s = Some w1 -> f_exec (fleet w) (FExit pid) = Some (fleet w1).
Proof.
  intros Hx. assert (w1 = set_procs (<[pid := Exited s]> (s_procs w)) w) as ->
    by (unfold exit_proc in Hx; by destruct (s_procs w !! pid) as [[]|]; simplify_eq).
  simpl. f_equal. apply fleet_eq; [done|intros ?; apply lookup_fmap|]. intros sid. cbn [f_up].
  apply option_eq. intros p. rewrite map_lookup_filter_Some, lookup_omap, !bind_Some. setoid_rewrite up_of_Some.
  simpl. split.
  - intros [(st & Hst & Hc & Hp) Hne]. exists st. by rewrite lookup_insert_ne.
  - intros (st & Hst & Hc & [[_ ?]|[Hne Hp]]%lookup_insert_Some); [done|]. split; [eauto|done].
Qed.

Lemma label_refines w l w1 :
  sup_ok w -> refs_named w -> srun_label w l = Some w1 ->
  exists op, f_exec (fleet w) op = Some (fleet w1) /\ allowed w l op.
Proof.
  intros Hok Hn Hx.
  assert (Hidle : fleet w1 = fleet w -> exists op, f_exec (fleet w) op = Some (fleet w1) /\ allowed w l op)
    by (intros ->; by exists FIdle).
  destruct l as [spec| |spec|service|service|id io|pid s|b ctr]; simpl in Hx; simplify_eq; try by apply Hidle, same_fleet.
  - exists (FRegister (s_next w) spec). split; [by eapply register_refines|]. split; [done|by left].
  - destruct (start_all_keeps w) as (Hs & Ha & _). apply Hidle, same_fleet; [done|apply start_all_frame|done].
  - apply bind_Some in Hx as (t & Ht & Hx).
    destruct (task_effect w io id t w1 Hok Ht Hx) as [ot Hs Hp Hta Ha Hgo|k svc t' Hs Hp Hta Hro Hk Ha Hgo
      |t' sid st st' Href Hst Hs Ha Hta Hsp _ Hch Hgo|spec -> Hs Hp Ha _ _].
    + by apply Hidle, same_fleet.
    + exists (FRemove svc). split; [|by exists id, io, t, k]. simpl. rewrite <-Ha. f_equal. unfold fleet.
      by rewrite Hs, Hp.
    + destruct (Hn id t sid st Ht Href Hst) as [k Hro]. eapply (touch_refines w _ w1 t); try done.
      by exists id, io, t, k.
    + exists (FRegister (s_next w) spec). split; [by eapply register_refines|]. split; [done|]. right. eauto.
  - exists (FExit pid). split; [by eapply exit_refines|by exists s].
Qed.

(** C9: the supervisor refines the fleet. Every step of the supervisor, from
    any reachable state, is one operation on the table of apps and processes
    that only the one entitled to it performs, followed by forgetting the apps
    nobody refers to, which are in no directory: an app is started by
    [run_resident] or [ensure_up] of its own service, stopped by
    [register_or_replace] or [unregister] of its own service, entered under a
    fresh identity by [register] or [register_or_replace]; a start replaces
    the process of the app and of no other. The table accounts for every
    process that runs, and no process runs for two apps. *)
Theorem supervisor_refines_fleet b endpoint w l w' :
  sreachable b endpoint w -> sexec w l = Some w' ->
  (exists op dead f, f_exec (fleet w) op = Some f /\ allowed w l op
     /\ f_exec f (FForget dead) = Some (fleet w'))
  /\ forall pid, s_procs w' !! pid = Some Running <->
       exists sid, f_up (fleet w') !! sid = Some pid
         /\ forall sid', f_up (fleet w') !! sid' = Some pid -> sid' = sid.
Proof.
  intros Hr Hx. pose proof (sreachable_ok _ _ _ Hr) as Hok. pose proof (sexec_ok w l w' Hok Hx) as Hok'.
  split.
  - apply fmap_Some in Hx as (w1 & Hx & ->).
    destruct (label_refines w l w1 Hok (sreachable_named _ _ _ Hr) Hx) as (op & Hop & Hal).
    exists op, (dom (unused w1)), (fleet w1). split; [done|]. split; [done|].
    by apply forget_refines, (label_ok w l).
  - intros pid. setoid_rewrite up_at. split.
    + intros Hp. destruct (so_owner w' Hok' pid Hp) as (sid & st & Hst & Hc). exists sid. rewrite Hst. split.
      * by apply up_of_Some.
      * intros sid' (st' & Hst' & [Hc' _]%up_of_Some)%bind_Some. by eapply (so_inj w' Hok').
    + intros (sid & (st & _ & [_ ?]%up_of_Some)%bind_Some & _). done.
Qed.

(** * A concrete step *)

(** [ensure_up] starts [notes] during the backoff of its resident task. *)
Lemma supervisor_refines_fleet_witness :
  exists w' op, sexec (sup_run (crash_script ++ [LStep 1 sup_io; LEnsure "notes"; LStep 3 sup_io])) (LStep 3 sup_io) = Some w'
    /\ allowed (sup_run (crash_script ++ [LStep 1 sup_io; LEnsure "notes"; LStep 3 sup_io])) (LStep 3 sup_io) op
    /\ (forall pid, s_procs w' !! pid = Some Running <-> exists sid, f_up (fleet w') !! sid = Some pid
          /\ forall sid', f_up (fleet w') !! sid' = Some pid -> sid' = sid).
Proof.
  set (ls := crash_script ++ [LStep 1 sup_io; LEnsure "notes"; LStep 3 sup_io]).
  destruct (sexec (sup_run ls) (LStep 3 sup_io)) as [w'|] eqn:Hx; [|vm_compute in Hx; discriminate Hx].
  destruct (supervisor_refines_fleet _ _ (sup_run ls) (LStep 3 sup_io) w'
    (sup_run_reachable ls ltac:(vm_compute; reflexivity)) Hx) as ((op & dead & f & _ & Hal & _) & Hup).
  exists w', op. split; [reflexivity|]. split; [exact Hal|exact Hup].
Defined.
