(* ===== verification/Restarts.v ===== *)
(** A resident app is kept up (crates/supervisor/src/lib.rs, [run_resident]):
    on every fair infinite run its task starts it again after each exit, as long
    as the host leaves its registration alone. *)

From stdpp Require Import prelude gmap strings.
From S2P Require Import Prelude Lts Frame Broker Supervisor SupervisorSafety SupervisorGuarantees Fleet.

#[local] Instance sup_lts : Lts Sup SLabel := sexec.

(** * Vocabulary *)

(** The host neither registers, replaces nor unregisters the service, and
    starts no second task for it; its command can be started. *)
Definition quiet (svc : string) (id : stask_id) (l : SLabel) : bool :=
  match l with
  | LRegister spec | LReplace spec => negb (bool_decide (spec.(AppSpec.service) = svc))
  | LUnregister service => negb (bool_decide (service = svc))
  | LStartAll => false
  | LStep j io => negb (bool_decide (j = id)) || is_ok (io_spawn io)
  | LEnsure _ | LExit _ _ | LBroker _ _ => true
  end.

(** The runtime polls the task: the command can be started and the process
    awaited. *)
Definition resumes (id : stask_id) (l : SLabel) : Prop :=
  exists io, l = LStep id io /\ io_spawn io = Ok tt /\ io_wait io = Ok tt.

(** Only [ensure_up] works on the service besides the task. *)
Definition alone (w : Sup) (id : stask_id) (svc : string) : Prop :=
  forall j t k, j <> id -> s_tasks w !! j = Some t -> role t = Some (k, svc) -> k = KEnsure.

Definition resident_at (w : Sup) (id : stask_id) (svc : string) (pc : ResidentPc) : Prop :=
  s_tasks w !! id = Some (SResident svc pc).

Record settled (id : stask_id) (svc : string) (sid : app_id) (w : Sup) : Prop := {
  se_ok : sup_ok w;
  se_named : refs_named w;
  se_app : s_apps w !! svc = Some sid;
  se_alone : alone w id svc;
  se_task : exists pc, resident_at w id svc pc
    /\ (res_ref pc = Some sid \/ pc = RLookup)
    /\ (pc = RRelock sid -> exists st, s_states w !! sid = Some st /\ is_Some (a_child st))
}.

(** How the task goes round. *)
Inductive round (sid : app_id) : ResidentPc -> ResidentPc -> Prop :=
| rd_lookup : round sid RLookup (RLock sid)
| rd_lock : round sid (RLock sid) (RRelock sid)
| rd_retry d : round sid (RRetry sid d) RLookup
| rd_relock pid : round sid (RRelock sid) (RWait sid pid)
| rd_wait pid status : round sid (RWait sid pid) (RExited sid status)
| rd_exited status d : round sid (RExited sid status) (RSleep sid d)
| rd_sleep d : round sid (RSleep sid d) RLookup.

(** The steps left until the app is started. *)
Definition to_start (pc : ResidentPc) : nat :=
  match pc with
  | RRelock _ => 0 | RLock _ => 1 | RLookup => 2 | RSleep _ _ | RRetry _ _ => 3 | RExited _ _ => 4 | RWait _ _ => 5
  end.
Definition restart_rank (id : stask_id) (w : Sup) : nat :=
  match s_tasks w !! id with Some (SResident _ pc) => to_start pc | _ => 0 end.

(** [old], if there is one, has exited and has been replaced. *)
Definition gone (w : Sup) (old : option proc_id) : Prop :=
  forall pid, old = Some pid -> exists s, s_procs w !! pid = Some (Exited s).

Definition starting id svc sid old (w : Sup) : Prop :=
  settled id svc sid w /\ gone w old
  /\ exists pc, resident_at w id svc pc /\ pc <> RRelock sid /\ (forall pid, pc = RWait sid pid -> old = Some pid).

Definition started id svc sid old (w : Sup) : Prop :=
  settled id svc sid w /\ gone w old /\ resident_at w id svc (RRelock sid)
  /\ forall st, s_states w !! sid = Some st -> a_child st <> old.

Definition waiting id svc sid old (w : Sup) : Prop :=
  exists pid, resident_at w id svc (RWait sid pid) /\ old <> Some pid.

(** * What the steps of others leave *)

Lemma exited_label w l w1 pid s :
  sup_ok w -> srun_label w l = Some w1 -> s_procs w !! pid = Some (Exited s) -> s_procs w1 !! pid = Some (Exited s).
Proof.
  intros Hok Hx Hp. pose proof (so_procs w Hok pid ltac:(eauto)) as Hlt.
  assert (Hd : forall c, drop_child c (s_procs w) !! pid = Some (Exited s)) by (intros c; by rewrite drop_child_lookup, Hp).
  destruct l as [spec| |spec|service|service|j io|pid' s'|b ctr]; simpl in Hx; simplify_eq; try done.
  - by rewrite (proj1 (start_all_frame w)).
  - apply bind_Some in Hx as (t & Ht & Hx).
    destruct (task_effect w io j t w1 Hok Ht Hx) as [? _ -> _ _ _|? ? ? _ -> _ _ _ _ _|? ? ? ? _ _ _ _ _ _ _ Hch _|? _ _ -> _ _ _]; try done.
    destruct Hch as [_ ->|? ? _ _ _ ->|? ? _ _ _ ->]; [done|done|]. rewrite lookup_insert_ne by lia. apply Hd.
  - unfold exit_proc in Hx. destruct (s_procs w !! pid') as [[]|] eqn:Hp'; simplify_eq; simpl; rewrite lookup_insert_ne; congruence.
Qed.

Lemma gone_step w l w' old : sup_ok w -> sexec w l = Some w' -> gone w old -> gone w' old.
Proof.
  intros Hok (w1 & Hx & ->)%fmap_Some Hg pid ->. destruct (Hg pid eq_refl) as [s Hp]. exists s.
  pose proof (exited_label w l w1 pid s Hok Hx Hp) as Hp1. unfold collect. simpl.
  induction (map_to_list (unused w1)) as [|[sid st] ls IH]; [done|]. simpl. by rewrite drop_child_lookup, IH.
Qed.

(** What a quiet step does to the app. *)
Lemma quiet_app id svc sid w l w1 st :
  settled id svc sid w -> quiet svc id l = true -> srun_label w l = Some w1 -> s_states w !! sid = Some st ->
  s_apps w1 !! svc = Some sid
  /\ exists st', s_states w1 !! sid = Some st' /\ (a_child st' = a_child st \/ a_child st' = Some (s_next w)).
Proof.
  intros Hse Hq Hx Hst. pose proof (se_ok _ _ _ _ Hse) as Hok. pose proof (se_app _ _ _ _ Hse) as Ha.
  pose proof (so_states w Hok sid ltac:(eauto)) as Hlt.
  assert (Hsv : (a_spec st).(AppSpec.service) = svc) by (destruct (so_apps w Hok _ _ Ha) as (? & ? & ?); by simplify_eq).
  destruct l as [spec| |spec|service|service|j io|pid' s'|b ctr]; simpl in Hx; simplify_eq; try (split; [done|]; by exists st; auto).
  - simpl in Hq. apply negb_true_iff, bool_decide_eq_false in Hq. simpl. rewrite !lookup_insert_ne by (done || lia). eauto.
  - apply bind_Some in Hx as (t & Ht & Hx).
    assert (Hby : forall k, role t = Some (k, (a_spec st).(AppSpec.service)) -> starts k = true).
    { intros k Hro. destruct (decide (j = id)) as [->|Hne].
      - destruct (se_task _ _ _ _ Hse) as (pc & Hpc & _). unfold resident_at in Hpc. by simplify_eq/=.
      - by rewrite (se_alone _ _ _ _ Hse j t k Hne Ht Hro). }
    destruct (task_effect w io j t w1 Hok Ht Hx) as [? -> _ _ -> _|k s' ? -> _ _ Hro Hk -> _
      |? sid' st0 st' Href Hst0 -> -> _ _ _ Hch _|spec -> -> _ -> _ _].
    + eauto.
    + rewrite lookup_delete_ne; [eauto|]. intros ->. by rewrite (Hby k Hro) in Hk.
    + split; [done|]. destruct (decide (sid' = sid)) as [->|Hne]; [|rewrite lookup_insert_ne by done; eauto].
      rewrite lookup_insert_eq. simplify_eq. exists st'. split; [done|].
      destruct Hch as [Hc _|k s' Hro Hk _ _|k s' _ _ Hc _]; [by left| |by right].
      destruct (se_named _ _ _ _ Hse _ _ _ _ Ht Href Hst) as [k' Hro']. rewrite Hro in Hro'. injection Hro' as -> ->.
      by rewrite (Hby k' Hro) in Hk.
    + assert (Hne : spec.(AppSpec.service) <> (a_spec st).(AppSpec.service)).
      { intros Heq. specialize (Hby KReplace). simpl in Hby. rewrite Heq in Hby. by discriminate Hby. }
      rewrite !lookup_insert_ne by (done || lia). eauto.
  - unfold exit_proc in Hx. destruct (s_procs w !! pid') as [[]|]; simplify_eq; simpl; eauto.
Qed.

(** No task but [ensure_up] comes to the service. *)
Lemma quiet_alone id svc sid w l w1 :
  settled id svc sid w -> quiet svc id l = true -> srun_label w l = Some w1 -> alone w1 id svc.
Proof.
  intros Hse Hq Hx. pose proof (se_ok _ _ _ _ Hse) as Hok.
  assert (Hsame : forall w2, (forall j t, j <> id -> s_tasks w2 !! j = Some t -> s_tasks w !! j = Some t
    \/ forall k, role t = Some (k, svc) -> k = KEnsure) -> alone w2 id svc).
  { intros w2 Hw j t k Hne Hj Hro. destruct (Hw j t Hne Hj) as [?|Hk]; [by eapply (se_alone _ _ _ _ Hse)|by apply Hk]. }
  assert (Hspawn : forall t0, (forall k, role t0 = Some (k, svc) -> k = KEnsure) -> alone (spawn_task t0 w) id svc).
  { intros t0 H0. apply Hsame. simpl. intros j t _ [[_ <-]|[_ ?]]%lookup_insert_Some; auto. }
  destruct l as [spec| |spec|service|service|j io|pid' s'|b ctr]; simpl in Hx, Hq; simplify_eq;
    try apply negb_true_iff, bool_decide_eq_false in Hq.
  - apply Hsame. auto.
  - apply Hspawn. simpl. congruence.
  - apply Hspawn. simpl. congruence.
  - apply Hspawn. simpl. congruence.
  - apply bind_Some in Hx as (t & Ht & Hx).
    assert (Hmove : forall ot w2, goes_on w t ot -> s_tasks w2 = partial_alter (fun _ => ot) j (s_tasks w) -> alone w2 id svc).
    { intros ot w2 Hgo Hta. apply Hsame. intros i t' Hne. rewrite Hta.
      destruct (decide (i = j)) as [->|Hij]; [|rewrite lookup_partial_alter_ne by done; auto].
      rewrite lookup_partial_alter_eq. intros Ho. right. intros k Hro.
      destruct (Hgo t' Ho) as [[Hr|[r ->]] _]; [|done]. rewrite Hr in Hro. by eapply (se_alone _ _ _ _ Hse). }
    destruct (task_effect w io j t w1 Hok Ht Hx) as [? _ _ Hta _ Hgo|? ? ? _ _ Hta _ _ _ Hgo|? ? ? ? _ _ _ _ Hta _ _ _ Hgo
      |spec -> _ _ _ Hme Hta]; [by eapply Hmove..|].
    apply Hsame. intros i t' Hne Hi. destruct (decide (i = j)) as [->|Hij].
    { right. intros k Hro. rewrite Hme in Hi. by injection Hi as <-. }
    destruct (Hta i t' Hij Hi) as [|[_ ->]]; [by left|right]. simpl. intros k [= <- Heq].
    destruct (decide (j = id)) as [->|Hj].
    + destruct (se_task _ _ _ _ Hse) as (pc & Hpc & _). unfold resident_at in Hpc. congruence.
    + exfalso. assert (KReplace = KEnsure) by (eapply (se_alone _ _ _ _ Hse); [exact Hj|exact Ht|by rewrite <-Heq]). done.
  - apply Hsame. unfold exit_proc in Hx. destruct (s_procs w !! pid') as [[]|]; simplify_eq; auto.
  - apply Hsame. auto.
Qed.

(** The guard of the app is free, or the task's own. *)
Lemma settled_lock id svc sid w st j :
  settled id svc sid w -> s_states w !! sid = Some st -> a_lock st = Some j -> j = id.
Proof.
  intros Hse Hst Hl. pose proof (se_ok _ _ _ _ Hse) as Hok.
  destruct (so_lock w Hok _ _ _ Hst Hl) as (t & Ht & Hh). destruct (decide (j = id)) as [|Hne]; [done|exfalso].
  destruct (so_apps w Hok _ _ (se_app _ _ _ _ Hse)) as (st' & Hst' & Hsv). simplify_eq.
  destruct (se_named _ _ _ _ Hse _ _ _ _ Ht (holds_ref _ _ Hh) Hst) as [k Hro].
  pose proof (se_alone _ _ _ _ Hse j t k Hne Ht Hro) as ->. by destruct t as [| | |? []|].
Qed.

(** * The steps of the task *)

Lemma resident_step id svc sid w pc io w1 :
  settled id svc sid w -> resident_at w id svc pc -> io_spawn io = Ok tt ->
  srun_label w (LStep id io) = Some w1 ->
  exists pc', resident_at w1 id svc pc' /\ round sid pc pc'
    /\ (pc' = RRelock sid -> exists st, s_states w1 !! sid = Some st /\ a_child st = Some (s_next w)).
Proof.
  intros Hse Hpc Hio Hx. destruct (se_task _ _ _ _ Hse) as (pc0 & Hpc0 & Href & Hre).
  unfold resident_at in *. simplify_eq. simpl in Hx. rewrite Hpc in Hx. simpl in Hx.
  destruct pc as [|s|s d|s|s pid|s status|s d]; simpl in Hx, Href;
    try (destruct Href as [[= ->]|Href]; [|done]).
  - rewrite (se_app _ _ _ _ Hse) in Hx. injection Hx as <-. eexists.
    split; [apply lookup_insert_eq|]. split; [constructor|done].
  - apply bind_Some in Hx as (st & Ha & Hx). destruct (spawn_once w io sid st) as [w2 r] eqn:Hs.
    destruct (spawn_child w io sid st w2 r Hs) as (_ & _ & [(-> & _ & st' & Hst & _ & _ & Hc & _)|(Hr & _)]).
    + injection Hx as <-. eexists. split; [apply lookup_insert_eq|]. split; [constructor|].
      intros _. exists st'. simpl. rewrite Hst, lookup_insert_eq. done.
    + unfold spawn_once in Hs. destruct (Broker.issue_token _ _ _ _ _) as [[b ctr] token]. rewrite Hio in Hs.
      simpl in Hs. injection Hs as _ <-. done.
  - apply bind_Some in Hx as (st & _ & [= <-]). eexists. split; [apply lookup_insert_eq|]. split; [constructor|done].
  - apply bind_Some in Hx as (st & [Hst _]%acquire_Some & Hx). destruct (Hre eq_refl) as (st' & Hst' & [pid Hc]).
    assert (st' = st) as -> by congruence. rewrite Hc in Hx. injection Hx as <-. eexists. split; [apply lookup_insert_eq|]. split; [constructor|done].
  - apply bind_Some in Hx as (st & _ & (status & _ & [= <-])%bind_Some).
    eexists. split; [apply lookup_insert_eq|]. split; [constructor|done].
  - apply bind_Some in Hx as (st & _ & [= <-]). eexists. split; [apply lookup_insert_eq|]. split; [constructor|done].
  - injection Hx as <-. eexists. split; [apply lookup_insert_eq|]. split; [constructor|done].
Qed.

Lemma resident_enabled id svc sid w pc :
  settled id svc sid w -> resident_at w id svc pc ->
  (forall pid, pc = RWait sid pid -> exists s, s_procs w !! pid = Some (Exited s)) ->
  enabled (resumes id) w.
Proof.
  intros Hse Hpc Hw. destruct (se_task _ _ _ _ Hse) as (pc0 & Hpc0 & Href & _).
  assert (Hst : exists st, s_states w !! sid = Some st).
  { destruct (so_apps w (se_ok _ _ _ _ Hse) _ _ (se_app _ _ _ _ Hse)) as (st & ? & _). eauto. }
  destruct Hst as [st Hst].
  assert (Hfree : task_holds (SResident svc pc) <> Some sid -> acquire w sid = Some st).
  { intros Hh. apply acquire_Some. split; [done|]. destruct (a_lock st) as [j|] eqn:Hl; [|done].
    pose proof (settled_lock id svc sid w st j Hse Hst Hl) as ->.
    destruct (so_lock w (se_ok _ _ _ _ Hse) _ _ _ Hst Hl) as (t & Ht & Hh'). unfold resident_at in Hpc. by simplify_eq. }
  set (io := mkIo None 0 0 (Ok tt) (Ok tt) (Ok tt)).
  exists (LStep id io). split; [by exists io|].
  unfold resident_at in *. simplify_eq. unfold step, sup_lts, sexec. simpl. rewrite Hpc. simpl.
  destruct pc as [|s|s d|s|s pid|s status|s d]; simpl in Href; try (destruct Href as [[= ->]|Href]; [|done]); simpl.
  - eauto.
  - rewrite Hfree by done. simpl. eauto.
  - rewrite Hst. simpl. eauto.
  - rewrite Hfree by done. simpl. eauto.
  - rewrite Hst. simpl. unfold waited. simpl. destruct (Hw pid eq_refl) as [s ->]. simpl. eauto.
  - rewrite Hst. simpl. eauto.
  - eauto.
Qed.

Lemma is_relock pc sid : pc = RRelock sid \/ pc <> RRelock sid.
Proof. destruct pc as [| | |s| | |]; try by right. destruct (decide (s = sid)) as [->|]; [by left|right; congruence]. Qed.

(** A quiet step of the supervisor, seen from the task. *)
Lemma quiet_step id svc sid w l w' pc :
  settled id svc sid w -> quiet svc id l = true -> sexec w l = Some w' -> resident_at w id svc pc ->
  settled id svc sid w'
  /\ exists pc', resident_at w' id svc pc'
       /\ (((forall io, l <> LStep id io) /\ pc' = pc) \/ ((exists io, l = LStep id io) /\ round sid pc pc'))
       /\ forall st', s_states w' !! sid = Some st' ->
            a_child st' = Some (s_next w)
            \/ ((pc' = RRelock sid -> pc = RRelock sid)
                /\ exists st, s_states w !! sid = Some st /\ a_child st' = a_child st).
Proof.
  intros Hse Hq Hx Hpc. pose proof (se_ok _ _ _ _ Hse) as Hok. pose proof (sexec_ok w l w' Hok Hx) as Hok'.
  apply fmap_Some in Hx as (w1 & Hx & ->).
  destruct (so_apps w Hok _ _ (se_app _ _ _ _ Hse)) as (st & Hst & _).
  destruct (quiet_app id svc sid w l w1 st Hse Hq Hx Hst) as (Ha & st1 & Hst1 & Hch).
  assert (Hst' : s_states (collect w1) !! sid = Some st1).
  { apply collect_states. split; [done|]. apply in_use_spec. left. by exists svc. }
  assert (Hnamed : refs_named (collect w1)) by exact (refs_named_collect w1 (refs_named_label w l w1 Hok (se_named _ _ _ _ Hse) Hx)).
  pose proof (quiet_alone id svc sid w l w1 Hse Hq Hx) as Hal.
  destruct (se_task _ _ _ _ Hse) as (pc0 & Hpc0 & Href & Hre). unfold resident_at in *. simplify_eq.
  assert (Hown : (forall io, l <> LStep id io) \/ exists io, l = LStep id io /\ io_spawn io = Ok tt).
  { destruct l as [| | | | |j io| |]; try (left; done). destruct (decide (j = id)) as [->|]; [right|left; congruence].
    exists io. split; [done|]. simpl in Hq. rewrite bool_decide_eq_true_2 in Hq by done. by destruct (io_spawn io) as [[]|]. }
  destruct Hown as [Hne|(io & -> & Hio)].
  - assert (Hpc1 : s_tasks w1 !! id = Some (SResident svc pc)) by (by apply (label_frame w l w1 Hok Hx)).
    split; [|exists pc; split; [done|]; split; [by left|]; intros st' Hs; rewrite Hst' in Hs; injection Hs as <-;
      destruct Hch as [Hc|Hc]; [right; split; [done|eauto]|by left]].
    split; try done. exists pc. split; [done|]. split; [done|]. intros Hp. exists st1. split; [done|].
    destruct (Hre Hp) as (st0 & Hst0 & Hc0). simplify_eq. destruct Hch as [-> | ->]; [done|eauto].
  - destruct (resident_step id svc sid w pc io w1 Hse Hpc Hio Hx) as (pc' & Hpc' & Hrd & Hc).
    split; [|exists pc'; split; [done|]; split; [right; eauto|]].
    + split; try done. exists pc'. split; [done|]. split; [inversion Hrd; subst; auto|].
      intros Hp. destruct (Hc Hp) as (st2 & Hst2 & Hc2). exists st1. split; [done|]. simplify_eq. eauto.
    + intros st' Hs. rewrite Hst' in Hs. injection Hs as <-. destruct Hch as [Hch|Hch]; [|by left].
      destruct (is_relock pc' sid) as [Hp|Hp]; [left|right; split; [done|eauto]].
      destruct (Hc Hp) as (st2 & Hst2 & Hc2). congruence.
Qed.

(** * Progress *)

Section progress.
Context (id : stask_id) (svc : string) (sid : app_id).

#[local] Instance quiet_lts : Lts Sup SLabel := confined (H := sup_lts) (quiet svc id).

Lemma quiet_lts_step w l w' : step w l = Some w' -> quiet svc id l = true /\ sexec w l = Some w'.
Proof. unfold step, quiet_lts, confined. by destruct (quiet svc id l). Qed.

Lemma resumes_quiet l : resumes id l -> quiet svc id l = true.
Proof. intros (io & -> & Hio & _). simpl. rewrite Hio. simpl. by rewrite orb_true_r. Qed.

Lemma resumes_enabled w : enabled (H := sup_lts) (resumes id) w -> enabled (resumes id) w.
Proof.
  intros (l & Hl & Hs). exists l. split; [done|]. unfold step, quiet_lts, confined. by rewrite resumes_quiet.
Qed.

Lemma starting_step old w l w' :
  starting id svc sid old w -> step w l = Some w' ->
  started id svc sid old w'
  \/ (starting id svc sid old w' /\ restart_rank id w' <= restart_rank id w
      /\ (resumes id l -> restart_rank id w' < restart_rank id w)).
Proof.
  intros (Hse & Hg & pc & Hpc & Hne & Hw) [Hq Hx]%quiet_lts_step.
  pose proof (gone_step w l w' old (se_ok _ _ _ _ Hse) Hx Hg) as Hg'.
  destruct (quiet_step id svc sid w l w' pc Hse Hq Hx Hpc) as (Hse' & pc' & Hpc' & Hmv & Hc).
  assert (Hrank : restart_rank id w = to_start pc /\ restart_rank id w' = to_start pc')
    by (unfold restart_rank; by rewrite Hpc, Hpc').
  destruct Hrank as [-> ->].
  destruct Hmv as [[Hl ->]|[_ Hrd]].
  - right. split; [split; [done|]; split; [done|]; by exists pc|]. split; [lia|]. intros (io & -> & _). by destruct (Hl io).
  - destruct (is_relock pc' sid) as [->|Hne'].
    + left. split; [done|]. split; [done|]. split; [done|]. intros st' Hst' Ho.
      destruct (Hc st' Hst') as [Hs|[Hs _]]; [|by destruct Hne, Hs].
      rewrite Hs in Ho. destruct (Hg (s_next w) (eq_sym Ho)) as [s Hp].
      pose proof (so_procs w (se_ok _ _ _ _ Hse) (s_next w) ltac:(eauto)). lia.
    + right. assert (Hlt : to_start pc' < to_start pc) by (inversion Hrd; subst; simpl; try lia; done).
      split; [|split; [lia|done]]. split; [done|]. split; [done|]. exists pc'. split; [done|]. split; [done|].
      intros pid ->. inversion Hrd; subst; done.
Qed.

Lemma start_progress old :
  progress (starting id svc sid old) (started id svc sid old) (restart_rank id) (resumes id).
Proof.
  split.
  - intros w (Hse & Hg & pc & Hpc & _ & Hw). apply resumes_enabled. eapply resident_enabled; [done|done|].
    intros pid ->. by apply Hg, Hw.
  - intros w l w' Hj Hx. destruct (starting_step old w l w' Hj Hx) as [|(? & ? & _)]; auto.
  - intros w l w' Hj Hl Hx. destruct (starting_step old w l w' Hj Hx) as [|(? & _ & ?)]; auto.
Qed.

Lemma started_step old w l w' :
  started id svc sid old w -> step w l = Some w' ->
  waiting id svc sid old w' \/ (started id svc sid old w' /\ ~ resumes id l).
Proof.
  intros (Hse & Hg & Hpc & Hch) [Hq Hx]%quiet_lts_step.
  destruct (quiet_step id svc sid w l w' _ Hse Hq Hx Hpc) as (Hse' & pc' & Hpc' & Hmv & Hc).
  assert (Hch' : forall st', s_states w' !! sid = Some st' -> a_child st' <> old).
  { intros st' Hst' Ho. destruct (Hc st' Hst') as [Hs|(_ & st & Hst & Hs)].
    - rewrite Hs in Ho. destruct (Hg (s_next w) (eq_sym Ho)) as [s Hp].
      pose proof (so_procs w (se_ok _ _ _ _ Hse) (s_next w) ltac:(eauto)). lia.
    - rewrite Hs in Ho. by destruct (Hch st Hst). }
  destruct Hmv as [[Hl ->]|[_ Hrd]].
  - right. split; [split; [done|]; split; [by eapply gone_step; [apply Hse|..]|done]|].
    intros (io & -> & _). by destruct (Hl io).
  - left. inversion Hrd as [| | |pid| | |]; subst. exists pid. split; [done|]. intros ->.
    destruct (so_refs w' (se_ok _ _ _ _ Hse') _ _ sid Hpc' eq_refl) as [st' Hst'].
    apply (Hch' st' Hst'). by eapply (so_wait w' (se_ok _ _ _ _ Hse')).
Qed.

Lemma wait_progress old :
  progress (started id svc sid old) (waiting id svc sid old) (fun _ => 0) (resumes id).
Proof.
  split.
  - intros w (Hse & Hg & Hpc & _). apply resumes_enabled. by eapply resident_enabled.
  - intros w l w' Hj Hx. destruct (started_step old w l w' Hj Hx) as [|[? _]]; auto.
  - intros w l w' Hj Hl Hx. destruct (started_step old w l w' Hj Hx) as [|[_ Hn]]; [auto|done].
Qed.
End progress.

(** * The property *)

Lemma settled_start b endpoint id svc sid pc w :
  sreachable b endpoint w -> s_apps w !! svc = Some sid -> alone w id svc ->
  resident_at w id svc pc -> (pc = RLookup \/ exists pid, pc = RWait sid pid) -> settled id svc sid w.
Proof.
  intros Hr Ha Hal Hpc Hcase. split; [by eapply sreachable_ok|by eapply sreachable_named|done|done|].
  exists pc. split; [done|]. by destruct Hcase as [->|[pid ->]]; (split; [auto|]).
Qed.

(** C10: a resident app is kept up. Take any infinite run of the supervisor
    from a reachable state in which the resident task of a registered app
    starts, or waits for its child, and no other task but [ensure_up] works on
    the service; the host leaves the registration alone, the command can be
    started, and the runtime goes on polling the task. Then at every instant
    the task waits for a child that has not exited, or it will have started a
    new process for the app and wait for a child that is not the one that has
    exited; so the app is started again after each of its exits. *)
Theorem resident_restarts b endpoint (e : execution Sup SLabel) id svc sid pc n :
  sreachable b endpoint (at_ e 0) -> s_apps (at_ e 0) !! svc = Some sid -> alone (at_ e 0) id svc ->
  resident_at (at_ e 0) id svc pc -> (pc = RLookup \/ exists pid, pc = RWait sid pid) ->
  (forall m l, taken e m = Some l -> quiet svc id l = true) -> fair e (resumes id) ->
  (exists pid, resident_at (at_ e n) id svc (RWait sid pid) /\ forall s, s_procs (at_ e n) !! pid <> Some (Exited s))
  \/ exists i m pid, n <= i <= m /\ resident_at (at_ e i) id svc (RRelock sid)
       /\ resident_at (at_ e m) id svc (RWait sid pid)
       /\ ~ resident_at (at_ e n) id svc (RWait sid pid).
Proof.
  intros Hr Ha Hal Hpc Hcase Hq Hf.
  set (c := confine e (quiet svc id) Hq).
  pose proof (confine_fair e (quiet svc id) Hq (resumes id) (resumes_quiet id svc) Hf) as Hfc. fold c in Hfc.
  assert (Hse : settled id svc sid (at_ e n)).
  { apply (execution_invariant c (settled id svc sid) 0); [|by eapply settled_start|lia].
    intros k l _ Hk _ [Hql Hx]%quiet_lts_step. destruct (se_task _ _ _ _ Hk) as (pk & Hpk & _).
    by destruct (quiet_step id svc sid _ l _ pk Hk Hql Hx Hpk). }
  destruct (se_task _ _ _ _ Hse) as (pn & Hpn & Href & Hre).
  assert (Hup : forall old i, n <= i -> (forall pid, resident_at (at_ e n) id svc (RWait sid pid) -> old = Some pid) ->
    started id svc sid old (at_ e i) ->
    exists i m pid, n <= i <= m /\ resident_at (at_ e i) id svc (RRelock sid)
       /\ resident_at (at_ e m) id svc (RWait sid pid) /\ ~ resident_at (at_ e n) id svc (RWait sid pid)).
  { intros old i Hi Hold Hs. destruct (fair_reaches c _ _ _ _ (wait_progress id svc sid old) Hfc i Hs) as (m & Hm & pid & Hw & Hne).
    exists i, m, pid. split; [lia|]. split; [apply Hs|]. split; [exact Hw|]. intros Hx. exact (Hne (Hold pid Hx)). }
  assert (Hgo : forall old, gone (at_ e n) old -> pn <> RRelock sid -> (forall pid, pn = RWait sid pid -> old = Some pid) ->
    exists i m pid, n <= i <= m /\ resident_at (at_ e i) id svc (RRelock sid)
       /\ resident_at (at_ e m) id svc (RWait sid pid) /\ ~ resident_at (at_ e n) id svc (RWait sid pid)).
  { intros old Hg Hne Hw.
    destruct (fair_reaches c _ _ _ _ (start_progress id svc sid old) Hfc n) as (i & Hi & Hs).
    { split; [done|]. split; [done|]. by exists pn. }
    apply (Hup old i Hi); [|exact Hs]. intros pid Hx. apply Hw. unfold resident_at in *. congruence. }
  destruct (is_relock pn sid) as [->|Hne].
  - right. apply (Hup None n); [done| |].
    + intros pid Hx. unfold resident_at in *. congruence.
    + split; [done|]. split; [by intros pid|]. split; [done|]. intros st Hst Hc.
      destruct (Hre eq_refl) as (st' & Hst' & [p Hp]). congruence.
  - destruct pn as [|s|s d|s|s pid|s status|s d]; try (right; by apply (Hgo None)).
    destruct Href as [[= ->]|]; [|done].
    destruct (s_procs (at_ e n) !! pid) as [[| |s]|] eqn:Hp; [left; exists pid; rewrite Hp; by split..| |left; exists pid; rewrite Hp; by split].
    right. apply (Hgo (Some pid)); [|done|by intros ? [= ->]]. intros ? [= <-]. by exists s.
Qed.

(** * A concrete run *)

(** The app is started, crashes, and is started again; then nothing happens. *)
Definition began_script : list SLabel := [LRegister (notes_spec Lifecycle.Resident); LStartAll].
Definition began : Sup := sup_run began_script.
Definition restart_script : list SLabel :=
  replicate 3 (LStep 1 sup_io) ++ [LExit 2 (ExitCode 1)] ++ replicate 6 (LStep 1 sup_io).

Lemma restart_runs : bool_decide (is_Some (after began restart_script)) = true.
Proof. vm_compute. reflexivity. Qed.

Lemma restart_ends :
  (fun w => (s_tasks w !! 1%N, s_procs w !! 3%N)) <$> after began restart_script
  = Some (Some (SResident "notes" (RWait 0 3)), Some Running).
Proof. vm_compute. reflexivity. Qed.

(** After the exit, the task comes to wait for another child than 2. *)
Lemma resident_restarts_witness :
  exists w (Hs : after began restart_script = Some w) m pid,
    let e := execution_of began restart_script w Hs in
    s_procs (at_ e 4) !! 2%N = Some (Exited (ExitCode 1))
    /\ resident_at (at_ e m) 1 "notes" (RWait 0 pid) /\ ~ resident_at (at_ e 4) 1 "notes" (RWait 0 pid).
Proof.
  assert (Hex : exists w, after began restart_script = Some w).
  { pose proof restart_runs as Hr. apply bool_decide_eq_true in Hr as [w Hw]. exists w. exact Hw. }
  destruct Hex as (w & Hs). exists w, Hs.
  pose proof restart_ends as He. rewrite Hs in He. apply Some_inj in He. injection He as Ht Hp.
  assert (Hx : s_procs (at_ (execution_of began restart_script w Hs) 4) !! 2%N = Some (Exited (ExitCode 1)))
    by (vm_compute; reflexivity).
  destruct (resident_restarts (Broker.new BrokerConfig.default) "/run/tokimo/bus.sock"
    (execution_of began restart_script w Hs) 1 "notes" 0 RLookup 4) as [(pid & Hw & Hn)|(i & m & pid & _ & _ & Hw & Hn)].
  - apply sup_run_reachable. vm_compute. reflexivity.
  - vm_compute. reflexivity.
  - intros j t k Hne Hj Hro. destruct (decide (j = 1%N)) as [Heq|Hne1]; [destruct (Hne Heq)|].
    exfalso. change (at_ (execution_of began restart_script w Hs) 0) with began in Hj.
    assert (Hta : s_tasks began = {[1%N := SResident "notes" RLookup]}) by (vm_compute; reflexivity).
    rewrite Hta in Hj. apply lookup_singleton_Some in Hj as [Heq _]. exact (Hne (eq_sym Heq)).
  - vm_compute. reflexivity.
  - left. reflexivity.
  - intros m l Hl. change (restart_script !! m = Some l) in Hl.
    assert (Hall : Forall (fun l => quiet "notes" 1 l = true) restart_script)
      by (unfold restart_script; repeat constructor).
    exact (Forall_lookup_1 _ _ _ _ Hall Hl).
  - apply execution_of_fair. intros (l & (io & -> & _ & Hio) & [w' Hw']).
    unfold step, sup_lts, sexec in Hw'. simpl in Hw'. rewrite Ht in Hw'. simpl in Hw'.
    destruct (s_states w !! 0%N) as [st|]; [|discriminate Hw']. simpl in Hw'.
    unfold waited in Hw'. rewrite Hio, Hp in Hw'. discriminate Hw'.
  - assert (Hpid : resident_at (at_ (execution_of began restart_script w Hs) 4) 1 "notes" (RWait 0 2)) by (vm_compute; reflexivity).
    unfold resident_at in Hw, Hpid. rewrite Hpid in Hw. injection Hw as <-. destruct (Hn _ Hx).
  - exists m, pid. split; [exact Hx|]. split; [exact Hw|exact Hn].
Defined.
