(* ===== verification/Launch.v ===== *)
(** The deployment: the broker process with its apps ([Net]) and the
    supervisor, which share one [Broker] object and the static counter of
    [random_token] (crates/supervisor/src/lib.rs, crates/broker/src/broker.rs).

    A step of the deployment is a step of one of the two; the other sees the
    broker it leaves behind.  [d_grants] records who every token was issued
    for, in order: the host, through the public [issue_token], or a child the
    supervisor started or failed to start. *)

From stdpp Require Import prelude gmap strings.
From S2P Require Import Prelude Frame Runtime Registry Broker Session System Invariant Steps History Serving Transport ClientConfig Client Net Supervisor SupervisorSafety.

(** * Grants *)

Inductive Holder := ForHost | ForChild (pid : proc_id) | ForNobody.
Record Grant := mkGrant { gr_service : string; gr_token : string; gr_holder : Holder }.

(** The state and the observations with which a step of the supervisor runs
    [spawn_once], if it does. *)
Definition spawning (w : Sup) (l : SLabel) : option (AppState * Io) :=
  match l with
  | Supervisor.LStep id io =>
      t ← s_tasks w !! id;
      match t with
      | SResident _ (RLock sid) => st ← acquire w sid; Some (st, io)
      | SEnsure _ (ELock sid) =>
          st ← acquire w sid;
          match a_child st, io_try_wait io with
          | None, _ => Some (st, io)
          | Some pid, Ok _ => match s_procs w !! pid with Some (Exited _) => Some (st, io) | _ => None end
          | Some _, Err _ => None
          end
      | _ => None
      end
  | _ => None
  end.

(** The token of that [spawn_once], and who gets it. *)
Definition spawn_token (w : Sup) (st : AppState) (io : Io) : string :=
  (Broker.issue_token (s_broker w) (io_now_ns io) (io_own_pid io) (s_ctr w)
     (a_spec st).(AppSpec.service)).2.
Definition spawn_grant (w : Sup) (st : AppState) (io : Io) : Grant :=
  mkGrant (a_spec st).(AppSpec.service) (spawn_token w st io)
    (match io_spawn io with Ok _ => ForChild (s_next w) | Err _ => ForNobody end).
Definition sup_grants (w : Sup) (l : SLabel) : list Grant :=
  match spawning w l with Some (st, io) => [spawn_grant w st io] | None => [] end.

Section launch.
Context {Q Nt : Type} `{LawfulMpsc Q BusFrame, LawfulNotify Nt}.
Context (parse : bytes -> result CapabilityResponse string) (dbg : BusFrame -> string).
Context (handles : InvokeHandler -> bytes -> CallerCtx -> result bytes BusError -> Prop).
Context (resolves : LocalServiceHandler -> CallArgs -> result bytes BusError -> Prop).

Definition net_grants (s : Net Q Nt) (l : NLabel) : list Grant :=
  match l with
  | NBroker (LIssueToken now pid service) =>
      [mkGrant service
         (Broker.issue_token (broker (world s)) now pid (token_ctr (world s)) service).2 ForHost]
  | _ => []
  end.

(** * The deployment *)

Record Deployment := mkDeployment { d_net : Net Q Nt; d_sup : Sup; d_grants : list Grant }.

Inductive DLabel := DNet (l : NLabel) | DSup (l : SLabel).

(** The world in which the supervisor has changed the broker. *)
Definition shared (w : Sup) (s : Net Q Nt) : Net Q Nt :=
  mkNet (set_token_ctr (s_ctr w) (System.set_broker (s_broker w) (world s))) (apps s).

Definition dexec (d : Deployment) (l : DLabel) : option Deployment :=
  match l with
  | DNet l =>
      s ← nexec parse dbg (d_net d) l;
      w ← sexec (d_sup d) (LBroker (broker (world s)) (token_ctr (world s)));
      Some (mkDeployment s w (d_grants d ++ net_grants (d_net d) l))
  | DSup (LBroker _ _) => None
  | DSup l =>
      w ← sexec (d_sup d) l;
      Some (mkDeployment (shared w (d_net d)) w (d_grants d ++ sup_grants (d_sup d) l))
  end.

(** Process ids have 32 bits. *)
Definition dobeys (d : Deployment) (l : DLabel) : Prop :=
  match l with
  | DNet l => nobeys handles resolves (d_net d) l
      /\ match l with NBroker (LIssueToken _ pid _) => (pid < U32_SIZE)%N | _ => True end
  | DSup (Supervisor.LStep _ io) => (io_own_pid io < U32_SIZE)%N
  | DSup _ => True
  end.

(** [Supervisor::new] with a fresh broker. *)
Definition dinit (config : BrokerConfig) (endpoint : string) : Deployment :=
  mkDeployment (ninit config) (new_supervisor (Broker.new config) endpoint) [].

Fixpoint drun (d : Deployment) (ls : list DLabel) : option Deployment :=
  match ls with
  | [] => Some d
  | l :: ls => d' ← dexec d l; drun d' ls
  end.

(** [d'] is [n] steps after [d]. *)
Inductive dsteps (d : Deployment) : N -> Deployment -> Prop :=
| dsteps_refl : dsteps d 0 d
| dsteps_step n d' l d'' :
    dsteps d n d' -> dobeys d' l -> dexec d' l = Some d'' -> dsteps d (n + 1) d''.

Definition dreachable (config : BrokerConfig) (endpoint : string) : N -> Deployment -> Prop :=
  dsteps (dinit config endpoint).

(** * Tokens and connections *)

Implicit Types w : World Q.

(** The tokens in the world are granted ones: only the last token granted for
    a service can be pending, no connection has been let in with it, and
    the connections that were let in have used different grants. *)
Record granted (gs : list Grant) w : Prop := {
  ga_ctr : token_ctr w = N.of_nat (length gs);
  ga_made i gr : gs !! i = Some gr -> exists now pid, (pid < U32_SIZE)%N
    /\ gr_token gr = Broker.random_token now pid (N.of_nat i);
  ga_live s t : Broker.tokens (broker w) !! s = Some t ->
    (exists i gr, gs !! i = Some gr /\ gr_service gr = s /\ gr_token gr = t
       /\ forall j gr', i < j -> gs !! j = Some gr' -> gr_service gr' <> s)
    /\ forall c hello, let_in w c hello -> hello.(HelloRequest.auth_token) <> t;
  ga_admitted c hello : let_in w c hello ->
    exists i gr, gs !! i = Some gr /\ gr_service gr = hello.(HelloRequest.service)
      /\ gr_token gr = hello.(HelloRequest.auth_token);
  ga_once c c' hello hello' : let_in w c hello -> let_in w c' hello' ->
    hello.(HelloRequest.auth_token) = hello'.(HelloRequest.auth_token) -> c = c'
}.

Lemma grant_tokens_differ gs w i j gr gr' :
  granted gs w -> (N.of_nat (length gs) < U64_SIZE)%N ->
  gs !! i = Some gr -> gs !! j = Some gr' -> gr_token gr = gr_token gr' -> i = j.
Proof.
  intros Hok Hb Hi Hj Ht.
  destruct (ga_made _ _ Hok _ _ Hi) as (now & pid & Hp & Hg).
  destruct (ga_made _ _ Hok _ _ Hj) as (now' & pid' & Hp' & Hg').
  pose proof (lookup_lt_Some _ _ _ Hi). pose proof (lookup_lt_Some _ _ _ Hj). rewrite Hg, Hg' in Ht.
  apply random_token_injective in Ht as (_ & _ & ?); [lia|done|done|lia|lia].
Qed.

(** A step that issues no token. *)
Lemma exec_ctr w l w' :
  exec parse w l = Some w' -> (forall now pid s, l <> LIssueToken now pid s) -> token_ctr w' = token_ctr w.
Proof.
  intros Hx Hl. unfold exec in Hx. destruct (exec_conn w l) as [w1|] eqn:Hx1; simplify_eq.
  { destruct l as [| | | | | | | |c0| | | | | | | | | | |];
      try (apply exec_session in Hx1; destruct Hx1 as [| | |? ? ? ? ? ? [] ?]; done);
      simpl in Hx1; repeat case_match; simplify_eq; try done;
      unfold spawn_opt, spawn, log_in, log_out in *; simpl; repeat case_match; by simplify_eq. }
  destruct (exec_task parse w l) as [w1|] eqn:Hx2; simplify_eq.
  { destruct l; simpl in Hx2; repeat case_match; by simplify_eq. }
  destruct l; simpl in Hx; simplify_eq; try done; [by destruct (Hl now pid service)|].
  by destruct (shutdown_target _ _).
Qed.

(** What a step does to the connections let in and to the pending tokens. *)
Lemma moves_let_in w l w' :
  moves w l w' -> (forall now pid s, l <> LIssueToken now pid s) ->
  (forall s t, Broker.tokens (broker w') !! s = Some t -> Broker.tokens (broker w) !! s = Some t)
  /\ ((forall c hello, let_in w' c hello -> let_in w c hello)
      \/ exists c0 hello0,
          Broker.tokens (broker w) !! hello0.(HelloRequest.service) = Some hello0.(HelloRequest.auth_token)
          /\ Broker.tokens (broker w') = delete hello0.(HelloRequest.service) (Broker.tokens (broker w))
          /\ forall c hello, let_in w' c hello -> (c = c0 /\ hello = hello0) \/ let_in w c hello).
Proof.
  intros Hm Hl. unfold let_in.
  assert (Hup : forall c pc, conns w' = <[c := pc]> (conns w) ->
    (forall hello, admission pc = Some hello ->
       exists pc', conns w !! c = Some pc' /\ admission pc' = Some hello) ->
    forall c' hello, (exists pc', conns w' !! c' = Some pc' /\ admission pc' = Some hello) ->
      exists pc', conns w !! c' = Some pc' /\ admission pc' = Some hello).
  { intros c pc -> Hpc c' hello (pc' & [[<- <-]|[_ Hc]]%lookup_insert_Some & Hr); eauto. }
  destruct Hm as [Hc _ _ Ht|now pid s t -> _ _ _ _|Hc _ _ Ht|c Hc0 Hc _ _ Ht|c hello wr _ Hc0 _ Htk Hc _ _ Ht
    |c pc pc' _ Hc0 Ha _ _ Hc _ Ht|c hello g id Hc0 Hc _ _ Ht
    |c hello g _ Hc0 Hc _ _ Ht|c hello g _ Hc0 Hc _ _ Ht|c pc hello g Hc0 _ _ Hpc Hc _ _ Ht].
  - rewrite Hc, Ht. split; [done|by left].
  - by destruct (Hl now pid s).
  - rewrite Ht. split; [done|]. left. by eapply Hup.
  - split; [|left; by eapply Hup]. destruct Ht as [->|[s ->]]; [done|]. by intros ? ? [_ ?]%lookup_delete_Some.
  - rewrite Ht. split; [by intros ? ? [_ ?]%lookup_delete_Some|]. right. exists c, hello.
    split; [done|]. split; [done|]. rewrite Hc.
    intros c' hello' (pc' & [[<- <-]|[_ Hc']]%lookup_insert_Some & Hr); [|eauto]. left. by injection Hr as ->.
  - rewrite Ht. split; [done|]. left. eapply Hup; [done|]. rewrite Ha. eauto.
  - rewrite Ht. split; [done|]. left. eapply Hup; [done|]. simpl. eauto.
  - rewrite Ht. split; [done|]. left. eapply Hup; [done|]. simpl. eauto.
  - rewrite Ht. split; [done|]. left. eapply Hup; [done|]. simpl. eauto.
  - rewrite Ht. split; [done|]. left. eapply Hup; [done|]. simpl. intros ? [= <-].
    exists pc. split; [done|]. by eapply registered_admission.
Qed.

Lemma granted_exec gs w l w' :
  granted gs w -> (N.of_nat (length gs) < U64_SIZE)%N -> exec parse w l = Some w' ->
  (forall now pid s, l <> LIssueToken now pid s) -> granted gs w'.
Proof.
  intros Hok Hb Hx Hl. destruct (moves_let_in _ _ _ (exec_moves parse w l w' Hx) Hl) as [Ht Hreg].
  assert (Hfresh : forall s t c hello, Broker.tokens (broker w) !! s = Some t -> let_in w c hello ->
    hello.(HelloRequest.auth_token) <> t) by (intros; by eapply (ga_live _ _ Hok)).
  destruct Hreg as [Hr|(c0 & h0 & Hc0 & Hdel & Hr)].
  - split; [by rewrite (exec_ctr _ _ _ Hx Hl), (ga_ctr _ _ Hok)|apply (ga_made _ _ Hok)| | |].
    + intros s t Hst%Ht. split; [by apply (ga_live _ _ Hok)|]. intros c hello ?%Hr. by eapply Hfresh.
    + intros c hello ?%Hr. by eapply (ga_admitted _ _ Hok).
    + intros c c' hello hello' ?%Hr ?%Hr. by eapply (ga_once _ _ Hok).
  - destruct (ga_live _ _ Hok _ _ Hc0) as [(i & gr & Hi & Hs & Htok & Hlast) _].
    split; [by rewrite (exec_ctr _ _ _ Hx Hl), (ga_ctr _ _ Hok)|apply (ga_made _ _ Hok)| | |].
    + intros s t Hst. split; [by apply (ga_live _ _ Hok), Ht|].
      intros c hello [[-> ->]|Hrg]%Hr; [|by eapply Hfresh, Hrg; apply Ht].
      rewrite Hdel in Hst. apply lookup_delete_Some in Hst as [Hne Hst]. intros Heq.
      destruct (ga_live _ _ Hok _ _ Hst) as [(j & gr' & Hj & Hs' & Htok' & Hlast') _].
      assert (i = j) as -> by (eapply (grant_tokens_differ gs w); try done; congruence).
      congruence.
    + intros c hello [[-> ->]|Hrg]%Hr; [|by eapply (ga_admitted _ _ Hok)]. by exists i, gr.
    + intros c c' hello hello' [[-> ->]|Hrg]%Hr [[-> ->]|Hrg']%Hr Heq; [done| | |].
      * by destruct (Hfresh _ _ _ _ Hc0 Hrg').
      * by destruct (Hfresh _ _ _ _ Hc0 Hrg).
      * by eapply (ga_once _ _ Hok).
Qed.

Lemma granted_issue gs w now pid s b ctr t holder w' :
  granted gs w -> (pid < U32_SIZE)%N -> (N.of_nat (length gs) + 1 < U64_SIZE)%N ->
  Broker.issue_token (broker w) now pid (token_ctr w) s = (b, ctr, t) ->
  broker w' = b -> token_ctr w' = ctr -> conns w' = conns w ->
  granted (gs ++ [mkGrant s t holder]) w'.
Proof.
  intros Hok Hp Hb Hi Hbr Hctr Hc. unfold Broker.issue_token in Hi. cbn [fetch_add1] in Hi.
  rewrite (ga_ctr _ _ Hok) in Hi. injection Hi as Hb' Hctr' Ht.
  assert (Hreg : forall c hello, let_in w' c hello <-> let_in w c hello)
    by (unfold let_in; by rewrite Hc).
  assert (Htk : Broker.tokens (broker w') = <[s := t]> (Broker.tokens (broker w))) by by rewrite Hbr, <-Hb', Ht.
  assert (Hfresh : forall c hello, let_in w c hello -> hello.(HelloRequest.auth_token) <> t).
  { intros c hello (i & gr & Hi & _ & <-)%(ga_admitted _ _ Hok) Heq.
    destruct (ga_made _ _ Hok _ _ Hi) as (now' & pid' & Hp' & Hg). apply lookup_lt_Some in Hi.
    rewrite Hg, <-Ht in Heq. apply random_token_injective in Heq as (_ & _ & ?); [lia|done|done|lia|lia]. }
  split.
  - rewrite Hctr, <-Hctr', length_app, as_u64_small by lia. simpl. lia.
  - intros i gr [Hi|[Hi [? <-]%list_lookup_singleton_Some]]%lookup_app_Some; [by apply (ga_made _ _ Hok)|].
    exists now, pid. split; [done|]. simpl. rewrite <-Ht. f_equal. lia.
  - intros s' t'. rewrite Htk. intros [[<- <-]|[Hne Hs']]%lookup_insert_Some.
    + split; [|intros c hello ?%Hreg; by eapply Hfresh].
      exists (length gs), (mkGrant s t holder). split_and!; [|done|done|].
      * rewrite lookup_app_r, Nat.sub_diag by lia. done.
      * intros j gr' Hj Hl. apply lookup_lt_Some in Hl. rewrite length_app in Hl. simpl in Hl. lia.
    + destruct (ga_live _ _ Hok _ _ Hs') as [(i & gr & Hi & Hs & Hgt & Hlast) Hf].
      split; [|intros c hello ?%Hreg; by eapply Hf].
      exists i, gr. split_and!; [by apply lookup_app_l_Some|done|done|].
      intros j gr' Hj [Hl|[_ Hl]]%lookup_app_Some; [by eapply Hlast|].
      apply list_lookup_singleton_Some in Hl as [_ <-]. done.
  - intros c hello (i & gr & Hi & ? & ?)%Hreg%(ga_admitted _ _ Hok).
    exists i, gr. split; [by apply lookup_app_l_Some|done].
  - intros c c' hello hello' ?%Hreg ?%Hreg. by eapply (ga_once _ _ Hok).
Qed.

(** * The supervisor's side *)

Implicit Types v : Sup.

(** What a step leaves of the fields the deployment shares or records. *)
Record same_launch (v v' : Sup) : Prop := {
  sl_broker : s_broker v' = s_broker v;
  sl_ctr : s_ctr v' = s_ctr v;
  sl_endpoint : s_endpoint v' = s_endpoint v;
  sl_commands : s_commands v' = s_commands v;
  sl_next : (s_next v <= s_next v')%N
}.

(** What [spawn_once] does to them. *)
Record spawned (v : Sup) (st : AppState) (io : Io) (v' : Sup) : Prop := {
  sp_issue : Broker.issue_token (s_broker v) (io_now_ns io) (io_own_pid io) (s_ctr v)
      (a_spec st).(AppSpec.service) = (s_broker v', s_ctr v', spawn_token v st io);
  sp_endpoint : s_endpoint v' = s_endpoint v;
  sp_commands : s_commands v' =
    match io_spawn io with
    | Ok _ => <[s_next v := command (s_endpoint v) (spawn_token v st io) (a_spec st)]> (s_commands v)
    | Err _ => s_commands v
    end;
  sp_next : match io_spawn io with Ok _ => (s_next v < s_next v')%N | Err _ => (s_next v <= s_next v')%N end
}.

Definition launches (v : Sup) (o : option (AppState * Io)) (v' : Sup) : Prop :=
  match o with Some (st, io) => spawned v st io v' | None => same_launch v v' end.

(** Every child was started with a token of its own, granted for its service. *)
Record children_granted (gs : list Grant) (v : Sup) : Prop := {
  cg_command pid cmd : s_commands v !! pid = Some cmd -> (pid < s_next v)%N
    /\ exists i gr spec, gs !! i = Some gr /\ gr_holder gr = ForChild pid
       /\ spec.(AppSpec.service) = gr_service gr /\ cmd = command (s_endpoint v) (gr_token gr) spec;
  cg_child i gr pid : gs !! i = Some gr -> gr_holder gr = ForChild pid -> is_Some (s_commands v !! pid);
  cg_one i j gr gr' pid : gs !! i = Some gr -> gs !! j = Some gr' ->
    gr_holder gr = ForChild pid -> gr_holder gr' = ForChild pid -> i = j
}.

Lemma spawn_once_spawned v io sid st v1 r :
  spawn_once v io sid st = (v1, r) -> spawned v st io v1.
Proof.
  unfold spawn_once. destruct (Broker.issue_token _ _ _ _ _) as [[b ctr] token] eqn:Hi.
  assert (Ht : spawn_token v st io = token) by (unfold spawn_token; by rewrite Hi).
  destruct (io_spawn io) as [[]|e] eqn:Hio; simpl; intros [= <- _]; split; simpl; rewrite ?Hio, ?Ht; try done; lia.
Qed.

Lemma spawned_same v st io v1 v2 :
  spawned v st io v1 -> same_launch v1 v2 -> spawned v st io v2.
Proof.
  intros [Hi He Hc Hn] [Hb Hct He' Hc' Hn']. split; rewrite ?Hb, ?Hct, ?He', ?Hc'; try done.
  destruct (io_spawn io); lia.
Qed.

Lemma launches_same v o v1 v2 : launches v o v1 -> same_launch v1 v2 -> launches v o v2.
Proof.
  destruct o as [[st io]|]; simpl; [apply spawned_same|]. intros [] []. split; try congruence. lia.
Qed.

Lemma start_all_same v : same_launch v (start_all_resident v).
Proof.
  unfold start_all_resident. induction (map_to_list (s_apps v)) as [|[svc sid] l [Hb Hc He Hcm Hn]]; [done|].
  simpl. destruct (s_states _ !! sid) as [st|]; [|done]. destruct (is_resident _); [|done].
  split; simpl; try done. lia.
Qed.

Lemma stop_same v io id svc pc v' pc' : step_stop v io id svc pc = Some (v', pc') -> same_launch v v'.
Proof.
  destruct pc as [|sid|sid pid|]; simpl; [by intros [= <- _]| | |done].
  - intros (st & _ & Hs)%bind_Some. by destruct (a_child st); simplify_eq.
  - intros (st & _ & (s & _ & [= <- _])%bind_Some)%bind_Some. done.
Qed.

Lemma task_launches v io id t v' :
  s_tasks v !! id = Some t -> step_task v io id t = Some v' -> launches v (spawning v (Supervisor.LStep id io)) v'.
Proof.
  intros Ht Hx. simpl. rewrite Ht. simpl. destruct t as [svc pc|spec pc|svc pc|svc pc|r]; [| | | |done].
  - destruct pc as [|sid|sid d|sid|sid pid|sid status|sid d]; simpl in Hx.
    + injection Hx as <-. by destruct (s_apps v !! svc).
    + apply bind_Some in Hx as (st & Ha & Hx). injection Hx as <-. rewrite Ha. simpl.
      destruct (spawn_once v io sid st) as [v1 [[]|e]] eqn:Hs; apply spawn_once_spawned in Hs; [|destruct (Backoff.bump (a_backoff st))];
        by eapply spawned_same.
    + by apply bind_Some in Hx as (st & _ & [= <-]).
    + apply bind_Some in Hx as (st & _ & [= <-]). by destruct (a_child st).
    + by apply bind_Some in Hx as (st & _ & (s & _ & [= <-])%bind_Some).
    + apply bind_Some in Hx as (st & _ & [= <-]). by destruct status.
    + by injection Hx as <-.
  - destruct pc as [|pc| |]; simpl in Hx.
    + by injection Hx as <-.
    + destruct pc; try (apply bind_Some in Hx as ([v1 pc'] & Hs%stop_same & [= <-]); by destruct Hs).
      by injection Hx as <-.
    + by injection Hx as <-.
    + injection Hx as <-. destruct (is_resident spec); split; simpl; try done; lia.
  - destruct pc as [|pc|]; simpl in Hx.
    + by injection Hx as <-.
    + destruct pc; try (apply bind_Some in Hx as ([v1 pc'] & Hs%stop_same & [= <-]); by destruct Hs).
      by injection Hx as <-.
    + by injection Hx as <-.
  - destruct pc as [|sid]; simpl in Hx; [by injection Hx as <-|].
    apply bind_Some in Hx as (st & Ha & Hx). rewrite Ha. simpl. unfold ensure_locked in Hx.
    destruct (a_child st) as [pid|]; [destruct (io_try_wait io); [destruct (s_procs v !! pid) as [[]|]|]|];
      try (by injection Hx as <-);
      destruct (spawn_once v io sid st) as [v1 r] eqn:Hs; apply spawn_once_spawned in Hs; injection Hx as <-;
      by eapply spawned_same.
Qed.

Lemma sexec_launches v l v' :
  sexec v l = Some v' -> (forall b ctr, l <> LBroker b ctr) -> launches v (spawning v l) v'.
Proof.
  intros (v1 & Hx & ->)%fmap_Some Hl. apply (launches_same _ _ v1); [|done].
  destruct l; simpl in Hx; simplify_eq; try (split; simpl; (done || lia)).
  - apply start_all_same.
  - apply bind_Some in Hx as (t & Ht & Hx). by eapply task_launches.
  - unfold exit_proc in Hx. by destruct (s_procs v !! pid) as [[]|]; simplify_eq.
  - by destruct (Hl b ctr).
Qed.

Lemma children_granted_same gs v v' :
  children_granted gs v -> same_launch v v' -> children_granted gs v'.
Proof.
  intros [Hc1 Hc2 Hc3] [_ _ He Hcm Hn]. split; rewrite ?He, ?Hcm; try done.
  intros pid cmd (Hlt & ?)%Hc1. split; [lia|done].
Qed.

(** A token nobody's child gets. *)
Lemma children_granted_other gs v gr :
  children_granted gs v -> (forall pid, gr_holder gr <> ForChild pid) -> children_granted (gs ++ [gr]) v.
Proof.
  intros [Hc1 Hc2 Hc3] Hno.
  assert (Hin : forall i gr' pid, (gs ++ [gr]) !! i = Some gr' -> gr_holder gr' = ForChild pid -> gs !! i = Some gr').
  { intros i gr' pid [?|[_ [_ <-]%list_lookup_singleton_Some]]%lookup_app_Some Hh; [done|]. by destruct (Hno pid). }
  split.
  - intros pid cmd (Hlt & i & gr' & spec & Hi & ?)%Hc1. split; [done|].
    exists i, gr', spec. split; [by apply lookup_app_l_Some|done].
  - intros i gr' pid Hi Hh. eauto.
  - intros i j gr1 gr2 pid Hi Hj Hh1 Hh2. eauto.
Qed.

Lemma children_granted_spawn gs v st io v' :
  children_granted gs v -> spawned v st io v' -> children_granted (gs ++ [spawn_grant v st io]) v'.
Proof.
  intros Hok [_ He Hcm Hn]. unfold spawn_grant. destruct (io_spawn io) as [u|e].
  2: { apply children_granted_other; [|done]. destruct Hok as [Hc1 Hc2 Hc3].
       split; rewrite ?He, ?Hcm; try done. intros pid cmd (Hlt & ?)%Hc1. split; [lia|done]. }
  set (gr := mkGrant _ _ _). destruct Hok as [Hc1 Hc2 Hc3].
  assert (Hold : forall i gr' pid, gs !! i = Some gr' -> gr_holder gr' = ForChild pid -> (pid < s_next v)%N).
  { intros i gr' pid Hi Hh. destruct (Hc2 _ _ _ Hi Hh) as [cmd Hcmd]. by apply (Hc1 _ _ Hcmd). }
  split; rewrite ?He, ?Hcm.
  - intros pid cmd [[<- <-]|[Hne Hc]]%lookup_insert_Some.
    + split; [lia|]. exists (length gs), gr, (a_spec st). split; [|done].
      by rewrite lookup_app_r, Nat.sub_diag by lia.
    + destruct (Hc1 _ _ Hc) as (Hlt & i & gr' & spec & Hi & ?). split; [lia|].
      exists i, gr', spec. split; [by apply lookup_app_l_Some|done].
  - intros i gr' pid [Hi|[_ [_ <-]%list_lookup_singleton_Some]]%lookup_app_Some Hh.
    + pose proof (Hold _ _ _ Hi Hh). rewrite lookup_insert_ne by lia. eauto.
    + injection Hh as <-. rewrite lookup_insert_eq. eauto.
  - intros i j gr1 gr2 pid [Hi|[Hi [Hi' <-]%list_lookup_singleton_Some]]%lookup_app_Some
      [Hj|[Hj [Hj' <-]%list_lookup_singleton_Some]]%lookup_app_Some Hh1 Hh2; [eauto| | |lia].
    + injection Hh2 as <-. pose proof (Hold _ _ _ Hi Hh1). lia.
    + injection Hh1 as <-. pose proof (Hold _ _ _ Hj Hh2). lia.
Qed.

(** * The joint invariant *)

Record deploy_ok (config : BrokerConfig) (endpoint : string) (n : N) (d : Deployment) : Prop := {
  dk_net : exists m, (m <= n)%N /\ nreachable parse dbg handles resolves config m (d_net d);
  dk_sup : sreachable (Broker.new config) endpoint (d_sup d);
  dk_broker : s_broker (d_sup d) = broker (world (d_net d));
  dk_ctr : s_ctr (d_sup d) = token_ctr (world (d_net d));
  dk_grants : granted (d_grants d) (world (d_net d));
  dk_children : children_granted (d_grants d) (d_sup d);
  dk_count : (N.of_nat (length (d_grants d)) <= n)%N;
  dk_endpoint : s_endpoint (d_sup d) = endpoint
}.

(** Seen from the other side, a spawn is a call of [issue_token]. *)
Lemma shared_issue m config d v st io :
  s_broker (d_sup d) = broker (world (d_net d)) -> s_ctr (d_sup d) = token_ctr (world (d_net d)) ->
  nreachable parse dbg handles resolves config m (d_net d) -> spawned (d_sup d) st io v ->
  nreachable parse dbg handles resolves config (m + 1) (shared v (d_net d)).
Proof.
  intros Hb Hc Hn [Hi _ _ _]. rewrite Hb, Hc in Hi.
  eapply (nreachable_step _ _ _ _ _ _ _
    (NBroker (LIssueToken (io_now_ns io) (io_own_pid io) (a_spec st).(AppSpec.service)))); [exact Hn|done|].
  simpl. unfold exec. simpl. unfold shared. unfold Broker.issue_token in Hi. cbn [fetch_add1] in Hi.
  by injection Hi as <- <- _.
Qed.

Lemma shared_same d v :
  s_broker (d_sup d) = broker (world (d_net d)) -> s_ctr (d_sup d) = token_ctr (world (d_net d)) ->
  same_launch (d_sup d) v -> shared v (d_net d) = d_net d.
Proof.
  intros Hb Hc [Hb' Hc' _ _ _]. unfold shared. rewrite Hb', Hc', Hb, Hc.
  by destruct (d_net d) as [[] ?].
Qed.

Lemma dexec_net d l d' :
  dexec d (DNet l) = Some d' ->
  nexec parse dbg (d_net d) l = Some (d_net d')
  /\ sexec (d_sup d) (LBroker (broker (world (d_net d'))) (token_ctr (world (d_net d')))) = Some (d_sup d')
  /\ d_grants d' = d_grants d ++ net_grants (d_net d) l.
Proof. intros Hx. simpl in Hx. apply bind_Some in Hx as (s & Hs & Hx). by injection Hx as <-. Qed.

Lemma dexec_sup d l d' :
  dexec d (DSup l) = Some d' ->
  exists v, sexec (d_sup d) l = Some v /\ (forall b ctr, l <> LBroker b ctr)
    /\ d' = mkDeployment (shared v (d_net d)) v (d_grants d ++ sup_grants (d_sup d) l).
Proof.
  intros Hx. destruct l; try done; cbn [dexec] in Hx;
    (destruct (sexec _ _) as [v|] eqn:Hv; [|done]; injection Hx as <-; by exists v).
Qed.

Lemma deploy_ok_net config endpoint n d l d' :
  deploy_ok config endpoint n d -> (n + 1 < U64_SIZE)%N -> dobeys d (DNet l) -> dexec d (DNet l) = Some d' ->
  deploy_ok config endpoint (n + 1) d'.
Proof.
  intros Hok Hb [Hob Hpid] Hx. simpl in Hx. apply bind_Some in Hx as (s & Hs & Hx).
  injection Hx as <-. set (v := collect _). pose proof (dk_count _ _ _ _ Hok) as Hcount.
  destruct (dk_net _ _ _ _ Hok) as (m & Hm & Hn).
  assert (Hsup : sreachable (Broker.new config) endpoint v) by (by eapply (sreachable_step _ _ _ (LBroker _ _)); [apply Hok|]).
  assert (Hcg : children_granted (d_grants d ++ net_grants (d_net d) l) v).
  { assert (Hc : children_granted (d_grants d) v).
    { by destruct (dk_children _ _ _ _ Hok). }
    destruct l as [[]| | |]; simpl; rewrite ?app_nil_r; try done. by apply children_granted_other. }
  assert (Hgr : granted (d_grants d ++ net_grants (d_net d) l) (world s)).
  { pose proof (dk_grants _ _ _ _ Hok) as Hg.
    assert (Hquiet : forall l', exec parse (world (d_net d)) l' = Some (world s) ->
      (forall now pid svc, l' <> LIssueToken now pid svc) -> granted (d_grants d) (world s))
      by (intros l' Hl' Hne; by eapply granted_exec; [|lia| |]).
    pose proof (nexec_world _ _ _ _ _ Hs) as Hw. destruct l as [l|pid b|c read now|c l]; simpl;
      rewrite ?app_nil_r; [|by eapply Hquiet|by rewrite Hw..].
    destruct l as [ | | | | | | | | | | | | | | | | |now pid svc| | ]; rewrite ?app_nil_r; try (by eapply Hquiet).
    unfold exec in Hw. simpl in Hw. injection Hw as Hw.
    eapply (granted_issue _ _ now pid svc _ _ _ _ _ Hg Hpid); [lia|reflexivity|by rewrite <-Hw..]. }
  split; simpl.
  - exists (m + 1)%N. split; [lia|]. by eapply nreachable_step.
  - done.
  - done.
  - done.
  - done.
  - done.
  - rewrite length_app. assert (length (net_grants (d_net d) l) <= 1) by (by destruct l as [[]| | |]; simpl; lia). lia.
  - apply Hok.
Qed.

Lemma deploy_ok_sup config endpoint n d l d' :
  deploy_ok config endpoint n d -> (n + 1 < U64_SIZE)%N -> dobeys d (DSup l) -> dexec d (DSup l) = Some d' ->
  deploy_ok config endpoint (n + 1) d'.
Proof.
  intros Hok Hb Hob Hx. pose proof (dk_count _ _ _ _ Hok) as Hcount.
  destruct (dk_net _ _ _ _ Hok) as (m & Hm & Hn). pose proof (dk_broker _ _ _ _ Hok) as Hbr.
  pose proof (dk_ctr _ _ _ _ Hok) as Hct.
  apply dexec_sup in Hx as (v & Hv & Hl & ->).
  assert (Hsup : sreachable (Broker.new config) endpoint v) by (eapply sreachable_step; [apply Hok|exact Hv]).
  pose proof (sexec_launches _ _ _ Hv Hl) as Hla. unfold sup_grants.
  destruct (spawning (d_sup d) l) as [[st io]|] eqn:Hsp; simpl in Hla.
  - pose proof (shared_issue m config d v st io Hbr Hct Hn Hla) as Hn'.
    pose proof (sp_issue _ _ _ _ Hla) as Hi. rewrite Hbr, Hct in Hi.
    assert (Hpid : (io_own_pid io < U32_SIZE)%N).
    { unfold spawning in Hsp. destruct l; try done. apply bind_Some in Hsp as (t & _ & Hsp).
      assert (io0 = io) as -> by (repeat (case_match; try done); apply bind_Some in Hsp as (? & _ & ?);
        repeat case_match; by simplify_eq). exact Hob. }
    split; simpl; try done.
    + exists (m + 1)%N. split; [lia|done].
    + eapply (granted_issue _ (world (d_net d)) _ _ _ _ _ _ _ _ (dk_grants _ _ _ _ Hok) Hpid); [lia|exact Hi|done..].
    + apply children_granted_spawn; [apply Hok|done].
    + rewrite length_app. simpl. lia.
    + rewrite (sp_endpoint _ _ _ _ Hla). apply Hok.
  - rewrite app_nil_r. rewrite (shared_same d v Hbr Hct Hla). split; simpl; try done.
    + exists m. split; [lia|done].
    + by rewrite (sl_broker _ _ Hla).
    + by rewrite (sl_ctr _ _ Hla).
    + apply Hok.
    + eapply children_granted_same; [apply Hok|done].
    + lia.
    + rewrite (sl_endpoint _ _ Hla). apply Hok.
Qed.

Lemma dreachable_ok config endpoint n d :
  dreachable config endpoint n d -> (n < U64_SIZE)%N -> deploy_ok config endpoint n d.
Proof.
  induction 1 as [|n d l d' Hr IH Hob Hx]; intros Hb.
  - split; simpl; try done.
    + exists 0%N. split; [done|apply nreachable_init].
    + apply sreachable_init.
    + split; simpl; [done|by intros [|?]|by intros ? ?|by intros c hello (pc & Hc & _)|by intros c c' hello hello' (pc & Hc & _)].
  - specialize (IH ltac:(lia)). destruct l; [by eapply deploy_ok_net|by eapply deploy_ok_sup].
Qed.

Lemma dsteps_trans d n d' n' d'' : dsteps d n d' -> dsteps d' n' d'' -> dsteps d (n + n') d''.
Proof.
  intros Hd. induction 1 as [|n' d1 l d2 Hr IH Hob Hx]; [by rewrite N.add_0_r|].
  rewrite N.add_assoc. by eapply dsteps_step.
Qed.
End launch.
