(* ===== verification/LaunchGuarantees.v ===== *)
(** What the deployment guarantees: every instance is admitted at most once and
    only for its own service, a spent token stays spent, and an app the
    supervisor starts on demand serves the call it was started for. *)

From stdpp Require Import prelude gmap strings.
From S2P Require Import Prelude Frame Runtime Registry Broker Session System Invariant Serving Guarantees Transport ClientConfig Client Net Exchange Supervisor SupervisorSafety SupervisorGuarantees Launch.

Section launch.
Context {Q Nt : Type} `{LawfulMpsc Q BusFrame, LawfulNotify Nt}.
Context (parse : bytes -> result CapabilityResponse string) (dbg : BusFrame -> string).
Context (handles : InvokeHandler -> bytes -> CallerCtx -> result bytes BusError -> Prop).
Context (resolves : LocalServiceHandler -> CallArgs -> result bytes BusError -> Prop).

Abbreviation Deployed := (Deployment (Q := Q) (Nt := Nt)).
Abbreviation reaches := (dreachable parse dbg handles resolves).

(** The token of the [i]th grant is not pending: it was used, it was replaced
    by a later one, or an attempt with another token has used it up. *)
Definition spent (d : Deployed) (i : nat) : Prop :=
  exists gr, d_grants d !! i = Some gr
    /\ Broker.tokens (broker (world (d_net d))) !! gr_service gr <> Some (gr_token gr).


(** The grant a token was made for tells the service that may still use it. *)
Lemma spent_exec gs w l w' i gr :
  granted gs w -> (N.of_nat (length gs) < U64_SIZE)%N -> gs !! i = Some gr ->
  Broker.tokens (broker w) !! gr_service gr <> Some (gr_token gr) ->
  exec parse w l = Some w' -> (forall now pid s, l <> LIssueToken now pid s) ->
  Broker.tokens (broker w') !! gr_service gr <> Some (gr_token gr)
  /\ forall c hello, let_in w' c hello -> hello.(HelloRequest.auth_token) = gr_token gr -> let_in w c hello.
Proof.
  intros Hok Hb Hi Hs Hx Hl.
  destruct (moves_let_in _ _ _ (exec_moves parse w l w' Hx) Hl) as [Ht Hreg].
  split; [by intros Heq%Ht|]. intros c hello Hrg Heq.
  destruct Hreg as [Hr|(c0 & h0 & Hc0 & _ & Hr)]; [by apply Hr|].
  destruct (Hr _ _ Hrg) as [[-> ->]|]; [|done].
  destruct (ga_live _ _ Hok _ _ Hc0) as [(j & gr' & Hj & Hs' & Ht' & _) _].
  assert (j = i) as -> by (eapply (grant_tokens_differ gs w); try done; congruence).
  destruct Hs. congruence.
Qed.

(** Issuing another token. *)
Lemma spent_issue (d d' : Deployed) i gr gr' now pid ctr :
  granted (d_grants d') (world (d_net d')) -> (N.of_nat (length (d_grants d')) < U64_SIZE)%N ->
  d_grants d' = d_grants d ++ [gr'] -> d_grants d !! i = Some gr ->
  Broker.issue_token (broker (world (d_net d))) now pid ctr (gr_service gr')
    = (broker (world (d_net d')), token_ctr (world (d_net d')), gr_token gr') ->
  Broker.tokens (broker (world (d_net d))) !! gr_service gr <> Some (gr_token gr) ->
  Broker.tokens (broker (world (d_net d'))) !! gr_service gr <> Some (gr_token gr).
Proof.
  intros Hg Hb Hgs Hi His Hs Ht. unfold Broker.issue_token in His. cbn [fetch_add1] in His.
  injection His as Hbr _ Htok. rewrite <-Hbr in Ht. simpl in Ht. rewrite Htok in Ht.
  apply lookup_insert_Some in Ht as [[_ Heq]|[_ Ht]]; [|done].
  assert (i = length (d_grants d)).
  { eapply (grant_tokens_differ _ _ i _ gr gr' Hg Hb); [|by rewrite Hgs, lookup_app_r, Nat.sub_diag by lia|done].
    rewrite Hgs. by apply lookup_app_l_Some. }
  apply lookup_lt_Some in Hi. lia.
Qed.

Lemma spent_dexec config endpoint n (d d' : Deployed) l i :
  deploy_ok parse dbg handles resolves config endpoint n d -> (n + 1 < U64_SIZE)%N ->
  dobeys handles resolves d l -> dexec parse dbg d l = Some d' -> spent d i ->
  spent d' i /\ d_grants d' !! i = d_grants d !! i
  /\ forall gr c hello, d_grants d !! i = Some gr -> let_in (world (d_net d')) c hello ->
       hello.(HelloRequest.auth_token) = gr_token gr -> let_in (world (d_net d)) c hello.
Proof.
  intros Hok Hb Hob Hx (gr & Hi & Hs).
  assert (Hok' : deploy_ok parse dbg handles resolves config endpoint (n + 1) d')
    by (destruct l; [by eapply deploy_ok_net|by eapply deploy_ok_sup]).
  pose proof (dk_grants _ _ _ _ _ _ _ _ Hok) as Hg. pose proof (dk_grants _ _ _ _ _ _ _ _ Hok') as Hg'.
  pose proof (dk_count _ _ _ _ _ _ _ _ Hok) as Hc. pose proof (dk_count _ _ _ _ _ _ _ _ Hok') as Hc'.
  assert (Hdone : d_grants d' !! i = Some gr ->
    (Broker.tokens (broker (world (d_net d'))) !! gr_service gr <> Some (gr_token gr)
     /\ forall c hello, let_in (world (d_net d')) c hello ->
          hello.(HelloRequest.auth_token) = gr_token gr -> let_in (world (d_net d)) c hello) ->
    spent d' i /\ d_grants d' !! i = d_grants d !! i
    /\ forall gr c hello, d_grants d !! i = Some gr -> let_in (world (d_net d')) c hello ->
         hello.(HelloRequest.auth_token) = gr_token gr -> let_in (world (d_net d)) c hello).
  { intros Hi' [Hs' Hr']. split; [by exists gr|]. split; [congruence|].
    intros gr0 c hello Hi0. replace gr0 with gr by congruence. apply Hr'. }
  destruct l as [l|l].
  - apply dexec_net in Hx as (Hn & _ & Hgs). apply Hdone; [rewrite Hgs; by apply lookup_app_l_Some|].
    pose proof (nexec_world _ _ _ _ _ Hn) as Hw.
    assert (Hquiet : forall l', exec parse (world (d_net d)) l' = Some (world (d_net d')) ->
      (forall now pid svc, l' <> LIssueToken now pid svc) ->
      Broker.tokens (broker (world (d_net d'))) !! gr_service gr <> Some (gr_token gr)
      /\ forall c hello, let_in (world (d_net d')) c hello ->
          hello.(HelloRequest.auth_token) = gr_token gr -> let_in (world (d_net d)) c hello)
      by (intros; eapply spent_exec; [exact Hg|lia|done..]).
    destruct l as [l|pid b|c read now|c l]; [|by eapply Hquiet|by rewrite Hw..].
    destruct l as [ | | | | | | | | | | | | | | | | |now pid svc| | ]; try (by eapply Hquiet).
    unfold exec in Hw. simpl in Hw. injection Hw as Hw. split.
    + eapply (spent_issue d d' i gr _ now pid); [exact Hg'|lia|exact Hgs|done| |done].
      by rewrite <-Hw.
    + by rewrite <-Hw.
  - apply dexec_sup in Hx as (v & Hv & Hl & Hd'). apply Hdone; [rewrite Hd'; by apply lookup_app_l_Some|].
    split; [|by rewrite Hd']. pose proof (sexec_launches _ _ _ Hv Hl) as Hla. unfold sup_grants in Hd'.
    pose proof (dk_broker _ _ _ _ _ _ _ _ Hok) as Hbr. pose proof (dk_ctr _ _ _ _ _ _ _ _ Hok) as Hct.
    destruct (spawning (d_sup d) l) as [[st io]|]; simpl in Hla.
    + eapply (spent_issue d d' i gr (spawn_grant (d_sup d) st io)); [exact Hg'|lia|by rewrite Hd'|done| |done].
      rewrite Hd'. simpl. rewrite <-Hbr. apply (sp_issue _ _ _ _ Hla).
    + rewrite Hd'. simpl. by rewrite (sl_broker _ _ Hla), Hbr.
Qed.

(** C17: a spent token stays spent. Once the token of a grant is not pending,
    because it was used, because a newer token was issued for the service, or
    because a [Hello] for the service with a wrong token has used it up, no
    connection will ever be let in with it again, in any continuation of the
    run: a connection that is let in with it later on, and so any that is
    registered with it, had been let in before. A slow instance that was
    replaced is refused, and so is an instance whose token somebody else has
    burned. *)
Theorem spent_token_refused config endpoint n m (d d' : Deployed) i gr c hello :
  reaches config endpoint n d -> (n + m < U64_SIZE)%N -> dsteps parse dbg handles resolves d m d' ->
  d_grants d !! i = Some gr ->
  Broker.tokens (broker (world (d_net d))) !! gr_service gr <> Some (gr_token gr) ->
  let_in (world (d_net d')) c hello -> hello.(HelloRequest.auth_token) = gr_token gr ->
  let_in (world (d_net d)) c hello.
Proof.
  intros Hr Hb Hsteps Hi Hs.
  enough (Hgen : spent d' i /\ d_grants d' !! i = d_grants d !! i
    /\ forall c hello, let_in (world (d_net d')) c hello ->
         hello.(HelloRequest.auth_token) = gr_token gr -> let_in (world (d_net d)) c hello)
    by apply Hgen.
  clear c hello. induction Hsteps as [|m d1 l d2 Hst IH Hob Hx]; [by split; [exists gr|]|].
  destruct IH as (Hs1 & Hi1 & Hr1); [lia|]. rewrite N.add_assoc in Hb.
  pose proof (dreachable_ok parse dbg handles resolves config endpoint (n + m) d1
    (dsteps_trans parse dbg handles resolves _ _ _ _ _ Hr Hst) ltac:(lia)) as Hok1.
  destruct (spent_dexec _ _ _ d1 d2 l i Hok1 Hb Hob Hx Hs1) as (Hs2 & Hi2 & Hr2).
  split; [done|]. split; [congruence|]. intros c hello Hrg Heq.
  apply Hr1; [|done]. apply (Hr2 gr); [congruence|done|done].
Qed.

(** ** An app started on demand *)

(** A run of the network is a run of the deployment. *)
Definition issues (l : NLabel) : bool :=
  match l with NBroker (LIssueToken _ _ _) => true | _ => false end.

(** The program the supervisor starts for [spec]: it builds a client from the
    configuration it reads from its environment. *)
Record serves (spec : AppSpec) (app : ClientConfig -> BusClientBuilder) (a : CallArgs)
    (h : InvokeHandler) : Prop := {
  sv_service : a.(CallArgs.service) = spec.(AppSpec.service);
  sv_cfg cfg : (app cfg).(BusClientBuilder.cfg) = cfg;
  sv_hello pid cfg : exists hello, hello_of pid (app cfg) = Ok hello
    /\ hello.(HelloRequest.service) = spec.(AppSpec.service);
  sv_method cfg : admitted (app cfg).(BusClientBuilder.methods) a.(CallArgs.method) a.(CallArgs.caller);
  sv_handler cfg : (app cfg).(BusClientBuilder.handlers) !! a.(CallArgs.method) = Some h
}.

(** No child of the state runs: [ensure_up] has to start one. *)
Definition down (v : Sup) (st : AppState) : Prop :=
  match a_child st with
  | None => True
  | Some pid => exists status, s_procs v !! pid = Some (Exited status)
  end.

(** All states are in use: nothing is collected. *)
Lemma collect_id (v : Sup) :
  (forall sid, is_Some (s_states v !! sid) -> in_use v sid = true) -> collect v = v.
Proof.
  intros Hu. destruct v as [b e ap st pr cm ta ct nx]. unfold collect, unused. simpl in *.
  assert (Hf : filter (fun '(sid, _) => in_use (mkSup b e ap st pr cm ta ct nx) sid = false) st = ∅).
  { apply map_empty. intros sid. apply map_lookup_filter_None. right. intros x Hx.
    rewrite Hu by eauto. done. }
  rewrite Hf, map_to_list_empty. unfold set_states, set_procs. simpl. f_equal.
  apply map_filter_id. intros sid x Hx. apply Hu. eauto.
Qed.

Lemma reachable_used b endpoint v sid :
  sreachable b endpoint v -> is_Some (s_states v !! sid) -> in_use v sid = true.
Proof. intros Hr [st Hst]. by eapply sreachable_used. Qed.

Lemma nmoves_dsteps config endpoint : forall ls n (d : Deployed) s',
  reaches config endpoint n d -> (n + N.of_nat (length ls) < U64_SIZE)%N ->
  forallb (fun l => negb (issues l)) ls = true ->
  nmoves parse dbg handles resolves (d_net d) ls s' ->
  exists d', dsteps parse dbg handles resolves d (N.of_nat (length ls)) d' /\ d_net d' = s'
    /\ exists b ctr, d_sup d' = Supervisor.set_broker b ctr (d_sup d).
Proof.
  induction ls as [|l ls IH]; intros n d s' Hr Hb Hl Hm.
  - inversion Hm; subst. exists d. split; [constructor|]. split; [done|].
    exists (s_broker (d_sup d)), (s_ctr (d_sup d)). by destruct (d_sup d).
  - inversion Hm as [|l0 s1 ls0 s2 Hx Hob Hm' Heq1 Heq2]; subst. simpl in Hl.
    apply andb_true_iff in Hl as [Hl Hls]. simpl length in Hb.
    pose proof (dreachable_ok parse dbg handles resolves config endpoint n d Hr ltac:(lia)) as Hok.
    set (d1 := mkDeployment s1 (Supervisor.set_broker (broker (world s1)) (token_ctr (world s1)) (d_sup d))
      (d_grants d ++ net_grants (d_net d) l)).
    assert (Hd1 : dexec parse dbg d (DNet l) = Some d1).
    { simpl. rewrite Hx. simpl. unfold sexec. simpl. rewrite collect_id; [done|].
      intros sid Hsid. apply (reachable_used _ _ _ sid (dk_sup _ _ _ _ _ _ _ _ Hok) Hsid). }
    assert (Hst : dsteps parse dbg handles resolves d 1 d1).
    { apply (dsteps_step _ _ _ _ d 0 d (DNet l)); [constructor| |exact Hd1]. split; [done|].
      by destruct l as [[]| | |]. }
    destruct (IH (n + 1)%N d1 s') as (d' & Hst' & Hn & b & ctr & Hs);
      [by eapply dsteps_trans|lia|done|exact Hm'|].
    exists d'. split; [|split; [done|exists b, ctr; by rewrite Hs]].
    replace (N.of_nat (length (l :: ls))) with (1 + N.of_nat (length ls))%N by (simpl length; lia).
    by eapply dsteps_trans.
Qed.

(** One step of the supervisor in which nothing is collected. *)
Lemma dsteps_sup config endpoint n (d : Deployed) l v :
  reaches config endpoint n d -> (n < U64_SIZE)%N -> dobeys handles resolves d (DSup l) ->
  (forall b ctr, l <> LBroker b ctr) -> srun_label (d_sup d) l = Some v ->
  (forall sid, is_Some (s_states v !! sid) -> in_use v sid = true) ->
  exists d', dsteps parse dbg handles resolves d 1 d' /\ d_sup d' = v /\ d_net d' = shared v (d_net d).
Proof.
  intros Hr Hb Hob Hl Hx Hu.
  exists (mkDeployment (shared v (d_net d)) v (d_grants d ++ sup_grants (d_sup d) l)).
  split; [|done]. apply (dsteps_step _ _ _ _ d 0 d (DSup l)); [constructor|exact Hob|].
  assert (Hs : sexec (d_sup d) l = Some v) by (unfold sexec; rewrite Hx; simpl; by rewrite collect_id).
  destruct l; cbn [dexec]; rewrite ?Hs; try done. by edestruct Hl.
Qed.

Lemma ensure_locked_down v io sid st :
  down v st -> io_try_wait io = Ok tt -> ensure_locked v io sid st = spawn_once v io sid st.
Proof.
  unfold down, ensure_locked. intros Hd ->. destruct (a_child st); [|done]. by destruct Hd as [? ->].
Qed.

(** The three steps of [ensure_up]. *)
Lemma ensure_run config endpoint n (d : Deployed) sid st io (spec := a_spec st) :
  reaches config endpoint n d -> (n + 3 < U64_SIZE)%N ->
  s_apps (d_sup d) !! spec.(AppSpec.service) = Some sid -> s_states (d_sup d) !! sid = Some st ->
  a_lock st = None -> down (d_sup d) st ->
  io_try_wait io = Ok tt -> io_spawn io = Ok tt -> (io_own_pid io < U32_SIZE)%N ->
  exists d' token eid pid, dsteps parse dbg handles resolves d 3 d'
    /\ s_tasks (d_sup d') !! eid = Some (SReturned (Ok tt))
    /\ s_procs (d_sup d') !! pid = Some Running
    /\ s_commands (d_sup d') !! pid = Some (command endpoint token spec)
    /\ Broker.tokens (broker (world (d_net d'))) !! spec.(AppSpec.service) = Some token
    /\ Broker.local_services (broker (world (d_net d'))) = Broker.local_services (broker (world (d_net d))).
Proof.
  intros Hr Hb Ha Hst Hlk Hd Htw Hsp Hpid. set (svc := spec.(AppSpec.service)) in *.
  pose proof (dreachable_ok parse dbg handles resolves config endpoint n d Hr ltac:(lia)) as Hok.
  pose proof (sreachable_ok _ _ _ (dk_sup _ _ _ _ _ _ _ _ Hok)) as Hso.
  set (v := d_sup d) in *. set (eid := s_next v).
  assert (Hused : forall sid, is_Some (s_states v !! sid) ->
    (exists svc, s_apps v !! svc = Some sid) \/ (exists id t, id <> eid /\ s_tasks v !! id = Some t /\ task_ref t = Some sid)).
  { intros sid0 Hs0. pose proof (reachable_used _ _ v sid0 (dk_sup _ _ _ _ _ _ _ _ Hok) Hs0) as Hu.
    apply in_use_spec in Hu as [?|(id & t & Ht & Hrf)]; [by left|right]. exists id, t. split; [|done].
    intros ->. pose proof (so_tasks v Hso eid ltac:(eauto)). unfold eid in *. lia. }
  set (v1 := spawn_task (SEnsure svc ELookup) v).
  set (v2 := Supervisor.put_task eid (SEnsure svc (ELock sid)) v1).
  destruct (spawn_once v2 io sid st) as [v3' r] eqn:Hs3.
  set (v3 := Supervisor.put_task eid (SReturned r) v3').
  assert (Hkeep : forall v', (forall s, is_Some (s_states v' !! s) -> is_Some (s_states v !! s)) ->
    s_apps v' = s_apps v -> (forall id, id <> eid -> s_tasks v' !! id = s_tasks v !! id) ->
    forall s, is_Some (s_states v' !! s) -> in_use v' s = true).
  { intros v' Hss Hap Htk s Hs%Hss%Hused. apply in_use_spec. rewrite Hap.
    destruct Hs as [?|(id & t & Hne & Ht & Hrf)]; [by left|right]. exists id, t. by rewrite Htk. }
  pose proof (spawn_once_spawned _ _ _ _ _ _ Hs3) as Hspd.
  assert (Hx1 : srun_label v (Supervisor.LEnsure svc) = Some v1) by done.
  assert (Hx2 : srun_label v1 (Supervisor.LStep eid io) = Some v2).
  { simpl. rewrite lookup_insert_eq. simpl. by rewrite Ha. }
  assert (Hx3 : srun_label v2 (Supervisor.LStep eid io) = Some v3).
  { simpl. rewrite lookup_insert_eq. simpl. unfold acquire. simpl. rewrite Hst. simpl. rewrite Hlk. simpl.
    rewrite ensure_locked_down by done. by rewrite Hs3. }
  destruct (dsteps_sup config endpoint n d (Supervisor.LEnsure svc) v1 Hr ltac:(lia) I ltac:(done) Hx1) as (d1 & Hst1 & Hv1 & Hn1).
  { apply Hkeep; [done|done|]. intros id Hne. simpl. by rewrite lookup_insert_ne. }
  pose proof (dsteps_trans parse dbg handles resolves _ _ _ _ _ Hr Hst1) as Hr1. rewrite <-Hv1 in Hx2.
  destruct (dsteps_sup config endpoint _ d1 (Supervisor.LStep eid io) v2 Hr1 ltac:(lia) Hpid ltac:(done) Hx2) as (d2 & Hst2 & Hv2 & Hn2).
  { apply Hkeep; [done|done|]. intros id Hne. simpl. by rewrite !lookup_insert_ne. }
  pose proof (dsteps_trans parse dbg handles resolves _ _ _ _ _ Hr1 Hst2) as Hr2. rewrite <-Hv2 in Hx3.
  unfold spawn_once in Hs3. destruct (Broker.issue_token _ _ _ _ _) as [[b ctr] token] eqn:Hi.
  rewrite Hsp in Hs3. cbn [take_id] in Hs3. injection Hs3 as Hv3 <-.
  destruct (dsteps_sup config endpoint _ d2 (Supervisor.LStep eid io) v3 Hr2 ltac:(lia) Hpid ltac:(done) Hx3) as (d3 & Hst3 & Hv3' & Hn3).
  { apply Hkeep; unfold v3; rewrite <-Hv3; simpl; [|done|].
    - intros s. rewrite lookup_insert_is_Some'. by intros [<-|]; [exists st|].
    - intros id Hne. by rewrite !lookup_insert_ne. }
  exists d3, token, eid, (s_next v2). split_and!.
  - change 3%N with (1 + 1 + 1)%N. eapply dsteps_trans; [eapply dsteps_trans|]; done.
  - rewrite Hv3'. apply lookup_insert_eq.
  - rewrite Hv3'. unfold v3. rewrite <-Hv3. apply lookup_insert_eq.
  - rewrite Hv3'. unfold v3. rewrite <-Hv3. simpl. rewrite lookup_insert_eq.
    pose proof (dk_endpoint _ _ _ _ _ _ _ _ Hok) as He. fold v in He. by rewrite He.
  - rewrite Hn3. unfold v3. rewrite <-Hv3. simpl. unfold Broker.issue_token in Hi. cbn [fetch_add1] in Hi.
    injection Hi as <- _ <-. apply lookup_insert_eq.
  - rewrite Hn3. unfold v3. rewrite <-Hv3. simpl. unfold Broker.issue_token in Hi. cbn [fetch_add1] in Hi.
    injection Hi as <- _ _. simpl. pose proof (dk_broker _ _ _ _ _ _ _ _ Hok) as Hbr. fold v in Hbr. by rewrite Hbr.
Qed.

(** C12: an app started on demand serves the call it was started for. Take any
    reachable state of the deployment and a registered app that is down, whose
    guard is free and whose service the host does not serve itself; let its
    command start, and let the program it runs build a client from its
    environment that declares and handles a method. Then [ensure_up] returns
    [Ok], the child reads the token made for it, its connection is admitted and
    registered, and a call of the host, for that method, with any payload and
    an identity the method accepts, is completed with any value the handler may
    return. *)
Theorem ensured_app_serves config endpoint n (d : Deployed) sid st io pf parent cpid app
    (a : CallArgs) h r (spec := a_spec st) :
  reaches config endpoint n d -> (n + 32 < U64_SIZE)%N ->
  s_apps (d_sup d) !! spec.(AppSpec.service) = Some sid -> s_states (d_sup d) !! sid = Some st ->
  a_lock st = None -> down (d_sup d) st ->
  io_try_wait io = Ok tt -> io_spawn io = Ok tt -> (io_own_pid io < U32_SIZE)%N ->
  (forall k, k ∈ spec.(AppSpec.env).*1 -> k ∉ bus_vars) ->
  Broker.local_services (broker (world (d_net d))) !! spec.(AppSpec.service) = None ->
  serves spec app a h -> handles h a.(CallArgs.payload) a.(CallArgs.caller) r ->
  exists m d' eid pid cmd cfg c hello g id, (m <= 32)%N /\ dsteps parse dbg handles resolves d m d'
    /\ s_tasks (d_sup d') !! eid = Some (SReturned (Ok tt))
    /\ s_procs (d_sup d') !! pid = Some Running /\ s_commands (d_sup d') !! pid = Some cmd
    /\ from_env pf (child_env parent cmd) = Ok cfg /\ hello_of cpid (app cfg) = Ok hello
    /\ conns (world (d_net d')) !! c = Some (SRunning hello g)
    /\ results (world (d_net d')) !! id = Some r.
Proof.
  intros Hr Hb Ha Hst Hlk Hd Htw Hsp Hpid Henv Hl [Hsv Hcfg Hhello Hm Hhd] Hh.
  destruct (ensure_run config endpoint n d sid st io Hr ltac:(lia) Ha Hst Hlk Hd Htw Hsp Hpid)
    as (d3 & token & eid & pid & Hst3 & Htask & Hproc & Hcmd & Htok & Hloc).
  destruct (child_config pf parent endpoint token spec Henv) as (cfg & Hfrom & _ & Hauth & _).
  destruct (Hhello cpid cfg) as (hello & Hho & Hhs). destruct (hello_of_ok _ _ _ Hho) as [_ Hht].
  rewrite Hcfg, Hauth in Hht.
  pose proof (dsteps_trans parse dbg handles resolves _ _ _ _ _ Hr Hst3) as Hr3.
  destruct (dk_net _ _ _ _ _ _ _ _ (dreachable_ok parse dbg handles resolves _ _ _ _ Hr3 ltac:(lia))) as (k & Hk & Hn).
  destruct (exchange_run parse dbg handles resolves config k (d_net d3) cpid (app cfg) hello 0 a h r Hn)
    as (s' & id & reply & g & Hmv & Hres & Hc);
    [lia|done|by rewrite Hhs, Hht|by rewrite Hhs|by rewrite Hloc, Hsv|apply Hm|apply Hhd|done|].
  set (ls := exchange _ _ _ _ _ _ _ _ _) in Hmv. assert (Hlen : length ls = 24) by done.
  destruct (nmoves_dsteps config endpoint ls _ d3 s' Hr3) as (d' & Hst' & Hnet & b & ctr & Hsup);
    [lia|done|exact Hmv|].
  exists (3 + N.of_nat (length ls))%N, d', eid, pid, (command endpoint token spec), cfg,
    (next_id (world (d_net d3))), hello, g, id.
  split; [lia|]. split; [by eapply dsteps_trans|]. rewrite Hsup. simpl. rewrite Hnet. by split_and!.
Qed.
End launch.

(** * A concrete deployment *)

Abbreviation ExampleDeployment := (Deployment (Q := Fifo BusFrame) (Nt := Tickets)).
Definition launch_start : ExampleDeployment := dinit BrokerConfig.default "/run/tokimo/bus.sock".
Definition launch_run (ls : list DLabel) : ExampleDeployment :=
  default launch_start (drun no_capabilities no_debug launch_start ls).

(** The app answers [ping] with [pong]. *)
Definition notes_app (cfg : ClientConfig) : BusClientBuilder :=
  BusClientBuilder.on_invoke "ping" 3%N
    (BusClientBuilder.method ping_decl
       (BusClientBuilder.set_service "notes" "0.1.0" (BusClientBuilder.new cfg))).
Definition notes_cfg : ClientConfig := {|
  ClientConfig.endpoint := Endpoint.UnixSocket "/run/tokimo/bus.sock";
  ClientConfig.auth_token := Broker.random_token (Some 5%N) 7 0;
  ClientConfig.reconnect_max_backoff := Some (duration_from_secs 30);
  ClientConfig.idle_exit := None |}.
Definition notes_hello : HelloRequest := {|
  HelloRequest.protocol := ProtocolVersion.CURRENT; HelloRequest.service := "notes";
  HelloRequest.version := "0.1.0"; HelloRequest.pid := 77;
  HelloRequest.auth_token := Broker.random_token (Some 5%N) 7 0;
  HelloRequest.methods := [ping_decl]; HelloRequest.events := [];
  HelloRequest.data_plane := None |}.

(** [notes] is registered, started by [ensure_up] as child 2, and admitted. *)
Definition registered_script : list DLabel := [DSup (LRegister (notes_spec (Lifecycle.OnDemand 0)))].
Definition admitted_script : list DLabel := registered_script ++
  [DSup (LEnsure "notes"); DSup (Supervisor.LStep 1 sup_io); DSup (Supervisor.LStep 1 sup_io);
   DNet (NConnect 77 (notes_app notes_cfg));
   DNet (NBroker (LHello 0 (Ok (Some (BusFrame.Hello notes_hello))) true))].

Definition may (l : DLabel) : bool :=
  match l with
  | DNet l => pongs_label l
      && match l with NBroker (LIssueToken _ pid _) => bool_decide (pid < U32_SIZE)%N | _ => true end
  | DSup (Supervisor.LStep _ io) => bool_decide (io_own_pid io < U32_SIZE)%N
  | DSup _ => true
  end.

Definition notes_call : CallArgs := {|
  CallArgs.service := "notes"; CallArgs.method := "ping"; CallArgs.payload := bytes_lit "hi";
  CallArgs.caller := user_caller; CallArgs.timeout := duration_from_secs 30 |}.

Definition numbered_script : list DLabel := [DNet (NBroker (LSession 0))].

Lemma may_obeys (d : ExampleDeployment) l : may l = true -> dobeys pongs no_local_answer d l.
Proof.
  destruct l as [l|l]; simpl.
  - intros [Hl Hp]%andb_true_iff. split.
    + destruct l as [[]|?|?|c [| | | | | |id r| | | | | | | | | ]]; try done.
      simpl in *. apply bool_decide_eq_true in Hl. by intros.
    + destruct l as [[]| | |]; try done. by apply bool_decide_eq_true in Hp.
  - intros Hp. destruct l; try done. by apply bool_decide_eq_true in Hp.
Qed.

Lemma drun_steps : forall ls (d d' : ExampleDeployment),
  forallb may ls = true -> drun no_capabilities no_debug d ls = Some d' ->
  dsteps no_capabilities no_debug pongs no_local_answer d (N.of_nat (length ls)) d'.
Proof.
  induction ls as [|l ls IH]; intros d d' Hl Hr; simpl in Hl, Hr.
  - injection Hr as <-. constructor.
  - apply andb_true_iff in Hl as [Hl Hls]. apply bind_Some in Hr as (d1 & Hx & Hr).
    replace (N.of_nat (length (l :: ls))) with (1 + N.of_nat (length ls))%N by (simpl length; lia).
    eapply dsteps_trans; [|by apply IH].
    apply (dsteps_step _ _ _ _ d 0 d l); [constructor|by apply may_obeys|exact Hx].
Qed.

Lemma launch_reachable ls :
  bool_decide (is_Some (drun no_capabilities no_debug launch_start ls)) = true -> forallb may ls = true ->
  dreachable no_capabilities no_debug pongs no_local_answer BrokerConfig.default "/run/tokimo/bus.sock"
    (N.of_nat (length ls)) (launch_run ls).
Proof.
  intros [d Hd]%bool_decide_eq_true_1 Hl. unfold launch_run. rewrite Hd. by apply drun_steps.
Qed.

Lemma notes_admitted : let_in (world (d_net (launch_run admitted_script))) 0 notes_hello.
Proof. exists (SAccepted notes_hello). split; [vm_compute; reflexivity|reflexivity]. Qed.


Lemma spent_token_refused_witness :
  exists d', drun no_capabilities no_debug (launch_run admitted_script) numbered_script = Some d'
    /\ let_in (world (d_net d')) 0 notes_hello
    /\ let_in (world (d_net (launch_run admitted_script))) 0 notes_hello.
Proof.
  destruct (drun no_capabilities no_debug (launch_run admitted_script) numbered_script)
    as [d'|] eqn:Hrun; [|exfalso; vm_compute in Hrun; discriminate Hrun].
  assert (Hc : conns (world (d_net d')) !! 0%N = Some (SNumbered notes_hello 1)).
  { assert (Hx : (fun d => conns (world (d_net d)) !! 0%N)
        <$> drun no_capabilities no_debug (launch_run admitted_script) numbered_script
      = Some (Some (SNumbered notes_hello 1))) by (vm_compute; reflexivity).
    rewrite Hrun in Hx. injection Hx as Hx. exact Hx. }
  assert (Hin : let_in (world (d_net d')) 0 notes_hello)
    by (exists (SNumbered notes_hello 1); split; [exact Hc|reflexivity]).
  exists d'. split; [reflexivity|]. split; [exact Hin|].
  apply (spent_token_refused no_capabilities no_debug pongs no_local_answer _ _ _ 1 (launch_run admitted_script) d' 0
    (mkGrant "notes" (Broker.random_token (Some 5%N) 7 0) (ForChild 2)) 0 notes_hello
    (launch_reachable admitted_script ltac:(vm_compute; reflexivity) ltac:(vm_compute; reflexivity)) eq_refl
    (drun_steps numbered_script _ _ eq_refl Hrun)).
  - vm_compute. reflexivity.
  - vm_compute. discriminate.
  - exact Hin.
  - reflexivity.
Defined.

Lemma notes_serves : serves (notes_spec (Lifecycle.OnDemand 0)) notes_app notes_call 3.
Proof.
  split; try reflexivity.
  - intros pid cfg. eexists. split; reflexivity.
  - intros cfg. exists ping_decl. split; [reflexivity|]. intros _ Hx. discriminate Hx.
Qed.

Lemma ensured_app_serves_witness :
  s_procs (d_sup (launch_run registered_script)) = ∅
  /\ exists m d' id, dsteps no_capabilities no_debug pongs no_local_answer (launch_run registered_script) m d'
       /\ results (world (d_net d')) !! id = Some (Ok (bytes_lit "pong")).
Proof.
  split; [vm_compute; reflexivity|].
  destruct (ensured_app_serves no_capabilities no_debug pongs no_local_answer _ _ _ (launch_run registered_script) 0
    (new_state (notes_spec (Lifecycle.OnDemand 0))) sup_io Platform.Unix (fun _ => None) 77 notes_app notes_call 3
    (Ok (bytes_lit "pong"))
    (launch_reachable registered_script ltac:(vm_compute; reflexivity) ltac:(vm_compute; reflexivity)) eq_refl)
    as (m & d' & eid & pid & cmd & cfg & c & hello & g & id & _ & Hst & _ & _ & _ & _ & _ & _ & Hres);
    [vm_compute; reflexivity|vm_compute; reflexivity|reflexivity|exact I|reflexivity|reflexivity|reflexivity| | | | |].
  - intros k [->|[]%not_elem_of_nil]%elem_of_cons. apply (bool_decide_unpack _). vm_compute. exact I.
  - vm_compute. reflexivity.
  - exact notes_serves.
  - reflexivity.
  - exists m, d', id. split; [exact Hst|exact Hres].
Defined.
