(* ===== verification/Auth.v ===== *)
(** Identity of requests (crates/protocol/src/task_local.rs, crates/auth/src):
    the task-local user id, the Axum extractor and middleware, API tokens,
    the search for the database URL and the connection made with it.

    The HTTP headers, tokio's task-local scope, the database, dotenv files and
    the file system are class parameters. *)

From stdpp Require Import prelude gmap strings.
From S2P Require Import Prelude Frame Runtime Transport ClientConfig Client.

(** * The task-local *)

(** What [USER_ID.try_with] finds: inside a scope the content of its
    [RefCell], outside every scope nothing. *)
Abbreviation Local := (option (option string)).

(** [try_with(..).ok().flatten()]. *)
Definition current_user_id (l : Local) : option string :=
  match l with Some (Some u) => Some u | _ => None end.
Definition set_user_id (user_id : option string) (l : Local) : Local :=
  match l with Some _ => Some user_id | None => None end.

(** Futures, and [LocalKey::scope] of tokio on [USER_ID] with a fresh
    [RefCell] around the value. *)
Class TaskLocal (Fut : Type -> Type) : Type := scope A : option string -> Fut A -> Fut A.
Arguments scope {_ _ _} _ _.

Definition scope_user_id {Fut A} `{TaskLocal Fut} (user_id : option string) (fut : Fut A) : Fut A :=
  scope user_id fut.

(** * HTTP *)

(** [HeaderMap::get] and [HeaderValue::to_str] of the http crate. *)
Class Http (Headers Value : Type) : Type := {
  header_get : Headers -> string -> option Value;
  to_str : Value -> option string
}.

Module TokimoUser.
Record TokimoUser := mk { user_id : string }.
End TokimoUser.
Abbreviation TokimoUser := TokimoUser.TokimoUser.

Section http.
Context {Headers Value : Type} `{Http Headers Value}.

Definition nonempty (s : string) : bool := negb (bool_decide (s = EmptyString)).
(** [unauthorized]: the status and the error of the JSON body. *)
Definition UNAUTHORIZED : N := 401.
Definition unauthorized : N * string :=
  (UNAUTHORIZED, "missing X-Tokimo-User-Id (not authenticated by main server)").

(** [TokimoUser::from_request_parts]. *)
Definition from_request_parts (h : Headers) : result TokimoUser (N * string) :=
  match header_get h "x-tokimo-user-id" ≫= to_str with
  | Some user_id =>
      if nonempty user_id then Ok {| TokimoUser.user_id := user_id |} else Err unauthorized
  | None => Err unauthorized
  end.

(** [auth_middleware]: the rest of the request runs in a scope. *)
Definition auth_middleware {Fut A} `{TaskLocal Fut} (h : Headers) (next : Fut A) : Fut A :=
  let user_id :=
    match header_get h "x-tokimo-user-id" ≫= to_str with
    | Some s => if nonempty s then Some s else None
    | None => None
    end in
  scope_user_id user_id next.

(** The request names its user: a readable, non-empty header. *)
Definition names_user (h : Headers) (u : string) : Prop :=
  u <> EmptyString /\ exists v, header_get h "x-tokimo-user-id" = Some v /\ to_str v = Some u.
End http.

(** * API tokens *)

(** Times are instants, as [DateTime] compares them whatever the offsets. *)
Abbreviation Instant := Z.
Abbreviation Uuid := N.

Module ApiKey.
Record Model := mk {
  id : Uuid; user_id : Uuid; token : string; expires_at : option Instant; last_used_at : option Instant
}.
End ApiKey.

Module VerifiedUser.
Record VerifiedUser := mk { user_id : Uuid; api_key_id : Uuid }.
End VerifiedUser.
Abbreviation VerifiedUser := VerifiedUser.VerifiedUser.

Module AuthError.
Inductive AuthError :=
| MissingDatabaseUrl (msg : string)
| Connect (err : string)
| InvalidToken
| Expired.
End AuthError.
Abbreviation AuthError := AuthError.AuthError.

(** The queries of sea_orm: the row with a token, and the update of
    [last_used_at]. *)
Class Db (D : Type) : Type := {
  find_by_token : D -> string -> result (option ApiKey.Model) string;
  touch : D -> Uuid -> Instant -> D
}.

Section db.
Context {D : Type} `{Db D}.

(** [verify_token]; the second component is the update spawned for later. *)
Definition verify_token (db : D) (now : Instant) (token : string)
    : result VerifiedUser AuthError * option Uuid :=
  match find_by_token db token with
  | Err e => (Err (AuthError.Connect e), None)
  | Ok None => (Err AuthError.InvalidToken, None)
  | Ok (Some row) =>
      if match row.(ApiKey.expires_at) with Some expires => (expires <? now)%Z | None => false end
      then (Err AuthError.Expired, None)
      else (Ok {| VerifiedUser.user_id := row.(ApiKey.user_id); VerifiedUser.api_key_id := row.(ApiKey.id) |},
            Some row.(ApiKey.id))
  end.
(** The spawned task. *)
Definition record_use (db : D) (now : Instant) (spawned : option Uuid) : D :=
  match spawned with Some id => touch db id now | None => db end.
End db.

(** * The database URL *)

Abbreviation Env := (gmap string string).

(** [dotenvy::from_path]. *)
Class Dotenv : Type := from_path : string -> Env -> Env.
(** A dotenv file never changes a variable that is set. *)
Class LawfulDotenv `{Dotenv} : Prop :=
  from_path_keeps p env k v : env !! k = Some v -> from_path p env !! k = Some v.

Section url.
Context `{Dotenv}.

Definition env_path (dir : string) : string := path_join dir ".env".

(** The loop over the directory and its ancestors, [n] turns at most. *)
Fixpoint load_env (n : nat) (exists_ : string -> bool) (dir : option string) (env : Env) : Env :=
  match n, dir with
  | S n, Some d =>
      if exists_ (env_path d) then from_path (env_path d) env
      else load_env n exists_ (path_parent d) env
  | _, _ => env
  end.

Definition no_url : AuthError := AuthError.MissingDatabaseUrl
  "DATABASE_URL not found. Add it to a .env file or set the DATABASE_URL environment variable.".

(** [load_database_url]: the environment it leaves and its result. *)
Definition load_database_url (exists_ : string -> bool) (cwd : option string) (env : Env)
    : Env * result string AuthError :=
  let env := load_env 6 exists_ cwd env in
  (env, ok_or (env !! "DATABASE_URL") no_url).

(** The ancestors of a directory, nearest first, itself included. *)
Fixpoint ancestors (n : nat) (dir : option string) : list string :=
  match n, dir with
  | S n, Some d => d :: ancestors n (path_parent d)
  | _, _ => []
  end.
End url.

(** * The connection *)

Module ConnectOptions.
Record ConnectOptions := mk {
  url : string; sqlx_logging : bool; connect_timeout : Duration; acquire_timeout : Duration
}.
End ConnectOptions.
Abbreviation ConnectOptions := ConnectOptions.ConnectOptions.

(** [sea_orm::Database::connect]: how often it was called is part of [D]. *)
Class Database (S D : Type) : Type := db_connect : S -> ConnectOptions -> result D string * S.

Section connect.
Context `{Dotenv} {S D : Type} `{Database S D}.

(** [connect_db]. *)
Definition connect_db (exists_ : string -> bool) (cwd : option string) (env : Env) (st : S)
    : Env * result D AuthError * S :=
  match load_database_url exists_ cwd env with
  | (env, Err e) => (env, Err e, st)
  | (env, Ok url) =>
      let opts := {| ConnectOptions.url := url; ConnectOptions.sqlx_logging := false;
                     ConnectOptions.connect_timeout := duration_from_secs 5;
                     ConnectOptions.acquire_timeout := duration_from_secs 10 |} in
      let '(r, st) := db_connect st opts in (env, map_err AuthError.Connect r, st)
  end.
End connect.

(** * What the examples run on *)

(** Requests with at most one header, whose value is text or not; a future is
    the list of the users of the scopes it runs in. *)
#[export] Instance one_header : Http (option (string * option string)) (option string) := {|
  header_get h name :=
    match h with Some (n, v) => if decide (n = name) then Some v else None | None => None end;
  to_str v := v |}.
Definition Scopes (A : Type) : Type := list (option string).
#[export] Instance scopes : TaskLocal Scopes := fun _ user fut => user :: fut.

(** A file system with one dotenv file. *)
Definition dotenv_file : Env := {["DATABASE_URL" := "postgres://db/tokimo"]}.
Definition one_file (p : string) (env : Env) : Env :=
  if decide (p = "/srv/.env") then env ∪ dotenv_file else env.
Definition has_file (p : string) : bool := bool_decide (p = "/srv/.env").

(** * Properties *)

Section identity.
Context {Headers Value : Type} `{Http Headers Value}.

Lemma nonempty_spec s : nonempty s = true <-> s <> EmptyString.
Proof. unfold nonempty. by rewrite negb_true_iff, bool_decide_eq_false. Qed.

(** What the two readers of the header make of it. *)
Lemma header_cases (h : Headers) :
  (exists u, header_get h "x-tokimo-user-id" ≫= to_str = Some u /\ nonempty u = true /\ names_user h u)
  \/ ((header_get h "x-tokimo-user-id" ≫= to_str = None
       \/ exists u, header_get h "x-tokimo-user-id" ≫= to_str = Some u /\ nonempty u = false)
      /\ forall u, ~ names_user h u).
Proof.
  unfold names_user. destruct (header_get h "x-tokimo-user-id") as [v|] eqn:Hv; simpl.
  2: { right. split; [by left|]. by intros u (_ & ? & ? & _). }
  destruct (to_str v) as [u|] eqn:Hu.
  2: { right. split; [by left|]. intros u (_ & v' & [= <-] & ?). congruence. }
  destruct (nonempty u) eqn:Hn.
  - left. exists u. apply nonempty_spec in Hn as Hne. eauto 10.
  - right. split; [right; eauto|]. intros u' (Hne & v' & [= <-] & Hu').
    assert (u' = u) as -> by congruence. by apply nonempty_spec in Hne; rewrite Hn in Hne.
Qed.

(** C40: who a request is made for. The extractor yields a user id exactly
    when the request has a header [x-tokimo-user-id] whose value is text and
    not empty, and then it yields that text; every other request is answered
    with status 401 and the error naming the header. The middleware, which
    reads the header on its own, agrees with it on every request: it runs the
    rest of the request in one scope, whose user is that text in the same
    cases and nobody in the others. *)
Theorem request_identity {Fut A} `{TaskLocal Fut} (h : Headers) (next : Fut A) :
  (forall u, from_request_parts h = Ok {| TokimoUser.user_id := u |} <-> names_user h u)
  /\ ((forall u, ~ names_user h u) <->
      from_request_parts h
      = Err (401%N, "missing X-Tokimo-User-Id (not authenticated by main server)"))
  /\ (forall u, names_user h u -> auth_middleware h next = scope (Some u) next)
  /\ ((forall u, ~ names_user h u) -> auth_middleware h next = scope None next).
Proof.
  unfold from_request_parts, auth_middleware.
  destruct (header_cases h) as [(u & -> & -> & Hu)|[Hn Hno]].
  - assert (Hone : forall u', names_user h u' -> u' = u).
    { intros u' (_ & v & Hv & Hs). destruct Hu as (_ & v' & Hv' & Hs'). congruence. }
    split_and!.
    + intros u'. split; [by intros [= <-] | by intros ->%Hone].
    + split; [intros Hno; by destruct (Hno u) | done].
    + by intros u' ->%Hone.
    + intros Hno. by destruct (Hno u).
  - assert (Hu : forall u, ~ names_user h u) by exact Hno.
    destruct Hn as [->|(u0 & -> & ->)]; (split_and!; [|done|intros u Hn; by destruct (Hu u)|done]);
      intros u; (split; [done|intros Hn; by destruct (Hu u)]).
Qed.
End identity.

Section tokens.
Context {D : Type} `{Db D}.

(** What a token gives. A database error, an unknown token and an expired
    one are told apart, in this order, and use no key; a key without expiry,
    or whose expiry is not before the present instant, gives its user and its
    own id, and only then is its last use recorded. *)
Lemma verify_token_outcomes (db : D) (now : Instant) (token : string) :
  let v := verify_token db now token in
  (forall e, find_by_token db token = Err e -> v = (Err (AuthError.Connect e), None))
  /\ (find_by_token db token = Ok None -> v = (Err AuthError.InvalidToken, None))
  /\ (forall row, find_by_token db token = Ok (Some row) ->
      (forall e, row.(ApiKey.expires_at) = Some e -> (e < now)%Z -> v = (Err AuthError.Expired, None))
      /\ ((forall e, row.(ApiKey.expires_at) = Some e -> (now <= e)%Z) ->
          v = (Ok (VerifiedUser.mk row.(ApiKey.user_id) row.(ApiKey.id)), Some row.(ApiKey.id))))
  /\ (forall e, v.1 = Err e -> record_use db now v.2 = db)
  /\ (forall u, v.1 = Ok u -> record_use db now v.2 = touch db u.(VerifiedUser.api_key_id) now).
Proof.
  cbv zeta. unfold verify_token. destruct (find_by_token db token) as [[row|]|e]; split_and!; try done.
  - intros row' [= <-]. destruct (ApiKey.expires_at row) as [e|]; split.
    + intros e' [= <-] Hlt. by rewrite (proj2 (Z.ltb_lt _ _)).
    + intros Hle. by rewrite (proj2 (Z.ltb_ge _ _)) by auto.
    + done.
    + done.
  - intros e. by case_match.
  - intros u. case_match; simpl; [done|]. by intros [= <-].
  - by intros e' [= <-].
Qed.
End tokens.

Section search.
Context `{LawfulDotenv}.

Lemma load_env_spec (exists_ : string -> bool) env n : forall dir,
  load_env n exists_ dir env
  = match find (fun d => exists_ (env_path d)) (ancestors n dir) with
    | Some d => from_path (env_path d) env
    | None => env
    end.
Proof.
  induction n as [|n IH]; intros [d|]; try done. simpl. by destruct (exists_ (env_path d)).
Qed.

(** Where the database URL comes from. The nearest dotenv file among those
    of the current directory and its five next ancestors is read, and no
    other; a variable that is already set wins over the file; without a file
    the environment is what it was, and the URL is missing exactly when the
    variable is unset at the end. *)
Lemma database_url_source (exists_ : string -> bool) (cwd : option string) (env : Env) :
  let '(env', r) := load_database_url exists_ cwd env in
  (forall near d far, ancestors 6 cwd = near ++ d :: far ->
     Forall (fun d => exists_ (env_path d) = false) near -> exists_ (env_path d) = true ->
     env' = from_path (env_path d) env)
  /\ (Forall (fun d => exists_ (env_path d) = false) (ancestors 6 cwd) -> env' = env)
  /\ (forall url, env !! "DATABASE_URL" = Some url -> r = Ok url)
  /\ (r = Err no_url <-> env' !! "DATABASE_URL" = None)
  /\ (length (ancestors 6 cwd) <= 6)%nat.
Proof.
  unfold load_database_url. rewrite load_env_spec. split_and!.
  - intros near d far -> Hn Hd. assert (Hf : find (fun d => exists_ (env_path d)) (near ++ d :: far) = Some d).
    { induction Hn as [|d' near Hd' Hn IH]; simpl; [by rewrite Hd | by rewrite Hd']. }
    by rewrite Hf.
  - intros Hn. assert (Hf : find (fun d => exists_ (env_path d)) (ancestors 6 cwd) = None).
    { induction Hn as [|d' near Hd' Hn IH]; simpl; [done | by rewrite Hd']. }
    by rewrite Hf.
  - intros url Hu. destruct (find _ _) as [d|]; [by rewrite (from_path_keeps _ _ _ _ Hu) | by rewrite Hu].
  - destruct (_ !! _); simpl; split; done.
  - generalize 6. intros n. clear. revert cwd. induction n as [|n IH]; intros [d|]; simpl; [lia..| |lia].
    specialize (IH (path_parent d)). lia.
Qed.
End search.

(** Connecting: without a URL the database is not contacted at all; otherwise
    it is contacted once, at that URL, quietly, within 5 s for the connection
    and 10 s for its pool, and its error is passed on. *)
Lemma connect_db_once `{Dotenv} {S D} `{Database S D} exists_ cwd env (st : S) :
  (connect_db exists_ cwd env st).1.1 = (load_database_url exists_ cwd env).1
  /\ match (load_database_url exists_ cwd env).2 with
     | Err e => (connect_db exists_ cwd env st).1.2 = Err e /\ (connect_db exists_ cwd env st).2 = st
     | Ok url => exists opts r st', opts.(ConnectOptions.url) = url
         /\ opts.(ConnectOptions.sqlx_logging) = false
         /\ as_millis opts.(ConnectOptions.connect_timeout) = 5000%N
         /\ as_millis opts.(ConnectOptions.acquire_timeout) = 10000%N
         /\ db_connect st opts = (r, st')
         /\ (connect_db exists_ cwd env st).2 = st'
         /\ (connect_db exists_ cwd env st).1.2 = map_err AuthError.Connect r
     end.
Proof.
  unfold connect_db. destruct (load_database_url exists_ cwd env) as [env' [url|e]]; simpl; [|done].
  destruct (db_connect st _) as [r st'] eqn:Hd. split; [done|]. by exists (ConnectOptions.mk url false
    (duration_from_secs 5) (duration_from_secs 10)), r, st'.
Qed.

(** * The theorems at work *)

(** A request of [u1] and one with an empty header. *)
Lemma request_identity_witness :
  from_request_parts (Some ("x-tokimo-user-id", Some "u1")) = Ok {| TokimoUser.user_id := "u1" |}
  /\ auth_middleware (Some ("x-tokimo-user-id", Some "u1")) ([] : Scopes unit) = [Some "u1"]
  /\ from_request_parts (Some ("x-tokimo-user-id", Some EmptyString))
     = Err (401%N, "missing X-Tokimo-User-Id (not authenticated by main server)").
Proof.
  assert (Hu : names_user (Some ("x-tokimo-user-id", Some "u1")) "u1").
  { split; [discriminate|]. exists (Some "u1"). split; reflexivity. }
  destruct (request_identity (Some ("x-tokimo-user-id", Some "u1")) ([] : Scopes unit)) as (Hx & _ & Hm & _).
  destruct (request_identity (Some ("x-tokimo-user-id", Some EmptyString)) ([] : Scopes unit)) as (_ & He & _).
  split; [exact (proj2 (Hx "u1") Hu)|]. split; [exact (Hm "u1" Hu)|]. apply He.
  intros u (Hne & v & Hv & Hs). vm_compute in Hv. injection Hv as <-. injection Hs as <-. by apply Hne.
Defined.

Lemma one_file_lawful : @LawfulDotenv one_file.
Proof.
  intros p env k v Hk. unfold from_path, one_file. case_decide; [|done]. by apply lookup_union_Some_l.
Qed.

Lemma database_url_source_witness :
  (load_database_url (H := one_file) has_file (Some "/srv/app") ∅).1 = from_path (Dotenv := one_file) "/srv/.env" ∅
  /\ (load_database_url (H := one_file) has_file (Some "/srv/app") ∅).2 = Ok "postgres://db/tokimo".
Proof.
  split; [|vm_compute; reflexivity].
  pose proof (@database_url_source one_file one_file_lawful has_file (Some "/srv/app") ∅) as Hx.
  destruct (load_database_url has_file (Some "/srv/app") ∅) as [env' r].
  destruct Hx as [Hx _].
  exact (Hx ["/srv/app"] "/srv" ["/"] ltac:(vm_compute; reflexivity) ltac:(repeat constructor) eq_refl).
Defined.
