(* ===== verification/Cli.v ===== *)
(** The command line of apps (crates/cli/src): the help page, credentials and
    the manifest.

    Strings are UTF-8 bytes.  clap's commands and arguments are the classes
    [ClapCommand] and [ClapArg] of the accessors the code calls, the TOML parser
    is the class [Toml]; [to_uppercase] stands for Unicode case mapping. *)

From stdpp Require Import prelude strings.
From Stdlib Require Import Ascii.
From S2P Require Import Prelude.

(** * str *)

(** The number of chars: bytes that do not continue one. *)
Definition is_continuation (c : ascii) : bool :=
  let n := Ascii.N_of_ascii c in bool_decide (128 <= n < 192)%N.
Fixpoint char_count (s : string) : nat :=
  match s with
  | EmptyString => O
  | String c s => (if is_continuation c then 0 else 1) + char_count s
  end.

Fixpoint spaces (n : nat) : string :=
  match n with O => EmptyString | S n => String " "%char (spaces n) end.
(** [{s:<width$}]: padded to [width] chars. *)
Definition pad (width : nat) (s : string) : string := s +:+ spaces (width - char_count s).

Fixpoint strip_suffix (s p : string) : option string :=
  if decide (s = p) then Some EmptyString
  else match s with
       | EmptyString => None
       | String c s => String c <$> strip_suffix s p
       end.

(** The first way to strip a char of [set], given by its encoding. *)
Fixpoint strip_first (strip : string -> string -> option string) (set : list string) (s : string)
    : option string :=
  match set with
  | [] => None
  | p :: set => match strip s p with Some r => Some r | None => strip_first strip set s end
  end.
Fixpoint strip_all (strip : string -> string -> option string) (set : list string) (fuel : nat) (s : string)
    : string :=
  match fuel, strip_first strip set s with
  | S fuel, Some r => strip_all strip set fuel r
  | _, _ => s
  end.
(** [trim_end_matches], [trim_start_matches] of a set of chars. *)
Definition trim_end_matches (set : list string) (s : string) : string :=
  strip_all strip_suffix set (String.length s) s.
Definition trim_start_matches (set : list string) (s : string) : string :=
  strip_all strip_prefix set (String.length s) s.

Definition str_of (codes : list N) : string :=
  String.string_of_list_ascii (Ascii.ascii_of_N <$> codes).
(** The chars with the property White_Space. *)
Definition WHITE_SPACE : list string :=
  ((fun n => str_of [n]) <$> [9; 10; 11; 12; 13; 32]%N)
  ++ [str_of [194; 133]%N; str_of [194; 160]%N; str_of [225; 154; 128]%N]
  ++ ((fun n => str_of [226%N; 128%N; n]) <$> [128; 129; 130; 131; 132; 133; 134; 135; 136; 137; 138; 168; 169; 175]%N)
  ++ [str_of [226; 129; 159]%N; str_of [227; 128; 128]%N].
Definition trim (s : string) : string := trim_end_matches WHITE_SPACE (trim_start_matches WHITE_SPACE s).

(** [s.lines().next().unwrap_or_default()]. *)
Definition newline : ascii := Ascii.ascii_of_N 10.
Definition carriage_return : string := str_of [13%N].
Definition first_line (s : string) : string :=
  match split_once s newline with
  | Some (l, _) => default l (strip_suffix l carriage_return)
  | None => s
  end.

Fixpoint join (sep : string) (parts : list string) : string :=
  match parts with
  | [] => EmptyString
  | [p] => p
  | p :: ps => p +:+ sep +:+ join sep ps
  end.

(** * clap *)

(** clap::ArgAction. *)
Inductive ArgAction :=
| ASet | AAppend | ASetTrue | ASetFalse | ACount | AHelp | AHelpShort | AHelpLong | AVersion.

Class ClapArg (Arg : Type) : Type := {
  arg_id : Arg -> string;
  is_positional : Arg -> bool;
  is_required_set : Arg -> bool;
  is_global_set : Arg -> bool;
  arg_hidden : Arg -> bool;
  (** [get_num_args().map(max_values)]. *)
  max_values : Arg -> option N;
  get_long : Arg -> option string;
  get_value_names : Arg -> option (list string);
  get_help : Arg -> option string;
  get_env : Arg -> option string;
  get_action : Arg -> ArgAction
}.
Class ClapCommand (Cmd Arg : Type) : Type := {
  build : Cmd -> Cmd;
  get_name : Cmd -> string;
  get_long_about : Cmd -> option string;
  get_about : Cmd -> option string;
  get_subcommands : Cmd -> list Cmd;
  get_arguments : Cmd -> list Arg;
  cmd_hidden : Cmd -> bool
}.

(** The marks [trim_trailing_punctuation] strips; the ellipsis is listed twice,
    also by its code. *)
Definition PUNCT : list string :=
  (str_of <$> [[227; 128; 130]; [239; 188; 129]; [239; 188; 159]; [239; 188; 155]; [239; 188; 140];
               [227; 128; 129]; [226; 128; 166]; [226; 128; 166]]%N)
  ++ ["."; "!"; "?"; ";"; ","].

(** The outer loop of [trim_trailing_punctuation]. *)
Fixpoint trim_loop (fuel : nat) (s : string) : string :=
  match fuel, strip_first strip_suffix PUNCT s with
  | S fuel, Some _ => trim_loop fuel (trim_end_matches PUNCT s)
  | _, _ => s
  end.
Definition trim_trailing_punctuation (s : string) : string := trim_loop (String.length s) s.

Section help.
Context {Cmd Arg : Type} `{ClapArg Arg, ClapCommand Cmd Arg}.
Context (to_uppercase : string -> string).

(** [build_leaf_signature]. *)
Definition placeholder (a : Arg) : string :=
  let name := to_uppercase (arg_id a) in
  let p := if is_required_set a then "<" +:+ name +:+ ">" else "[" +:+ name +:+ "]" in
  if match max_values a with Some n => bool_decide (1 < n)%N | None => false end
  then p +:+ "..." else p.
Definition build_leaf_signature (cmd : Cmd) : string :=
  join " " (get_name cmd :: (placeholder <$> filter (fun a => is_positional a = true) (get_arguments cmd))).

(** [collect_direct_children]. *)
Definition shown (sub : Cmd) : bool := negb (cmd_hidden sub || bool_decide (get_name sub = "help")).
Definition description (sub : Cmd) : string :=
  match get_about sub with
  | Some a => trim_trailing_punctuation (trim (first_line a))
  | None => EmptyString
  end.
Definition signature (sub : Cmd) : string :=
  match get_subcommands sub with
  | [] => build_leaf_signature sub
  | _ :: _ => get_name sub
  end.
Definition collect_direct_children (cmd : Cmd) : list (string * string) :=
  foldr (fun sub rows => if shown sub then (signature sub, description sub) :: rows else rows)
    [] (get_subcommands cmd).

(** [is_value_taking], [format_option_left], [format_option_right]. *)
Definition is_value_taking (a : Arg) : bool :=
  match get_action a with
  | ASetTrue | ASetFalse | ACount | AHelp | AVersion => false
  | _ => true
  end.
Definition format_option_left (a : Arg) : string :=
  match get_long a with
  | None => EmptyString
  | Some long =>
      let s := "--" +:+ long in
      if is_value_taking a then
        let placeholder := match get_value_names a ≫= head with
                           | None => to_uppercase (arg_id a)
                           | Some n => to_uppercase n
                           end in
        s +:+ " <" +:+ placeholder +:+ ">"
      else s
  end.
Definition format_option_right (a : Arg) : string :=
  let first_line := match get_help a with Some h => trim (first_line h) | None => EmptyString end in
  match get_env a with
  | Some env => if bool_decide (first_line = EmptyString) then "[env: " +:+ env +:+ "]"
                else first_line +:+ "  [env: " +:+ env +:+ "]"
  | None => first_line
  end.

(** The lines of a table: [max_width] is the greatest length in bytes. *)
Definition max_width (rows : list (string * string)) : nat :=
  foldr (fun r m => String.length r.1 `max` m) 0 rows.
Definition row_line (width : nat) (row : string * string) : string :=
  if bool_decide (row.2 = EmptyString) then "  " +:+ row.1
  else "  " +:+ pad width row.1 +:+ "  " +:+ row.2.
Definition table (title : string) (rows : list (string * string)) : list string :=
  match rows with
  | [] => []
  | _ => title :: (row_line (max_width rows) <$> rows) ++ [EmptyString]
  end.

Definition is_global_option (a : Arg) : bool :=
  is_global_set a && negb (is_positional a) && negb (arg_hidden a)
  && negb (bool_decide (arg_id a = "help")) && negb (bool_decide (arg_id a = "version")).

(** [print_help_unified]: the arguments of its [println!]s. *)
Definition print_help_unified (cmd : Cmd) : list string :=
  let cmd := build cmd in
  let name := get_name cmd in
  let header := match get_long_about cmd with Some t => Some t | None => get_about cmd end in
  match header with Some text => [text; EmptyString] | None => [] end
  ++ ["Usage: " +:+ name +:+ " [OPTIONS] <SUBCOMMAND>"; EmptyString]
  ++ table "Commands:" (collect_direct_children cmd)
  ++ table "Global Options:" ((fun a => (format_option_left a, format_option_right a))
       <$> filter (fun a => is_global_option a = true) (get_arguments cmd))
  ++ ["Run '" +:+ name +:+ " <subcommand> --help' for details on a specific command."].
End help.

(** * Credentials *)

Module TokimoAuthArgs.
Record TokimoAuthArgs := mk { token : option string }.
End TokimoAuthArgs.
Module Credentials.
Record Credentials := mk { token : string }.
End Credentials.

(** [Credentials::resolve]; the error is anyhow's message. *)
Definition missing_token : string :=
  "missing --tokimo-token (or TOKIMO_TOKEN env). Create one in the main server Settings "
  +:+ str_of [226; 134; 146]%N +:+ " API Keys.".
Definition resolve (args : TokimoAuthArgs.TokimoAuthArgs) : result Credentials.Credentials string :=
  match args.(TokimoAuthArgs.token) with
  | Some t => if bool_decide (trim t = EmptyString) then Err missing_token
              else Ok {| Credentials.token := t |}
  | None => Err missing_token
  end.

(** * The manifest *)

Record DatabaseSection := mkDatabase { schema : option string }.
Record RuntimeSection := mkRuntime { ui_dist : option string }.
Record Manifest := mkManifest { m_database : option DatabaseSection; m_runtime : option RuntimeSection }.
(** [toml::from_str] at the type of the manifest. *)
Class Toml : Type := toml_from_str : string -> result Manifest string.

Section manifest.
Context `{Toml}.
Definition parse_app_schema (toml_str : string) : result (option string) string :=
  (let? manifest := toml_from_str toml_str in Ok (m_database manifest ≫= schema))%res.
Definition parse_app_ui_dist (toml_str : string) : result (option string) string :=
  (let? manifest := toml_from_str toml_str in Ok (m_runtime manifest ≫= ui_dist))%res.
End manifest.

(** * A command line to run on *)

Record DemoArg := mkDemoArg {
  d_id : string; d_positional : bool; d_required : bool; d_global : bool; d_max : option N; d_help : option string
}.
Inductive DemoCmd := mkDemoCmd (name : string) (about : option string) (hidden : bool)
  (args : list DemoArg) (subs : list DemoCmd).
#[export] Instance DemoArg_clap : ClapArg DemoArg := {|
  arg_id := d_id; is_positional := d_positional; is_required_set := d_required; is_global_set := d_global;
  arg_hidden _ := false; max_values := d_max; get_long a := Some (d_id a); get_value_names _ := None;
  get_help := d_help; get_env _ := None; get_action _ := ASet |}.
#[export] Instance DemoCmd_clap : ClapCommand DemoCmd DemoArg := {|
  build c := c; get_name '(mkDemoCmd n _ _ _ _) := n; get_long_about _ := None;
  get_about '(mkDemoCmd _ a _ _ _) := a; get_subcommands '(mkDemoCmd _ _ _ _ s) := s;
  get_arguments '(mkDemoCmd _ _ _ a _) := a; cmd_hidden '(mkDemoCmd _ _ h _ _) := h |}.
Definition ascii_upper (c : ascii) : ascii :=
  let n := Ascii.N_of_ascii c in if bool_decide (97 <= n < 123)%N then Ascii.ascii_of_N (n - 32) else c.
Definition upper (s : string) : string :=
  String.string_of_list_ascii (ascii_upper <$> String.list_ascii_of_string s).
Definition demo : DemoCmd :=
  mkDemoCmd "bus" (Some "Bus tools") false [mkDemoArg "config" false false true None (Some "Config file path")]
    [mkDemoCmd "items" (Some "Item management.") false []
       [mkDemoCmd "list" (Some "List items") false [] []];
     mkDemoCmd "copy" (Some "Copy files!?") false
       [mkDemoArg "src" true true false None None; mkDemoArg "dest" true false false (Some 9%N) None] [];
     mkDemoCmd "internal" None true [] []; mkDemoCmd "help" None false [] []].

Fixpoint concat_strings (ps : list string) : string :=
  match ps with [] => EmptyString | p :: ps => p +:+ concat_strings ps end.

Definition nonempty_chars (set : list string) : Prop := Forall (fun p => p <> EmptyString) set.

(** * Properties *)

(** ** Trimming *)

Lemma string_app_assoc (a b c : string) : a +:+ (b +:+ c) = (a +:+ b) +:+ c.
Proof. induction a as [|x a IH]; [done|]. simpl. by f_equal. Qed.
Lemma string_app_nil (a : string) : a +:+ EmptyString = a.
Proof. induction a as [|x a IH]; [done|]. simpl. by f_equal. Qed.

Lemma strip_suffix_spec p : forall s r, strip_suffix s p = Some r <-> s = r +:+ p.
Proof.
  induction s as [|c s IH]; intros r; cbn [strip_suffix]; case_decide as Hs.
  - subst p. split; [by intros [= <-]|]. by destruct r.
  - split; [done|]. intros Hr. destruct r as [|x r]; simpl in Hr; congruence.
  - subst p. split; [by intros [= <-]|]. intros Hr. apply (f_equal String.length) in Hr as Hl.
    rewrite string_length_app in Hl. destruct r; [done|]. simpl in Hl. lia.
  - split.
    + intros (r' & Hr & ->)%fmap_Some. apply IH in Hr. simpl. by f_equal.
    + destruct r as [|x r]; simpl; [by intros <-|]. intros [= <- Hr].
      by rewrite (proj2 (IH r) Hr).
Qed.

Lemma concat_strings_app l p : concat_strings (l ++ [p]) = concat_strings l +:+ p.
Proof.
  induction l as [|q l IH]; simpl; [by rewrite string_app_nil|]. by rewrite IH, string_app_assoc.
Qed.

Lemma strip_first_Some set s r :
  strip_first strip_suffix set s = Some r -> exists p, p ∈ set /\ s = r +:+ p.
Proof.
  induction set as [|p set IH]; simpl; [done|]. destruct (strip_suffix s p) as [r'|] eqn:Hp.
  - intros [= <-]. exists p. split; [by left | by apply strip_suffix_spec].
  - intros (q & Hq & ->)%IH. exists q. split; [by right | done].
Qed.
Lemma strip_first_None set s :
  strip_first strip_suffix set s = None <-> forall p r, p ∈ set -> s <> r +:+ p.
Proof.
  induction set as [|p set IH]; simpl; [split; [intros _ p r Hp; by apply not_elem_of_nil in Hp | done]|].
  destruct (strip_suffix s p) as [r'|] eqn:Hp.
  - split; [done|]. intros Hx. destruct (Hx p r'); [by left|]. by apply strip_suffix_spec.
  - rewrite IH. split; [|intros Hx q r Hq; apply Hx; by right].
    intros Hx q r [->|Hq]%elem_of_cons; [|by apply Hx]. intros Hs%strip_suffix_spec. congruence.
Qed.

Lemma strip_all_spec set : nonempty_chars set -> forall fuel s,
  (String.length s <= fuel)%nat ->
  strip_first strip_suffix set (strip_all strip_suffix set fuel s) = None
  /\ exists tail, Forall (fun p => p ∈ set) tail
     /\ s = strip_all strip_suffix set fuel s +:+ concat_strings tail.
Proof.
  intros Hne. induction fuel as [|fuel IH]; intros s Hl; cbn [strip_all].
  - split; [|exists []; by rewrite string_app_nil]. apply strip_first_None. intros p r Hp ->.
    pose proof (proj1 (Forall_forall _ _) Hne p Hp) as Hpe. rewrite string_length_app in Hl.
    destruct p; [done|]. simpl in Hl. lia.
  - destruct (strip_first strip_suffix set s) as [r|] eqn:Hs.
    2: { split; [done|]. exists []. by rewrite string_app_nil. }
    apply strip_first_Some in Hs as (p & Hp & ->).
    pose proof (proj1 (Forall_forall _ _) Hne p Hp) as Hpe. rewrite string_length_app in Hl.
    destruct (IH r) as (Hn & tail & Ht & Hr); [destruct p; [done|]; simpl in Hl; lia|].
    split; [done|]. exists (tail ++ [p]). split; [by apply Forall_app_2; [|constructor]|].
    rewrite concat_strings_app, string_app_assoc. by rewrite <-Hr.
Qed.

Lemma PUNCT_nonempty : nonempty_chars PUNCT.
Proof. by repeat constructor. Qed.

Lemma trim_end_fixed s :
  strip_first strip_suffix PUNCT s = None -> trim_end_matches PUNCT s = s /\ forall fuel, trim_loop fuel s = s.
Proof.
  intros Hs. split; [|intros fuel; destruct fuel; cbn [trim_loop]; by rewrite ?Hs].
  unfold trim_end_matches. destruct (String.length s); cbn [strip_all]; by rewrite ?Hs.
Qed.

Lemma trim_loop_once s :
  strip_first strip_suffix PUNCT (trim_end_matches PUNCT s) = None ->
  trim_trailing_punctuation s = trim_end_matches PUNCT s.
Proof.
  intros Hn. unfold trim_trailing_punctuation. destruct (strip_first strip_suffix PUNCT s) as [r|] eqn:Hs.
  - destruct s as [|c s]; [by vm_compute in Hs|]. cbn [trim_loop String.length]. rewrite Hs.
    by apply trim_end_fixed.
  - destruct (trim_end_fixed s Hs) as [-> ->]. done.
Qed.

(** Descriptions lose exactly their final punctuation. The result of
    [trim_trailing_punctuation] does not end with one of the marks, and the
    text is the result followed by marks only; its outer loop turns at most
    once, the function is [trim_end_matches]. *)
Lemma trim_trailing_punctuation_spec s :
  let r := trim_trailing_punctuation s in
  (forall p r', p ∈ PUNCT -> r <> r' +:+ p)
  /\ (exists tail, Forall (fun p => p ∈ PUNCT) tail /\ s = r +:+ concat_strings tail)
  /\ r = trim_end_matches PUNCT s.
Proof.
  cbv zeta. destruct (strip_all_spec PUNCT PUNCT_nonempty (String.length s) s ltac:(done)) as (Hn & Ht).
  rewrite trim_loop_once by done.
  split_and!; [|done|done]. intros p r' Hp. by apply (proj1 (strip_first_None _ _) Hn).
Qed.

(** ** Tables *)

Lemma char_count_le s : (char_count s <= String.length s)%nat.
Proof. induction s as [|c s IH]; simpl; [lia|]. destruct (is_continuation c); lia. Qed.
Lemma char_count_app a b : char_count (a +:+ b) = char_count a + char_count b.
Proof. induction a as [|c a IH]; simpl; lia. Qed.
Lemma char_count_spaces n : char_count (spaces n) = n.
Proof. induction n as [|n IH]; simpl; [done|]. by rewrite IH. Qed.

Lemma max_width_ge rows row : row ∈ rows -> (String.length row.1 <= max_width rows)%nat.
Proof.
  induction rows as [|r rows IH]; [by intros ?%not_elem_of_nil|]. simpl.
  intros [->|Hin]%elem_of_cons; [lia|]. specialize (IH Hin). lia.
Qed.

Section layout.
Context {Cmd Arg : Type} `{ClapArg Arg, ClapCommand Cmd Arg}.
Context (to_uppercase : string -> string).

(** The command table. The rows are the subcommands that are neither hidden
    nor called help, in order; a subcommand with subcommands shows its name
    only; and every row is printed with its signature after two blanks and its
    description, if any, in the same column for all rows, counted in chars
    although the width is computed in bytes. *)
Lemma command_table cmd :
  let rows := collect_direct_children to_uppercase cmd in
  rows = (fun sub => (signature to_uppercase sub, description sub))
           <$> filter (fun sub => shown sub = true) (get_subcommands cmd)
  /\ (forall sub s subs, get_subcommands sub = s :: subs -> signature to_uppercase sub = get_name sub)
  /\ (rows = [] -> table "Commands:" rows = [])
  /\ (rows <> [] -> table "Commands:" rows
        = "Commands:" :: (row_line (max_width rows) <$> rows) ++ [EmptyString])
  /\ forall row, row ∈ rows ->
       (row.2 = EmptyString -> row_line (max_width rows) row = "  " +:+ row.1)
       /\ (row.2 <> EmptyString -> exists left blanks,
             row_line (max_width rows) row = left +:+ row.2
             /\ left = "  " +:+ row.1 +:+ spaces blanks
             /\ char_count left = 4 + max_width rows).
Proof.
  cbv zeta. split_and!.
  - unfold collect_direct_children. induction (get_subcommands cmd) as [|sub subs IH]; [done|].
    simpl. rewrite filter_cons, IH. by destruct (shown sub).
  - intros sub s subs Hs. unfold signature. by rewrite Hs.
  - by intros ->.
  - by destruct (collect_direct_children _ _).
  - intros row Hin%max_width_ge. unfold row_line. split; intros Hd.
    + by rewrite bool_decide_eq_true_2.
    + rewrite bool_decide_eq_false_2 by done. pose proof (char_count_le row.1) as Hc.
      set (w := max_width _) in *. exists ("  " +:+ pad w row.1 +:+ "  "), (w - char_count row.1 + 2).
      assert (Hsp : forall n, spaces n +:+ "  " = spaces (n + 2))
        by (induction n as [|n IH]; [done|]; simpl; by f_equal).
      unfold pad. split_and!.
      * by rewrite <-!string_app_assoc.
      * by rewrite <-!string_app_assoc, Hsp.
      * rewrite !char_count_app, char_count_spaces. simpl. lia.
Qed.
End layout.

(** Credentials. A token is taken as it is when it has a character that is
    not white space; otherwise, or without a token, the command fails. *)
Lemma resolve_outcomes (args : TokimoAuthArgs.TokimoAuthArgs) :
  (forall t, resolve args = Ok (Credentials.mk t) <->
     args.(TokimoAuthArgs.token) = Some t /\ trim t <> EmptyString)
  /\ (resolve args = Err missing_token <->
     forall t, args.(TokimoAuthArgs.token) = Some t -> trim t = EmptyString).
Proof.
  unfold resolve. destruct (TokimoAuthArgs.token args) as [t|]; [|naive_solver].
  case_bool_decide; naive_solver.
Qed.

(** The page of the demo command. *)
Example demo_page : print_help_unified (Arg := DemoArg) upper demo =
  ["Bus tools"; EmptyString; "Usage: bus [OPTIONS] <SUBCOMMAND>"; EmptyString;
   "Commands:"; "  items                 Item management"; "  copy <SRC> [DEST]...  Copy files"; EmptyString;
   "Global Options:"; "  --config <CONFIG>  Config file path"; EmptyString;
   "Run 'bus <subcommand> --help' for details on a specific command."].
Proof. vm_compute. reflexivity. Qed.
